(** * Markdown table scripts of awesome-shadcn-ui: a shallow embedding

    The scripts under [scripts/] read README.md, split it into lines, find
    the pipe tables, edit them (add a column, split a column, fill in star
    counts, sort the rows) and write the lines back.  This file embeds the
    table logic of those scripts and proves properties of it.

    Conventions of the embedding.
    - A JavaScript string is a [string]: a sequence of 8-bit characters that
      stand for the code units of the JavaScript string.  Text whose code
      units are all below 256 is covered; the white space of [trim] and of
      the regular expression class [\s] is, in that range, the characters
      9 to 13, 32 and 160.
    - A JavaScript number is an IEEE 754 binary64 value, taken from the
      specification of floating-point arithmetic of the standard library
      ([spec_float], with precision 53 and maximal exponent 1024).
    - The document is the list of its lines; [lines[i] = v] is the list
      update [<[i:=v]>].  The file on disk holds [lines.join('\n')].
    - A column index is an integer, with [-1] for "not found", as
      [findIndex] returns it. *)

From Stdlib Require Import ZArith String Ascii List Lia SpecFloat Sorted Permutation.
From stdpp Require Import base list strings gmap.

Local Open Scope Z_scope.

(** ** Strings *)

Module Js.

Definition isWhiteSpace (c : ascii) : bool :=
  let n := N_of_ascii c in
  ((9 <=? n) && (n <=? 13) || (n =? 32) || (n =? 160))%N.

Definition isDigit (c : ascii) : bool :=
  let n := N_of_ascii c in ((48 <=? n) && (n <=? 57))%N.

Fixpoint trimStart (s : string) : string :=
  match s with
  | EmptyString => EmptyString
  | String c r => if isWhiteSpace c then trimStart r else s
  end.

Fixpoint trimEnd (s : string) : string :=
  match s with
  | EmptyString => EmptyString
  | String c r =>
      let r' := trimEnd r in
      if isWhiteSpace c && String.eqb r' EmptyString then EmptyString
      else String c r'
  end.

(** [s.trim()] *)
Definition trim (s : string) : string := trimEnd (trimStart s).

(** [s.startsWith(p)] *)
Fixpoint startsWith (s p : string) {struct p} : bool :=
  match p, s with
  | EmptyString, _ => true
  | String a p', String b s' => Ascii.eqb a b && startsWith s' p'
  | String _ _, EmptyString => false
  end.

(** [s.endsWith(p)] *)
Fixpoint endsWith (s p : string) : bool :=
  String.eqb s p ||
  match s with
  | EmptyString => false
  | String _ r => endsWith r p
  end.

Definition lowerChar (c : ascii) : ascii :=
  let n := N_of_ascii c in
  if ((65 <=? n) && (n <=? 90) ||
      (192 <=? n) && (n <=? 222) && negb (n =? 215))%N
  then ascii_of_N (n + 32) else c.

(** [s.toLowerCase()] *)
Fixpoint toLowerCase (s : string) : string :=
  match s with
  | EmptyString => EmptyString
  | String c r => String (lowerChar c) (toLowerCase r)
  end.

(** [s.split(sep)] for a separator of one character. *)
Fixpoint split (sep : ascii) (s : string) : list string :=
  match s with
  | EmptyString => [EmptyString]
  | String c r =>
      if Ascii.eqb c sep then EmptyString :: split sep r
      else match split sep r with
           | [] => [String c EmptyString]
           | hd :: tl => String c hd :: tl
           end
  end.

(** [parts.join(sep)] *)
Fixpoint join (sep : string) (parts : list string) : string :=
  match parts with
  | [] => EmptyString
  | [x] => x
  | x :: rest => x +:+ sep +:+ join sep rest
  end.

(** [s.replace(/c/g, '')] for one character [c]. *)
Fixpoint removeChar (c : ascii) (s : string) : string :=
  match s with
  | EmptyString => EmptyString
  | String a r => if Ascii.eqb a c then removeChar c r else String a (removeChar c r)
  end.

(** The longest prefix of [s] whose characters satisfy [p], and the rest. *)
Fixpoint span (p : ascii -> bool) (s : string) : string * string :=
  match s with
  | EmptyString => (EmptyString, EmptyString)
  | String c r =>
      if p c then let '(a, b) := span p r in (String c a, b)
      else (EmptyString, s)
  end.

Fixpoint contains (c : ascii) (s : string) : bool :=
  match s with
  | EmptyString => false
  | String a r => Ascii.eqb a c || contains c r
  end.

(** [arr.findIndex(pred)], [-1] when no element satisfies [pred]. *)
Fixpoint findIndex {A} (pred : A -> bool) (l : list A) : Z :=
  match l with
  | [] => -1
  | x :: r => if pred x then 0
              else let k := findIndex pred r in
                   if k =? -1 then -1 else k + 1
  end.

(** [arr[i]]: [None] stands for [undefined]. *)
Definition at_ {A} (l : list A) (i : Z) : option A :=
  if i <? 0 then None else l !! Z.to_nat i.

(** [arr.splice(start, 0, x)]: a negative [start] counts from the end, and
    a [start] beyond the end appends. *)
Definition splice {A} (start : Z) (x : A) (l : list A) : list A :=
  let len := Z.of_nat (length l) in
  let k := if start <? 0 then Z.max (len + start) 0 else Z.min start len in
  take (Z.to_nat k) l ++ x :: drop (Z.to_nat k) l.

(** [while (parts.length <= n) parts.push(x)] *)
Definition padTo {A} (n : Z) (x : A) (l : list A) : list A :=
  l ++ replicate (Z.to_nat (n + 1) - length l)%nat x.

(** [arr[i] = x] for an index inside the array. *)
Definition setAt {A} (i : Z) (x : A) (l : list A) : list A :=
  if i <? 0 then l else <[Z.to_nat i := x]> l.

End Js.

(** ** Numbers *)

Module Num.

Definition prec : Z := 53.
Definition emax : Z := 1024.

Abbreviation number := spec_float.

Definition ofZ (n : Z) : number := binary_normalize prec emax n 0 false.

(** [Number.isNaN], [Number.isFinite] *)
Definition isNaN (x : number) : bool :=
  match x with S754_nan => true | _ => false end.

Definition isFinite (x : number) : bool :=
  match x with S754_zero _ | S754_finite _ _ _ => true | _ => false end.

Definition mul (x y : number) : number := SFmul prec emax x y.

(** The double nearest to [m * 10^e10] (ties to even), with the sign
    [neg]; a decimal numeral denotes this value. *)
Definition decimalValue (neg : bool) (m : N) (e10 : Z) : number :=
  match m with
  | N0 => S754_zero neg
  | Npos p =>
      if 0 <=? e10 then binary_round prec emax neg (p * Z.to_pos (10 ^ e10)) 0
      else SFdiv prec emax (S754_finite neg p 0)
                           (S754_finite false (Z.to_pos (10 ^ (- e10))) 0)
  end.

Definition digitValue (c : ascii) : N := (N_of_ascii c - 48)%N.

(** The value of a string of digits in base [base]. *)
Definition digitsValueFrom (base : N) (val : ascii -> N) (acc : N) (s : string) : N :=
  fold_left (fun a c => (a * base + val c)%N) (list_ascii_of_string s) acc.

Definition digitsValue (s : string) : N := digitsValueFrom 10 digitValue 0 s.

(** [ExponentPart] at the head of [s], if there is a complete one: its
    value and what follows it. *)
Definition scanExponent (s : string) : Z * string :=
  match s with
  | String c r =>
      if (Ascii.eqb c "e" || Ascii.eqb c "E")%char then
        let '(neg, r1) :=
          match r with
          | String "-" r' => (true, r')
          | String "+" r' => (false, r')
          | _ => (false, r)
          end in
        let '(ds, r2) := Js.span Js.isDigit r1 in
        if String.eqb ds EmptyString then (0, s)
        else let v := Z.of_N (digitsValue ds) in ((if neg then - v else v), r2)
      else (0, s)
  | EmptyString => (0, s)
  end.

(** The longest [StrUnsignedDecimalLiteral] that is a prefix of [s], apart
    from [Infinity]: its value with sign [neg], and the rest of [s]. *)
Definition scanUnsignedDecimal (neg : bool) (s : string) : option (number * string) :=
  let '(ip, r1) := Js.span Js.isDigit s in
  match r1 with
  | String "." r2 =>
      let '(fp, r3) := Js.span Js.isDigit r2 in
      if String.eqb ip EmptyString && String.eqb fp EmptyString then None
      else
        let '(e, r4) := scanExponent r3 in
        Some (decimalValue neg (digitsValue (ip +:+ fp))
                (e - Z.of_nat (String.length fp)), r4)
  | _ =>
      if String.eqb ip EmptyString then None
      else let '(e, r4) := scanExponent r1 in
           Some (decimalValue neg (digitsValue ip) e, r4)
  end.

(** The longest [StrDecimalLiteral] that is a prefix of [s]. *)
Definition scanDecimal (s : string) : option (number * string) :=
  let '(neg, r) :=
    match s with
    | String "-" r' => (true, r')
    | String "+" r' => (false, r')
    | _ => (false, s)
    end in
  if Js.startsWith r "Infinity"
  then Some (S754_infinity neg, string_of_list_ascii (drop 8 (list_ascii_of_string r)))
  else scanUnsignedDecimal neg r.

(** [parseFloat(s)] *)
Definition parseFloat (s : string) : number :=
  match scanDecimal (Js.trimStart s) with
  | Some (v, _) => v
  | None => S754_nan
  end.

Definition hexValue (c : ascii) : N :=
  let n := N_of_ascii c in
  (if Js.isDigit c then n - 48
   else if (97 <=? n) && (n <=? 102) then n - 87
   else n - 55)%N.

Definition isHexDigit (c : ascii) : bool :=
  let n := N_of_ascii c in
  (Js.isDigit c || (97 <=? n) && (n <=? 102) || (65 <=? n) && (n <=? 70))%N.

Definition isOctalDigit (c : ascii) : bool :=
  let n := N_of_ascii c in ((48 <=? n) && (n <=? 55))%N.

Definition isBinaryDigit (c : ascii) : bool :=
  let n := N_of_ascii c in ((48 <=? n) && (n <=? 49))%N.

Definition allChars (p : ascii -> bool) (s : string) : bool :=
  forallb p (list_ascii_of_string s).

(** A [NonDecimalIntegerLiteral] that is the whole of [s]. *)
Definition nonDecimalLiteral (s : string) : option number :=
  match s with
  | String "0" (String c ds) =>
      if String.eqb ds EmptyString then None
      else if (Ascii.eqb c "x" || Ascii.eqb c "X")%char then
        if allChars isHexDigit ds
        then Some (ofZ (Z.of_N (digitsValueFrom 16 hexValue 0 ds))) else None
      else if (Ascii.eqb c "o" || Ascii.eqb c "O")%char then
        if allChars isOctalDigit ds
        then Some (ofZ (Z.of_N (digitsValueFrom 8 digitValue 0 ds))) else None
      else if (Ascii.eqb c "b" || Ascii.eqb c "B")%char then
        if allChars isBinaryDigit ds
        then Some (ofZ (Z.of_N (digitsValueFrom 2 digitValue 0 ds))) else None
      else None
  | _ => None
  end.

(** [Number(s)], the conversion of a string to a number. *)
Definition Number (s : string) : number :=
  let t := Js.trim s in
  if String.eqb t EmptyString then S754_zero false
  else match nonDecimalLiteral t with
       | Some v => v
       | None =>
           match scanDecimal t with
           | Some (v, EmptyString) => v
           | _ => S754_nan
           end
       end.

(** [Math.round(x)]: the integer nearest to [x], the one towards plus
    infinity at a tie; [-0] for a negative [x] that rounds to zero. *)
Definition round (x : number) : number :=
  match x with
  | S754_finite s m e =>
      if 0 <=? e then x
      else
        let half := 2 ^ (- e - 1) in
        let n := ((if s then Z.neg m else Z.pos m) + half) / (2 ^ (- e)) in
        binary_normalize prec emax n 0 s
  | _ => x
  end.

(** A finite or infinite number as a triple of integers that compare, one
    after the other, as the numbers do. *)
Definition ord (x : spec_float) : Z * Z * Z :=
  match x with
  | S754_zero _ => (0, 0, 0)
  | S754_infinity s => (if s then -2 else 2, 0, 0)
  | S754_nan => (0, 0, 0)
  | S754_finite s m e => if s then (-1, - e, Z.neg m) else (1, e, Z.pos m)
  end.

Definition lex3 (a b : Z * Z * Z) : comparison :=
  let '(a1, a2, a3) := a in
  let '(b1, b2, b3) := b in
  match a1 ?= b1 with
  | Eq => match a2 ?= b2 with
          | Eq => a3 ?= b3
          | c => c
          end
  | c => c
  end.

(** [String(n)] for an integer [n] of absolute value up to [2^53]: the
    decimal numeral.  (JavaScript prints a number from the digits of its
    double, which beyond [2^53] need not be those of the integer, and with
    an exponent from [10^21] on.) *)
Fixpoint decimalDigits (fuel : nat) (n : N) (acc : string) : string :=
  match fuel with
  | O => acc
  | S fuel' =>
      let d := String (ascii_of_N (48 + n mod 10)) acc in
      if (n / 10 =? 0)%N then d else decimalDigits fuel' (n / 10) d
  end.

Definition stringOfZ (n : Z) : string :=
  let ds := decimalDigits (S (N.to_nat (N.log2 (Z.abs_N n)))) (Z.abs_N n) EmptyString in
  if n <? 0 then String "-" ds else ds.

End Num.

(** ** The separator cell of a new column *)

(** [separatorCellFrom] of add-github-stars-column.js and
    fill-github-stars.js; [None] is an absent ([undefined]) argument.  The
    copy in split-link-column.js differs only in that it is never called
    without a cell. *)
Definition separatorCellFrom (cell : option string) : string :=
  let trimmed := Js.trim (default EmptyString cell) in
  let leftAlign := Js.startsWith trimmed ":" in
  let rightAlign := Js.endsWith trimmed ":" in
  let core := "---" in
  (if leftAlign then ":" else EmptyString) +:+ core
  +:+ (if rightAlign then ":" else EmptyString).

(** [a || b] for strings: the empty string and [undefined] are falsy. *)
Definition orElse (a : option string) (b : string) : string :=
  match a with
  | Some s => if String.eqb s EmptyString then b else s
  | None => b
  end.

(** ** Star values (sort-tables-by-stars.js) *)

Module Stars.

Import Num.

(** The match of [/^([0-9]*\.?[0-9]+)\s*k$/]: its group 1.  The group is
    made of digits and dots and what follows it is not, so the group is the
    longest prefix of such characters; it must be digits, or digits (maybe
    none), a dot and at least one digit. *)
Definition matchK (s : string) : option string :=
  let '(g, r) := Js.span (fun c => Js.isDigit c || Ascii.eqb c ".") s in
  let '(a, r1) := Js.span Js.isDigit g in
  let groupOk :=
    match r1 with
    | EmptyString => negb (String.eqb a EmptyString)
    | String "." b => negb (String.eqb b EmptyString) && allChars Js.isDigit b
    | _ => false
    end in
  let '(_, r2) := Js.span Js.isWhiteSpace r in
  if groupOk && String.eqb r2 "k" then Some g else None.

(** [parseStars(cellRaw)]; [None] is [null]. *)
Definition parseStars (cellRaw : string) : option number :=
  if String.eqb cellRaw EmptyString then None else
  let s := Js.trim cellRaw in
  if String.eqb s EmptyString then None else
  let normalized := Js.toLowerCase (Js.removeChar "," s) in
  let viaK :=
    match matchK normalized with
    | Some g =>
        let val := parseFloat g in
        if negb (isNaN val) then Some (round (mul val (ofZ 1000))) else None
    | None => None
    end in
  match viaK with
  | Some r => Some r
  | None =>
      let n := Number normalized in
      if isFinite n then Some n else None
  end.

End Stars.

(** ** Tables *)

Module Tables.

(** A table as [findTables] builds it: the index of its first line and the
    indices of all its lines.  (The copy of [findTables] in
    fill-github-stars.js stores [startIndex] a second time as
    [headerLine]; nothing reads it.) *)
Record Table := mkTable { startIndex : nat; rows : list nat }.

Definition isTableLine (line : string) : bool := Js.startsWith line "|".

(** [lines[i]], for an index inside the document (the rows of a table are,
    see [findTables_rows_lt]). *)
Definition lineAt (lines : list string) (i : nat) : string :=
  default EmptyString (lines !! i).

Definition cellsOf (line : string) : list string := Js.split "|" line.

Definition joinCells (parts : list string) : string := Js.join "|" parts.

(** [headerPartsTrim.findIndex((p) => p.toLowerCase() === name.toLowerCase())] *)
Definition idxOf (headerPartsTrim : list string) (name : string) : Z :=
  Js.findIndex
    (fun p => String.eqb (Js.toLowerCase p) (Js.toLowerCase name))
    headerPartsTrim.

Definition pushRow (i : nat) (t : Table) : Table :=
  mkTable (startIndex t) (rows t ++ [i]).

(** One turn of the loop of [findTables]: the state is the loop index,
    [inTable] and [tables]; the table being read is the last of [tables]
    ([current] in sort-tables-by-stars.js). *)
Definition findStep (st : nat * bool * list Table) (line : string)
  : nat * bool * list Table :=
  let '(i, inTable, tables) := st in
  let isT := isTableLine line in
  if negb inTable && isT then (S i, true, tables ++ [mkTable i [i]])
  else if inTable && isT then
    (S i, true, alter (pushRow i) (length tables - 1)%nat tables)
  else if inTable && negb isT then (S i, false, tables)
  else (S i, inTable, tables).

Definition findTables (lines : list string) : list Table :=
  (fold_left findStep lines (0%nat, false, [])).2.

(** The same tables, by recursion on the lines: [cur] is the table being
    read, handed over when the run of table lines ends
    ([findTables_tablesFrom]). *)
Fixpoint tablesFrom (i : nat) (cur : option Table) (lines : list string)
  : list Table :=
  match lines with
  | [] => match cur with Some t => [t] | None => [] end
  | line :: rest =>
      if isTableLine line then
        match cur with
        | None => tablesFrom (S i) (Some (mkTable i [i])) rest
        | Some t => tablesFrom (S i) (Some (pushRow i t)) rest
        end
      else
        match cur with
        | None => tablesFrom (S i) None rest
        | Some t => t :: tablesFrom (S i) None rest
        end
  end.

Definition isTableAt (lines : list string) (i : nat) : bool :=
  match lines !! i with
  | Some line => isTableLine line
  | None => false
  end.

(** The end of a table: the index after its last line. *)
Definition endIndex (t : Table) : nat := (startIndex t + length (rows t))%nat.

(** [t] is a maximal run of table lines of the document: its rows are
    consecutive lines that start with a pipe, the line before them (if
    any) does not, and neither does the line after them (if any). *)
Record MaximalRun (lines : list string) (t : Table) : Prop := {
  run_rows : rows t = seq (startIndex t) (length (rows t));
  run_nonempty : (0 < length (rows t))%nat;
  run_lines : forall i, i ∈ rows t -> isTableAt lines i = true;
  run_before :
    startIndex t = 0%nat \/ isTableAt lines (startIndex t - 1) = false;
  run_after : isTableAt lines (endIndex t) = false
}.

(** What is known of the table being read when the scan is at line [i]. *)
Definition OpenOK (lines : list string) (i : nat) (cur : option Table) : Prop :=
  match cur with
  | None => i = 0%nat \/ isTableAt lines (i - 1) = false
  | Some c =>
      rows c = seq (startIndex c) (i - startIndex c) /\
      (startIndex c < i)%nat /\
      (forall j, (startIndex c <= j < i)%nat -> isTableAt lines j = true) /\
      (startIndex c = 0%nat \/ isTableAt lines (startIndex c - 1) = false)
  end.

(** The tables come in the order of the document, each ending before the
    next one starts. *)
Definition before (a b : Table) : Prop := (endIndex a < startIndex b)%nat.

(** No line is in two tables. *)
Definition apart (a b : Table) : Prop := forall i, i ∈ rows a -> i ∉ rows b.

(** The header line of a table, and the index of the column [name] in
    it ([-1] if there is none). *)
Definition headerOf (lines : list string) (t : Table) : string :=
  lineAt lines (nth 0 (rows t) 0%nat).

Definition columnOf (lines : list string) (t : Table) (name : string) : Z :=
  idxOf (map Js.trim (cellsOf (headerOf lines t))) name.

(** The data rows of a table: [rows.slice(2)]. *)
Definition dataRows (t : Table) : list nat := drop 2 (rows t).

(** The index of the column [Github] ([Github] is looked for, then
    [GitHub]). *)
Definition githubColumnOf (lines : list string) (t : Table) : Z :=
  let g := columnOf lines t "Github" in
  if g =? -1 then columnOf lines t "GitHub" else g.

(** The new cell of row number [k] of a table: the label in the header
    row, [sepCell] in the separator row, a blank in a data row. *)
Definition newCell (sepCell : string) (k : nat) : string :=
  match k with
  | 0%nat => " GitHub Stars "
  | 1%nat => sepCell
  | _ => " "
  end.

(** The rows of [t] in [out] are its rows in [lines] with one new cell
    each, spliced in at the same index [idx] in every row; when the rows
    had [n] cells each, the new cell is the cell number [idx] of every
    row. *)
Definition InsertedUniformly (lines out : list string) (t : Table) : Prop :=
  exists (idx : Z) (sepCell : string),
    0 <= idx /\
    (forall k ri, rows t !! k = Some ri ->
       cellsOf (lineAt out ri) =
         Js.splice idx (newCell sepCell k) (cellsOf (lineAt lines ri)) /\
       length (cellsOf (lineAt out ri)) = S (length (cellsOf (lineAt lines ri)))) /\
    (forall n,
       (forall ri, ri ∈ rows t -> length (cellsOf (lineAt lines ri)) = n) ->
       idx <= Z.of_nat n /\
       forall k ri, rows t !! k = Some ri ->
         cellsOf (lineAt out ri) !! Z.to_nat idx = Some (newCell sepCell k) /\
         length (cellsOf (lineAt out ri)) = S n).

(** The header has a column [name]: a cell whose trimmed text equals it
    up to case. *)
Definition hasColumn (header : string) (name : string) : Prop :=
  exists cell, cell ∈ cellsOf header /\
    Js.toLowerCase (Js.trim cell) = Js.toLowerCase name.

End Tables.

(** ** add-github-stars-column.js *)

Module AddColumn.

Import Tables.

Record State := mkState {
  inTable : bool;
  headerLineCount : nat;
  modifyThisTable : bool;
  githubColIndex : Z;
  starsColIndex : Z;
  insertIndex : Z;
  tablesModified : nat;
  rowsTouched : nat;
  out : list string
}.

Definition init : State := mkState false 0 false (-1) (-1) (-1) 0 0 [].

(** The body of the loop of [main] for one line. *)
Definition step (st : State) (line : string) : State :=
  let isT := isTableLine line in
  (* Reset when leaving a table *)
  let st :=
    if negb isT && inTable st
    then mkState false 0 false (-1) (-1) (-1)
                 (tablesModified st) (rowsTouched st) (out st)
    else st in
  let '(mkState inT hlc modify github stars insertIdx tm rt o) := st in
  if negb isT then mkState inT hlc modify github stars insertIdx tm rt (o ++ [line])
  else if negb inT then
    (* Header row *)
    let headerPartsRaw := cellsOf line in
    let headerPartsTrim := map Js.trim headerPartsRaw in
    let github := idxOf headerPartsTrim "Github" in
    let github := if github =? -1 then idxOf headerPartsTrim "GitHub" else github in
    let stars := idxOf headerPartsTrim "GitHub Stars" in
    if negb (stars =? -1) then
      mkState true 1 false github stars insertIdx tm rt (o ++ [line])
    else
      let insertIdx :=
        if negb (github =? -1) then github + 1
        else Z.max 0 (Z.of_nat (length headerPartsRaw) - 1) in
      let newHeaderParts := Js.splice insertIdx " GitHub Stars " headerPartsRaw in
      mkState true 1 true github stars insertIdx (S tm) (S rt)
              (o ++ [joinCells newHeaderParts])
  else
    let hlc := S hlc in
    if (hlc =? 2)%nat then
      (* Separator row *)
      if negb modify then
        mkState inT hlc modify github stars insertIdx tm rt (o ++ [line])
      else
        let sepParts := cellsOf line in
        let refIndex :=
          if negb (github =? -1) then github
          else Z.max 0 (Z.of_nat (length sepParts) - 2) in
        let sourceCell := orElse (Js.at_ sepParts refIndex) " --- " in
        let newSepCell := " " +:+ separatorCellFrom (Some sourceCell) +:+ " " in
        mkState inT hlc modify github stars insertIdx tm (S rt)
                (o ++ [joinCells (Js.splice insertIdx newSepCell sepParts)])
    else
      (* Data rows *)
      if negb modify then
        mkState inT hlc modify github stars insertIdx tm rt (o ++ [line])
      else
        let parts := cellsOf line in
        mkState inT hlc modify github stars insertIdx tm (S rt)
                (o ++ [joinCells (Js.splice insertIdx " " parts)]).

(** The lines [main] puts out for the lines of one table
    ([add_run_at_table]). *)
Definition githubOf (header : string) : Z :=
  let headerPartsTrim := map Js.trim (cellsOf header) in
  let github := idxOf headerPartsTrim "Github" in
  if github =? -1 then idxOf headerPartsTrim "GitHub" else github.

Definition insertIndexOf (header : string) : Z :=
  if negb (githubOf header =? -1) then githubOf header + 1
  else Z.max 0 (Z.of_nat (length (cellsOf header)) - 1).

Definition separatorFor (header sep : string) : string :=
  let sepParts := cellsOf sep in
  let refIndex :=
    if negb (githubOf header =? -1) then githubOf header
    else Z.max 0 (Z.of_nat (length sepParts) - 2) in
  " " +:+ separatorCellFrom (Some (orElse (Js.at_ sepParts refIndex) " --- ")) +:+ " ".

Definition tableOut (tbl : list string) : list string :=
  match tbl with
  | [] => []
  | header :: rest =>
      if negb (idxOf (map Js.trim (cellsOf header)) "GitHub Stars" =? -1) then tbl
      else
        let idx := insertIndexOf header in
        joinCells (Js.splice idx " GitHub Stars " (cellsOf header)) ::
        match rest with
        | [] => []
        | sep :: data =>
            joinCells (Js.splice idx (separatorFor header sep) (cellsOf sep)) ::
            map (fun l => joinCells (Js.splice idx " " (cellsOf l))) data
        end
  end.

Definition run (lines : list string) : State := fold_left step lines init.

(** The document after [main]: nothing is written when no table was
    modified. *)
Definition main (lines : list string) : list string :=
  let st := run lines in
  if (tablesModified st =? 0)%nat then lines else out st.

End AddColumn.

(** ** split-link-column.js *)

Module SplitLink.

Import Tables.

(** [/(https?:\/\/)?(www\.)?github\.com\//i.test(mdCell)]: both groups are
    optional and the expression is not anchored, so it holds exactly when
    [github.com/] occurs in the cell, in any case of its letters. *)
Fixpoint occursIn (pat s : string) : bool :=
  Js.startsWith s pat ||
  match s with
  | EmptyString => false
  | String _ r => occursIn pat r
  end.

Definition isGithubLink (mdCell : string) : bool :=
  occursIn "github.com/" (Js.toLowerCase mdCell).

Record State := mkState {
  inTable : bool;
  headerLineCount : nat;
  linkColumnIndex : Z;
  tableHasLinkColumn : bool;
  changesCount : nat;
  updatedLines : list string
}.

Definition init : State := mkState false 0 (-1) false 0 [].

Definition step (st : State) (line : string) : State :=
  (* Reset table state on section headers or blank lines between tables *)
  let st :=
    if Js.startsWith line "## " || (negb (Js.startsWith line "|") && inTable st)
    then mkState false 0 (-1) false (changesCount st) (updatedLines st)
    else st in
  let '(mkState inT hlc link hasLink cc o) := st in
  if negb (Js.startsWith line "|") then mkState inT hlc link hasLink cc (o ++ [line])
  else if negb inT then
    (* Header row *)
    let headerPartsRaw := cellsOf line in
    let headerPartsTrimmed := map Js.trim headerPartsRaw in
    let link := Js.findIndex (fun p => String.eqb p "Link") headerPartsTrimmed in
    let hasLink := -1 <? link in
    if negb hasLink then mkState true 1 link hasLink cc (o ++ [line])
    else
      let newHeaderParts := Js.setAt link " Website " headerPartsRaw in
      let newHeaderParts := Js.splice (link + 1) " Github " newHeaderParts in
      mkState true 1 link hasLink (S cc) (o ++ [joinCells newHeaderParts])
  else
    let hlc := S hlc in
    if (hlc =? 2)%nat then
      if negb hasLink then mkState inT hlc link hasLink cc (o ++ [line])
      else
        let sepParts := Js.padTo (link + 1) EmptyString (cellsOf line) in
        let sourceCell := Js.at_ sepParts link in
        let newSepCell := " " +:+ separatorCellFrom sourceCell +:+ " " in
        mkState inT hlc link hasLink (S cc)
                (o ++ [joinCells (Js.splice (link + 1) newSepCell sepParts)])
    else
      if negb hasLink then mkState inT hlc link hasLink cc (o ++ [line])
      else
        let parts := Js.padTo (link + 1) EmptyString (cellsOf line) in
        let linkCell := default EmptyString (Js.at_ parts link) in
        let linkCellTrimmed := Js.trim linkCell in
        let nonEmpty := negb (String.eqb linkCellTrimmed EmptyString) in
        let websiteCell :=
          if nonEmpty && negb (isGithubLink linkCellTrimmed)
          then " " +:+ linkCellTrimmed +:+ " " else " " in
        let githubCell :=
          if nonEmpty && isGithubLink linkCellTrimmed
          then " " +:+ linkCellTrimmed +:+ " " else " " in
        let parts := Js.setAt link websiteCell parts in
        let parts := Js.splice (link + 1) githubCell parts in
        mkState inT hlc link hasLink (if nonEmpty then S cc else cc)
                (o ++ [joinCells parts]).

Definition run (lines : list string) : State := fold_left step lines init.

(** The document after the script: it exits without writing when there
    was no change. *)
Definition main (lines : list string) : list string :=
  let st := run lines in
  if (changesCount st =? 0)%nat then lines else updatedLines st.

End SplitLink.

(** ** sort-tables-by-stars.js *)

Module SortByStars.

Import Tables Num.

(** An entry of [entries]: [{ ri, i, stars, line }]. *)
Record Entry := mkEntry {
  e_ri : nat;
  e_i : nat;
  e_stars : option number;
  e_line : string
}.

(** The sign of the number the comparator of [main] returns: [Lt] for a
    negative number ([a] before [b]), [Gt] for a positive one.
    [b.stars !== a.stars] is the negation of IEEE equality, and the
    difference [b.stars - a.stars] of two numbers that are not NaN and not
    equal is positive exactly when [b.stars] is the larger one; a NaN
    result counts as zero for [sort]. *)
Definition compareFn (a b : Entry) : comparison :=
  match e_stars a, e_stars b with
  | None, None => Nat.compare (e_i a) (e_i b)
  | None, Some _ => Gt
  | Some _, None => Lt
  | Some x, Some y =>
      if negb (SFeqb y x) then
        match SFcompare y x with Some c => c | None => Eq end
      else Nat.compare (e_i a) (e_i b)
  end.

(** The stars of an entry are a number, not NaN ([parseStars] yields no
    other, [parseStars_not_nan]). *)
Definition Valid (e : Entry) : Prop :=
  forall x, e_stars e = Some x -> isNaN x = false.

(** The key [compareFn] sorts by, as integers that compare one after the
    other: entries without stars last, more stars first, then the
    original position. *)
Definition entryKey (e : Entry) : Z * Z * Z * Z * Z :=
  match e_stars e with
  | None => (1, 0, 0, 0, Z.of_nat (e_i e))
  | Some x => let '(a, b, c) := ord x in (0, - a, - b, - c, Z.of_nat (e_i e))
  end.

Definition keyLt (k l : Z * Z * Z * Z * Z) : Prop :=
  let '(k1, k2, k3, k4, k5) := k in
  let '(l1, l2, l3, l4, l5) := l in
  k1 < l1 \/ k1 = l1 /\
   (k2 < l2 \/ k2 = l2 /\ (k3 < l3 \/ k3 = l3 /\ (k4 < l4 \/ k4 = l4 /\ k5 < l5))).

(** Two entries have the same stars: both none, or equal numbers. *)
Definition sameStars (a b : Entry) : Prop :=
  match e_stars a, e_stars b with
  | None, None => True
  | Some x, Some y => SFeqb x y = true
  | _, _ => False
  end.

(** [a] may stand before [b] in the sorted array. *)
Definition notAfter (a b : Entry) : Prop := compareFn a b <> Gt.

(** [arr.sort(cmp)], as a stable insertion sort.  [compareFn] is a strict
    total order on the entries of a table, so every sorting algorithm
    yields this arrangement ([sorted_unique]). *)
Fixpoint insertBy {A} (cmp : A -> A -> comparison) (x : A) (l : list A) : list A :=
  match l with
  | [] => [x]
  | y :: r => match cmp x y with
              | Gt => y :: insertBy cmp x r
              | _ => x :: l
              end
  end.

Definition sortBy {A} (cmp : A -> A -> comparison) (l : list A) : list A :=
  fold_right (insertBy cmp) [] l.

Definition entriesOf (lines : list string) (starsCol : Z)
    (dataRowIndexes : list nat) : list Entry :=
  imap (fun i ri =>
          let parts := cellsOf (lineAt lines ri) in
          let starCell := orElse (Js.at_ parts starsCol) EmptyString in
          mkEntry ri i (Stars.parseStars starCell) (lineAt lines ri))
       dataRowIndexes.

(** [for (j ...) lines[dataRowIndexes[j]] = sorted[j].line] *)
Definition applyOrder (lines : list string) (dataRowIndexes : list nat)
    (sorted : list Entry) : list string :=
  fold_left (fun ls '(target, e) => <[target := e_line e]> ls)
            (zip dataRowIndexes sorted) lines.

(** The body of the loop over the tables: the lines, and whether the
    table was processed and changed. *)
Definition sortTable (lines : list string) (t : Table) : list string * bool * bool :=
  let rows := rows t in
  if (length rows <? 3)%nat then (lines, false, false) else
  let header := lineAt lines (nth 0 rows 0%nat) in
  let headerPartsTrim := map Js.trim (cellsOf header) in
  let starsCol := idxOf headerPartsTrim "GitHub Stars" in
  if starsCol =? -1 then (lines, false, false) else
  let dataRowIndexes := drop 2 rows in
  if (length dataRowIndexes =? 0)%nat then (lines, false, false) else
  let entries := entriesOf lines starsCol dataRowIndexes in
  let sorted := sortBy compareFn entries in
  let changed :=
    existsb (fun '(s, e) => negb (e_ri s =? e_ri e)%nat) (zip sorted entries) in
  if negb changed then (lines, true, false)
  else (applyOrder lines dataRowIndexes sorted, true, true).

Definition sortLines (lines : list string) (t : Table) : list string :=
  (sortTable lines t).1.1.

Definition loopStep (st : list string * nat * nat) (t : Table) : list string * nat * nat :=
  let '(lines, tablesProcessed, tablesChanged) := st in
  let '(lines', processed, changed) := sortTable lines t in
  (lines', if processed then S tablesProcessed else tablesProcessed,
   if changed then S tablesChanged else tablesChanged).

(** The document after [main]: written back only when a table changed. *)
Definition main (lines : list string) : list string :=
  let '(lines', _, tablesChanged) :=
    fold_left loopStep (findTables lines) (lines, 0%nat, 0%nat) in
  if (0 <? tablesChanged)%nat then lines' else lines.

End SortByStars.

(** ** Links in cells (fill-github-stars.js, fill-github-from-website.js) *)

Module Links.

Definition skip (n : nat) (s : string) : string :=
  String.substring n (String.length s - n) s.

Definition notClosing (c : ascii) : bool := negb (Ascii.eqb c ")").

(** Group 1 of the leftmost match of [/\\]\\(([^)]+)\\)/]. *)
Fixpoint findMarkdownTarget (s : string) : option string :=
  match s with
  | EmptyString => None
  | String c r =>
      let here :=
        match c, r with
        | "]"%char, String "(" r' =>
            let '(g, r'') := Js.span notClosing r' in
            if negb (String.eqb g EmptyString) && Js.startsWith r'' ")"
            then Some g else None
        | _, _ => None
        end in
      match here with
      | Some g => Some g
      | None => findMarkdownTarget r
      end
  end.

(** The length of [http://] or [https://] at the head of [s], in any case
    of the letters. *)
Definition schemeLength (s : string) : option nat :=
  let l := Js.toLowerCase s in
  if Js.startsWith l "https://" then Some 8%nat
  else if Js.startsWith l "http://" then Some 7%nat
  else None.

Definition urlChar (c : ascii) : bool :=
  negb (Js.isWhiteSpace c || Ascii.eqb c ")").

(** The match of [/https?:\\/\\/[^\\s)]+/i] at the head of [s]. *)
Definition plainUrlAt (s : string) : option string :=
  match schemeLength s with
  | Some n =>
      let '(g, _) := Js.span urlChar (skip n s) in
      if String.eqb g EmptyString then None
      else Some (String.substring 0 n s +:+ g)
  | None => None
  end.

(** The leftmost match of [/https?:\\/\\/[^\\s)]+/i]. *)
Fixpoint findPlainUrl (s : string) : option string :=
  match s with
  | EmptyString => None
  | String _ r =>
      match plainUrlAt s with
      | Some u => Some u
      | None => findPlainUrl r
      end
  end.

(** [extractMarkdownUrl(cell)]; [None] is [null]. *)
Definition extractMarkdownUrl (cell : string) : option string :=
  if String.eqb cell EmptyString then None else
  match findMarkdownTarget cell with
  | Some g => Some (Js.trim g)
  | None => findPlainUrl cell
  end.

(** The class [[A-Za-z0-9_.-]]. *)
Definition repoChar (c : ascii) : bool :=
  let n := N_of_ascii c in
  ((65 <=? n) && (n <=? 90) || (97 <=? n) && (n <=? 122) || Js.isDigit c
   || Ascii.eqb c "_" || Ascii.eqb c "." || Ascii.eqb c "-")%N.

(** [repo.replace(/\\.git$/i, '')] *)
Definition stripGit (repo : string) : string :=
  if Js.endsWith (Js.toLowerCase repo) ".git"
  then String.substring 0 (String.length repo - 4) repo else repo.

(** [parseGithubRepo(url)]: [owner/repo] of a GitHub repository URL. *)
Definition parseGithubRepo (url : option string) : option string :=
  match url with
  | None => None
  | Some u =>
      if String.eqb u EmptyString then None else
      match schemeLength u with
      | None => None
      | Some n =>
          let r := skip n u in
          let r := if Js.startsWith (Js.toLowerCase r) "www." then skip 4 r else r in
          if Js.startsWith (Js.toLowerCase r) "github.com/" then
            let '(owner, r1) := Js.span repoChar (skip 11 r) in
            if String.eqb owner EmptyString then None else
            match r1 with
            | String "/" r2 =>
                let '(repo, r3) := Js.span repoChar r2 in
                if String.eqb repo EmptyString then None
                else if String.eqb r3 EmptyString || Js.startsWith r3 "/"
                then Some (owner +:+ "/" +:+ stripGit repo)
                else None
            | _ => None
            end
          else None
      end
  end.

End Links.

(** ** fill-github-stars.js *)

Module FillStars.

Import Tables Links.

(** What [httpsGetJson] resolves to, as far as [main] looks at it: a
    success with the [stargazers_count] of the JSON when that is a number
    (an integer, as GitHub sends it; [None] otherwise), the failure
    [rate-limited], or another failure.  These are the results for which
    [githubApiFetchRepo] returns; the success on which it throws is in
    [FillRun] below. *)
Inductive Response :=
  | Ok (stargazers_count : option Z)
  | RateLimited
  | Failed.

Record Job := mkJob { lineIndex : nat; starsCol : Z; repo : string }.

(** The state of the loop over the jobs.  [lookups] is not in the script:
    it logs the [repo] of every call of [githubApiFetchRepo], in order. *)
Record RunState := mkRun {
  lines : list string;
  cache : gmap string (option Z);
  apiCalls : nat;
  rowsUpdated : nat;
  hitRateLimit : bool;
  lookups : list string
}.

(** The outcome of [main]: the document afterwards, and the counters it
    reports. *)
Record Result := mkResult {
  document : list string;
  finalState : RunState;
  tablesTouched : nat
}.

(** The path [githubApiFetchRepo] requests: [/repos/owner/name] in lower
    case. *)
Definition requestPath (repo : string) : string :=
  let parts := Js.split "/" repo in
  let owner := default EmptyString (parts !! 0%nat) in
  let name := default EmptyString (parts !! 1%nat) in
  "/repos/" +:+ Js.toLowerCase owner +:+ "/" +:+ Js.toLowerCase name.

(** Insert blank cells in data rows: the loop over the rows after the
    separator row. *)
Definition insertData (insertIndex : Z) (data : list nat) (lines : list string)
  : list string :=
  fold_left
    (fun ls ri => <[ri := joinCells (Js.splice insertIndex " " (cellsOf (lineAt ls ri)))]> ls)
    data lines.

(** Insert the column [GitHub Stars] right after the column [githubCol]. *)
Definition insertStarsColumn (lines : list string) (rows : list nat)
    (headerPartsRaw : list string) (githubCol : Z) : list string :=
  let insertIndex := githubCol + 1 in
  let newHeader := Js.splice insertIndex " GitHub Stars " headerPartsRaw in
  let lines := <[nth 0 rows 0%nat := joinCells newHeader]> lines in
  let sepParts := cellsOf (lineAt lines (nth 1 rows 0%nat)) in
  let sourceCell := orElse (Js.at_ sepParts githubCol) " --- " in
  let newSepCell := " " +:+ separatorCellFrom (Some sourceCell) +:+ " " in
  let lines :=
    <[nth 1 rows 0%nat := joinCells (Js.splice insertIndex newSepCell sepParts)]> lines in
  insertData insertIndex (drop 2 rows) lines.

(** The fetch jobs of the data rows of a table. *)
Definition jobsOf (lines : list string) (rows : list nat)
    (githubCol starsCol : Z) : list Job :=
  omap (fun ri =>
          let parts :=
            Js.padTo (Z.max githubCol starsCol) " " (cellsOf (lineAt lines ri)) in
          let githubCell := default EmptyString (Js.at_ parts githubCol) in
          let url := extractMarkdownUrl githubCell in
          match parseGithubRepo url with
          | Some repo =>
              if String.eqb repo EmptyString then None
              else Some (mkJob ri starsCol repo)
          | None => None
          end)
       (drop 2 rows).

(** The lines of the document after the body of the first loop of [main]
    for the table [t]. *)
Definition ensureColumn (lines : list string) (t : Table) : list string :=
  let rows := rows t in
  if (length rows <? 3)%nat then lines else
  let headerPartsRaw := cellsOf (lineAt lines (nth 0 rows 0%nat)) in
  let headerPartsTrim := map Js.trim headerPartsRaw in
  let githubCol := idxOf headerPartsTrim "Github" in
  let githubCol := if githubCol =? -1 then idxOf headerPartsTrim "GitHub" else githubCol in
  let starsCol := idxOf headerPartsTrim "GitHub Stars" in
  if githubCol =? -1 then lines else
  if starsCol =? -1 then insertStarsColumn lines rows headerPartsRaw githubCol
  else lines.

(** The body of the first loop of [main]: the lines, the jobs and
    [tablesTouched]. *)
Definition tableStep (st : list string * list Job * nat) (t : Table)
  : list string * list Job * nat :=
  let '(lines, jobs, touched) := st in
  let rows := rows t in
  if (length rows <? 3)%nat then st else
  let headerPartsRaw := cellsOf (lineAt lines (nth 0 rows 0%nat)) in
  let headerPartsTrim := map Js.trim headerPartsRaw in
  let githubCol := idxOf headerPartsTrim "Github" in
  let githubCol := if githubCol =? -1 then idxOf headerPartsTrim "GitHub" else githubCol in
  let starsCol := idxOf headerPartsTrim "GitHub Stars" in
  if githubCol =? -1 then st else
  let '(lines, starsCol, touched) :=
    if starsCol =? -1
    then (insertStarsColumn lines rows headerPartsRaw githubCol, githubCol + 1, S touched)
    else (lines, starsCol, touched) in
  (lines, jobs ++ jobsOf lines rows githubCol starsCol, touched).

(** The first loop of [main]: all the tables, from the document as
    read. *)
Definition scan (lines0 : list string) : list string * list Job * nat :=
  fold_left tableStep (findTables lines0) (lines0, [], 0%nat).

(** The document after the first loop: every table that has a [Github]
    column has a [GitHub Stars] column. *)
Definition columnsEnsured (lines0 : list string) : list string :=
  (scan lines0).1.1.

(** Write a star count into the cell of a job. *)
Definition writeStars (lines : list string) (job : Job) (stars : Z) : list string :=
  let parts := Js.padTo (starsCol job) " " (cellsOf (lineAt lines (lineIndex job))) in
  let parts := Js.setAt (starsCol job) (" " +:+ Num.stringOfZ stars +:+ " ") parts in
  <[lineIndex job := joinCells parts]> lines.

Section Run.

(** [httpsGetJson n path]: what api.github.com answers to the request for
    [path] when it is request number [n] of the run (from 0), redirects
    followed. *)
Variable httpsGetJson : nat -> string -> Response.

Definition githubApiFetchRepo (n : nat) (repo : string) : Response :=
  httpsGetJson n (requestPath repo).

(** [cache.get(repo)] when it is neither [undefined] nor [null]. *)
Definition cached (st : RunState) (repo : string) : option Z :=
  match cache st !! repo with
  | Some (Some stars) => Some stars
  | _ => None
  end.

Definition written (st : RunState) (job : Job) (stars : Z) : RunState :=
  mkRun (writeStars (lines st) job stars) (cache st) (apiCalls st)
        (S (rowsUpdated st)) (hitRateLimit st) (lookups st).

(** The loop over the jobs; [break] on a rate limit, [continue] on another
    failure and on a star count that is [null]. *)
Fixpoint runJobs (jobs : list Job) (st : RunState) : RunState :=
  match jobs with
  | [] => st
  | job :: rest =>
      match cached st (repo job) with
      | Some stars => runJobs rest (written st job stars)
      | None =>
          let called (c : gmap string (option Z)) (hit : bool) :=
            mkRun (lines st) c (S (apiCalls st)) (rowsUpdated st) hit
                  (lookups st ++ [repo job]) in
          match githubApiFetchRepo (apiCalls st) (repo job) with
          | RateLimited => called (cache st) true
          | Failed => runJobs rest (called (cache st) (hitRateLimit st))
          | Ok stars =>
              let st' := called (<[repo job := stars]> (cache st)) (hitRateLimit st) in
              match stars with
              | None => runJobs rest st'
              | Some v => runJobs rest (written st' job v)
              end
          end
      end
  end.

Definition start (lines : list string) : RunState :=
  mkRun lines ∅ 0 0 false [].

(** Lookup number [n] of the run was for [repo] and gave the star count
    [stars]. *)
Definition Resolved (lookups : list string) (n : nat) (repo : string)
    (stars : Z) : Prop :=
  lookups !! n = Some repo /\
  githubApiFetchRepo n repo = Ok (Some stars).

(** No repository is looked up again after a lookup gave its star
    count. *)
Definition ResolvedOnce (lookups : list string) : Prop :=
  forall n m repo stars, Resolved lookups n repo stars -> (n < m)%nat ->
    lookups !! m <> Some repo.

Definition main (lines0 : list string) : Result :=
  let '(lines, jobs, touched) := scan lines0 in
  if (length jobs =? 0)%nat then
    mkResult (if (0 <? touched)%nat then lines else lines0) (start lines) touched
  else
    let st := runJobs jobs (start lines) in
    mkResult (if (0 <? rowsUpdated st)%nat || (0 <? touched)%nat
              then FillStars.lines st else lines0)
             st touched.

(** What holds of the state of the loop at every turn: the calls are the
    logged lookups; a repository whose lookup gave a star count is in the
    cache with that count; and it was not looked up again. *)
Definition JobInv (st : RunState) : Prop :=
  apiCalls st = length (lookups st) /\
  (forall n repo stars, Resolved (lookups st) n repo stars ->
     cache st !! repo = Some (Some stars)) /\
  ResolvedOnce (lookups st).

End Run.

End FillStars.

(** ** fill-github-from-website.js *)

Module FromWebsite.

Import Links.

Record Table := mkTable {
  startIndex : nat;
  websiteCol : Z;
  githubCol : Z;
  rows : list nat
}.

Definition pushRow (i : nat) (t : Table) : Table :=
  mkTable (startIndex t) (websiteCol t) (githubCol t) (rows t ++ [i]).

(** One turn of the loop of [parseTables]. *)
Definition parseStep (st : nat * bool * list Table) (line : string)
  : nat * bool * list Table :=
  let '(i, inTable, tables) := st in
  let isT := Tables.isTableLine line in
  if negb inTable && isT then
    let headerParts := map Js.trim (Tables.cellsOf line) in
    let websiteCol := Js.findIndex (fun p => String.eqb (Js.toLowerCase p) "website") headerParts in
    let githubCol := Js.findIndex (fun p => String.eqb (Js.toLowerCase p) "github") headerParts in
    (S i, true, tables ++ [mkTable i websiteCol githubCol [i]])
  else if inTable && isT then
    (S i, true, alter (pushRow i) (length tables - 1)%nat tables)
  else if inTable && negb isT then (S i, false, tables)
  else (S i, inTable, tables).

Definition parseTables (lines : list string) : list Table :=
  (fold_left parseStep lines (0%nat, false, [])).2.

Record Update := mkUpdate {
  lineIdx : nat;
  u_githubCol : Z;
  websiteUrl : string
}.

Section Run.

(** [URL s]: [new URL(s).toString()], [None] when the constructor throws. *)
Variable URL : string -> option string.

(** [discover n url]: the GitHub link that [findGithubLinkInHtml] finds in
    the page that [fetchWithRedirects] gets for [url] as fetch number [n]
    of the run; [None] when the fetch fails, when the page has no such
    link, and when the loop catches an exception. *)
Variable discover : nat -> string -> option string.

(** [normalizeUrlMaybe(urlStr)] *)
Definition normalizeUrlMaybe (urlStr : option string) : option string :=
  match urlStr with
  | None => None
  | Some u =>
      if String.eqb u EmptyString then None
      else URL (match schemeLength u with
                | Some _ => u
                | None => "https://" +:+ u
                end)
  end.

(** The updates of one table. *)
Definition updatesOf (lines : list string) (t : Table) : list Update :=
  if (websiteCol t =? -1) || (githubCol t =? -1) then [] else
  if (length (rows t) <? 3)%nat then [] else
  omap (fun lineIdx =>
          let parts :=
            Js.padTo (Z.max (websiteCol t) (githubCol t)) " "
                     (Tables.cellsOf (Tables.lineAt lines lineIdx)) in
          let websiteCell := default EmptyString (Js.at_ parts (websiteCol t)) in
          let githubCell := Js.at_ parts (githubCol t) in
          let websiteUrlRaw := extractMarkdownUrl websiteCell in
          let githubCellTrim := Js.trim (orElse githubCell EmptyString) in
          match websiteUrlRaw with
          | Some raw =>
              if String.eqb githubCellTrim EmptyString
                 && negb (String.eqb raw EmptyString) then
                match normalizeUrlMaybe websiteUrlRaw with
                | Some websiteUrl =>
                    if String.eqb websiteUrl EmptyString then None
                    else Some (mkUpdate lineIdx (githubCol t) websiteUrl)
                | None => None
                end
              else None
          | None => None
          end)
       (drop 2 (rows t)).

Definition writeLink (lines : list string) (up : Update) (found : string) : list string :=
  let parts := Js.padTo (u_githubCol up) " "
                 (Tables.cellsOf (Tables.lineAt lines (lineIdx up))) in
  let parts := Js.setAt (u_githubCol up) (" [Link](" +:+ found +:+ ") ") parts in
  <[lineIdx up := Tables.joinCells parts]> lines.

(** The loop over the updates: the lines and [applied]; [n] counts the
    fetches. *)
Fixpoint applyUpdates (n : nat) (updates : list Update)
    (st : list string * nat) : list string * nat :=
  match updates with
  | [] => st
  | up :: rest =>
      match discover n (websiteUrl up) with
      | Some found =>
          if String.eqb found EmptyString then applyUpdates (S n) rest st
          else applyUpdates (S n) rest (writeLink st.1 up found, S st.2)
      | None => applyUpdates (S n) rest st
      end
  end.

(** The array [lines] when [main] returns.  The file that is written
    from it, and the runs that an exception ends, are in [WebsiteRun]
    below. *)
Definition main (lines : list string) : list string :=
  let tables := parseTables lines in
  let updates := flat_map (updatesOf lines) tables in
  if (length updates =? 0)%nat then lines
  else
    let '(lines', applied) := applyUpdates 0 updates (lines, 0%nat) in
    if (0 <? applied)%nat then lines' else lines.

End Run.

End FromWebsite.

(** ** Example documents *)

Module Examples.

(** Rows with the stars 150, none, 300, none, 150. *)
Definition starsTable : list string :=
  [ "| Name | GitHub Stars |";
    "| --- | --- |";
    "| a | 150 |";
    "| b | |";
    "| c | 300 |";
    "| d | |";
    "| e | 150 |" ].

Definition starsTableSorted : list string :=
  [ "| Name | GitHub Stars |";
    "| --- | --- |";
    "| c | 300 |";
    "| a | 150 |";
    "| e | 150 |";
    "| b | |";
    "| d | |" ].

(** Two rows that link to the same repository, and no stars column. *)
Definition sameRepoTwice : list string :=
  [ "| Name | Github |";
    "| --- | :---: |";
    "| a | [Link](https://github.com/a/b) |";
    "| c | [Link](https://github.com/a/b) |" ].

(** A table with a [Github] column, a table that has the stars column
    already, and a table of two lines, with text around them. *)
Definition threeTables : list string :=
  [ "# Components";
    "| Name | Github |";
    "| --- | :---: |";
    "| a | [Link](https://github.com/a/b) |";
    EmptyString;
    "| Name | GitHub Stars |";
    "| --- | --- |";
    "| b | 12 |";
    "text";
    "| Website | Github |";
    "| --- | --- |" ].

(** Three rows with repository links; the stars column is there. *)
Definition threeRepos : list string :=
  [ "| Github | GitHub Stars |";
    "| --- | --- |";
    "| https://github.com/a/b | |";
    "| https://github.com/c/d | |";
    "| https://github.com/e/f | |" ].

(** The API answers the first request and rejects every later one for
    the rate limit. *)
Definition limitedAfterOne (n : nat) (path : string) : FillStars.Response :=
  match n with
  | 0%nat => FillStars.Ok (Some 5)
  | _ => FillStars.RateLimited
  end.

(** The digit 1 and 306 zeros, with the suffix [k]. *)
Definition hugeStars : string :=
  String "1" (string_of_list_ascii (repeat "0"%char 306)) +:+ "k".

End Examples.

(** ** Relations between the scripts *)

(** A table of [parseTables] and the table of [findTables] it stands for:
    the same rows and start, and the column indices of the header line. *)
Definition parsedAs (lines : list string)
    (pt : FromWebsite.Table) (t : Tables.Table) : Prop :=
  FromWebsite.rows pt = Tables.rows t /\
  Tables.rows t <> [] /\
  FromWebsite.startIndex pt = Tables.startIndex t /\
  FromWebsite.websiteCol pt = Tables.columnOf lines t "Website" /\
  FromWebsite.githubCol pt = Tables.githubColumnOf lines t.

(** The jobs of a table, read from the document as the first loop of
    fill-github-stars.js leaves it. *)
Definition jobsFor (lines : list string) (t : Tables.Table) : list FillStars.Job :=
  if (length (Tables.rows t) <? 3)%nat then []
  else if Tables.githubColumnOf lines t =? -1 then []
  else FillStars.jobsOf lines (Tables.rows t) (Tables.githubColumnOf lines t)
         (Tables.columnOf lines t "GitHub Stars").

(** Every star count in the cache was the answer to a lookup. *)
Definition CacheSound (httpsGetJson : nat -> string -> FillStars.Response)
    (st : FillStars.RunState) : Prop :=
  FillStars.apiCalls st = length (FillStars.lookups st) /\
  forall repo stars, FillStars.cache st !! repo = Some (Some stars) ->
    exists n, FillStars.Resolved httpsGetJson (FillStars.lookups st) n repo stars.

(** ** The rows of a table after split-link-column.js *)

Module SplitTable.

Import Tables.

(** The index of the column [Link] of a header line ([-1] if there is
    none). *)
Definition linkOf (header : string) : Z :=
  Js.findIndex (fun p => String.eqb p "Link") (map Js.trim (cellsOf header)).

Definition headerCells (link : Z) (header : string) : list string :=
  Js.splice (link + 1) " Github " (Js.setAt link " Website " (cellsOf header)).

Definition separatorCells (link : Z) (sep : string) : list string :=
  let sepParts := Js.padTo (link + 1) EmptyString (cellsOf sep) in
  Js.splice (link + 1)
    (" " +:+ separatorCellFrom (Js.at_ sepParts link) +:+ " ") sepParts.

(** The trimmed text of the cell [Link] of a data row. *)
Definition linkText (link : Z) (line : string) : string :=
  Js.trim (default EmptyString
             (Js.at_ (Js.padTo (link + 1) EmptyString (cellsOf line)) link)).

(** The cells [Website] and [Github] for a link text. *)
Definition websiteCellOf (text : string) : string :=
  if negb (String.eqb text EmptyString) && negb (SplitLink.isGithubLink text)
  then " " +:+ text +:+ " " else " ".

Definition githubCellOf (text : string) : string :=
  if negb (String.eqb text EmptyString) && SplitLink.isGithubLink text
  then " " +:+ text +:+ " " else " ".

Definition dataCells (link : Z) (line : string) : list string :=
  let parts := Js.padTo (link + 1) EmptyString (cellsOf line) in
  Js.splice (link + 1) (githubCellOf (linkText link line))
    (Js.setAt link (websiteCellOf (linkText link line)) parts).

(** The cells of row number [k] of a table with a column [Link]. *)
Definition rowCells (link : Z) (k : nat) (line : string) : list string :=
  match k with
  | 0%nat => headerCells link line
  | 1%nat => separatorCells link line
  | _ => dataCells link line
  end.

(** The lines the script puts out for the lines of one table. *)
Definition tableOut (tbl : list string) : list string :=
  match tbl with
  | [] => []
  | header :: rest =>
      let link := linkOf header in
      if negb (-1 <? link) then tbl
      else
        joinCells (headerCells link header) ::
        match rest with
        | [] => []
        | sep :: data =>
            joinCells (separatorCells link sep) ::
            map (fun l => joinCells (dataCells link l)) data
        end
  end.

End SplitTable.

(** A table with a column [Link] and a table without one. *)
Definition linkTables : list string :=
  [ "## Libraries";
    "| Name | Link | Note |";
    "| --- | :---: | --- |";
    "| a | [Link](https://github.com/a/b) | x |";
    "| c | [Link](https://example.com) | y |";
    "text";
    "| Name | Website |";
    "| --- | --- |";
    "| d | |" ].

(** ** The GitHub link of a web page (fill-github-from-website.js) *)

Module Discover.

Import Links.

(** The rest of [s] after the match of
    [/https?:\\/\\/(?:www\\.)?github\\.com\\//i] at the head of [s]. *)
Definition githubRest (s : string) : option string :=
  match schemeLength s with
  | None => None
  | Some n =>
      let r := skip n s in
      let r := if Js.startsWith (Js.toLowerCase r) "www." then skip 4 r else r in
      if Js.startsWith (Js.toLowerCase r) "github.com/" then Some (skip 11 r)
      else None
  end.

(** The texts that [/https?:\\/\\/(?:www\\.)?github\\.com\\//i] matches, in
    lower case. *)
Definition githubPrefixes : list string :=
  [ "https://github.com/"; "http://github.com/";
    "https://www.github.com/"; "http://www.github.com/" ].

(** [isGithubRepoUrl(href)] *)
Definition isGithubRepoUrl (href : string) : bool :=
  if String.eqb href EmptyString then false else
  match githubRest href with
  | Some r =>
      let '(owner, r1) := Js.span repoChar r in
      if String.eqb owner EmptyString then false else
      match r1 with
      | String "/" r2 =>
          let '(repo, r3) := Js.span repoChar r2 in
          if String.eqb repo EmptyString then false
          else String.eqb r3 EmptyString || Js.startsWith r3 "/"
      | _ => false
      end
  | None => false
  end.

(** [isGithubUrl(href)]: the expression matches somewhere in [href]. *)
Fixpoint isGithubUrl (href : string) : bool :=
  match href with
  | EmptyString => false
  | String _ r =>
      match githubRest href with
      | Some _ => true
      | None => isGithubUrl r
      end
  end.

(** The character that closes [href="..."]. *)
Definition doubleQuote : ascii := Eval cbv in ascii_of_nat 34.
Definition singleQuote : ascii := "'"%char.

(** The match of [/href\\s*=\\s*q([^q]+)q/i] at the head of [s], for the
    quote [q]: the group and the length of the match. *)
Definition hrefAt (q : ascii) (s : string) : option (string * nat) :=
  if Js.startsWith (Js.toLowerCase s) "href" then
    let '(w1, r1) := Js.span Js.isWhiteSpace (skip 4 s) in
    match r1 with
    | String "=" r2 =>
        let '(w2, r3) := Js.span Js.isWhiteSpace r2 in
        match r3 with
        | String c r4 =>
            if Ascii.eqb c q then
              let '(g, r5) := Js.span (fun a => negb (Ascii.eqb a q)) r4 in
              if negb (String.eqb g EmptyString) && Js.startsWith r5 (String q EmptyString)
              then Some (g, (4 + String.length w1 + 1 + String.length w2 + 1
                             + String.length g + 1)%nat)
              else None
            else None
        | EmptyString => None
        end
    | _ => None
    end
  else None.

(** The class [[A-Za-z0-9_./-]]. *)
Definition rawChar (c : ascii) : bool := repoChar c || Ascii.eqb c "/".

(** The match of
    [/https?:\\/\\/(?:www\\.)?github\\.com\\/[A-Za-z0-9_.\\/-]+/i] at the
    head of [s]: the text of the match and its length. *)
Definition rawUrlAt (s : string) : option (string * nat) :=
  match githubRest s with
  | Some r =>
      let '(g, _) := Js.span rawChar r in
      if String.eqb g EmptyString then None
      else
        let len := (String.length s - String.length r + String.length g)%nat in
        Some (String.substring 0 len s, len)
  | None => None
  end.

(** [while ((match = re.exec(html)) !== null)] for a global expression
    that matches no empty text: the matches from left to right, each
    search starting where the match before ended.  [skipN] characters are
    still inside the last match. *)
Fixpoint scanAll {A} (matchAt : string -> option (A * nat)) (skipN : nat)
    (s : string) : list A :=
  match s with
  | EmptyString => []
  | String _ r =>
      match skipN with
      | S k => scanAll matchAt k r
      | O =>
          match matchAt s with
          | Some (g, len) => g :: scanAll matchAt (len - 1) r
          | None => scanAll matchAt 0 r
          end
      end
  end.

(** [hrefs.add(h)] on a [Set], which keeps the order of insertion. *)
Definition addTo (h : string) (hrefs : list string) : list string :=
  if bool_decide (h ∈ hrefs) then hrefs else hrefs ++ [h].

Definition addGithub (hrefs : list string) (h : string) : list string :=
  if isGithubUrl h then addTo h hrefs else hrefs.

(** The set [hrefs] after the three loops. *)
Definition hrefsOf (html : string) : list string :=
  let hrefs := fold_left addGithub (scanAll (hrefAt doubleQuote) 0 html) [] in
  let hrefs := fold_left addGithub (scanAll (hrefAt singleQuote) 0 html) hrefs in
  fold_left (fun hs h => addTo h hs) (scanAll rawUrlAt 0 html) hrefs.

(** [h.startsWith('//') ? 'https:' + h : h] *)
Definition expand (h : string) : string :=
  if Js.startsWith h "//" then "https:" +:+ h else h.

(** [findGithubLinkInHtml(html)] *)
Definition findGithubLinkInHtml (html : string) : option string :=
  if String.eqb html EmptyString then None else
  let hrefs := hrefsOf html in
  if (length hrefs =? 0)%nat then None else
  match find isGithubRepoUrl (map expand hrefs) with
  | Some full => Some full
  | None => head (map expand hrefs)
  end.

(** A page with three links. *)
Definition page : string :=
  "<a href='https://github.com/sponsors'>s</a> <a HREF = 'https://GitHub.com/acme/ui/'>code</a> see https://github.com/acme/ui.git".

End Discover.

(** ** fill-github-stars.js: a lookup that throws *)

Module FillRun.

Import Tables FillStars.

(** What [httpsGetJson] resolves to for [githubApiFetchRepo]: a result for
    which [githubApiFetchRepo] returns the [Response] [res] to [main], or
    [NullJson], a success (a status from 200 to 299) whose body is the
    JSON text [null].  For that one [res.json.stargazers_count] throws a
    [TypeError]: the promise of [main] is rejected and [main().catch]
    ends the process, before [apiCalls++] and before any [writeFile]. *)
Inductive Reply :=
  | Returns (res : Response)
  | NullJson.

(** The loop stops at the exception as it stops at a rate limit. *)
Definition asResponse (r : Reply) : Response :=
  match r with
  | Returns res => res
  | NullJson => RateLimited
  end.

(** The end of a run: the lines of README.md after it, the state of the
    loop over the jobs when it ended, and whether it ended by the
    exception. *)
Record Outcome := mkOutcome {
  readme : list string;
  final : RunState;
  threw : bool
}.

Section Run.

(** [httpsGetJson n path]: what the request number [n] of the run (from
    0), for [path], resolves to. *)
Variable httpsGetJson : nat -> string -> Reply.

(** The loop over the jobs, and whether [githubApiFetchRepo] threw.  The
    call that throws is logged in [lookups]. *)
Fixpoint runJobs (jobs : list Job) (st : RunState) : RunState * bool :=
  match jobs with
  | [] => (st, false)
  | job :: rest =>
      match cached st (repo job) with
      | Some stars => runJobs rest (written st job stars)
      | None =>
          let called (c : gmap string (option Z)) (hit : bool) :=
            mkRun (lines st) c (S (apiCalls st)) (rowsUpdated st) hit
                  (lookups st ++ [repo job]) in
          match httpsGetJson (apiCalls st) (requestPath (repo job)) with
          | NullJson =>
              (mkRun (lines st) (cache st) (apiCalls st) (rowsUpdated st)
                     (hitRateLimit st) (lookups st ++ [repo job]), true)
          | Returns RateLimited => (called (cache st) true, false)
          | Returns Failed => runJobs rest (called (cache st) (hitRateLimit st))
          | Returns (Ok stars) =>
              let st' := called (<[repo job := stars]> (cache st)) (hitRateLimit st) in
              match stars with
              | None => runJobs rest st'
              | Some v => runJobs rest (written st' job v)
              end
          end
      end
  end.

(** [main], for the lines [lines0] of README.md: the file is written
    when a row was updated or a table touched, and not at all when a
    lookup throws. *)
Definition main (lines0 : list string) : Outcome :=
  let '(lines, jobs, touched) := scan lines0 in
  if (length jobs =? 0)%nat then
    mkOutcome (if (0 <? touched)%nat then lines else lines0) (start lines) false
  else
    let '(st, threw) := runJobs jobs (start lines) in
    mkOutcome (if threw then lines0
               else if (0 <? rowsUpdated st)%nat || (0 <? touched)%nat
                    then FillStars.lines st else lines0)
              st threw.

(** C6 as stated: no two lookups of a run are for the same normalized
    repository, the lower-case owner and name of the request. *)
Definition LookedUpOnce (lines0 : list string) : Prop :=
  NoDup (map requestPath (lookups (final (main lines0)))).

End Run.

End FillRun.

(** ** fill-github-from-website.js: the file that is written *)

Module WebsiteRun.

Import Links FromWebsite.

(** What the fetch of a website and the search of its page come to:
    [Found link]; [NoLink], when there is no link in the page or the
    fetch fails in a way the loop skips (a result that is not [ok], a
    rejected promise); or [Uncaught], an exception thrown in the callback
    of a response, outside the promise ([new URL] of a [Location] header
    that is no URL), which ends the process before [writeFile]. *)
Inductive Visit :=
  | Found (link : string)
  | NoLink
  | Uncaught.

(** The character that [content.split] and [lines.join] are called
    with. *)
Definition lineFeed : ascii := Eval cbv in ascii_of_nat 10.

Section Run.

Variable URL : string -> option string.

(** [visit n url]: the fetch number [n] of the run (from 0), of [url]. *)
Variable visit : nat -> string -> Visit.

Definition discover (n : nat) (url : string) : option string :=
  match visit n url with
  | Found link => Some link
  | _ => None
  end.

(** The loop over the updates, [None] when the process ends in it. *)
Fixpoint applyUpdates (n : nat) (updates : list Update)
    (st : list string * nat) : option (list string * nat) :=
  match updates with
  | [] => Some st
  | up :: rest =>
      match visit n (websiteUrl up) with
      | Found found =>
          if String.eqb found EmptyString then applyUpdates (S n) rest st
          else applyUpdates (S n) rest (writeLink st.1 up found, S st.2)
      | NoLink => applyUpdates (S n) rest st
      | Uncaught => None
      end
  end.

(** [main]: the content of README.md after the script, for its content
    before. *)
Definition main (content : string) : string :=
  let lines := Js.split lineFeed content in
  let updates := flat_map (updatesOf URL lines) (parseTables lines) in
  if (length updates =? 0)%nat then content
  else
    match applyUpdates 0 updates (lines, 0%nat) with
    | Some (lines', applied) =>
        if (0 <? applied)%nat then Js.join (String lineFeed EmptyString) lines'
        else content
    | None => content
    end.

End Run.

End WebsiteRun.

(** A table whose data row ends before the column [Github]. *)
Definition raggedTable : list string :=
  [ "| Name | Github | Note |";
    "| --- | --- | --- |";
    "| a" ].

(** Two rows for one repository, in two spellings. *)
Definition twoSpellings : list string :=
  [ "| Name | Github | GitHub Stars |";
    "| --- | --- | --- |";
    "| a | https://github.com/Acme/UI | |";
    "| b | https://github.com/acme/ui | |" ].

(** A table without a column [Github], whose lines have no closing
    pipe. *)
Definition siteTable : list string :=
  [ "| Name | Site";
    "| --- | ---" ].

(** The content of a README.md with a website and no repository. *)
Definition siteReadme : string :=
  Js.join (String WebsiteRun.lineFeed EmptyString)
    [ "| Name | Website | Github |";
      "| --- | --- | --- |";
      "| a | https://a.dev | |" ].

(** Three rows, the first and the last for one repository. *)
Definition repoAgain : list string :=
  [ "| Github | GitHub Stars |";
    "| --- | --- |";
    "| https://github.com/a/b | |";
    "| https://github.com/c/d | |";
    "| https://github.com/a/b | |" ].

(** The API gives 5 stars to the first request; every later request is
    answered by [later]. *)
Definition firstThen (later : FillRun.Reply) (n : nat) (path : string)
  : FillRun.Reply :=
  match n with
  | 0%nat => FillRun.Returns (FillStars.Ok (Some 5))
  | _ => later
  end.

(** * Properties *)

(** ** Strings and arrays *)

Section StringFacts.

Lemma split_nonempty sep s : Js.split sep s <> [].
Proof.
  destruct s as [|c r]; simpl; [discriminate|].
  destruct (Ascii.eqb c sep); [discriminate|].
  destruct (Js.split sep r); discriminate.
Qed.

Lemma split_length_pos sep s : (0 < length (Js.split sep s))%nat.
Proof.
  pose proof (split_nonempty sep s). destruct (Js.split sep s); simpl; [done|lia].
Qed.

Lemma split_no_sep sep s :
  Forall (fun x => Js.contains sep x = false) (Js.split sep s).
Proof.
  induction s as [|c r IH]; simpl.
  - by constructor.
  - destruct (Ascii.eqb c sep) eqn:E.
    + by constructor.
    + destruct (Js.split sep r) as [|hd tl].
      * constructor; [|done]. simpl. by rewrite E.
      * inversion IH; subst. constructor; [|done]. simpl. by rewrite E.
Qed.

Lemma split_app_sep sep x s :
  Js.contains sep x = false ->
  Js.split sep (x +:+ String sep s) = x :: Js.split sep s.
Proof.
  induction x as [|c r IH]; simpl; intros H.
  - by rewrite Ascii.eqb_refl.
  - apply orb_false_iff in H as [Hc Hr]. rewrite Hc, (IH Hr). done.
Qed.

Lemma split_id sep x :
  Js.contains sep x = false -> Js.split sep x = [x].
Proof.
  induction x as [|c r IH]; simpl; intros H; [done|].
  apply orb_false_iff in H as [Hc Hr]. by rewrite Hc, (IH Hr).
Qed.

(** Splitting what was joined gives the parts back, when no part holds
    the separator. *)
Lemma split_join sep l :
  l <> [] -> Forall (fun x => Js.contains sep x = false) l ->
  Js.split sep (Js.join (String sep EmptyString) l) = l.
Proof.
  induction l as [|x l IH]; [done|]. intros _ H.
  inversion H as [|? ? Hx Hl]; subst.
  destruct l as [|y l]; simpl.
  - by apply split_id.
  - change (Js.split sep (x +:+ String sep (Js.join (String sep EmptyString) (y :: l)))
            = x :: y :: l).
    rewrite split_app_sep by done. f_equal. by apply IH.
Qed.

Lemma join_split sep s : Js.join (String sep EmptyString) (Js.split sep s) = s.
Proof.
  induction s as [|c r IH]; simpl; [done|].
  destruct (Ascii.eqb c sep) eqn:E.
  - apply Ascii.eqb_eq in E. subst c.
    pose proof (split_nonempty sep r).
    destruct (Js.split sep r) eqn:Er; [done|]. simpl in *. by rewrite IH.
  - pose proof (split_nonempty sep r).
    destruct (Js.split sep r) as [|hd tl] eqn:Er; [done|].
    destruct tl; simpl in *; by rewrite <- IH.
Qed.

Lemma startsWith_char s c :
  Js.startsWith s (String c EmptyString) = true <-> exists r, s = String c r.
Proof.
  destruct s as [|a r]; simpl.
  - split; [done|]. by intros [? ?].
  - rewrite andb_true_r. split.
    + intros H. apply Ascii.eqb_eq in H. subst. eauto.
    + intros [r' [= -> ->]]. apply Ascii.eqb_refl.
Qed.

Lemma endsWith_char s c :
  Js.endsWith s (String c EmptyString) = true <->
  exists r, s = r +:+ String c EmptyString.
Proof.
  induction s as [|a r IH]; cbn [Js.endsWith].
  - split; [done|]. intros [[|? ?] H]; simpl in H; discriminate.
  - rewrite orb_true_iff, IH. split.
    + intros [H|[r' ->]].
      * apply String.eqb_eq in H. exists EmptyString. by rewrite H.
      * by exists (String a r').
    + intros [[|b r'] H]; cbn [String.append] in H.
      * left. rewrite H. apply String.eqb_refl.
      * injection H as -> ->. right. eauto.
Qed.

Lemma findIndex_range {A} (pred : A -> bool) l :
  Js.findIndex pred l = -1 \/
  0 <= Js.findIndex pred l < Z.of_nat (length l).
Proof.
  induction l as [|x l IH]; simpl; [by left|].
  destruct (pred x); [right; lia|].
  destruct (Z.eqb_spec (Js.findIndex pred l) (-1)); [by left|right; lia].
Qed.

Lemma findIndex_none {A} (pred : A -> bool) l :
  Js.findIndex pred l = -1 <-> Forall (fun x => pred x = false) l.
Proof.
  induction l as [|x l IH]; simpl.
  - split; [by constructor|done].
  - destruct (pred x) eqn:E.
    + split; [done|]. inversion 1; congruence.
    + pose proof (findIndex_range pred l).
      destruct (Z.eqb_spec (Js.findIndex pred l) (-1)) as [Hm|Hm].
      * split; [|done]. intros _. constructor; [done|]. by apply IH.
      * split; [lia|]. inversion 1; subst. tauto.
Qed.

Lemma splice_length {A} k (x : A) l :
  length (Js.splice k x l) = S (length l).
Proof.
  unfold Js.splice. rewrite length_app. simpl.
  rewrite length_take, length_drop. lia.
Qed.

Lemma splice_Forall {A} (P : A -> Prop) k x l :
  P x -> Forall P l -> Forall P (Js.splice k x l).
Proof.
  intros Hx Hl. unfold Js.splice. apply Forall_app. split.
  - by apply Forall_take.
  - constructor; [done|]. by apply Forall_drop.
Qed.

(** Where [splice] puts the new element when [start] is inside the
    array. *)
Lemma splice_lookup {A} k (x : A) l :
  0 <= k <= Z.of_nat (length l) ->
  Js.splice k x l !! Z.to_nat k = Some x /\
  Js.splice k x l = take (Z.to_nat k) l ++ x :: drop (Z.to_nat k) l.
Proof.
  intros Hk. unfold Js.splice.
  destruct (Z.ltb_spec k 0); [lia|].
  rewrite Z.min_l by lia. split; [|done].
  rewrite lookup_app_r; rewrite length_take; [|lia].
  replace (Z.to_nat k - Z.to_nat k `min` length l)%nat with 0%nat by lia. done.
Qed.

Lemma splice_ne_nil {A} k (x : A) l : Js.splice k x l <> [].
Proof.
  intros H. apply (f_equal length) in H. rewrite splice_length in H. done.
Qed.

End StringFacts.

(** The cells of a line hold no pipe; a line put together from such cells
    splits into them again. *)
Lemma cellsOf_joinCells parts :
  parts <> [] -> Forall (fun x => Js.contains "|" x = false) parts ->
  Tables.cellsOf (Tables.joinCells parts) = parts.
Proof. apply split_join. Qed.

Lemma cellsOf_splice k cell line :
  Js.contains "|" cell = false ->
  Tables.cellsOf (Tables.joinCells (Js.splice k cell (Tables.cellsOf line)))
  = Js.splice k cell (Tables.cellsOf line).
Proof.
  intros Hc. apply cellsOf_joinCells; [apply splice_ne_nil|].
  apply splice_Forall; [done|apply split_no_sep].
Qed.

Lemma separatorCellFrom_cases cell :
  separatorCellFrom cell ∈ [":---:"; ":---"; "---:"; "---"].
Proof.
  unfold separatorCellFrom.
  destruct (Js.startsWith _ _), (Js.endsWith _ _); simpl; set_solver.
Qed.

Lemma separatorCell_no_pipe cell :
  Js.contains "|" (" " +:+ separatorCellFrom cell +:+ " ") = false.
Proof.
  pose proof (separatorCellFrom_cases cell) as H.
  repeat (apply elem_of_cons in H as [->|H]; [reflexivity|]).
  by apply elem_of_nil in H.
Qed.

(** A header has the column [name] exactly when [idxOf] finds it. *)
Lemma hasColumn_idxOf header name :
  Tables.hasColumn header name <->
  Tables.idxOf (map Js.trim (Tables.cellsOf header)) name <> -1.
Proof.
  unfold Tables.hasColumn, Tables.idxOf. rewrite findIndex_none.
  rewrite Forall_fmap, Forall_forall. split.
  - intros (cell & Hin & Heq) Hall. specialize (Hall _ Hin). simpl in Hall.
    rewrite Heq, String.eqb_refl in Hall. done.
  - intros Hn.
    destruct (decide (Exists (fun cell => Js.toLowerCase (Js.trim cell) = Js.toLowerCase name)
                        (Tables.cellsOf header))) as [He|He].
    + apply Exists_exists in He as (cell & ? & ?). eauto.
    + exfalso. apply Hn. intros cell Hin. simpl.
      apply String.eqb_neq. intros Heq. apply He, Exists_exists. eauto.
Qed.

(** ** Numbers: no operation of [parseStars] yields NaN *)

Section NumberFacts.

Import Num.

Lemma iter_pos_invariant {A} (P : A -> Prop) (f : A -> A) :
  (forall x, P x -> P (f x)) -> forall p x, P x -> P (SpecFloat.iter_pos f p x).
Proof.
  intros Hf. induction p as [p IH|p IH|]; simpl; intros x Hx; auto.
Qed.

Lemma shr_1_nonneg mrs : 0 <= shr_m mrs -> 0 <= shr_m (shr_1 mrs).
Proof.
  destruct mrs as [m r s]. simpl. destruct m as [|p|p]; [done| |lia].
  intros _. destruct p; simpl; lia.
Qed.

Lemma shr_nonneg mrs e n : 0 <= shr_m mrs -> 0 <= shr_m (shr mrs e n).1.
Proof.
  intros H. unfold shr. destruct n; simpl; [done| |done].
  by apply (iter_pos_invariant (fun r => 0 <= shr_m r)); [apply shr_1_nonneg|].
Qed.

Lemma shr_fexp_nonneg m e l :
  0 <= m -> 0 <= shr_m (shr_fexp prec emax m e l).1.
Proof.
  intros H. unfold shr_fexp. apply shr_nonneg.
  destruct l as [|[]]; simpl; done.
Qed.

Lemma round_nearest_even_nonneg m l : 0 <= m -> 0 <= round_nearest_even m l.
Proof.
  intros H. unfold round_nearest_even.
  destruct l as [|[]]; try done; try lia. destruct (Z.even m); lia.
Qed.

Lemma binary_round_aux_not_nan sx mx ex lx :
  0 <= mx -> isNaN (binary_round_aux prec emax sx mx ex lx) = false.
Proof.
  intros H. unfold binary_round_aux.
  pose proof (shr_fexp_nonneg mx ex lx H) as H1.
  destruct (shr_fexp prec emax mx ex lx) as [mrs' e'] eqn:E1. simpl in H1.
  pose proof (shr_fexp_nonneg _ e' loc_Exact
                (round_nearest_even_nonneg _ (loc_of_shr_record mrs') H1)) as H2.
  destruct (shr_fexp prec emax (round_nearest_even _ _) e' loc_Exact)
    as [mrs'' e''] eqn:E2. simpl in H2.
  destruct (shr_m mrs'') as [|p|p]; [done| |lia].
  by destruct (_ <=? _).
Qed.

Lemma binary_round_not_nan sx mx ex :
  isNaN (binary_round prec emax sx mx ex) = false.
Proof.
  unfold binary_round. destruct (shl_align _ _ _) as [mz ez].
  by apply binary_round_aux_not_nan.
Qed.

Lemma binary_normalize_not_nan m e s :
  isNaN (binary_normalize prec emax m e s) = false.
Proof. destruct m; simpl; [done|apply binary_round_not_nan..]. Qed.

Lemma round_not_nan x : isNaN x = false -> isNaN (round x) = false.
Proof.
  destruct x as [s|s| |s m e]; simpl; try done. intros _.
  destruct (0 <=? e); [done|]. apply binary_normalize_not_nan.
Qed.

Lemma mul_1000_not_nan x : isNaN x = false -> isNaN (mul x (ofZ 1000)) = false.
Proof.
  assert (exists m e, ofZ 1000 = S754_finite false m e) as (m & e & ->)
    by (vm_compute; eauto).
  destruct x as [s|s| |s mx ex]; simpl; try done. intros _.
  by apply binary_round_aux_not_nan.
Qed.

(** A star value is never NaN. *)
Lemma parseStars_not_nan cell x :
  Stars.parseStars cell = Some x -> isNaN x = false.
Proof.
  unfold Stars.parseStars.
  destruct (String.eqb cell EmptyString); [done|].
  destruct (String.eqb (Js.trim cell) EmptyString); [done|].
  destruct (Stars.matchK _) as [g|].
  - destruct (isNaN (parseFloat g)) eqn:En; simpl.
    + destruct (Number _); simpl; intros [= <-]; done.
    + intros [= <-]. by apply round_not_nan, mul_1000_not_nan.
  - destruct (Number _); simpl; intros [= <-]; done.
Qed.

End NumberFacts.

(** ** Tables are the maximal runs of table lines *)

Section TableFacts.

Import Tables.

Lemma findTables_go lines : forall i acc cur,
  (fold_left findStep lines
     (i, match cur with Some _ => true | None => false end,
      acc ++ option_list cur)).2
  = acc ++ tablesFrom i cur lines.
Proof.
  induction lines as [|line rest IH]; intros i acc cur; simpl.
  - done.
  - destruct (isTableLine line) eqn:E, cur as [c|]; simpl.
    + replace (length (acc ++ [c]) - 1)%nat with (length acc + 0)%nat
        by (rewrite length_app; simpl; lia).
      rewrite alter_app_r. simpl. apply (IH (S i) acc (Some (pushRow i c))).
    + rewrite app_nil_r. apply (IH (S i) acc (Some (mkTable i [i]))).
    + pose proof (IH (S i) (acc ++ [c]) None) as H. simpl in H.
      rewrite app_nil_r in H. by rewrite H, <- app_assoc.
    + apply (IH (S i) acc None).
Qed.

(** [findTables] and its recursive presentation agree. *)
Lemma findTables_tablesFrom lines : findTables lines = tablesFrom 0 None lines.
Proof. apply (findTables_go lines 0%nat [] None). Qed.

Lemma isTableAt_lt lines i : isTableAt lines i = true -> (i < length lines)%nat.
Proof.
  unfold isTableAt. destruct (lines !! i) eqn:E; [|done].
  intros _. by apply lookup_lt_Some in E.
Qed.

Lemma drop_cons_inv {A} (l : list A) i x r :
  drop i l = x :: r -> l !! i = Some x /\ drop (S i) l = r.
Proof.
  intros H. split.
  - rewrite <- (Nat.add_0_r i), <- lookup_drop, H. done.
  - replace (S i) with (i + 1)%nat by lia. rewrite <- drop_drop, H. done.
Qed.

Lemma drop_nil_isTableAt lines i : drop i lines = [] -> isTableAt lines i = false.
Proof.
  intros H. apply (f_equal length) in H. rewrite length_drop in H. simpl in H.
  unfold isTableAt. rewrite lookup_ge_None_2; [done|lia].
Qed.

Lemma tablesFrom_sound lines : forall rest i cur,
  drop i lines = rest -> OpenOK lines i cur ->
  forall t, t ∈ tablesFrom i cur rest -> MaximalRun lines t.
Proof.
  assert (Hclose : forall i c, OpenOK lines i (Some c) ->
            isTableAt lines i = false -> MaximalRun lines c).
  { intros i c (Hr & Hlt & Hl & Hb) Hi.
    assert (Hlen : length (rows c) = (i - startIndex c)%nat)
      by (rewrite Hr at 1; apply length_seq).
    split.
    - by rewrite Hlen.
    - lia.
    - intros j Hj. rewrite Hr in Hj. apply elem_of_seq in Hj. apply Hl. lia.
    - done.
    - unfold endIndex. rewrite Hlen.
      replace (startIndex c + (i - startIndex c))%nat with i by lia. done. }
  induction rest as [|line rest IH]; intros i cur Hd Hok t Ht; simpl in Ht.
  - apply drop_nil_isTableAt in Hd.
    destruct cur as [c|]; [|by apply elem_of_nil in Ht].
    apply list_elem_of_singleton in Ht as ->. eauto.
  - apply drop_cons_inv in Hd as [Hi Hd].
    assert (isTableAt lines i = isTableLine line) as Hti
      by (unfold isTableAt; by rewrite Hi).
    replace (S i - 1)%nat with i in * by lia.
    destruct (isTableLine line) eqn:E.
    + destruct cur as [c|]; (eapply IH; [exact Hd| |exact Ht]).
      * destruct Hok as (Hr & Hlt & Hl & Hb). simpl.
        split; [|split; [|split]].
        -- rewrite Hr. replace (S i - startIndex c)%nat
             with (S (i - startIndex c)) by lia.
           rewrite seq_S. do 2 f_equal. lia.
        -- lia.
        -- intros j Hj. destruct (decide (j = i)) as [->|]; [done|].
           apply Hl. lia.
        -- exact Hb.
      * simpl. split; [|split; [|split]].
        -- replace (S i - i)%nat with 1%nat by lia. done.
        -- lia.
        -- intros j Hj. by replace j with i by lia.
        -- destruct Hok as [->|Hok]; [by left|by right].
    + destruct cur as [c|].
      * apply elem_of_cons in Ht as [->|Ht]; [eauto|].
        eapply IH; [exact Hd| |exact Ht]. right.
        by replace (S i - 1)%nat with i by lia.
      * eapply IH; [exact Hd| |exact Ht]. right.
        by replace (S i - 1)%nat with i by lia.
Qed.

(** Every table of [findTables] is a maximal run of table lines. *)
Lemma findTables_sound lines t : t ∈ findTables lines -> MaximalRun lines t.
Proof.
  rewrite findTables_tablesFrom.
  apply (tablesFrom_sound lines lines 0%nat None); [done|by left].
Qed.

(** Every table line is in a table of [findTables]. *)
Lemma tablesFrom_complete lines : forall rest i cur,
  drop i lines = rest ->
  forall j,
    ((i <= j)%nat /\ isTableAt lines j = true) \/
    (exists c, cur = Some c /\ j ∈ rows c) ->
    exists t, t ∈ tablesFrom i cur rest /\ j ∈ rows t.
Proof.
  induction rest as [|line rest IH]; intros i cur Hd j Hj; simpl.
  - destruct Hj as [[Hij Hj]|(c & -> & Hj)].
    + apply isTableAt_lt in Hj.
      apply (f_equal length) in Hd. rewrite length_drop in Hd. simpl in Hd. lia.
    + exists c. split; [set_solver|done].
  - apply drop_cons_inv in Hd as [Hi Hd].
    assert (isTableAt lines i = isTableLine line) as Hti
      by (unfold isTableAt; by rewrite Hi).
    destruct (isTableLine line) eqn:E.
    + destruct cur as [c|]; apply (IH _ _ Hd);
        (destruct Hj as [[Hij Hj]|(c' & Hc & Hj)];
         [destruct (decide (j = i)) as [->|];
          [right; eexists; split; [done|simpl; set_solver]|left; split; [lia|done]]
         |]).
      * injection Hc as <-. right. eexists; split; [done|simpl; set_solver].
      * done.
    + destruct Hj as [[Hij Hj]|(c' & -> & Hj)].
      * assert (j <> i) by (intros ->; congruence).
        destruct (IH (S i) None Hd j) as (t & Ht & Hjt); [left; split; [lia|done]|].
        exists t. split; [|done]. destruct cur; set_solver.
      * exists c'. split; [set_solver|done].
Qed.

Lemma findTables_complete lines j :
  isTableAt lines j = true -> exists t, t ∈ findTables lines /\ j ∈ rows t.
Proof.
  intros Hj. rewrite findTables_tablesFrom.
  apply (tablesFrom_complete lines lines 0%nat None); [done|].
  left. split; [lia|done].
Qed.

Lemma tablesFrom_sorted : forall rest i cur,
  (forall c, cur = Some c -> endIndex c = i) ->
  StronglySorted before (tablesFrom i cur rest) /\
  Forall (fun t => (match cur with Some c => startIndex c | None => i end
                    <= startIndex t)%nat) (tablesFrom i cur rest).
Proof.
  induction rest as [|line rest IH]; intros i cur Hc; simpl.
  - destruct cur as [c|]; split; repeat constructor.
  - destruct (isTableLine line).
    + destruct cur as [c|].
      * destruct (IH (S i) (Some (pushRow i c))) as [H1 H2]; [|done].
        intros c' [= <-]. unfold endIndex in *. simpl. rewrite length_app. simpl.
        specialize (Hc c eq_refl). lia.
      * destruct (IH (S i) (Some (mkTable i [i]))) as [H1 H2]; [|done].
        intros c' [= <-]. unfold endIndex. simpl. lia.
    + destruct (IH (S i) None) as [H1 H2]; [done|].
      destruct cur as [c|].
      * specialize (Hc c eq_refl). split.
        -- constructor; [done|]. eapply Forall_impl; [exact H2|].
           intros t Ht. unfold before. simpl in Ht. lia.
        -- constructor; [done|]. eapply Forall_impl; [exact H2|].
           intros t Ht. simpl in Ht. unfold endIndex in Hc. lia.
      * split; [done|]. eapply Forall_impl; [exact H2|]. intros t Ht. simpl in Ht. lia.
Qed.

Lemma findTables_sorted lines : StronglySorted before (findTables lines).
Proof.
  rewrite findTables_tablesFrom. by apply (tablesFrom_sorted lines 0%nat None).
Qed.

Lemma run_range lines t i :
  MaximalRun lines t -> i ∈ rows t <-> (startIndex t <= i < endIndex t)%nat.
Proof.
  intros [Hr _ _ _ _]. rewrite Hr at 1. rewrite elem_of_seq. unfold endIndex. lia.
Qed.

Lemma run_rows_lt lines t i :
  MaximalRun lines t -> i ∈ rows t -> (i < length lines)%nat.
Proof. intros H Hi. by apply isTableAt_lt, (run_lines _ _ H). Qed.

Lemma run_NoDup lines t : MaximalRun lines t -> NoDup (rows t).
Proof. intros [Hr _ _ _ _]. rewrite Hr. apply NoDup_seq. Qed.

(** The rows of a table index lines of the document. *)
Lemma findTables_rows_lt lines t i :
  t ∈ findTables lines -> i ∈ rows t -> (i < length lines)%nat.
Proof. intros Ht. apply run_rows_lt. by apply findTables_sound. Qed.

Lemma sorted_apart lines ts :
  Forall (MaximalRun lines) ts -> StronglySorted before ts ->
  StronglySorted apart ts.
Proof.
  intros Hall Hs. induction Hs as [|a ts Hs IH Ha]; [constructor|].
  inversion Hall as [|? ? Hra Hrts]; subst. constructor; [by apply IH|].
  apply Forall_forall. intros b Hb i Hia Hib.
  rewrite Forall_forall in Ha, Hrts. specialize (Ha b Hb).
  apply (run_range lines a i Hra) in Hia.
  apply (run_range lines b i (Hrts b Hb)) in Hib.
  unfold before in Ha. lia.
Qed.

Lemma findTables_apart lines : StronglySorted apart (findTables lines).
Proof.
  apply (sorted_apart lines); [|apply findTables_sorted].
  apply Forall_forall. intros t. apply findTables_sound.
Qed.

Lemma apart_elem_of ts a b i :
  StronglySorted apart ts -> a ∈ ts -> b ∈ ts ->
  i ∈ rows a -> i ∈ rows b -> a = b.
Proof.
  induction 1 as [|c ts Hs IH Hc]; intros Ha Hb Hia Hib; [by apply elem_of_nil in Ha|].
  rewrite Forall_forall in Hc.
  apply elem_of_cons in Ha as [->|Ha], Hb as [->|Hb]; [done| | |by apply IH].
  - exfalso. by apply (Hc b Hb i).
  - exfalso. by apply (Hc a Ha i).
Qed.

(** A line is outside every table exactly when it is no table line. *)
Lemma outside_tables lines i :
  (forall t, t ∈ findTables lines -> i ∉ rows t) <-> isTableAt lines i = false.
Proof.
  split.
  - intros H. destruct (isTableAt lines i) eqn:E; [|done].
    destruct (findTables_complete lines i E) as (t & Ht & Hi). by destruct (H t Ht).
  - intros H t Ht Hi. apply findTables_sound in Ht.
    rewrite (run_lines _ _ Ht i Hi) in H. done.
Qed.

End TableFacts.

(** ** A loop over the tables that edits each table in place *)

Section Frame.

Import Tables.

Variable proc : list string -> Table -> list string.

Hypothesis proc_length : forall L t, length (proc L t) = length L.
Hypothesis proc_outside :
  forall L t i, i ∉ rows t -> proc L t !! i = L !! i.
Hypothesis proc_local :
  forall L L' t, length L = length L' ->
    (forall i, i ∈ rows t -> L !! i = L' !! i) ->
    forall i, i ∈ rows t -> proc L t !! i = proc L' t !! i.

Lemma fold_tables_length ts : forall L, length (fold_left proc ts L) = length L.
Proof using proc_length.
  induction ts as [|a ts IH]; intros L; simpl; [done|].
  by rewrite IH, proc_length.
Qed.

Lemma fold_tables_outside ts : forall L i,
  (forall t, t ∈ ts -> i ∉ rows t) -> fold_left proc ts L !! i = L !! i.
Proof using proc_outside.
  induction ts as [|a ts IH]; intros L i H; simpl; [done|].
  rewrite IH by (intros t Ht; apply H; by apply list_elem_of_further).
  apply proc_outside, H. apply list_elem_of_here.
Qed.

(** Each table is edited as if it were the only one. *)
Lemma fold_tables_inside ts : forall L t i,
  StronglySorted apart ts -> t ∈ ts -> i ∈ rows t ->
  fold_left proc ts L !! i = proc L t !! i.
Proof using proc_length proc_outside proc_local.
  induction ts as [|a ts IH]; intros L t i Hs Ht Hi; [by apply elem_of_nil in Ht|].
  apply StronglySorted_inv in Hs as [Hs Ha]. rewrite Forall_forall in Ha.
  simpl. apply elem_of_cons in Ht as [->|Ht].
  - apply fold_tables_outside. intros t Ht. by apply (Ha t Ht).
  - rewrite (IH _ t i Hs Ht Hi).
    apply proc_local; [apply proc_length| |done].
    intros j Hj. apply proc_outside. intros Hja. by apply (Ha t Ht j).
Qed.

End Frame.

(** ** The order of numbers *)

Section NumberOrder.

Lemma SFcompare_ord x y :
  Num.isNaN x = false -> Num.isNaN y = false ->
  SFcompare x y = Some (Num.lex3 (Num.ord x) (Num.ord y)).
Proof.
  destruct x as [sx|sx| |sx mx ex], y as [sy|sy| |sy my ey]; try done;
    intros _ _; simpl; try (by destruct sx); try (by destruct sy);
    try (by destruct sx, sy).
  destruct sx, sy; simpl; try done.
  - rewrite Z.compare_opp, (Z.compare_antisym ex ey).
    by destruct (ex ?= ey).
Qed.

Lemma lex3_spec a b :
  let '(a1, a2, a3) := a in
  let '(b1, b2, b3) := b in
  CompareSpec (a = b)
    (a1 < b1 \/ a1 = b1 /\ (a2 < b2 \/ a2 = b2 /\ a3 < b3))
    (b1 < a1 \/ a1 = b1 /\ (b2 < a2 \/ a2 = b2 /\ b3 < a3))
    (Num.lex3 a b).
Proof.
  destruct a as [[a1 a2] a3], b as [[b1 b2] b3]. simpl.
  destruct (Z.compare_spec a1 b1); [|constructor; lia..].
  destruct (Z.compare_spec a2 b2); [|constructor; lia..].
  destruct (Z.compare_spec a3 b3); constructor; subst; (done || lia).
Qed.

End NumberOrder.

(** ** Sorting *)

Section SortFacts.

Import Tables SortByStars.

Lemma insertBy_perm {A} cmp (x : A) l : insertBy cmp x l ≡ₚ x :: l.
Proof.
  induction l as [|y r IH]; simpl; [done|].
  destruct (cmp x y); try done. rewrite IH. apply Permutation_swap.
Qed.

Lemma sortBy_perm {A} cmp (l : list A) : sortBy cmp l ≡ₚ l.
Proof.
  induction l as [|x l IH]; simpl; [done|].
  unfold sortBy in IH. by rewrite insertBy_perm, IH.
Qed.

Section Sorted.

Context {A : Type} (cmp : A -> A -> comparison) (P : A -> Prop).

Hypothesis cmp_trans : forall a b c, P a -> P b -> P c ->
  cmp a b <> Gt -> cmp b c <> Gt -> cmp a c <> Gt.
Hypothesis cmp_total : forall a b, P a -> P b -> cmp a b = Gt -> cmp b a <> Gt.

Let le (a b : A) : Prop := cmp a b <> Gt.

Lemma insertBy_sorted x l :
  P x -> Forall P l -> StronglySorted le l -> StronglySorted le (insertBy cmp x l).
Proof.
  intros Hx Hl Hs. induction Hs as [|y r Hs IH Hy]; simpl.
  - repeat constructor.
  - apply Forall_cons in Hl as [Py Pr].
    assert (cmp x y <> Gt -> StronglySorted le (x :: y :: r)) as Hle.
    { intros E. constructor; [by constructor|]. constructor; [done|].
      rewrite Forall_forall in Hy, Pr. apply Forall_forall. intros z Hz.
      apply (cmp_trans x y z); auto. by apply Hy. }
    destruct (cmp x y) eqn:E; [by apply Hle|by apply Hle|].
    constructor; [by apply IH|].
    rewrite insertBy_perm. constructor; [|done].
    by apply cmp_total.
Qed.

Lemma sortBy_sorted l : Forall P l -> StronglySorted le (sortBy cmp l).
Proof.
  induction l as [|x l IH]; intros Hl; simpl; [constructor|].
  apply Forall_cons in Hl as [Px Pl].
  apply insertBy_sorted; [done| |by apply IH].
  unfold sortBy. fold (sortBy cmp l). by rewrite sortBy_perm.
Qed.

End Sorted.

Lemma StronglySorted_lookup {A} (R : A -> A -> Prop) l :
  StronglySorted R l ->
  forall p q a b, (p < q)%nat -> l !! p = Some a -> l !! q = Some b -> R a b.
Proof.
  induction 1 as [|x l Hs IH Hx]; intros p q a b Hpq Hp Hq; [done|].
  destruct q as [|q]; [lia|]. simpl in Hq.
  destruct p as [|p]; simpl in Hp.
  - injection Hp as ->. rewrite Forall_forall in Hx. apply Hx.
    by apply list_elem_of_lookup_2 in Hq.
  - apply (IH p q); [lia|done..].
Qed.

(** [compareFn] compares the keys of two entries. *)
Lemma compareFn_spec a b :
  Valid a -> Valid b ->
  CompareSpec (entryKey a = entryKey b)
              (keyLt (entryKey a) (entryKey b))
              (keyLt (entryKey b) (entryKey a))
              (compareFn a b).
Proof.
  intros Va Vb. unfold compareFn, entryKey, keyLt, Valid in *.
  destruct (e_stars a) as [x|], (e_stars b) as [y|].
  - unfold SFeqb. rewrite (SFcompare_ord y x) by auto.
    pose proof (lex3_spec (Num.ord y) (Num.ord x)) as H.
    destruct (Num.ord x) as [[x1 x2] x3], (Num.ord y) as [[y1 y2] y3].
    destruct H as [H|H|H]; simpl.
    + injection H as -> -> ->.
      destruct (Nat.compare_spec (e_i a) (e_i b)); constructor; (congruence || lia).
    + constructor. lia.
    + constructor. lia.
  - destruct (Num.ord x) as [[x1 x2] x3]. constructor. lia.
  - destruct (Num.ord y) as [[y1 y2] y3]. constructor. lia.
  - destruct (Nat.compare_spec (e_i a) (e_i b)); constructor; (congruence || lia).
Qed.

Lemma compareFn_trans a b c :
  Valid a -> Valid b -> Valid c ->
  notAfter a b -> notAfter b c -> notAfter a c.
Proof.
  intros Va Vb Vc. unfold notAfter.
  destruct (compareFn_spec a b Va Vb) as [H1|H1|H1];
  destruct (compareFn_spec b c Vb Vc) as [H2|H2|H2];
  destruct (compareFn_spec a c Va Vc) as [H3|H3|H3]; try done; intros _ _; exfalso;
  destruct (entryKey a) as [[[[a1 a2] a3] a4] a5];
  destruct (entryKey b) as [[[[b1 b2] b3] b4] b5];
  destruct (entryKey c) as [[[[c1 c2] c3] c4] c5];
  simpl in *; try injection H1 as -> -> -> -> ->;
  try injection H2 as -> -> -> -> ->; lia.
Qed.

Lemma compareFn_total a b :
  Valid a -> Valid b -> compareFn a b = Gt -> notAfter b a.
Proof.
  intros Va Vb. unfold notAfter.
  destruct (compareFn_spec a b Va Vb) as [H1|H1|H1];
  destruct (compareFn_spec b a Vb Va) as [H2|H2|H2]; try done; intros _ _;
  destruct (entryKey a) as [[[[a1 a2] a3] a4] a5];
  destruct (entryKey b) as [[[[b1 b2] b3] b4] b5];
  simpl in *; lia.
Qed.

Lemma compareFn_Eq_index a b :
  Valid a -> Valid b -> compareFn a b = Eq -> e_i a = e_i b.
Proof.
  intros Va Vb H. destruct (compareFn_spec a b Va Vb) as [H1|H1|H1]; try done.
  unfold entryKey in H1.
  destruct (e_stars a) as [x|], (e_stars b) as [y|];
    try destruct (Num.ord x) as [[? ?] ?];
    try destruct (Num.ord y) as [[? ?] ?];
    injection H1; lia.
Qed.

Lemma SFeqb_sym x y : SFeqb x y = SFeqb y x.
Proof.
  destruct (Num.isNaN x) eqn:Ex; [by destruct x, y|].
  destruct (Num.isNaN y) eqn:Ey; [by destruct x, y|].
  unfold SFeqb. rewrite !SFcompare_ord by done.
  pose proof (lex3_spec (Num.ord x) (Num.ord y)) as H1.
  pose proof (lex3_spec (Num.ord y) (Num.ord x)) as H2.
  destruct (Num.ord x) as [[x1 x2] x3], (Num.ord y) as [[y1 y2] y3].
  destruct H1 as [H1|H1|H1], H2 as [H2|H2|H2]; try done;
    try injection H1 as -> -> ->; try injection H2 as -> -> ->; lia.
Qed.

(** What it means that [a] is sorted strictly before [b]. *)
Lemma compareFn_Lt a b :
  compareFn a b = Lt ->
  (e_stars a = None -> e_stars b = None) /\
  (forall x y, e_stars a = Some x -> e_stars b = Some y -> SFleb y x = true) /\
  (sameStars a b -> (e_i a < e_i b)%nat).
Proof.
  unfold compareFn, sameStars.
  destruct (e_stars a) as [x|], (e_stars b) as [y|]; try done.
  - intros H.
    assert (SFleb y x = true /\ (SFeqb x y = true -> (e_i a < e_i b)%nat))
      as [Hle Hi].
    { rewrite (SFeqb_sym x y). unfold SFleb, SFeqb in *.
      destruct (SFcompare y x) as [[]|]; simpl in *; try done.
      split; [done|]. intros _. by apply Nat.compare_lt_iff. }
    split; [done|]. split; [|done]. by intros ? ? [= <-] [= <-].
  - intros H%Nat.compare_lt_iff. split; [done|]. split; done.
Qed.

(** The entries of a table. *)
Lemma entriesOf_lookup L c data j :
  entriesOf L c data !! j =
  (fun ri => mkEntry ri j
     (Stars.parseStars (orElse (Js.at_ (cellsOf (lineAt L ri)) c) EmptyString))
     (lineAt L ri)) <$> data !! j.
Proof. unfold entriesOf. by rewrite list_lookup_imap. Qed.

Lemma entriesOf_length L c data : length (entriesOf L c data) = length data.
Proof. unfold entriesOf. by rewrite length_imap. Qed.

Lemma entriesOf_ri L c data : map e_ri (entriesOf L c data) = data.
Proof.
  apply list_eq. intros j. rewrite list_lookup_fmap, entriesOf_lookup.
  by destruct (data !! j).
Qed.

Lemma entriesOf_line L c data :
  map e_line (entriesOf L c data) = map (lineAt L) data.
Proof.
  apply list_eq. intros j. rewrite !list_lookup_fmap, entriesOf_lookup.
  by destruct (data !! j).
Qed.

Lemma entriesOf_i L c data :
  map e_i (entriesOf L c data) = seq 0 (length data).
Proof.
  apply list_eq. intros j. rewrite list_lookup_fmap, entriesOf_lookup.
  destruct (data !! j) eqn:E; simpl.
  - symmetry. apply lookup_seq. split; [done|]. by apply lookup_lt_Some in E.
  - symmetry. apply lookup_ge_None_2. rewrite length_seq.
    by apply lookup_ge_None_1 in E.
Qed.

Lemma entriesOf_valid L c data : Forall Valid (entriesOf L c data).
Proof.
  apply Forall_lookup. intros j e. rewrite entriesOf_lookup.
  destruct (data !! j); [|done]. intros [= <-] x Hx. simpl in Hx.
  by apply parseStars_not_nan in Hx.
Qed.

Lemma entriesOf_ext L L' c data :
  (forall r, r ∈ data -> L !! r = L' !! r) ->
  entriesOf L c data = entriesOf L' c data.
Proof.
  intros H. apply list_eq. intros j. rewrite !entriesOf_lookup.
  destruct (data !! j) as [r|] eqn:E; [|done]. simpl.
  unfold lineAt. by rewrite (H r) by (by apply list_elem_of_lookup_2 in E).
Qed.

(** The sorted entries of a table: in the order of [compareFn]. *)
Lemma sorted_entries L c data p q a b :
  let sorted := sortBy compareFn (entriesOf L c data) in
  (p < q)%nat -> sorted !! p = Some a -> sorted !! q = Some b ->
  compareFn a b = Lt.
Proof.
  intros sorted Hpq Hp Hq.
  assert (Hperm : sorted ≡ₚ entriesOf L c data) by apply sortBy_perm.
  assert (Hvalid : Forall Valid sorted)
    by (rewrite Hperm; apply entriesOf_valid).
  assert (Va : Valid a).
  { rewrite Forall_forall in Hvalid. by apply Hvalid, list_elem_of_lookup_2 with p. }
  assert (Vb : Valid b).
  { rewrite Forall_forall in Hvalid. by apply Hvalid, list_elem_of_lookup_2 with q. }
  assert (Hle : notAfter a b).
  { apply (StronglySorted_lookup notAfter sorted) with p q; [|done..].
    apply (sortBy_sorted compareFn Valid).
    - apply compareFn_trans.
    - apply compareFn_total.
    - apply entriesOf_valid. }
  assert (Hne : e_i a <> e_i b).
  { assert (NoDup (map e_i sorted)) as Hnd
      by (rewrite Hperm, entriesOf_i; apply NoDup_seq).
    intros Heq.
    assert (p = q); [|lia].
    apply (NoDup_lookup _ p q (e_i a) Hnd).
    - by rewrite list_lookup_fmap, Hp.
    - by rewrite list_lookup_fmap, Hq, Heq. }
  unfold notAfter in Hle.
  destruct (compareFn a b) eqn:E; [|done|done].
  by apply compareFn_Eq_index in E.
Qed.

End SortFacts.

(** ** The sorted arrangement is unique *)

Section SortUnique.

Import Tables SortByStars.

Lemma sorted_by_unique {A} (R : A -> A -> Prop) (s1 : list A) :
  (forall a b, a ∈ s1 -> b ∈ s1 -> R a b -> R b a -> a = b) ->
  StronglySorted R s1 ->
  forall s2, s1 ≡ₚ s2 -> StronglySorted R s2 -> s1 = s2.
Proof.
  intros Hanti Hs1. induction Hs1 as [|a s1 Hs1 IH Ha]; intros s2 Hperm Hs2.
  - by apply Permutation_nil in Hperm.
  - destruct s2 as [|b s2].
    { symmetry in Hperm. by apply Permutation_nil in Hperm. }
    apply StronglySorted_inv in Hs2 as [Hs2 Hb].
    rewrite Forall_forall in Ha, Hb.
    assert (a = b) as <-.
    { assert (a ∈ b :: s2) as Hin1 by (rewrite <- Hperm; apply list_elem_of_here).
      assert (b ∈ a :: s1) as Hin2 by (rewrite Hperm; apply list_elem_of_here).
      apply elem_of_cons in Hin1 as [?|Hin1]; [done|].
      apply elem_of_cons in Hin2 as [?|Hin2]; [done|].
      apply Hanti; [apply list_elem_of_here|by apply list_elem_of_further|..].
      - by apply Ha.
      - by apply Hb. }
    f_equal. apply IH; [|by apply Permutation_cons_inv in Hperm|done].
    intros x y Hx Hy. apply Hanti; by apply list_elem_of_further.
Qed.

Lemma notAfter_antisym a b :
  Valid a -> Valid b -> notAfter a b -> notAfter b a -> e_i a = e_i b.
Proof.
  intros Va Vb Hab Hba. unfold notAfter in *.
  destruct (compareFn a b) eqn:E1; [by apply compareFn_Eq_index|clear Hab|done].
  destruct (compareFn b a) eqn:E2;
    [symmetry; by apply compareFn_Eq_index|clear Hba|done].
  exfalso.
  destruct (compareFn_spec a b Va Vb) as [H1|H1|H1]; try done.
  destruct (compareFn_spec b a Vb Va) as [H2|H2|H2]; try done.
  destruct (entryKey a) as [[[[a1 a2] a3] a4] a5].
  destruct (entryKey b) as [[[[b1 b2] b3] b4] b5].
  simpl in *. lia.
Qed.

(** The entries of a table can be sorted by [compareFn] in one way only:
    every stable or unstable sorting algorithm arranges them as [sortBy]
    does. *)
Lemma sorted_unique L c data s :
  s ≡ₚ entriesOf L c data -> StronglySorted notAfter s ->
  s = sortBy compareFn (entriesOf L c data).
Proof.
  intros Hperm Hs.
  assert (Hvalid : Forall Valid s) by (rewrite Hperm; apply entriesOf_valid).
  assert (Hnd : NoDup (map e_i s))
    by (rewrite Hperm, entriesOf_i; apply NoDup_seq).
  apply (sorted_by_unique notAfter); [|done| |].
  - intros a b Ha Hb Hab Hba. rewrite Forall_forall in Hvalid.
    pose proof (notAfter_antisym a b (Hvalid a Ha) (Hvalid b Hb) Hab Hba) as Hi.
    apply list_elem_of_lookup_1 in Ha as [p Hp], Hb as [q Hq].
    assert (p = q) as ->; [|congruence].
    apply (NoDup_lookup _ p q (e_i a) Hnd).
    + by rewrite list_lookup_fmap, Hp.
    + by rewrite list_lookup_fmap, Hq, Hi.
  - by rewrite Hperm, sortBy_perm.
  - apply (sortBy_sorted compareFn Valid).
    + apply compareFn_trans.
    + apply compareFn_total.
    + apply entriesOf_valid.
Qed.

End SortUnique.

(** ** sort-tables-by-stars.js: the rows of each table are sorted *)

Section SortMain.

Import Tables SortByStars.

Lemma elem_of_drop_2 {A} (x : A) n l : x ∈ drop n l -> x ∈ l.
Proof.
  intros [j Hj]%list_elem_of_lookup_1. rewrite lookup_drop in Hj.
  by apply list_elem_of_lookup_2 in Hj.
Qed.

Lemma applyOrder_cons L r data e s :
  applyOrder L (r :: data) (e :: s) = applyOrder (<[r := e_line e]> L) data s.
Proof. done. Qed.

Lemma applyOrder_length data : forall L s, length (applyOrder L data s) = length L.
Proof.
  induction data as [|r data IH]; intros L [|e s]; try done.
  by rewrite applyOrder_cons, IH, length_insert.
Qed.

Lemma applyOrder_outside data : forall L s i,
  i ∉ data -> applyOrder L data s !! i = L !! i.
Proof.
  induction data as [|r data IH]; intros L [|e s] i Hi; try done.
  rewrite applyOrder_cons, IH by set_solver.
  apply list_lookup_insert_ne. set_solver.
Qed.

Lemma applyOrder_ext data : forall L L' s i,
  length L = length L' -> L !! i = L' !! i ->
  applyOrder L data s !! i = applyOrder L' data s !! i.
Proof.
  induction data as [|r data IH]; intros L L' [|e s] i Hlen Hi; try done.
  rewrite !applyOrder_cons. apply IH; [by rewrite !length_insert|].
  destruct (decide (r = i)) as [->|Hne].
  - destruct (decide (i < length L)%nat).
    + rewrite !list_lookup_insert_eq by lia. done.
    + rewrite !list_insert_ge by lia. done.
  - by rewrite !list_lookup_insert_ne.
Qed.

Lemma applyOrder_lookup data : forall L s j r e,
  NoDup data -> (forall r, r ∈ data -> (r < length L)%nat) ->
  data !! j = Some r -> s !! j = Some e ->
  applyOrder L data s !! r = Some (e_line e).
Proof.
  induction data as [|r0 data IH]; intros L [|e0 s] j r e Hnd Hlt Hr He; try done.
  apply NoDup_cons in Hnd as [Hr0 Hnd]. rewrite applyOrder_cons.
  destruct j as [|j]; simpl in Hr, He.
  - injection Hr as ->. injection He as ->.
    rewrite applyOrder_outside by done.
    apply list_lookup_insert_eq, Hlt. set_solver.
  - apply (IH _ s j); [done| |done..].
    intros r' Hr'. rewrite length_insert. apply Hlt. set_solver.
Qed.

Lemma sortLines_length L t : length (sortLines L t) = length L.
Proof.
  unfold sortLines, sortTable.
  repeat (match goal with |- context [if ?c then _ else _] => destruct c end;
          simpl; try done).
  apply applyOrder_length.
Qed.

Lemma sortLines_outside L t i : i ∉ rows t -> sortLines L t !! i = L !! i.
Proof.
  intros Hi. unfold sortLines, sortTable.
  repeat (match goal with |- context [if ?c then _ else _] => destruct c end;
          simpl; try done).
  apply applyOrder_outside. intros H. by apply Hi, elem_of_drop_2 with 2%nat.
Qed.

Lemma lineAt_ext L L' r : L !! r = L' !! r -> lineAt L r = lineAt L' r.
Proof. unfold lineAt. by intros ->. Qed.

Lemma nth_elem_of (l : list nat) k :
  (k < length l)%nat -> nth k l 0%nat ∈ l.
Proof.
  intros H. apply list_elem_of_In, nth_In. done.
Qed.

Lemma sortLines_local L L' t :
  length L = length L' ->
  (forall i, i ∈ rows t -> L !! i = L' !! i) ->
  forall i, i ∈ rows t -> sortLines L t !! i = sortLines L' t !! i.
Proof.
  intros Hlen Hagree i Hi. unfold sortLines, sortTable.
  destruct (length (rows t) <? 3)%nat eqn:E3; simpl; [by apply Hagree|].
  apply Nat.ltb_ge in E3.
  rewrite <- (lineAt_ext L L' (nth 0 (rows t) 0%nat))
    by (apply Hagree, nth_elem_of; lia).
  destruct (_ =? -1); simpl; [by apply Hagree|].
  destruct (length (drop 2 (rows t)) =? 0)%nat; simpl; [by apply Hagree|].
  rewrite <- (entriesOf_ext L L') by (intros r Hr; by apply Hagree, elem_of_drop_2 with 2%nat).
  destruct (existsb _ _); simpl; [|by apply Hagree].
  apply applyOrder_ext; [done|by apply Hagree].
Qed.

(** [main] is the loop over the tables; what it writes back are the lines
    after the loop, and when it writes nothing they are unchanged. *)
Lemma loop_lines ts : forall L p c L' p' c',
  fold_left loopStep ts (L, p, c) = (L', p', c') ->
  L' = fold_left sortLines ts L /\ (c <= c')%nat /\ (c' = c -> L' = L).
Proof.
  induction ts as [|t ts IH]; intros L p c L' p' c' H; simpl in H.
  - injection H as -> -> ->. done.
  - unfold sortLines at 1. simpl.
    destruct (sortTable L t) as [[L1 pr] ch] eqn:E. simpl.
    apply IH in H as (-> & Hc & Hsame). split; [done|]. split.
    + destruct ch; lia.
    + intros ->. destruct ch; [lia|]. rewrite Hsame by done.
      unfold sortTable in E.
      repeat (match type of E with context [if ?c then _ else _] => destruct c end;
              simpl in E; try congruence).
Qed.

Lemma sort_main_lines lines : main lines = fold_left sortLines (findTables lines) lines.
Proof.
  unfold main.
  destruct (fold_left loopStep _ _) as [[L' p'] c'] eqn:E.
  apply loop_lines in E as (-> & Hc & Hsame).
  destruct (0 <? c')%nat eqn:E0; [done|].
  apply Nat.ltb_ge in E0. symmetry. apply Hsame. lia.
Qed.

Lemma sort_main_length lines : length (main lines) = length lines.
Proof.
  rewrite sort_main_lines. apply (fold_tables_length sortLines sortLines_length).
Qed.

Lemma sort_main_outside lines i :
  (forall t, t ∈ findTables lines -> i ∉ rows t) -> main lines !! i = lines !! i.
Proof.
  rewrite sort_main_lines. apply (fold_tables_outside sortLines sortLines_outside).
Qed.

Lemma sort_main_inside lines t i :
  t ∈ findTables lines -> i ∈ rows t -> main lines !! i = sortLines lines t !! i.
Proof.
  rewrite sort_main_lines.
  apply (fold_tables_inside sortLines sortLines_length sortLines_outside
           sortLines_local), findTables_apart.
Qed.

(** Entries with the same [ri] in the same places are the same entries. *)
Lemma same_by_key {A B} (f : A -> B) (s e : list A) :
  s ≡ₚ e -> NoDup (map f e) -> map f s = map f e -> s = e.
Proof.
  intros Hperm Hnd Hmap.
  assert (Hinj : forall a b, a ∈ e -> b ∈ e -> f a = f b -> a = b).
  { clear s Hperm Hmap. induction e as [|x e IH]; intros a b Ha Hb Hf;
      [by apply elem_of_nil in Ha|].
    simpl in Hnd. apply NoDup_cons in Hnd as [Hx Hnd].
    apply elem_of_cons in Ha as [->|Ha], Hb as [->|Hb]; [done| | |by apply IH].
    - exfalso. apply Hx. rewrite Hf. by apply list_elem_of_fmap_2.
    - exfalso. apply Hx. rewrite <- Hf. by apply list_elem_of_fmap_2. }
  apply list_eq. intros j.
  assert (f <$> s !! j = f <$> e !! j) as Hj.
  { rewrite <- !list_lookup_fmap. change (map f s !! j = map f e !! j).
    by rewrite Hmap. }
  destruct (s !! j) as [a|] eqn:Ea, (e !! j) as [b|] eqn:Eb; try done.
  simpl in Hj. injection Hj as Hj. f_equal. apply Hinj; [|by eapply list_elem_of_lookup_2|done].
  rewrite <- Hperm. by eapply list_elem_of_lookup_2.
Qed.

Lemma unchanged_same_ri (s e : list Entry) :
  length s = length e ->
  existsb (fun '(a, b) => negb (e_ri a =? e_ri b)%nat) (zip s e) = false ->
  map e_ri s = map e_ri e.
Proof.
  revert e. induction s as [|a s IH]; intros [|b e] Hlen H; try done.
  simpl in *. apply orb_false_iff in H as [H1 H2].
  apply negb_false_iff, Nat.eqb_eq in H1. f_equal; [done|]. apply IH; [lia|done].
Qed.

(** The data rows of a sorted table hold the lines of the sorted entries,
    whether the table was rewritten or found in order already. *)
Lemma sortLines_data L t :
  NoDup (rows t) -> (forall r, r ∈ rows t -> (r < length L)%nat) ->
  (3 <= length (rows t))%nat ->
  columnOf L t "GitHub Stars" <> -1 ->
  map (lineAt (sortLines L t)) (dataRows t) =
  map e_line
    (sortBy compareFn (entriesOf L (columnOf L t "GitHub Stars") (dataRows t))).
Proof.
  intros Hnd Hlt H3 Hc. unfold sortLines, sortTable, dataRows.
  unfold columnOf, headerOf in *.
  set (starsCol := idxOf _ _) in *.
  destruct (Nat.ltb_spec (length (rows t)) 3); [lia|].
  destruct (Z.eqb_spec starsCol (-1)); [done|].
  destruct (Nat.eqb_spec (length (drop 2 (rows t))) 0) as [E0|E0]; simpl.
  { rewrite length_drop in E0. lia. }
  set (data := drop 2 (rows t)).
  set (entries := entriesOf L starsCol data).
  set (sorted := sortBy compareFn entries).
  assert (Hperm : sorted ≡ₚ entries) by apply sortBy_perm.
  assert (Hlen : length sorted = length data).
  { rewrite Hperm. apply entriesOf_length. }
  assert (Hnd' : NoDup data) by (by eapply sublist_NoDup; [|apply sublist_drop]).
  destruct (existsb _ _) eqn:Ech; simpl.
  - apply list_eq. intros j. rewrite !list_lookup_fmap.
    destruct (data !! j) as [r|] eqn:Er; simpl.
    + destruct (lookup_lt_is_Some_2 sorted j) as [e He].
      { rewrite Hlen. by apply lookup_lt_Some in Er. }
      rewrite He. simpl. f_equal. unfold lineAt.
      rewrite (applyOrder_lookup data L sorted j r e); try done.
      intros r' Hr'. by apply Hlt, elem_of_drop_2 with 2%nat.
    + rewrite lookup_ge_None_2; [done|]. rewrite Hlen. by apply lookup_ge_None_1.
  - assert (sorted = entries) as ->.
    { apply (same_by_key e_ri); [done| |].
      - unfold entries. by rewrite entriesOf_ri.
      - apply unchanged_same_ri; [|done]. by rewrite Hperm. }
    unfold entries. by rewrite entriesOf_line.
Qed.

(** The tables depend on which lines are table lines only. *)
Lemma tablesFrom_ext L : forall L' i cur,
  map isTableLine L = map isTableLine L' ->
  tablesFrom i cur L = tablesFrom i cur L'.
Proof.
  induction L as [|x L IH]; intros [|y L'] i cur H; try done.
  simpl in H. injection H as Hx HL. simpl. rewrite Hx.
  destruct (isTableLine y), cur; by rewrite (IH L').
Qed.

Lemma findTables_ext L L' :
  map isTableLine L = map isTableLine L' -> findTables L = findTables L'.
Proof. rewrite !findTables_tablesFrom. apply tablesFrom_ext. Qed.

End SortMain.

Section SortTheorems.

Import Tables SortByStars.

Lemma sortLines_outside_data L t i :
  i ∉ dataRows t -> sortLines L t !! i = L !! i.
Proof.
  intros Hi. unfold sortLines, sortTable.
  repeat (match goal with |- context [if ?c then _ else _] => destruct c end;
          simpl; try done).
  by apply applyOrder_outside.
Qed.

Lemma sortLines_skip L t :
  (length (rows t) < 3)%nat \/ columnOf L t "GitHub Stars" = -1 ->
  sortLines L t = L.
Proof.
  intros H. unfold sortLines, sortTable.
  destruct (Nat.ltb_spec (length (rows t)) 3); [done|].
  destruct H as [H|H]; [lia|].
  unfold columnOf, headerOf in H. by rewrite H.
Qed.

Lemma head_rows_not_data t k ri :
  NoDup (rows t) -> (k < 2)%nat -> rows t !! k = Some ri -> ri ∉ dataRows t.
Proof.
  intros Hnd Hk Hri [j Hj]%list_elem_of_lookup_1.
  unfold dataRows in Hj. rewrite lookup_drop in Hj.
  assert (k = (2 + j)%nat); [|lia].
  by apply (NoDup_lookup (rows t) k (2 + j) ri).
Qed.

Lemma sortLines_data_perm L t :
  MaximalRun L t ->
  map (lineAt (sortLines L t)) (dataRows t) ≡ₚ map (lineAt L) (dataRows t).
Proof.
  intros Hrun.
  destruct (Nat.ltb_spec (length (rows t)) 3) as [H3|H3];
    [by rewrite sortLines_skip by (by left)|].
  destruct (Z.eq_dec (columnOf L t "GitHub Stars") (-1)) as [Hc|Hc];
    [by rewrite sortLines_skip by (by right)|].
  rewrite sortLines_data;
    [|by apply (run_NoDup L)|intros r; by apply run_rows_lt|done|done].
  rewrite <- (entriesOf_line L (columnOf L t "GitHub Stars")).
  apply Permutation_map, sortBy_perm.
Qed.

Lemma sortLines_tableLine L t i :
  MaximalRun L t -> i ∈ rows t -> isTableAt (sortLines L t) i = true.
Proof.
  intros Hrun Hi.
  destruct (decide (i ∈ dataRows t)) as [Hd|Hd].
  - pose proof (run_rows_lt L t i Hrun Hi) as Hlt.
    rewrite <- (sortLines_length L t) in Hlt.
    apply lookup_lt_is_Some_2 in Hlt as [line Hline].
    unfold isTableAt. rewrite Hline.
    assert (line ∈ map (lineAt (sortLines L t)) (dataRows t)) as Hin.
    { apply list_elem_of_fmap. exists i. split; [|done].
      unfold lineAt. by rewrite Hline. }
    rewrite (sortLines_data_perm L t Hrun) in Hin.
    apply list_elem_of_fmap in Hin as (r & -> & Hr).
    apply elem_of_drop_2 in Hr.
    pose proof (run_lines L t Hrun r Hr) as Ht.
    unfold isTableAt, lineAt in *. by destruct (L !! r).
  - unfold isTableAt. rewrite sortLines_outside_data by done.
    apply (run_lines L t Hrun i Hi).
Qed.

Lemma sort_main_tableLines lines i :
  isTableAt (main lines) i = isTableAt lines i.
Proof.
  destruct (isTableAt lines i) eqn:E.
  - destruct (findTables_complete lines i E) as (t & Ht & Hi).
    unfold isTableAt at 1. rewrite (sort_main_inside lines t i Ht Hi).
    apply sortLines_tableLine; [by apply findTables_sound|done].
  - unfold isTableAt at 1. rewrite sort_main_outside; [done|].
    by apply outside_tables.
Qed.

(** Sorting leaves the tables where they are. *)
Lemma sort_main_findTables lines : findTables (main lines) = findTables lines.
Proof.
  apply findTables_ext, list_eq. intros i.
  pose proof (sort_main_tableLines lines i) as H. unfold isTableAt in H.
  change ((isTableLine <$> main lines) !! i = (isTableLine <$> lines) !! i).
  rewrite !list_lookup_fmap.
  destruct (main lines !! i) eqn:E1, (lines !! i) eqn:E2; simpl; try done.
  - by rewrite H.
  - apply lookup_lt_Some in E1. apply lookup_ge_None_1 in E2.
    rewrite sort_main_length in E1. lia.
  - apply lookup_lt_Some in E2. apply lookup_ge_None_1 in E1.
    rewrite sort_main_length in E1. lia.
Qed.

(** C3. In every table with a [GitHub Stars] column the data rows hold, after [main], the lines of the table's entries
    in sorted order: of two rows, the one that comes first has stars if the
    other has (rows without a number come last), has at least as many stars
    as the other, and came first in the original table if the stars are the
    same.  Rows with the stars 150, none, 300, none, 150 end up as 300,
    the first 150, the second 150, the first and the second row without. *)
Theorem sort_orders_rows :
  (forall lines t,
     t ∈ findTables lines ->
     columnOf lines t "GitHub Stars" <> -1 ->
     exists sorted,
       sorted ≡ₚ entriesOf lines (columnOf lines t "GitHub Stars") (dataRows t) /\
       map (lineAt (main lines)) (dataRows t) = map e_line sorted /\
       forall p q a b,
         (p < q)%nat -> sorted !! p = Some a -> sorted !! q = Some b ->
         (e_stars a = None -> e_stars b = None) /\
         (forall x y, e_stars a = Some x -> e_stars b = Some y -> SFleb y x = true) /\
         (sameStars a b -> (e_i a < e_i b)%nat))
  /\ main Examples.starsTable = Examples.starsTableSorted.
Proof.
  split; [|by vm_compute].
  intros lines t Ht Hc.
  pose proof (findTables_sound lines t Ht) as Hrun.
  destruct (Nat.ltb_spec (length (rows t)) 3) as [Hshort|H3].
  { exists []. unfold dataRows. rewrite drop_ge by lia. done. }
  exists (sortBy compareFn
            (entriesOf lines (columnOf lines t "GitHub Stars") (dataRows t))).
  split; [apply sortBy_perm|]. split.
  - rewrite <- (sortLines_data lines t);
      [|by apply (run_NoDup lines)|intros r; by apply run_rows_lt|done|done].
    apply list_eq. intros j. rewrite !list_lookup_fmap.
    destruct (dataRows t !! j) as [r|] eqn:Er; [|done]. simpl. f_equal.
    apply lineAt_ext, sort_main_inside; [done|].
    by apply list_elem_of_lookup_2, elem_of_drop_2 in Er.
  - intros p q a b Hpq Hp Hq. apply compareFn_Lt.
    by apply (sorted_entries lines (columnOf lines t "GitHub Stars")
                (dataRows t) p q).
Qed.

Lemma sort_orders_rows_witness :
  exists sorted,
    sorted ≡ₚ entriesOf Examples.starsTable 2 [2; 3; 4; 5; 6]%nat /\
    map (lineAt (main Examples.starsTable)) [2; 3; 4; 5; 6]%nat = map e_line sorted /\
    forall p q a b,
      (p < q)%nat -> sorted !! p = Some a -> sorted !! q = Some b ->
      (e_stars a = None -> e_stars b = None) /\
      (forall x y, e_stars a = Some x -> e_stars b = Some y -> SFleb y x = true) /\
      (sameStars a b -> (e_i a < e_i b)%nat).
Proof.
  apply (proj1 sort_orders_rows Examples.starsTable
           (mkTable 0 [0; 1; 2; 3; 4; 5; 6]%nat)).
  - vm_compute. apply list_elem_of_here.
  - vm_compute. discriminate.
Defined.

(** C10. [main] keeps the length of the document and, for every table,
    its header line and separator line; the lines in the data rows of the
    table are a permutation of the lines that were there; and the tables
    of the document, and with them the positions of the data rows, are the
    same afterwards. *)
Theorem sort_permutes_rows lines t :
  t ∈ findTables lines ->
  length (main lines) = length lines /\
  (forall k ri, (k < 2)%nat -> rows t !! k = Some ri ->
     main lines !! ri = lines !! ri) /\
  map (lineAt (main lines)) (dataRows t) ≡ₚ map (lineAt lines) (dataRows t) /\
  findTables (main lines) = findTables lines.
Proof.
  intros Ht. pose proof (findTables_sound lines t Ht) as Hrun.
  split; [apply sort_main_length|]. split; [|split; [|apply sort_main_findTables]].
  - intros k ri Hk Hri.
    rewrite (sort_main_inside lines t ri Ht) by (by apply list_elem_of_lookup_2 in Hri).
    apply sortLines_outside_data.
    by apply (head_rows_not_data t k ri); [apply (run_NoDup lines)|..].
  - rewrite <- (sortLines_data_perm lines t Hrun).
    assert (map (lineAt (main lines)) (dataRows t)
            = map (lineAt (sortLines lines t)) (dataRows t)) as ->; [|done].
    apply list_eq. intros j. rewrite !list_lookup_fmap.
    destruct (dataRows t !! j) as [r|] eqn:Er; [|done]. simpl. f_equal.
    apply lineAt_ext, sort_main_inside; [done|].
    by apply list_elem_of_lookup_2, elem_of_drop_2 in Er.
Qed.

Lemma sort_permutes_rows_witness :
  length (main Examples.starsTable) = length Examples.starsTable /\
  (forall k ri, (k < 2)%nat -> [0; 1; 2; 3; 4; 5; 6]%nat !! k = Some ri ->
     main Examples.starsTable !! ri = Examples.starsTable !! ri) /\
  map (lineAt (main Examples.starsTable)) [2; 3; 4; 5; 6]%nat
    ≡ₚ map (lineAt Examples.starsTable) [2; 3; 4; 5; 6]%nat /\
  findTables (main Examples.starsTable) = findTables Examples.starsTable.
Proof.
  apply (sort_permutes_rows Examples.starsTable
           (mkTable 0 [0; 1; 2; 3; 4; 5; 6]%nat)).
  vm_compute. apply list_elem_of_here.
Defined.

End SortTheorems.

(** ** add-github-stars-column.js *)

Section AddColumnFacts.

Import Tables AddColumn.

Lemma add_step_out st line : exists x, out (step st line) = out st ++ [x].
Proof.
  unfold step. destruct st as [inT hlc modify github stars idx tm rt o]. simpl.
  destruct (isTableLine line), inT; simpl;
    repeat (match goal with |- context [if ?c then _ else _] => destruct c end;
            simpl); eauto.
Qed.

Lemma add_step_nontable st line :
  isTableLine line = false -> out (step st line) = out st ++ [line].
Proof.
  intros H. unfold step. rewrite H.
  destruct st as [inT hlc modify github stars idx tm rt o]. simpl.
  by destruct inT.
Qed.

Lemma add_step_inTable st line : inTable (step st line) = isTableLine line.
Proof.
  unfold step. destruct st as [inT hlc modify github stars idx tm rt o]. simpl.
  destruct (isTableLine line), inT; simpl;
    repeat (match goal with |- context [if ?c then _ else _] => destruct c end;
            simpl); done.
Qed.

Lemma add_step_modified st line : (tablesModified st <= tablesModified (step st line))%nat.
Proof.
  unfold step. destruct st as [inT hlc modify github stars idx tm rt o]. simpl.
  destruct (isTableLine line), inT; simpl;
    repeat (match goal with |- context [if ?c then _ else _] => destruct c end;
            simpl); lia.
Qed.

Lemma add_fold_out ls : forall st,
  exists X, out (fold_left step ls st) = out st ++ X /\ length X = length ls.
Proof.
  induction ls as [|l ls IH]; intros st; simpl.
  - exists []. by rewrite app_nil_r.
  - destruct (IH (step st l)) as (X & -> & HX).
    destruct (add_step_out st l) as (x & ->).
    exists (x :: X). rewrite <- app_assoc. simpl. split; [done|lia].
Qed.

Lemma add_fold_modified ls : forall st,
  (tablesModified st <= tablesModified (fold_left step ls st))%nat.
Proof.
  induction ls as [|l ls IH]; intros st; simpl; [done|].
  etrans; [apply add_step_modified|apply IH].
Qed.

Lemma add_fold_inTable ls st :
  inTable (fold_left step ls st) =
  match last ls with Some l => isTableLine l | None => inTable st end.
Proof.
  revert st. induction ls as [|l ls IH] using rev_ind; intros st; [done|].
  rewrite fold_left_app, last_snoc. simpl. apply add_step_inTable.
Qed.

(** Data rows: the lines after the separator row. *)
Lemma add_fold_data ls : forall hlc modify github stars idx tm rt o,
  Forall (fun l => isTableLine l = true) ls -> (2 <= hlc)%nat ->
  out (fold_left step ls (mkState true hlc modify github stars idx tm rt o))
  = o ++ map (fun l => if modify then joinCells (Js.splice idx " " (cellsOf l)) else l) ls.
Proof.
  induction ls as [|l ls IH]; intros hlc modify github stars idx tm rt o Hall Hh; simpl.
  - by rewrite app_nil_r.
  - apply Forall_cons in Hall as [Hl Hall].
    destruct hlc as [|[|hlc]]; [lia..|].
    unfold step at 2. rewrite Hl. simpl.
    destruct modify; simpl; rewrite IH by (done || lia);
      by rewrite <- app_assoc.
Qed.

(** The lines of a table, read from outside a table. *)
Lemma add_run_table tbl st :
  inTable st = false -> Forall (fun l => isTableLine l = true) tbl ->
  out (fold_left step tbl st) = out st ++ tableOut tbl /\
  (tbl <> [] ->
   idxOf (map Js.trim (cellsOf (default EmptyString (head tbl)))) "GitHub Stars" = -1 ->
   (0 < tablesModified (fold_left step tbl st))%nat).
Proof.
  intros Hin Hall. destruct tbl as [|header rest]; simpl.
  { split; [by rewrite app_nil_r|done]. }
  apply Forall_cons in Hall as [Hh Hall].
  destruct st as [inT hlc modify github stars idx tm rt o]. simpl in Hin. subst inT.
  unfold step at 2. unfold step at 3. rewrite Hh. simpl.
  fold (githubOf header).
  destruct (Z.eqb_spec (idxOf (map Js.trim (cellsOf header)) "GitHub Stars") (-1))
    as [Hs|Hs]; simpl.
  - fold (insertIndexOf header). split.
    + destruct rest as [|sep data]; simpl; [done|].
      apply Forall_cons in Hall as [Hsep Hall].
      unfold step at 2. rewrite Hsep. simpl. fold (separatorFor header sep).
      rewrite add_fold_data by (done || lia). by rewrite <- !app_assoc.
    + intros _ _. eapply Nat.lt_le_trans; [|apply add_fold_modified]. simpl. lia.
  - split; [|done].
    destruct rest as [|sep data]; simpl; [done|].
    apply Forall_cons in Hall as [Hsep Hall].
    unfold step at 2. rewrite Hsep. simpl.
    rewrite add_fold_data by (done || lia). rewrite <- !app_assoc. simpl.
    by rewrite map_id.
Qed.

Lemma add_run_length lines : length (out (run lines)) = length lines.
Proof.
  unfold run. destruct (add_fold_out lines init) as (X & -> & HX). done.
Qed.

Lemma add_main_length lines : length (AddColumn.main lines) = length lines.
Proof.
  unfold AddColumn.main. destruct (_ =? _)%nat; [done|apply add_run_length].
Qed.

End AddColumnFacts.

Section AddColumnTables.

Import Tables AddColumn.

Lemma tableOut_length tbl : length (tableOut tbl) = length tbl.
Proof.
  destruct tbl as [|header [|sep data]]; simpl; try done;
    destruct (negb _); simpl; try done. by rewrite length_map.
Qed.

Lemma tableOut_has tbl header :
  head tbl = Some header ->
  idxOf (map Js.trim (cellsOf header)) "GitHub Stars" <> -1 ->
  tableOut tbl = tbl.
Proof.
  destruct tbl as [|h rest]; [done|]. intros [= ->] H. simpl.
  by destruct (Z.eqb_spec (idxOf (map Js.trim (cellsOf header)) "GitHub Stars") (-1)).
Qed.

Lemma tableOut_lookup tbl header k l :
  head tbl = Some header ->
  idxOf (map Js.trim (cellsOf header)) "GitHub Stars" = -1 ->
  tbl !! k = Some l ->
  tableOut tbl !! k =
  Some (joinCells
          (Js.splice (insertIndexOf header)
             (newCell (separatorFor header (default EmptyString (tbl !! 1%nat))) k)
             (cellsOf l))).
Proof.
  destruct tbl as [|h rest]; [done|]. intros [= ->] H Hk. simpl. rewrite H. simpl.
  destruct k as [|k]; simpl in *; [by injection Hk as ->|].
  destruct rest as [|sep data]; [done|].
  destruct k as [|k]; simpl in *; [by injection Hk as ->|].
  rewrite list_lookup_fmap, Hk. done.
Qed.

(** The lines of a maximal run, cut out of the document. *)
Lemma run_split lines t :
  MaximalRun lines t ->
  let s := startIndex t in
  let n := length (rows t) in
  let tbl := take n (drop s lines) in
  lines = take s lines ++ tbl ++ drop (s + n) lines /\
  length (take s lines) = s /\ length tbl = n /\
  Forall (fun l => isTableLine l = true) tbl /\
  (forall k ri, rows t !! k = Some ri ->
     ri = (s + k)%nat /\ (k < n)%nat /\ tbl !! k = lines !! ri) /\
  match last (take s lines) with Some l => isTableLine l = false | None => True end.
Proof.
  intros Hrun s n tbl.
  assert (Hend : (s + n <= length lines)%nat).
  { destruct Hrun as [Hr Hn Hl _ _]. fold s n in Hr, Hn.
    assert (s + (n - 1) ∈ rows t)%nat as Hin
      by (rewrite Hr; apply elem_of_seq; lia).
    apply Hl, isTableAt_lt in Hin. lia. }
  assert (Hk : forall k, (k < n)%nat -> tbl !! k = lines !! (s + k)%nat).
  { intros k Hk. unfold tbl. rewrite lookup_take_lt by done. apply lookup_drop. }
  split; [|split; [|split; [|split; [|split]]]].
  - unfold tbl. rewrite <- drop_drop, take_drop, take_drop. done.
  - rewrite length_take. lia.
  - unfold tbl. rewrite length_take, length_drop. lia.
  - apply Forall_lookup. intros k l Hl.
    assert (k < n)%nat as Hkn.
    { apply lookup_lt_Some in Hl. unfold tbl in Hl.
      rewrite length_take in Hl. lia. }
    rewrite (Hk k Hkn) in Hl.
    assert (isTableAt lines (s + k) = true) as Ht.
    { apply (run_lines _ _ Hrun). rewrite (run_rows _ _ Hrun).
      apply elem_of_seq. fold s n. lia. }
    unfold isTableAt in Ht. by rewrite Hl in Ht.
  - intros k ri Hri. rewrite (run_rows _ _ Hrun) in Hri.
    apply lookup_seq in Hri as [-> Hkn]. fold s n in Hkn |- *.
    split; [done|]. split; [done|]. by apply Hk.
  - destruct (run_before _ _ Hrun) as [H0|Hb]; fold s in H0 || fold s in Hb.
    + by rewrite H0.
    + rewrite last_lookup, length_take.
      destruct (decide (s = 0)%nat) as [->|Hs]; [done|].
      replace (Init.Nat.pred (s `min` length lines)) with (s - 1)%nat by lia.
      rewrite lookup_take_lt by lia.
      unfold isTableAt in Hb. by destruct (lines !! (s - 1)%nat).
Qed.

Lemma headerOf_start lines t :
  MaximalRun lines t -> headerOf lines t = lineAt lines (startIndex t).
Proof.
  intros Hrun. unfold headerOf. rewrite (run_rows _ _ Hrun).
  pose proof (run_nonempty _ _ Hrun). by destruct (length (rows t)); [lia|].
Qed.

Lemma table_head lines t :
  MaximalRun lines t ->
  head (take (length (rows t)) (drop (startIndex t) lines))
  = Some (headerOf lines t).
Proof.
  intros Hrun. pose proof (run_nonempty _ _ Hrun) as Hn.
  rewrite head_lookup, lookup_take_lt, lookup_drop, Nat.add_0_r by done.
  rewrite (headerOf_start _ _ Hrun). unfold lineAt.
  assert (startIndex t ∈ rows t) as Hin.
  { rewrite (run_rows _ _ Hrun). apply elem_of_seq. lia. }
  apply (run_rows_lt _ _ _ Hrun), lookup_lt_is_Some_2 in Hin as [l ->]. done.
Qed.

(** What [main] puts out at the rows of a table. *)
Lemma add_run_at_table lines t :
  MaximalRun lines t ->
  let tbl := take (length (rows t)) (drop (startIndex t) lines) in
  (forall k ri, rows t !! k = Some ri -> out (run lines) !! ri = tableOut tbl !! k) /\
  (columnOf lines t "GitHub Stars" = -1 -> (0 < tablesModified (run lines))%nat).
Proof.
  intros Hrun tbl.
  destruct (run_split lines t Hrun) as (Hsplit & Hpre & Htbl & Hall & Hrows & Hlast).
  fold tbl in Hsplit, Htbl, Hall, Hrows.
  set (pre := take (startIndex t) lines) in *.
  set (post := drop (startIndex t + length (rows t)) lines) in *.
  assert (run lines =
          fold_left step post (fold_left step tbl (fold_left step pre init))) as ->.
  { unfold run. rewrite Hsplit at 1. by rewrite !fold_left_app. }
  set (st1 := fold_left step pre init).
  assert (inTable st1 = false) as Hin.
  { unfold st1. rewrite add_fold_inTable. by destruct (last pre). }
  destruct (add_run_table tbl st1 Hin Hall) as [Hout Hmod].
  destruct (add_fold_out pre init) as (X1 & HX1 & HlenX1). fold st1 in HX1. simpl in HX1.
  destruct (add_fold_out post (fold_left step tbl st1)) as (X3 & HX3 & HlenX3).
  split.
  - intros k ri Hri. destruct (Hrows k ri Hri) as (-> & Hk & _).
    rewrite HX3, Hout, HX1, <- app_assoc.
    rewrite lookup_app_r by lia.
    replace (startIndex t + k - length X1)%nat with k by lia.
    apply lookup_app_l. rewrite tableOut_length. lia.
  - intros Hc. eapply Nat.lt_le_trans; [|apply add_fold_modified].
    apply Hmod.
    + intros ->. pose proof (run_nonempty _ _ Hrun). simpl in Htbl. lia.
    + unfold tbl. by rewrite (table_head _ _ Hrun).
Qed.

Lemma add_main_out lines i :
  AddColumn.main lines !! i = lines !! i \/
  ((0 < tablesModified (run lines))%nat /\
   AddColumn.main lines !! i = out (run lines) !! i).
Proof.
  unfold AddColumn.main. destruct (Nat.eqb_spec (tablesModified (run lines)) 0).
  - by left.
  - right. split; [lia|done].
Qed.

(** Lines that are no table lines are put out as they are. *)
Lemma add_main_outside lines i :
  isTableAt lines i = false -> AddColumn.main lines !! i = lines !! i.
Proof.
  intros Hi. destruct (add_main_out lines i) as [H|[_ ->]]; [done|].
  destruct (lines !! i) as [line|] eqn:E.
  - unfold isTableAt in Hi. rewrite E in Hi.
    assert (Hsplit : lines = take i lines ++ line :: drop (S i) lines).
    { rewrite <- (take_drop i lines) at 1. f_equal. by apply drop_S. }
    assert (Hlen : length (take i lines) = i).
    { apply lookup_lt_Some in E. rewrite length_take. lia. }
    unfold run. rewrite Hsplit at 1. rewrite fold_left_app. simpl.
    destruct (add_fold_out (drop (S i) lines)
                (step (fold_left step (take i lines) init) line)) as (X3 & -> & _).
    rewrite add_step_nontable by done.
    destruct (add_fold_out (take i lines) init) as (X1 & -> & HX1). simpl.
    rewrite <- app_assoc. rewrite lookup_app_r by lia.
    replace (i - length X1)%nat with 0%nat by lia. done.
  - apply lookup_ge_None_2. rewrite add_run_length. by apply lookup_ge_None_1.
Qed.

(** A table that has the column is put out as it is. *)
Lemma add_main_has lines t ri :
  t ∈ findTables lines -> columnOf lines t "GitHub Stars" <> -1 ->
  ri ∈ rows t -> AddColumn.main lines !! ri = lines !! ri.
Proof.
  intros Ht Hc Hri. apply findTables_sound in Ht as Hrun.
  destruct (add_main_out lines ri) as [H|[_ ->]]; [done|].
  apply list_elem_of_lookup_1 in Hri as [k Hk].
  destruct (add_run_at_table lines t Hrun) as [Hout _]. rewrite (Hout k ri Hk).
  destruct (run_split lines t Hrun) as (_ & _ & _ & _ & Hrows & _).
  destruct (Hrows k ri Hk) as (_ & _ & <-).
  set (tbl := take _ _) in *.
  by rewrite (tableOut_has tbl (headerOf lines t)); [|apply table_head|].
Qed.

Lemma idxOf_range parts name :
  idxOf parts name = -1 \/ 0 <= idxOf parts name < Z.of_nat (length parts).
Proof. apply findIndex_range. Qed.

Lemma githubOf_range header :
  AddColumn.githubOf header = -1 \/
  0 <= AddColumn.githubOf header < Z.of_nat (length (cellsOf header)).
Proof.
  unfold AddColumn.githubOf.
  pose proof (idxOf_range (map Js.trim (cellsOf header)) "Github") as H1.
  pose proof (idxOf_range (map Js.trim (cellsOf header)) "GitHub") as H2.
  rewrite length_map in H1, H2.
  destruct (Z.eqb_spec (idxOf (map Js.trim (cellsOf header)) "Github") (-1)); lia.
Qed.

(** A table that lacks the column gets it, one cell in every row. *)
Lemma add_main_inserted lines t :
  t ∈ findTables lines -> columnOf lines t "GitHub Stars" = -1 ->
  InsertedUniformly lines (AddColumn.main lines) t.
Proof.
  intros Ht Hc. apply findTables_sound in Ht as Hrun.
  destruct (add_run_at_table lines t Hrun) as [Hout Hmod]. specialize (Hmod Hc).
  destruct (run_split lines t Hrun) as (_ & _ & Hlen & _ & Hrows & _).
  set (tbl := take _ _) in *.
  set (header := headerOf lines t).
  set (idx := insertIndexOf header).
  set (sepCell := separatorFor header (default EmptyString (tbl !! 1%nat))).
  assert (Hhead : head tbl = Some header) by (by apply table_head).
  assert (Hidx : 0 <= idx).
  { unfold idx, insertIndexOf. pose proof (githubOf_range header).
    destruct (Z.eqb_spec (githubOf header) (-1)); simpl; lia. }
  assert (Hcells : forall k ri, rows t !! k = Some ri ->
            cellsOf (lineAt (AddColumn.main lines) ri) =
            Js.splice idx (newCell sepCell k) (cellsOf (lineAt lines ri))).
  { intros k ri Hk. destruct (Hrows k ri Hk) as (_ & Hkn & Hl).
    assert (is_Some (tbl !! k)) as [l Hlk]
      by (apply lookup_lt_is_Some_2; by rewrite Hlen).
    unfold AddColumn.main. destruct (Nat.eqb_spec (tablesModified (run lines)) 0); [lia|].
    unfold lineAt at 1. rewrite (Hout k ri Hk).
    rewrite (tableOut_lookup tbl header k l Hhead Hc Hlk). simpl.
    unfold lineAt. rewrite <- Hl, Hlk. simpl.
    apply cellsOf_splice.
    destruct k as [|[|k]]; simpl; [done| |done].
    apply separatorCell_no_pipe. }
  exists idx, sepCell. split; [done|]. split.
  - intros k ri Hk. split; [by apply Hcells|].
    rewrite (Hcells k ri Hk). apply splice_length.
  - intros n Hn.
    assert (Hle : idx <= Z.of_nat n).
    { pose proof (run_nonempty _ _ Hrun) as Hne.
      assert (length (cellsOf header) = n) as Hh.
      { unfold header. rewrite (headerOf_start _ _ Hrun). apply Hn.
        rewrite (run_rows _ _ Hrun). apply elem_of_seq. lia. }
      unfold idx, insertIndexOf. pose proof (githubOf_range header).
      destruct (Z.eqb_spec (githubOf header) (-1)); simpl; lia. }
    split; [done|]. intros k ri Hk.
    rewrite (Hcells k ri Hk).
    assert (length (cellsOf (lineAt lines ri)) = n) as Hri
      by (by apply Hn, list_elem_of_lookup_2 with k).
    split; [|by rewrite splice_length, Hri].
    apply splice_lookup. lia.
Qed.

End AddColumnTables.

(** ** split-link-column.js *)

Section SplitLinkFacts.

Import Tables SplitLink.

Lemma split_step_out st line :
  exists x, updatedLines (step st line) = updatedLines st ++ [x].
Proof.
  unfold step. destruct st as [inT hlc link hasLink cc o]. simpl.
  repeat (match goal with |- context [if ?c then _ else _] => destruct c end;
          simpl); eauto.
Qed.

Lemma split_step_nontable st line :
  isTableLine line = false ->
  updatedLines (step st line) = updatedLines st ++ [line].
Proof.
  unfold isTableLine. intros H. unfold step. rewrite H.
  destruct st as [inT hlc link hasLink cc o]. simpl.
  repeat (match goal with |- context [if ?c then _ else _] => destruct c end;
          simpl); done.
Qed.

Lemma split_fold_out ls : forall st,
  exists X, updatedLines (fold_left step ls st) = updatedLines st ++ X /\
            length X = length ls.
Proof.
  induction ls as [|l ls IH]; intros st; simpl.
  - exists []. by rewrite app_nil_r.
  - destruct (IH (step st l)) as (X & -> & HX).
    destruct (split_step_out st l) as (x & ->).
    exists (x :: X). rewrite <- app_assoc. simpl. split; [done|lia].
Qed.

Lemma split_run_length lines : length (updatedLines (run lines)) = length lines.
Proof.
  unfold run. destruct (split_fold_out lines init) as (X & -> & HX). done.
Qed.

Lemma split_main_length lines : length (SplitLink.main lines) = length lines.
Proof.
  unfold SplitLink.main. destruct (_ =? _)%nat; [done|apply split_run_length].
Qed.

(** Lines that are no table lines are put out as they are. *)
Lemma split_main_outside lines i :
  isTableAt lines i = false -> SplitLink.main lines !! i = lines !! i.
Proof.
  intros Hi. unfold SplitLink.main. destruct (_ =? _)%nat; [done|].
  destruct (lines !! i) as [line|] eqn:E.
  - unfold isTableAt in Hi. rewrite E in Hi.
    assert (Hsplit : lines = take i lines ++ line :: drop (S i) lines).
    { rewrite <- (take_drop i lines) at 1. f_equal. by apply drop_S. }
    assert (Hlen : length (take i lines) = i).
    { apply lookup_lt_Some in E. rewrite length_take. lia. }
    unfold run. rewrite Hsplit at 1. rewrite fold_left_app. simpl.
    destruct (split_fold_out (drop (S i) lines)
                (step (fold_left step (take i lines) init) line)) as (X3 & -> & _).
    rewrite split_step_nontable by done.
    destruct (split_fold_out (take i lines) init) as (X1 & -> & HX1). simpl.
    rewrite <- app_assoc. rewrite lookup_app_r by lia.
    replace (i - length X1)%nat with 0%nat by lia. done.
  - apply lookup_ge_None_2. rewrite split_run_length. by apply lookup_ge_None_1.
Qed.

End SplitLinkFacts.

(** ** fill-github-stars.js: the column is inserted *)

Section EnsureColumn.

Import Tables FillStars.

Lemma insert_agree (L L' : list string) r v j :
  length L = length L' -> L !! j = L' !! j ->
  <[r := v]> L !! j = <[r := v]> L' !! j.
Proof.
  intros Hlen Hj. destruct (decide (r = j)) as [->|Hne].
  - destruct (decide (j < length L)%nat).
    + rewrite !list_lookup_insert_eq by lia. done.
    + rewrite !list_insert_ge by lia. done.
  - by rewrite !list_lookup_insert_ne.
Qed.

Lemma insertData_length idx data : forall L, length (insertData idx data L) = length L.
Proof.
  induction data as [|r data IH]; intros L; simpl; [done|].
  unfold insertData in *. simpl. by rewrite IH, length_insert.
Qed.

Lemma insertData_outside idx data : forall L i,
  i ∉ data -> insertData idx data L !! i = L !! i.
Proof.
  induction data as [|r data IH]; intros L i Hi; [done|].
  unfold insertData in *. simpl. rewrite IH by set_solver.
  apply list_lookup_insert_ne. set_solver.
Qed.

Lemma insertData_ext idx data : forall L L' i,
  length L = length L' -> (forall r, r ∈ data -> L !! r = L' !! r) ->
  L !! i = L' !! i ->
  insertData idx data L !! i = insertData idx data L' !! i.
Proof.
  induction data as [|r data IH]; intros L L' i Hlen Hd Hi; [done|].
  unfold insertData in *. simpl.
  rewrite (lineAt_ext L L' r) by (apply Hd; set_solver).
  apply IH.
  - by rewrite !length_insert.
  - intros r' Hr'. apply insert_agree; [done|]. apply Hd. set_solver.
  - by apply insert_agree.
Qed.

Lemma insertData_lookup idx data : forall L r,
  NoDup data -> r ∈ data -> (r < length L)%nat ->
  insertData idx data L !! r =
  Some (joinCells (Js.splice idx " " (cellsOf (lineAt L r)))).
Proof.
  induction data as [|r0 data IH]; intros L r Hnd Hr Hlt;
    [by apply elem_of_nil in Hr|].
  apply NoDup_cons in Hnd as [Hr0 Hnd].
  change (insertData idx (r0 :: data) L) with
    (insertData idx data
       (<[r0 := joinCells (Js.splice idx " " (cellsOf (lineAt L r0)))]> L)).
  destruct (decide (r = r0)) as [->|Hne].
  - rewrite insertData_outside by done. by apply list_lookup_insert_eq.
  - apply elem_of_cons in Hr as [?|Hr]; [done|].
    rewrite IH; [|done|done|by rewrite length_insert].
    do 4 f_equal. apply lineAt_ext. by apply list_lookup_insert_ne.
Qed.

Lemma insertStarsColumn_length L rows hdr g :
  length (insertStarsColumn L rows hdr g) = length L.
Proof.
  unfold insertStarsColumn. by rewrite insertData_length, !length_insert.
Qed.

Lemma ensureColumn_length L t : length (ensureColumn L t) = length L.
Proof.
  unfold ensureColumn.
  repeat match goal with |- context [if ?c then _ else _] => destruct c end;
    try done; apply insertStarsColumn_length.
Qed.

Lemma ensureColumn_outside L t i : i ∉ rows t -> ensureColumn L t !! i = L !! i.
Proof.
  intros Hi. unfold ensureColumn.
  destruct (Nat.ltb_spec (length (rows t)) 3) as [|H3]; [done|].
  repeat match goal with |- context [if ?c then _ else _] => destruct c end;
    try done; unfold insertStarsColumn;
    (rewrite insertData_outside
       by (intros H; by apply Hi, elem_of_drop_2 with 2%nat));
    (rewrite !list_lookup_insert_ne; [done|..]);
    intros <-; apply Hi, nth_elem_of; lia.
Qed.

Lemma ensureColumn_local L L' t :
  length L = length L' ->
  (forall i, i ∈ rows t -> L !! i = L' !! i) ->
  forall i, i ∈ rows t -> ensureColumn L t !! i = ensureColumn L' t !! i.
Proof.
  intros Hlen Hagree i Hi. unfold ensureColumn.
  destruct (Nat.ltb_spec (length (rows t)) 3) as [|H3]; [by apply Hagree|].
  assert (H0 : nth 0 (rows t) 0%nat ∈ rows t) by (apply nth_elem_of; lia).
  assert (H1 : nth 1 (rows t) 0%nat ∈ rows t) by (apply nth_elem_of; lia).
  rewrite <- (lineAt_ext L L' (nth 0 (rows t) 0%nat)) by (by apply Hagree).
  assert (Hins : forall hdr g,
            insertStarsColumn L (rows t) hdr g !! i
            = insertStarsColumn L' (rows t) hdr g !! i);
    [|repeat match goal with |- context [if ?c then _ else _] => destruct c end;
      try (by apply Hagree); apply Hins].
  intros hdr g. unfold insertStarsColumn.
  set (h := joinCells (Js.splice _ " GitHub Stars " _)).
  assert (Hl1 : forall j, j ∈ rows t ->
            <[nth 0 (rows t) 0%nat := h]> L !! j = <[nth 0 (rows t) 0%nat := h]> L' !! j).
  { intros j Hj. apply insert_agree; [done|by apply Hagree]. }
  rewrite <- (lineAt_ext _ _ (nth 1 (rows t) 0%nat) (Hl1 _ H1)).
  set (s := joinCells (Js.splice _ (_ +:+ separatorCellFrom _ +:+ _) _)).
  apply insertData_ext.
  - by rewrite !length_insert.
  - intros r Hr. apply insert_agree; [by rewrite !length_insert|].
    by apply Hl1, elem_of_drop_2 with 2%nat.
  - apply insert_agree; [by rewrite !length_insert|]. by apply Hl1.
Qed.

(** The lines of the first loop are those of [ensureColumn], table after
    table; a table that is not touched is left as it is. *)
Lemma tableStep_lines st t : (tableStep st t).1.1 = ensureColumn st.1.1 t.
Proof.
  destruct st as [[L jobs] n]. unfold tableStep, ensureColumn. simpl.
  repeat match goal with |- context [if ?c then _ else _] => destruct c end;
    done.
Qed.

Lemma scan_lines ts : forall st,
  (fold_left tableStep ts st).1.1 = fold_left ensureColumn ts st.1.1.
Proof.
  induction ts as [|t ts IH]; intros st; simpl; [done|].
  by rewrite IH, tableStep_lines.
Qed.

Lemma columnsEnsured_fold lines :
  columnsEnsured lines = fold_left ensureColumn (findTables lines) lines.
Proof. unfold columnsEnsured, scan. by rewrite scan_lines. Qed.

Lemma columnsEnsured_length lines : length (columnsEnsured lines) = length lines.
Proof.
  rewrite columnsEnsured_fold.
  apply (fold_tables_length ensureColumn ensureColumn_length).
Qed.

Lemma columnsEnsured_outside lines i :
  (forall t, t ∈ findTables lines -> i ∉ rows t) ->
  columnsEnsured lines !! i = lines !! i.
Proof.
  rewrite columnsEnsured_fold.
  apply (fold_tables_outside ensureColumn ensureColumn_outside).
Qed.

Lemma columnsEnsured_inside lines t i :
  t ∈ findTables lines -> i ∈ rows t ->
  columnsEnsured lines !! i = ensureColumn lines t !! i.
Proof.
  rewrite columnsEnsured_fold.
  apply (fold_tables_inside ensureColumn ensureColumn_length ensureColumn_outside
           ensureColumn_local), findTables_apart.
Qed.

Lemma tableStep_touched st t :
  (st.2 <= (tableStep st t).2)%nat /\
  ((tableStep st t).2 = st.2 -> (tableStep st t).1.1 = st.1.1).
Proof.
  destruct st as [[L jobs] n]. unfold tableStep. simpl.
  repeat match goal with |- context [if ?c then _ else _] => destruct c end;
    simpl; (split; [lia|]); (done || lia).
Qed.

Lemma scan_touched ts : forall st,
  (st.2 <= (fold_left tableStep ts st).2)%nat /\
  ((fold_left tableStep ts st).2 = st.2 -> (fold_left tableStep ts st).1.1 = st.1.1).
Proof.
  induction ts as [|t ts IH]; intros st; simpl; [done|].
  destruct (IH (tableStep st t)) as [H1 H2].
  destruct (tableStep_touched st t) as [H3 H4].
  split; [lia|]. intros Heq. rewrite H2 by lia. apply H4. lia.
Qed.

(** A table without a [Github] column, with the stars column, or of
    fewer than three lines is left as it is. *)
Lemma ensureColumn_skip L t :
  (length (rows t) < 3)%nat \/ githubColumnOf L t = -1
  \/ columnOf L t "GitHub Stars" <> -1 ->
  ensureColumn L t = L.
Proof.
  intros H. unfold ensureColumn.
  destruct (Nat.ltb_spec (length (rows t)) 3) as [|H3]; [done|].
  unfold githubColumnOf, columnOf, headerOf in H.
  destruct H as [H|[H|H]]; [lia| |].
  - by rewrite H.
  - destruct (_ =? -1); [done|].
    by destruct (Z.eqb_spec
      (idxOf (map Js.trim (cellsOf (lineAt L (nth 0 (rows t) 0%nat)))) "GitHub Stars") (-1)).
Qed.

(** A table with a [Github] column and without the stars column gets it. *)
Lemma ensureColumn_lookup L t k ri :
  NoDup (rows t) -> (forall r, r ∈ rows t -> (r < length L)%nat) ->
  (3 <= length (rows t))%nat ->
  githubColumnOf L t <> -1 -> columnOf L t "GitHub Stars" = -1 ->
  rows t !! k = Some ri ->
  ensureColumn L t !! ri =
  Some (joinCells
          (Js.splice (githubColumnOf L t + 1)
             (newCell
                (" " +:+ separatorCellFrom
                   (Some (orElse (Js.at_ (cellsOf (lineAt L (nth 1 (rows t) 0%nat)))
                                         (githubColumnOf L t)) " --- ")) +:+ " ")
                k)
             (cellsOf (lineAt L ri)))).
Proof.
  intros Hnd Hlt H3 Hg Hs Hk. unfold ensureColumn.
  destruct (Nat.ltb_spec (length (rows t)) 3) as [|_]; [lia|].
  unfold githubColumnOf, columnOf, headerOf in *.
  set (g := if _ =? -1 then _ else _) in *.
  destruct (Z.eqb_spec g (-1)); [done|]. rewrite Hs. simpl.
  unfold insertStarsColumn.
  destruct (rows t) as [|r0 [|r1 data]] eqn:Er; simpl in H3; try lia.
  simpl.
  apply NoDup_cons in Hnd as [Hr0 Hnd]. apply NoDup_cons in Hnd as [Hr1 Hnd].
  assert (r0 <> r1) by set_solver.
  assert (Hlt0 : (r0 < length L)%nat) by (apply Hlt; set_solver).
  assert (Hlt1 : (r1 < length L)%nat) by (apply Hlt; set_solver).
  assert (Hsep : lineAt (<[r0 := joinCells (Js.splice (g + 1) " GitHub Stars "
                                  (cellsOf (lineAt L r0)))]> L) r1 = lineAt L r1).
  { apply lineAt_ext. by apply list_lookup_insert_ne. }
  rewrite Hsep.
  destruct k as [|[|k]]; simpl in Hk.
  - injection Hk as <-. rewrite insertData_outside by set_solver.
    rewrite list_lookup_insert_ne by done.
    by rewrite list_lookup_insert_eq.
  - injection Hk as <-. rewrite insertData_outside by done.
    by rewrite list_lookup_insert_eq by (by rewrite length_insert).
  - assert (ri ∈ data) as Hin by (by eapply list_elem_of_lookup_2).
    rewrite insertData_lookup; [|done|done|rewrite !length_insert; apply Hlt; set_solver].
    do 4 f_equal. apply lineAt_ext.
    rewrite !list_lookup_insert_ne; [done|set_solver..].
Qed.

End EnsureColumn.

(** ** fill-github-stars.js: the loop over the jobs *)

Section JobFacts.

Import Tables FillStars.

Variable httpsGetJson : nat -> string -> Response.

Local Abbreviation runJobs := (runJobs httpsGetJson).
Local Abbreviation fetchRepo := (githubApiFetchRepo httpsGetJson).

Lemma writeStars_length L job v : length (writeStars L job v) = length L.
Proof. unfold writeStars. apply length_insert. Qed.

Lemma writeStars_outside L job v i :
  lineIndex job <> i -> writeStars L job v !! i = L !! i.
Proof. intros H. unfold writeStars. by apply list_lookup_insert_ne. Qed.

(** One turn of the loop, case by case. *)
Lemma runJobs_cons job rest st :
  runJobs (job :: rest) st =
  match cached st (repo job) with
  | Some stars => runJobs rest (written st job stars)
  | None =>
      let called c hit :=
        mkRun (lines st) c (S (apiCalls st)) (rowsUpdated st) hit
              (lookups st ++ [repo job]) in
      match fetchRepo (apiCalls st) (repo job) with
      | RateLimited => called (cache st) true
      | Failed => runJobs rest (called (cache st) (hitRateLimit st))
      | Ok stars =>
          let st' := called (<[repo job := stars]> (cache st)) (hitRateLimit st) in
          match stars with
          | None => runJobs rest st'
          | Some v => runJobs rest (written st' job v)
          end
      end
  end.
Proof. done. Qed.

Lemma runJobs_length jobs : forall st,
  length (lines (runJobs jobs st)) = length (lines st).
Proof.
  induction jobs as [|job rest IH]; intros st; [done|].
  rewrite runJobs_cons.
  destruct (cached st (repo job)); [by rewrite IH; apply writeStars_length|].
  destruct (fetchRepo _ _) as [[v|]| |]; simpl; rewrite ?IH; try done.
  apply writeStars_length.
Qed.

Lemma runJobs_outside jobs : forall st i,
  (forall j, j ∈ jobs -> lineIndex j <> i) ->
  lines (runJobs jobs st) !! i = lines st !! i.
Proof.
  induction jobs as [|job rest IH]; intros st i Hi; [done|].
  assert (Hj : lineIndex job <> i) by (apply Hi; set_solver).
  assert (Hr : forall j, j ∈ rest -> lineIndex j <> i)
    by (intros j ?; apply Hi; set_solver).
  rewrite runJobs_cons.
  destruct (cached st (repo job)); [by rewrite IH; [apply writeStars_outside|]|].
  destruct (fetchRepo _ _) as [[v|]| |]; simpl; rewrite ?IH by done; try done.
  by apply writeStars_outside.
Qed.

(** Rows are counted when they are written: no count, no change. *)
Lemma runJobs_rows jobs : forall st,
  (rowsUpdated st <= rowsUpdated (runJobs jobs st))%nat /\
  (rowsUpdated (runJobs jobs st) = rowsUpdated st ->
   lines (runJobs jobs st) = lines st).
Proof.
  induction jobs as [|job rest IH]; intros st; [done|].
  rewrite runJobs_cons.
  destruct (cached st (repo job)) as [v|].
  { destruct (IH (written st job v)) as [H1 H2]. simpl in *. split; lia. }
  destruct (fetchRepo _ _) as [[v|]| |]; simpl; try done.
  - match goal with |- context [runJobs rest ?s] => destruct (IH s) as [H1 H2] end.
    simpl in *. split; lia.
  - match goal with |- context [runJobs rest ?s] => destruct (IH s) as [H1 H2] end.
    done.
  - match goal with |- context [runJobs rest ?s] => destruct (IH s) as [H1 H2] end.
    done.
Qed.

(** What [main] writes is the document as the loops left it: nothing is
    left unwritten. *)
Lemma main_document lines0 :
  document (main httpsGetJson lines0) = lines (finalState (main httpsGetJson lines0)).
Proof.
  unfold main.
  pose proof (scan_touched (findTables lines0) (lines0, [], 0%nat)) as [_ Hsame].
  fold (scan lines0) in Hsame.
  destruct (scan lines0) as [[L jobs] touched]. simpl in Hsame.
  destruct (length jobs =? 0)%nat; simpl.
  - destruct touched; simpl; [symmetry; by apply Hsame|done].
  - destruct (runJobs_rows jobs (start L)) as [_ Hrows]. simpl in Hrows.
    destruct (rowsUpdated (runJobs jobs (start L))); simpl; [|done].
    destruct touched; simpl; [|done].
    rewrite Hrows by done. simpl. symmetry. by apply Hsame.
Qed.

(** The loop stops at the first rate limit. *)
Lemma runJobs_app pre rest : forall st,
  hitRateLimit st = false ->
  runJobs (pre ++ rest) st =
  if hitRateLimit (runJobs pre st) then runJobs pre st
  else runJobs rest (runJobs pre st).
Proof.
  induction pre as [|job pre IH]; intros st Hst.
  - simpl. by rewrite Hst.
  - rewrite <- app_comm_cons, !runJobs_cons.
    destruct (cached st (repo job)) as [v|]; [by apply IH|].
    destruct (fetchRepo _ _) as [[v|]| |]; simpl; try (by apply IH); done.
Qed.

(** The jobs of the first loop are data rows of tables of at least three
    lines. *)
Lemma tableStep_jobs st t j :
  j ∈ (tableStep st t).1.2 ->
  j ∈ st.1.2 \/ ((3 <= length (rows t))%nat /\ lineIndex j ∈ dataRows t).
Proof.
  destruct st as [[L jobs] n]. unfold tableStep. simpl.
  destruct (Nat.ltb_spec (length (rows t)) 3) as [|H3]; [by left|].
  assert (Hjobs : forall L' g s, j ∈ jobs ++ jobsOf L' (rows t) g s ->
            j ∈ jobs \/ ((3 <= length (rows t))%nat /\ lineIndex j ∈ dataRows t)).
  { intros L' g s [H|H]%elem_of_app; [by left|right]. split; [done|].
    unfold jobsOf in H. apply list_elem_of_omap in H as (ri & Hri & Hj).
    destruct (Links.parseGithubRepo _) as [r|]; [|done].
    destruct (String.eqb r EmptyString); [done|].
    injection Hj as <-. done. }
  repeat match goal with |- context [if ?c then _ else _] => destruct c end;
    simpl; try (by left); apply Hjobs.
Qed.

Lemma scan_jobs ts : forall st j,
  j ∈ (fold_left tableStep ts st).1.2 ->
  j ∈ st.1.2 \/
  exists t, t ∈ ts /\ (3 <= length (rows t))%nat /\ lineIndex j ∈ dataRows t.
Proof.
  induction ts as [|t ts IH]; intros st j Hj; simpl in Hj; [by left|].
  apply IH in Hj as [Hj|(t' & Ht' & H)].
  - apply tableStep_jobs in Hj as [Hj|Hj]; [by left|].
    right. exists t. split; [apply list_elem_of_here|done].
  - right. exists t'. split; [by apply list_elem_of_further|done].
Qed.

End JobFacts.

Section JobTheorems.

Import Tables FillStars.

Variable httpsGetJson : nat -> string -> Response.

Local Abbreviation runJobs := (runJobs httpsGetJson).
Local Abbreviation fetchRepo := (githubApiFetchRepo httpsGetJson).

Local Abbreviation JobInv := (FillStars.JobInv httpsGetJson).

Lemma JobInv_written st job v : JobInv st -> JobInv (written st job v).
Proof. done. Qed.

Lemma JobInv_called st job c hit :
  JobInv st -> cached st (repo job) = None ->
  (forall r, r <> repo job -> c !! r = cache st !! r) ->
  (forall v, fetchRepo (apiCalls st) (repo job) = Ok (Some v) ->
     c !! repo job = Some (Some v)) ->
  JobInv (mkRun (lines st) c (S (apiCalls st)) (rowsUpdated st) hit
                (lookups st ++ [repo job])).
Proof.
  intros (Hcalls & Hcached & Honce) Hmiss Hother Hnew.
  assert (Hold : forall n v, lookups st !! n = Some (repo job) ->
            fetchRepo n (repo job) = Ok (Some v) -> False).
  { intros n v Hn Hv. unfold cached in Hmiss.
    by rewrite (Hcached n (repo job) v) in Hmiss. }
  split; [|split]; simpl.
  - rewrite length_app. simpl. lia.
  - intros n r v [Hn Hv].
    apply lookup_app_Some in Hn as [Hn|[Hlen Hn]].
    + assert (r <> repo job) as Hne by (intros ->; by apply (Hold n v)).
      rewrite (Hother r Hne). by apply (Hcached n).
    + apply list_lookup_singleton_Some in Hn as [Hn <-].
      assert (n = apiCalls st) as -> by lia.
      by apply Hnew.
  - intros n m r v [Hn Hv] Hnm Hm.
    apply lookup_app_Some in Hm as [Hm|[Hlen Hm]].
    + assert (lookups st !! n = Some r) as Hn'.
      { apply lookup_lt_Some in Hm.
        rewrite lookup_app_l in Hn by lia. done. }
      by apply (Honce n m r v).
    + apply list_lookup_singleton_Some in Hm as [Hm <-].
      apply (Hold n v); [|done].
      rewrite lookup_app_l in Hn by lia. done.
Qed.

Lemma runJobs_inv jobs : forall st, JobInv st -> JobInv (runJobs jobs st).
Proof.
  induction jobs as [|job rest IH]; intros st Hst; [done|].
  rewrite runJobs_cons.
  destruct (cached st (repo job)) as [v|] eqn:Hc; [by apply IH|].
  destruct (fetchRepo _ _) as [[v|]| |] eqn:Hf; simpl.
  - apply IH, JobInv_written, JobInv_called; [done|done| |].
    + intros r Hr. by rewrite lookup_insert_ne.
    + intros v' Hv'. rewrite Hf in Hv'. injection Hv' as <-.
      by rewrite lookup_insert_eq.
  - apply IH, JobInv_called; [done|done| |].
    + intros r Hr. by rewrite lookup_insert_ne.
    + intros v' Hv'. rewrite Hf in Hv'. discriminate.
  - apply JobInv_called; [done|done|done|].
    intros v' Hv'. rewrite Hf in Hv'. discriminate.
  - apply IH, JobInv_called; [done|done|done|].
    intros v' Hv'. rewrite Hf in Hv'. discriminate.
Qed.

Lemma start_inv L : JobInv (start L).
Proof.
  split; [done|]. split.
  - by intros n r v [Hn _].
  - by intros n m r v [Hn _].
Qed.

Lemma main_inv lines0 : JobInv (finalState (main httpsGetJson lines0)).
Proof.
  unfold main. destruct (scan lines0) as [[L jobs] touched].
  destruct (length jobs =? 0)%nat; simpl; [apply start_inv|].
  apply runJobs_inv, start_inv.
Qed.

(** The document after [main], line by line: the first loop, then the
    rows of the jobs. *)
Lemma main_final_lines lines0 :
  let '(L, jobs, touched) := scan lines0 in
  finalState (main httpsGetJson lines0) = runJobs jobs (start L).
Proof.
  unfold main. destruct (scan lines0) as [[L jobs] touched].
  destruct jobs; done.
Qed.

Lemma fill_main_length lines0 :
  length (document (main httpsGetJson lines0)) = length lines0.
Proof.
  rewrite main_document. pose proof (main_final_lines lines0) as H.
  pose proof (columnsEnsured_length lines0) as Hl. unfold columnsEnsured in Hl.
  destruct (scan lines0) as [[L jobs] touched]. rewrite H.
  by rewrite runJobs_length.
Qed.

Lemma fill_main_lookup lines0 i :
  (forall t, t ∈ findTables lines0 -> (3 <= length (rows t))%nat ->
     i ∉ dataRows t) ->
  document (main httpsGetJson lines0) !! i = columnsEnsured lines0 !! i.
Proof.
  intros Hi. rewrite main_document. pose proof (main_final_lines lines0) as H.
  pose proof (scan_jobs (findTables lines0) (lines0, [], 0%nat)) as Hjobs.
  fold (scan lines0) in Hjobs. unfold columnsEnsured.
  destruct (scan lines0) as [[L jobs] touched]. rewrite H. simpl in *.
  rewrite runJobs_outside; [done|].
  intros j Hj <-. apply Hjobs in Hj as [Hj|(t & Ht & H3 & Hd)];
    [by apply elem_of_nil in Hj|].
  by apply (Hi t).
Qed.

End JobTheorems.

Section JobClaims.

Import Tables FillStars.

(** C8. When the lookup of a job is answered with the rate limit (and none
    before it was), that lookup is the last of the run; the document that
    is written is the document with the column inserted by the first loop
    and the star counts written for the jobs before; every line that is
    not the row of one of those jobs is as the first loop left it. *)
Theorem rate_limit_stops_lookups
    (httpsGetJson : nat -> string -> Response) (lines0 : list string)
    (pre : list Job) (job : Job) (post : list Job) :
  let st := runJobs httpsGetJson pre (start (columnsEnsured lines0)) in
  let r := main httpsGetJson lines0 in
  (scan lines0).1.2 = pre ++ job :: post ->
  hitRateLimit st = false ->
  cached st (repo job) = None ->
  githubApiFetchRepo httpsGetJson (apiCalls st) (repo job) = RateLimited ->
  lookups (finalState r) = lookups st ++ [repo job] /\
  apiCalls (finalState r) = S (apiCalls st) /\
  hitRateLimit (finalState r) = true /\
  document r = lines st /\
  (forall i, (forall j, j ∈ pre -> lineIndex j <> i) ->
     document r !! i = columnsEnsured lines0 !! i).
Proof.
  intros st r Hjobs Hhit Hmiss Hlimit.
  assert (Hfinal : finalState r =
            mkRun (lines st) (cache st) (S (apiCalls st)) (rowsUpdated st) true
                  (lookups st ++ [repo job])).
  { unfold r. pose proof (main_final_lines httpsGetJson lines0) as H.
    unfold st, columnsEnsured in *.
    destruct (scan lines0) as [[L jobs] touched]. simpl in *. subst jobs.
    rewrite H, runJobs_app by done. rewrite Hhit, runJobs_cons, Hmiss, Hlimit.
    done. }
  assert (Hdoc : document r = lines st).
  { unfold r. rewrite main_document. fold r. by rewrite Hfinal. }
  rewrite Hfinal. simpl. repeat split; try done.
  intros i Hi. rewrite Hdoc. unfold st. by rewrite runJobs_outside.
Qed.

Lemma rate_limit_stops_lookups_witness :
  let st := runJobs Examples.limitedAfterOne [mkJob 2 2 "a/b"]
              (start (columnsEnsured Examples.threeRepos)) in
  let r := main Examples.limitedAfterOne Examples.threeRepos in
  lookups (finalState r) = lookups st ++ ["c/d"] /\
  apiCalls (finalState r) = S (apiCalls st) /\
  hitRateLimit (finalState r) = true /\
  document r = lines st /\
  (forall i, (forall j, j ∈ [mkJob 2 2 "a/b"] -> lineIndex j <> i) ->
     document r !! i = columnsEnsured Examples.threeRepos !! i).
Proof.
  apply (rate_limit_stops_lookups Examples.limitedAfterOne Examples.threeRepos
           [mkJob 2 2 "a/b"] (mkJob 3 2 "c/d") [mkJob 4 2 "e/f"]).
  - reflexivity.
  - reflexivity.
  - reflexivity.
  - reflexivity.
Defined.

End JobClaims.

(** ** fill-github-from-website.js *)

Section FromWebsiteFacts.

Import FromWebsite.

Variable URL : string -> option string.
Variable discover : nat -> string -> option string.

(** [parseTables] finds the tables of [findTables]. *)
Lemma parseStep_findStep pst st line :
  pst.1 = st.1 -> map rows pst.2 = map Tables.rows st.2 ->
  (parseStep pst line).1 = (Tables.findStep st line).1 /\
  map rows (parseStep pst line).2 = map Tables.rows (Tables.findStep st line).2.
Proof.
  destruct pst as [[i b] pts], st as [[i' b'] ts]. simpl.
  intros [= <- <-] Hrows.
  assert (Hlen : length pts = length ts).
  { apply (f_equal length) in Hrows. by rewrite !length_map in Hrows. }
  unfold parseStep, Tables.findStep.
  destruct (Tables.isTableLine line), b; simpl; try done.
  - split; [done|].
    change (rows <$> alter (pushRow i) (length pts - 1)%nat pts =
            Tables.rows <$> alter (Tables.pushRow i) (length ts - 1)%nat ts).
    rewrite (list_fmap_alter rows (pushRow i) (fun r => r ++ [i]))
      by (by apply Forall_forall).
    rewrite (list_fmap_alter Tables.rows (Tables.pushRow i) (fun r => r ++ [i]))
      by (by apply Forall_forall).
    rewrite Hlen. f_equal. done.
  - split; [done|]. rewrite !map_app. simpl. by rewrite Hrows.
Qed.

Lemma parseTables_fold lines : forall pst st,
  pst.1 = st.1 -> map rows pst.2 = map Tables.rows st.2 ->
  map rows (fold_left parseStep lines pst).2
  = map Tables.rows (fold_left Tables.findStep lines st).2.
Proof.
  induction lines as [|line rest IH]; intros pst st H1 H2; simpl; [done|].
  destruct (parseStep_findStep pst st line H1 H2) as [H3 H4]. by apply IH.
Qed.

Lemma parseTables_rows lines :
  map rows (parseTables lines) = map Tables.rows (Tables.findTables lines).
Proof. by apply parseTables_fold. Qed.

Lemma writeLink_length L up found : length (writeLink L up found) = length L.
Proof. unfold writeLink. apply length_insert. Qed.

Lemma applyUpdates_outside updates : forall n st i,
  (forall up, up ∈ updates -> lineIdx up <> i) ->
  (applyUpdates discover n updates st).1 !! i = st.1 !! i.
Proof.
  induction updates as [|up rest IH]; intros n st i Hi; [done|].
  assert (Hr : forall u, u ∈ rest -> lineIdx u <> i)
    by (intros u ?; apply Hi; by apply list_elem_of_further).
  simpl. destruct (discover n (websiteUrl up)) as [found|]; [|by apply IH].
  destruct (String.eqb found EmptyString); [by apply IH|].
  rewrite IH by done. simpl. unfold writeLink.
  apply list_lookup_insert_ne, Hi, list_elem_of_here.
Qed.

Lemma applyUpdates_length updates : forall n st,
  length (applyUpdates discover n updates st).1 = length st.1.
Proof.
  induction updates as [|up rest IH]; intros n st; [done|].
  simpl. destruct (discover n (websiteUrl up)) as [found|]; [|by apply IH].
  destruct (String.eqb found EmptyString); [by apply IH|].
  rewrite IH. apply writeLink_length.
Qed.

Lemma updatesOf_rows L t up :
  up ∈ updatesOf URL L t ->
  (3 <= length (rows t))%nat /\ lineIdx up ∈ drop 2 (rows t).
Proof.
  unfold updatesOf.
  destruct (_ || _); [by intros ?%elem_of_nil|].
  destruct (Nat.ltb_spec (length (rows t)) 3); [by intros ?%elem_of_nil|].
  intros (ri & Hri & Hup)%list_elem_of_omap. split; [done|].
  repeat match type of Hup with
         | match ?o with _ => _ end = _ => destruct o; try done
         | (if ?c then _ else _) = _ => destruct c; try done
         end.
  by injection Hup as <-.
Qed.

Lemma from_main_length lines : length (main URL discover lines) = length lines.
Proof.
  unfold main. destruct (_ =? _)%nat; [done|].
  pose proof (applyUpdates_length
                (flat_map (updatesOf URL lines) (parseTables lines)) 0
                (lines, 0%nat)) as H.
  destruct (applyUpdates _ _ _ _) as [L' applied]. simpl in H.
  by destruct (0 <? applied)%nat.
Qed.

(** Only data rows of tables of at least three lines are written. *)
Lemma from_main_lookup lines i :
  (forall t, t ∈ Tables.findTables lines -> (3 <= length (Tables.rows t))%nat ->
     i ∉ Tables.dataRows t) ->
  main URL discover lines !! i = lines !! i.
Proof.
  intros Hi. unfold main. destruct (_ =? _)%nat; [done|].
  pose proof (applyUpdates_outside
                (flat_map (updatesOf URL lines) (parseTables lines)) 0
                (lines, 0%nat) i) as H.
  destruct (applyUpdates _ _ _ _) as [L' applied]. simpl in H.
  destruct (0 <? applied)%nat; [|done]. apply H.
  intros up Hup <-.
  apply list_elem_of_In, in_flat_map in Hup as (pt & Hpt & Hup).
  apply list_elem_of_In in Hpt, Hup.
  apply updatesOf_rows in Hup as [H3 Hd].
  assert (rows pt ∈ map Tables.rows (Tables.findTables lines)) as Hin.
  { rewrite <- parseTables_rows. by apply list_elem_of_fmap_2. }
  apply list_elem_of_fmap in Hin as (t & Hrows & Ht).
  apply (Hi t Ht); unfold Tables.dataRows; by rewrite <- Hrows.
Qed.

End FromWebsiteFacts.

(** ** The claims on tables *)

Section TableClaims.

Import Tables.

Lemma githubColumnOf_range lines t :
  githubColumnOf lines t = -1 \/
  0 <= githubColumnOf lines t < Z.of_nat (length (cellsOf (headerOf lines t))).
Proof. apply githubOf_range. Qed.

Lemma fill_inserted lines t :
  t ∈ findTables lines -> columnOf lines t "GitHub Stars" = -1 ->
  (3 <= length (rows t))%nat -> githubColumnOf lines t <> -1 ->
  InsertedUniformly lines (FillStars.columnsEnsured lines) t.
Proof.
  intros Ht Hc H3 Hg. apply findTables_sound in Ht as Hrun.
  set (idx := githubColumnOf lines t + 1).
  set (sepCell :=
         " " +:+ separatorCellFrom
           (Some (orElse (Js.at_ (cellsOf (lineAt lines (nth 1 (rows t) 0%nat)))
                                 (githubColumnOf lines t)) " --- ")) +:+ " ").
  pose proof (githubColumnOf_range lines t) as Hrange.
  assert (Hcells : forall k ri, rows t !! k = Some ri ->
            cellsOf (lineAt (FillStars.columnsEnsured lines) ri) =
            Js.splice idx (newCell sepCell k) (cellsOf (lineAt lines ri))).
  { intros k ri Hk. unfold lineAt at 1.
    rewrite (columnsEnsured_inside lines t ri Ht)
      by (by apply list_elem_of_lookup_2 in Hk).
    rewrite (ensureColumn_lookup lines t k ri); try done.
    - simpl. apply cellsOf_splice.
      destruct k as [|[|k]]; simpl; [done| |done]. apply separatorCell_no_pipe.
    - by apply (run_NoDup lines).
    - intros r. by apply run_rows_lt. }
  exists idx, sepCell. split; [unfold idx; lia|]. split.
  - intros k ri Hk. split; [by apply Hcells|].
    rewrite (Hcells k ri Hk). apply splice_length.
  - intros n Hn.
    assert (length (cellsOf (headerOf lines t)) = n) as Hh.
    { rewrite (headerOf_start _ _ Hrun). apply Hn.
      rewrite (run_rows _ _ Hrun). apply elem_of_seq.
      pose proof (run_nonempty _ _ Hrun). lia. }
    split; [unfold idx; lia|]. intros k ri Hk.
    rewrite (Hcells k ri Hk).
    assert (length (cellsOf (lineAt lines ri)) = n) as Hri
      by (by apply Hn, list_elem_of_lookup_2 with k).
    split; [|by rewrite splice_length, Hri].
    apply splice_lookup. unfold idx. lia.
Qed.

(** What the insertion does in every table.  When the [GitHub Stars]
    column is inserted into a table (by
    add-github-stars-column.js into every table without it, by
    fill-github-stars.js into those of them that have a [Github] column and
    a data row), every row of the table gets exactly one new cell, by the
    same [splice] at the same index in the header row, the separator row
    and every data row; when the rows had the same number of cells before,
    the new cell stands at that index in every row and the rows have the
    same number of cells afterwards, one more.  No other line gets a
    cell: lines outside the tables, and the lines of the tables that a
    script does not insert the column into, are not changed. *)
Theorem column_insertion_uniform lines t :
  t ∈ findTables lines ->
  columnOf lines t "GitHub Stars" = -1 ->
  InsertedUniformly lines (AddColumn.main lines) t /\
  ((3 <= length (rows t))%nat -> githubColumnOf lines t <> -1 ->
   InsertedUniformly lines (FillStars.columnsEnsured lines) t) /\
  (forall i, (forall t', t' ∈ findTables lines -> i ∉ rows t') ->
     AddColumn.main lines !! i = lines !! i /\
     FillStars.columnsEnsured lines !! i = lines !! i) /\
  (forall t' i, t' ∈ findTables lines -> i ∈ rows t' ->
     (columnOf lines t' "GitHub Stars" <> -1 ->
      AddColumn.main lines !! i = lines !! i) /\
     ((length (rows t') < 3)%nat \/ githubColumnOf lines t' = -1 \/
      columnOf lines t' "GitHub Stars" <> -1 ->
      FillStars.columnsEnsured lines !! i = lines !! i)).
Proof.
  intros Ht Hc. split; [by apply add_main_inserted|]. split; [|split].
  - intros H3 Hg. by apply fill_inserted.
  - intros i Hi. split.
    + by apply add_main_outside, outside_tables.
    + by apply columnsEnsured_outside.
  - intros t' i Ht' Hi. split.
    + intros Hc'. by apply (add_main_has lines t').
    + intros Hskip. rewrite (columnsEnsured_inside lines t' i Ht' Hi).
      by rewrite ensureColumn_skip.
Qed.

Lemma column_insertion_uniform_witness :
  InsertedUniformly Examples.threeTables
    (AddColumn.main Examples.threeTables) (mkTable 1 [1; 2; 3]%nat) /\
  ((3 <= 3)%nat -> (2 : Z) <> -1 ->
   InsertedUniformly Examples.threeTables
     (FillStars.columnsEnsured Examples.threeTables) (mkTable 1 [1; 2; 3]%nat)) /\
  (forall i,
     (forall t', t' ∈ findTables Examples.threeTables -> i ∉ rows t') ->
     AddColumn.main Examples.threeTables !! i = Examples.threeTables !! i /\
     FillStars.columnsEnsured Examples.threeTables !! i
       = Examples.threeTables !! i) /\
  (forall t' i, t' ∈ findTables Examples.threeTables -> i ∈ rows t' ->
     (columnOf Examples.threeTables t' "GitHub Stars" <> -1 ->
      AddColumn.main Examples.threeTables !! i = Examples.threeTables !! i) /\
     ((length (rows t') < 3)%nat \/ githubColumnOf Examples.threeTables t' = -1 \/
      columnOf Examples.threeTables t' "GitHub Stars" <> -1 ->
      FillStars.columnsEnsured Examples.threeTables !! i
        = Examples.threeTables !! i)).
Proof.
  apply (column_insertion_uniform Examples.threeTables (mkTable 1 [1; 2; 3]%nat)).
  - vm_compute. apply list_elem_of_here.
  - reflexivity.
Defined.

(** C4. A line that is in no table of the document is, after each of the
    scripts, the same line at the same place; and the document has as many
    lines as before. *)
Theorem lines_outside_tables_unchanged lines i :
  (forall t, t ∈ findTables lines -> i ∉ rows t) ->
  (AddColumn.main lines !! i = lines !! i /\
   length (AddColumn.main lines) = length lines) /\
  (SplitLink.main lines !! i = lines !! i /\
   length (SplitLink.main lines) = length lines) /\
  (SortByStars.main lines !! i = lines !! i /\
   length (SortByStars.main lines) = length lines) /\
  (forall httpsGetJson,
     FillStars.document (FillStars.main httpsGetJson lines) !! i = lines !! i /\
     length (FillStars.document (FillStars.main httpsGetJson lines)) = length lines) /\
  (forall URL discover,
     FromWebsite.main URL discover lines !! i = lines !! i /\
     length (FromWebsite.main URL discover lines) = length lines).
Proof.
  intros Hi. pose proof (proj1 (outside_tables lines i) Hi) as Hno.
  split; [split; [by apply add_main_outside|apply add_main_length]|].
  split; [split; [by apply split_main_outside|apply split_main_length]|].
  split; [split; [by apply sort_main_outside|apply sort_main_length]|].
  split.
  - intros fetch. split; [|apply fill_main_length].
    rewrite fill_main_lookup, columnsEnsured_outside; [done..|].
    intros t Ht _ Hd. apply (Hi t Ht). by apply elem_of_drop_2 with 2%nat.
  - intros URL discover. split; [|apply from_main_length].
    apply from_main_lookup.
    intros t Ht _ Hd. apply (Hi t Ht). by apply elem_of_drop_2 with 2%nat.
Qed.

Lemma lines_outside_tables_unchanged_witness :
  (AddColumn.main Examples.threeTables !! 8%nat = Some "text" /\
   length (AddColumn.main Examples.threeTables) = 11%nat) /\
  (SplitLink.main Examples.threeTables !! 8%nat = Some "text" /\
   length (SplitLink.main Examples.threeTables) = 11%nat) /\
  (SortByStars.main Examples.threeTables !! 8%nat = Some "text" /\
   length (SortByStars.main Examples.threeTables) = 11%nat) /\
  (forall httpsGetJson,
     FillStars.document (FillStars.main httpsGetJson Examples.threeTables) !! 8%nat
       = Some "text" /\
     length (FillStars.document (FillStars.main httpsGetJson Examples.threeTables))
       = 11%nat) /\
  (forall URL discover,
     FromWebsite.main URL discover Examples.threeTables !! 8%nat = Some "text" /\
     length (FromWebsite.main URL discover Examples.threeTables) = 11%nat).
Proof.
  apply (lines_outside_tables_unchanged Examples.threeTables 8).
  intros t Ht Hin. vm_compute in Ht.
  apply list_elem_of_In in Ht. simpl in Ht.
  destruct Ht as [<-|[<-|[<-|[]]]];
    apply list_elem_of_In in Hin; simpl in Hin; lia.
Defined.

(** C5. A table whose header has a cell that is [GitHub Stars] after
    trimming and up to case is left as it is by the insertion of the column,
    line for line (so no cell is added to any of its rows); and when every
    table of the document has the column, the document is left as it is. *)
Theorem existing_column_is_noop lines :
  (forall t, t ∈ findTables lines ->
     hasColumn (headerOf lines t) "GitHub Stars" ->
     forall i, i ∈ rows t ->
       AddColumn.main lines !! i = lines !! i /\
       FillStars.columnsEnsured lines !! i = lines !! i) /\
  ((forall t, t ∈ findTables lines ->
      hasColumn (headerOf lines t) "GitHub Stars") ->
   AddColumn.main lines = lines /\ FillStars.columnsEnsured lines = lines).
Proof.
  assert (Hrows : forall t, t ∈ findTables lines ->
            hasColumn (headerOf lines t) "GitHub Stars" ->
            forall i, i ∈ rows t ->
              AddColumn.main lines !! i = lines !! i /\
              FillStars.columnsEnsured lines !! i = lines !! i).
  { intros t Ht Hc%hasColumn_idxOf i Hi. split.
    - by apply (add_main_has lines t).
    - rewrite (columnsEnsured_inside lines t i Ht Hi).
      rewrite ensureColumn_skip; [done|]. right. by right. }
  split; [done|]. intros Hall.
  assert (Hi : forall i,
            AddColumn.main lines !! i = lines !! i /\
            FillStars.columnsEnsured lines !! i = lines !! i).
  { intros i. destruct (isTableAt lines i) eqn:E.
    - destruct (findTables_complete lines i E) as (t & Ht & Hin).
      by apply (Hrows t Ht (Hall t Ht)).
    - split; [by apply add_main_outside|].
      by apply columnsEnsured_outside, outside_tables. }
  split; apply list_eq; intros i; apply Hi.
Qed.

Lemma existing_column_is_noop_witness :
  AddColumn.main Examples.threeTables !! 7%nat = Some "| b | 12 |" /\
  FillStars.columnsEnsured Examples.threeTables !! 7%nat = Some "| b | 12 |".
Proof.
  apply (proj1 (existing_column_is_noop Examples.threeTables)
           (mkTable 5 [5; 6; 7]%nat)).
  - vm_compute. apply list_elem_of_further, list_elem_of_here.
  - exists " GitHub Stars ". split; [|reflexivity].
    vm_compute. do 2 apply list_elem_of_further. apply list_elem_of_here.
  - do 2 apply list_elem_of_further. apply list_elem_of_here.
Defined.

(** C9. A table of fewer than three lines is skipped by the scripts that
    work on data rows: after filling in the stars, after sorting and after
    the search for GitHub links every line of it is as it was.  (The
    scripts are total functions here: the skip raises no error.) *)
Theorem short_table_skipped lines t i :
  t ∈ findTables lines -> (length (rows t) < 3)%nat -> i ∈ rows t ->
  (forall httpsGetJson,
     FillStars.document (FillStars.main httpsGetJson lines) !! i = lines !! i) /\
  SortByStars.main lines !! i = lines !! i /\
  (forall URL discover, FromWebsite.main URL discover lines !! i = lines !! i).
Proof.
  intros Ht Hshort Hi.
  assert (Hdata : forall t', t' ∈ findTables lines ->
            (3 <= length (rows t'))%nat -> i ∉ dataRows t').
  { intros t' Ht' H3 Hd. apply elem_of_drop_2 in Hd.
    assert (t = t') as <-; [|lia].
    by apply (apart_elem_of (findTables lines) t t' i (findTables_apart lines)). }
  split; [|split].
  - intros fetch. rewrite fill_main_lookup by done.
    rewrite (columnsEnsured_inside lines t i Ht Hi).
    rewrite ensureColumn_skip; [done|by left].
  - rewrite (sort_main_inside lines t i Ht Hi).
    rewrite sortLines_skip; [done|by left].
  - intros URL discover. by apply from_main_lookup.
Qed.

Lemma short_table_skipped_witness :
  (forall httpsGetJson,
     FillStars.document (FillStars.main httpsGetJson Examples.threeTables) !! 9%nat
     = Some "| Website | Github |") /\
  SortByStars.main Examples.threeTables !! 9%nat = Some "| Website | Github |" /\
  (forall URL discover,
     FromWebsite.main URL discover Examples.threeTables !! 9%nat
     = Some "| Website | Github |").
Proof.
  apply (short_table_skipped Examples.threeTables (mkTable 9 [9; 10]%nat) 9).
  - vm_compute. do 2 apply list_elem_of_further. apply list_elem_of_here.
  - simpl. lia.
  - apply list_elem_of_here.
Defined.

End TableClaims.

(** ** The star parser and the separator cell *)

Section CellClaims.

Import Num Stars.

(** The values of the specification: 1,234 is 1234, 2.5k is 2500, 3k is
    3000, and the empty cell and [abc] have no value. *)
Lemma parseStars_examples :
  parseStars "1,234" = Some (ofZ 1234) /\
  parseStars "2.5k" = Some (ofZ 2500) /\
  parseStars "3k" = Some (ofZ 3000) /\
  parseStars EmptyString = None /\
  parseStars "abc" = None.
Proof. by vm_compute. Qed.

(** A value that is not infinite comes from anywhere; an infinite one can
    only come from the form with [k], which is not checked for it. *)
Lemma parseStars_finite_unless_k cell x :
  parseStars cell = Some x ->
  isFinite x = true \/
  exists g, matchK (Js.toLowerCase (Js.removeChar "," (Js.trim cell))) = Some g.
Proof.
  unfold parseStars.
  destruct (String.eqb cell EmptyString); [done|].
  destruct (String.eqb (Js.trim cell) EmptyString); [done|].
  destruct (matchK _) as [g|]; [right; eauto|].
  destruct (isFinite (Number _)) eqn:E; [|done]. intros [= <-]. by left.
Qed.

(** C2, where the code departs from it. The digit 1 followed by 306 zeros
    and [k] is parsed to plus infinity: in the form with [k] the value is
    checked for NaN only, and its product with 1000 is beyond the largest
    double.  The claim has a finite number or no value for every cell. *)
Theorem parseStars_k_overflow :
  parseStars Examples.hugeStars = Some (S754_infinity false) /\
  isFinite (S754_infinity false) = false.
Proof. split; by vm_compute. Qed.

(** C7. The new separator cell is three dashes, with a colon in front
    exactly when the trimmed reference cell starts with one and a colon
    behind exactly when it ends with one; so [:---:], [---:] and [---] (with
    any white space around them) give themselves, and a missing or an empty
    reference gives [---]. *)
Theorem separator_keeps_alignment :
  (forall cell,
     (Js.trim cell = ":---:" -> separatorCellFrom (Some cell) = ":---:") /\
     (Js.trim cell = "---:" -> separatorCellFrom (Some cell) = "---:") /\
     (Js.trim cell = "---" -> separatorCellFrom (Some cell) = "---")) /\
  (forall cell,
     exists l r : bool,
       separatorCellFrom cell
         = (if l then ":" else EmptyString) +:+ "---"
           +:+ (if r then ":" else EmptyString) /\
       (l = true <->
        exists rest, Js.trim (default EmptyString cell) = String ":" rest) /\
       (r = true <->
        exists rest, Js.trim (default EmptyString cell) = rest +:+ ":")) /\
  separatorCellFrom None = "---" /\
  separatorCellFrom (Some EmptyString) = "---".
Proof.
  split; [|split; [|done]].
  - intros cell. unfold separatorCellFrom. simpl.
    repeat split; intros ->; reflexivity.
  - intros cell. unfold separatorCellFrom.
    exists (Js.startsWith (Js.trim (default EmptyString cell)) ":"),
           (Js.endsWith (Js.trim (default EmptyString cell)) ":").
    split; [done|]. split.
    + apply startsWith_char.
    + apply endsWith_char.
Qed.

Lemma separator_keeps_alignment_witness :
  separatorCellFrom (Some " :---: ") = ":---:" /\
  separatorCellFrom (Some "---:  ") = "---:" /\
  separatorCellFrom (Some " --- ") = "---".
Proof.
  split; [|split].
  - apply (proj1 (proj1 separator_keeps_alignment " :---: ")). reflexivity.
  - apply (proj1 (proj2 (proj1 separator_keeps_alignment "---:  "))). reflexivity.
  - apply (proj2 (proj2 (proj1 separator_keeps_alignment " --- "))). reflexivity.
Defined.

End CellClaims.

(** * Further properties *)

(** ** The table scanners *)

Section ScannerProperties.

Import Tables.

(** X1. Every table that [findTables] returns is a maximal run of table
    lines: its rows are consecutive line numbers from [startIndex] on, every
    one of them starts with a pipe, and neither the line before the first
    row nor the line after the last row does. *)
Theorem found_table_is_maximal_run lines t :
  t ∈ findTables lines -> MaximalRun lines t.
Proof. apply findTables_sound. Qed.

Lemma found_table_is_maximal_run_witness :
  MaximalRun Examples.threeTables (mkTable 5 [5; 6; 7]%nat).
Proof.
  apply (found_table_is_maximal_run Examples.threeTables (mkTable 5 [5; 6; 7]%nat)).
  vm_compute. apply list_elem_of_further, list_elem_of_here.
Defined.

(** X2. Every line that starts with a pipe is a row of exactly one of the
    tables that [findTables] returns. *)
Theorem table_line_in_exactly_one_table lines i :
  isTableAt lines i = true ->
  exists t, t ∈ findTables lines /\ i ∈ rows t /\
    forall t', t' ∈ findTables lines -> i ∈ rows t' -> t' = t.
Proof.
  intros Hi. destruct (findTables_complete lines i Hi) as (t & Ht & Hit).
  exists t. split; [done|]. split; [done|].
  intros t' Ht' Hit'.
  by apply (apart_elem_of (findTables lines) t' t i (findTables_apart lines)).
Qed.

Lemma table_line_in_exactly_one_table_witness :
  exists t, t ∈ findTables Examples.threeTables /\ 6%nat ∈ rows t /\
    forall t', t' ∈ findTables Examples.threeTables -> 6%nat ∈ rows t' -> t' = t.
Proof.
  apply (table_line_in_exactly_one_table Examples.threeTables 6). reflexivity.
Defined.

(** X3. [findTables] returns the tables in the order of the document, and
    at least one line that is not a table line lies between two of them. *)
Theorem tables_in_document_order lines :
  StronglySorted before (findTables lines) /\
  forall a b p q, (p < q)%nat ->
    findTables lines !! p = Some a -> findTables lines !! q = Some b ->
    (endIndex a < startIndex b)%nat /\ isTableAt lines (endIndex a) = false.
Proof.
  split; [apply findTables_sorted|].
  intros a b p q Hpq Ha Hb. split.
  - apply (StronglySorted_lookup before _ (findTables_sorted lines) p q a b Hpq Ha Hb).
  - apply run_after, findTables_sound. by apply list_elem_of_lookup_2 with p.
Qed.

(** The tables of [parseTables] are those of [findTables], with the
    columns [Website] and [Github] of their header. *)
Lemma parse_find_step lines i pst st line :
  lines !! i = Some line ->
  pst.1 = (i, st.1.2) -> st.1.1 = i ->
  Forall2 (parsedAs lines) pst.2 st.2 ->
  (FromWebsite.parseStep pst line).1 = (S i, (findStep st line).1.2) /\
  (findStep st line).1.1 = S i /\
  Forall2 (parsedAs lines) (FromWebsite.parseStep pst line).2 (findStep st line).2.
Proof.
  destruct pst as [[i1 b] pts], st as [[i' b'] ts]. simpl.
  intros Hline [= -> ->] -> HF.
  pose proof (Forall2_length _ _ _ HF) as Hlen.
  unfold FromWebsite.parseStep, findStep.
  destruct (isTableLine line), b'; simpl; try done.
  - split; [done|]. split; [done|]. rewrite Hlen.
    apply Forall2_alter; [done|].
    intros pt t _ _ (Hr & Hne & Hs & Hw & Hg).
    unfold parsedAs. simpl. rewrite Hr.
    split; [done|]. split; [by destruct (rows t)|]. split; [done|].
    unfold columnOf, githubColumnOf, columnOf, headerOf in *. simpl.
    destruct (rows t); [done|]. done.
  - split; [done|]. split; [done|].
    apply Forall2_app; [done|]. constructor; [|constructor].
    unfold parsedAs, githubColumnOf, columnOf, headerOf, lineAt. simpl.
    rewrite Hline. simpl. repeat split; try done.
    unfold idxOf. simpl.
    by destruct (Js.findIndex _ _ =? -1) eqn:E; [apply Z.eqb_eq in E|].
Qed.

Lemma parse_find_fold lines : forall rest i pst st,
  drop i lines = rest ->
  pst.1 = (i, st.1.2) -> st.1.1 = i ->
  Forall2 (parsedAs lines) pst.2 st.2 ->
  Forall2 (parsedAs lines)
    (fold_left FromWebsite.parseStep rest pst).2 (fold_left findStep rest st).2.
Proof.
  induction rest as [|line rest IH]; intros i pst st Hd H1 H2 HF; simpl; [done|].
  apply drop_cons_inv in Hd as [Hline Hd].
  destruct (parse_find_step lines i pst st line Hline H1 H2 HF) as (H3 & H4 & H5).
  apply (IH (S i)); try done.
Qed.

Lemma parseTables_parsedAs lines :
  Forall2 (parsedAs lines) (FromWebsite.parseTables lines) (findTables lines).
Proof.
  apply (parse_find_fold lines lines 0%nat (0%nat, false, []) (0%nat, false, []));
    try done.
Qed.

(** X4. [parseTables] finds the tables that [findTables] finds: the same
    rows and start, in the same order; the [websiteCol] and [githubCol] it
    stores are the indices of the columns [Website] and [Github] of the
    header line, as the other scripts compute them. *)
Theorem parseTables_agrees_with_findTables lines :
  Forall2 (parsedAs lines) (FromWebsite.parseTables lines) (findTables lines).
Proof. apply parseTables_parsedAs. Qed.

End ScannerProperties.

(** ** Sorting once is enough *)

Section SortProperties.

Import Tables SortByStars.

Lemma sortBy_sorted_id {A} (cmp : A -> A -> comparison) (l : list A) :
  StronglySorted (fun a b => cmp a b <> Gt) l -> sortBy cmp l = l.
Proof.
  induction 1 as [|x l Hs IH Hx]; [done|].
  simpl. change (fold_right (insertBy cmp) [] l) with (sortBy cmp l). rewrite IH.
  destruct l as [|y r]; [done|]. simpl.
  apply Forall_cons in Hx as [Hxy _]. by destruct (cmp x y).
Qed.

Lemma StronglySorted_by_lookup {A} (R : A -> A -> Prop) (l : list A) :
  (forall p q a b, (p < q)%nat -> l !! p = Some a -> l !! q = Some b -> R a b) ->
  StronglySorted R l.
Proof.
  induction l as [|x l IH]; intros H; constructor.
  - apply IH. intros p q a b Hpq Ha Hb. by apply (H (S p) (S q)); [lia|..].
  - apply Forall_forall. intros y [j Hj]%list_elem_of_lookup_1.
    by apply (H 0%nat (S j)); [lia|..].
Qed.

(** The comparator looks at the stars and the positions only. *)
Lemma compareFn_reindex a b a' b' :
  e_stars a' = e_stars a -> e_stars b' = e_stars b ->
  compareFn a b = Lt -> (e_i a' < e_i b')%nat -> compareFn a' b' = Lt.
Proof.
  unfold compareFn. intros -> -> H Hlt.
  apply Nat.compare_lt_iff in Hlt.
  destruct (e_stars a) as [x|], (e_stars b) as [y|]; try done.
  by destruct (SFeqb y x).
Qed.

Lemma unchanged_refl (l : list Entry) :
  existsb (fun '(a, b) => negb (e_ri a =? e_ri b)%nat) (zip l l) = false.
Proof.
  induction l as [|a l IH]; [done|]. simpl. by rewrite Nat.eqb_refl.
Qed.

(** The entries read from a sorted table are in order. *)
Lemma entries_of_sorted L t :
  MaximalRun L t -> (3 <= length (rows t))%nat ->
  columnOf L t "GitHub Stars" <> -1 ->
  let c := columnOf L t "GitHub Stars" in
  let entries := entriesOf (sortLines L t) c (dataRows t) in
  sortBy compareFn entries = entries.
Proof.
  intros Hrun H3 Hc c entries.
  pose proof (sortLines_data L t (run_NoDup L t Hrun)
                (fun r => run_rows_lt L t r Hrun) H3 Hc) as Hdata.
  fold c in Hdata.
  set (sorted := sortBy compareFn (entriesOf L c (dataRows t))) in Hdata.
  assert (Hperm : sorted ≡ₚ entriesOf L c (dataRows t)) by apply sortBy_perm.
  assert (Hstars : forall e, e ∈ sorted ->
            e_stars e =
            Stars.parseStars (orElse (Js.at_ (cellsOf (e_line e)) c) EmptyString)).
  { intros e He. rewrite Hperm in He.
    apply list_elem_of_lookup_1 in He as [j Hj].
    rewrite entriesOf_lookup in Hj.
    destruct (dataRows t !! j); simplify_eq/=. done. }
  apply sortBy_sorted_id, StronglySorted_by_lookup.
  intros p q a b Hpq Ha Hb.
  unfold entries in Ha, Hb. rewrite entriesOf_lookup in Ha, Hb.
  destruct (dataRows t !! p) as [rp|] eqn:Ep; [|done].
  destruct (dataRows t !! q) as [rq|] eqn:Eq; [|done].
  simpl in Ha, Hb.
  assert (Hline : forall j r, dataRows t !! j = Some r ->
            exists e, sorted !! j = Some e /\ lineAt (sortLines L t) r = e_line e).
  { intros j r Hj.
    assert (map (lineAt (sortLines L t)) (dataRows t) !! j
            = Some (lineAt (sortLines L t) r)) as Hl
      by (by rewrite list_lookup_fmap, Hj).
    rewrite Hdata, list_lookup_fmap in Hl.
    destruct (sorted !! j) as [e|]; [|done].
    exists e. split; [done|]. by injection Hl. }
  destruct (Hline p rp Ep) as (ep & Hep & Hlp).
  destruct (Hline q rq Eq) as (eq & Heq & Hlq).
  assert (compareFn a b = Lt) as ->; [|done].
  apply (compareFn_reindex ep eq).
  - injection Ha as <-. simpl. rewrite Hlp. symmetry.
    apply Hstars. by apply list_elem_of_lookup_2 with p.
  - injection Hb as <-. simpl. rewrite Hlq. symmetry.
    apply Hstars. by apply list_elem_of_lookup_2 with q.
  - by apply (sorted_entries L c (dataRows t) p q).
  - injection Ha as <-. injection Hb as <-. done.
Qed.

Lemma sortLines_header L t :
  MaximalRun L t -> headerOf (sortLines L t) t = headerOf L t.
Proof.
  intros Hrun. unfold headerOf. apply lineAt_ext.
  pose proof (run_nonempty L t Hrun) as Hne.
  apply sortLines_outside_data.
  apply (head_rows_not_data t 0); [by apply (run_NoDup L)|lia|].
  destruct (rows t); [simpl in Hne; lia|done].
Qed.

(** Sorting a table that was just sorted leaves it as it is. *)
Lemma sortLines_idem L t :
  MaximalRun L t -> sortLines (sortLines L t) t = sortLines L t.
Proof.
  intros Hrun.
  destruct (Nat.ltb_spec (length (rows t)) 3) as [H3|H3];
    [by rewrite !(sortLines_skip L t) by (by left)|].
  destruct (Z.eq_dec (columnOf L t "GitHub Stars") (-1)) as [Hc|Hc];
    [by rewrite !(sortLines_skip L t) by (by right)|].
  pose proof (entries_of_sorted L t Hrun H3 Hc) as Hsorted. simpl in Hsorted.
  pose proof (sortLines_header L t Hrun) as Hh.
  set (L' := sortLines L t) in *.
  unfold sortLines at 1. unfold sortTable.
  destruct (Nat.ltb_spec (length (rows t)) 3); [done|].
  change (idxOf (map Js.trim (cellsOf (lineAt L' (nth 0 (rows t) 0%nat))))
            "GitHub Stars")
    with (columnOf L' t "GitHub Stars").
  assert (columnOf L' t "GitHub Stars" = columnOf L t "GitHub Stars") as ->
    by (unfold columnOf; by rewrite Hh).
  destruct (Z.eqb_spec (columnOf L t "GitHub Stars") (-1)); [done|].
  destruct (length (drop 2 (rows t)) =? 0)%nat; [done|].
  change (drop 2 (rows t)) with (dataRows t).
  rewrite Hsorted, unchanged_refl. done.
Qed.

Lemma fold_fixed {A B} (f : A -> B -> A) (ts : list B) (x : A) :
  (forall t, t ∈ ts -> f x t = x) -> fold_left f ts x = x.
Proof.
  induction ts as [|t ts IH]; intros H; [done|]. simpl.
  rewrite H by apply list_elem_of_here.
  apply IH. intros t' Ht'. by apply H, list_elem_of_further.
Qed.

(** X5. Running the sort script on its own output changes nothing. *)
Theorem sort_main_idempotent lines : main (main lines) = main lines.
Proof.
  rewrite (sort_main_lines (main lines)), sort_main_findTables.
  apply fold_fixed. intros t Ht.
  pose proof (findTables_sound lines t Ht) as Hrun.
  apply list_eq_same_length with (length lines);
    [by rewrite sort_main_length|by rewrite sortLines_length, sort_main_length|].
  intros i x y Hi Hx Hy.
  destruct (decide (i ∈ rows t)) as [Hin|Hout].
  - rewrite (sortLines_local (main lines) (sortLines lines t) t) in Hx; try done.
    + rewrite sortLines_idem in Hx by done.
      rewrite <- (sort_main_inside lines t i Ht Hin) in Hx. congruence.
    + by rewrite sort_main_length, sortLines_length.
    + intros j Hj. by apply sort_main_inside.
  - rewrite sortLines_outside in Hx by done. congruence.
Qed.

(** X6. The comparator of the sort script fixes the order of the rows: an
    arrangement of the entries of a table in which no entry stands before
    one that the comparator puts first is the arrangement that the script
    writes, whatever the sorting algorithm. *)
Theorem comparator_fixes_the_order L c data s :
  s ≡ₚ entriesOf L c data -> StronglySorted notAfter s ->
  s = sortBy compareFn (entriesOf L c data).
Proof. apply sorted_unique. Qed.

Lemma comparator_fixes_the_order_witness :
  [ mkEntry 4 2 (Stars.parseStars " 300 ") "| c | 300 |";
    mkEntry 2 0 (Stars.parseStars " 150 ") "| a | 150 |";
    mkEntry 6 4 (Stars.parseStars " 150 ") "| e | 150 |";
    mkEntry 3 1 None "| b | |";
    mkEntry 5 3 None "| d | |" ]
  = sortBy compareFn (entriesOf Examples.starsTable 2 [2; 3; 4; 5; 6]%nat).
Proof.
  apply (comparator_fixes_the_order Examples.starsTable 2 [2; 3; 4; 5; 6]%nat).
  - assert ([ mkEntry 4 2 (Stars.parseStars " 300 ") "| c | 300 |";
              mkEntry 2 0 (Stars.parseStars " 150 ") "| a | 150 |";
              mkEntry 6 4 (Stars.parseStars " 150 ") "| e | 150 |";
              mkEntry 3 1 None "| b | |";
              mkEntry 5 3 None "| d | |" ]
            = sortBy compareFn (entriesOf Examples.starsTable 2 [2; 3; 4; 5; 6]%nat))
      as -> by (vm_compute; reflexivity).
    apply sortBy_perm.
  - repeat constructor; vm_compute; discriminate.
Defined.

End SortProperties.

(** ** Where the new column goes, and running a script again *)

Section ColumnProperties.

Import Tables.

Lemma findIndex_app_l {A} (pred : A -> bool) l1 l2 :
  Js.findIndex pred l1 <> -1 ->
  Js.findIndex pred (l1 ++ l2) = Js.findIndex pred l1.
Proof.
  induction l1 as [|x l1 IH]; simpl; [done|].
  destruct (pred x); [done|]. intros H.
  destruct (Z.eqb_spec (Js.findIndex pred l1) (-1)) as [E|E]; [done|].
  rewrite IH by done. by destruct (Z.eqb_spec (Js.findIndex pred l1) (-1)).
Qed.

Lemma findIndex_app_r {A} (pred : A -> bool) l1 l2 :
  Js.findIndex pred l1 = -1 ->
  Js.findIndex pred (l1 ++ l2) =
  if Js.findIndex pred l2 =? -1 then -1
  else Z.of_nat (length l1) + Js.findIndex pred l2.
Proof.
  induction l1 as [|x l1 IH]; simpl.
  - intros _. by destruct (Z.eqb_spec (Js.findIndex pred l2) (-1)).
  - destruct (pred x); [done|].
    pose proof (findIndex_range pred l1).
    destruct (Z.eqb_spec (Js.findIndex pred l1) (-1)) as [E|E]; [|lia].
    intros _. rewrite IH by done.
    pose proof (findIndex_range pred l2).
    destruct (Z.eqb_spec (Js.findIndex pred l2) (-1)); [done|].
    destruct (Z.eqb_spec (Z.of_nat (length l1) + Js.findIndex pred l2) (-1)); lia.
Qed.

Lemma findIndex_take {A} (pred : A -> bool) l :
  Js.findIndex pred l <> -1 ->
  Js.findIndex pred (take (Z.to_nat (Js.findIndex pred l + 1)) l)
  = Js.findIndex pred l.
Proof.
  induction l as [|x l IH]; simpl; [done|].
  destruct (pred x) eqn:Ex; [by simpl; rewrite Ex|].
  pose proof (findIndex_range pred l) as Hr.
  destruct (Z.eqb_spec (Js.findIndex pred l) (-1)) as [E|E]; [done|].
  intros _.
  replace (Z.to_nat (Js.findIndex pred l + 1 + 1))
    with (S (Z.to_nat (Js.findIndex pred l + 1))) by lia.
  simpl. rewrite Ex, IH by done.
  by destruct (Z.eqb_spec (Js.findIndex pred l) (-1)).
Qed.

Lemma map_splice {A B} (f : A -> B) k x l :
  map f (Js.splice k x l) = Js.splice k (f x) (map f l).
Proof.
  unfold Js.splice. rewrite length_map, map_app. simpl.
  change (map f) with (fmap (M:=list) f). by rewrite fmap_take, fmap_drop.
Qed.

(** A cell spliced in right after the first match of [pred] leaves that
    first match where it is. *)
Lemma findIndex_splice_after {A} (pred : A -> bool) x l :
  Js.findIndex pred l <> -1 ->
  Js.findIndex pred (Js.splice (Js.findIndex pred l + 1) x l)
  = Js.findIndex pred l.
Proof.
  intros H. pose proof (findIndex_range pred l) as Hr.
  destruct (splice_lookup (Js.findIndex pred l + 1) x l) as [_ ->]; [lia|].
  rewrite findIndex_app_l; rewrite findIndex_take; done.
Qed.

(** A matching cell spliced into a list without a match is the first
    match. *)
Lemma findIndex_splice_new {A} (pred : A -> bool) k x l :
  Js.findIndex pred l = -1 -> pred x = true ->
  0 <= k <= Z.of_nat (length l) ->
  Js.findIndex pred (Js.splice k x l) = k.
Proof.
  intros Hl Hx Hk. destruct (splice_lookup k x l Hk) as [_ ->].
  rewrite findIndex_app_r.
  - simpl. rewrite Hx. simpl. rewrite length_take. lia.
  - apply findIndex_none, Forall_take. by apply findIndex_none.
Qed.

(** A row with a cell spliced in behind its first cell is a table line. *)
Lemma spliced_row_isTableLine idx cell line :
  isTableLine line = true -> 1 <= idx ->
  isTableLine (joinCells (Js.splice idx cell (cellsOf line))) = true.
Proof.
  intros Hl Hidx. unfold isTableLine in Hl.
  apply startsWith_char in Hl as [r ->].
  unfold cellsOf. simpl.
  destruct (Js.split "|" r) as [|h tl] eqn:E; [by apply split_nonempty in E|].
  unfold Js.splice. simpl length.
  destruct (Z.ltb_spec idx 0); [lia|].
  set (k := Z.to_nat (Z.min idx (Z.of_nat (S (S (length tl)))))).
  assert (exists k', k = S k') as [k' ->] by (exists (Nat.pred k); lia).
  simpl.
  destruct (take k' (h :: tl) ++ cell :: drop k' (h :: tl)) as [|y ys] eqn:E'.
  - by apply app_nil in E' as [_ ?].
  - done.
Qed.

Lemma header_cells_ge_2 line :
  isTableLine line = true -> (2 <= length (cellsOf line))%nat.
Proof.
  intros Hl. apply startsWith_char in Hl as [r ->]. unfold cellsOf. simpl.
  pose proof (split_length_pos "|" r). lia.
Qed.

Lemma insertIndexOf_pos header :
  isTableLine header = true -> 1 <= AddColumn.insertIndexOf header.
Proof.
  intros Hh. unfold AddColumn.insertIndexOf.
  pose proof (githubOf_range header). pose proof (header_cells_ge_2 header Hh).
  destruct (Z.eqb_spec (AddColumn.githubOf header) (-1)); simpl; lia.
Qed.

Lemma insertIndexOf_le header :
  AddColumn.insertIndexOf header <= Z.of_nat (length (cellsOf header)).
Proof.
  unfold AddColumn.insertIndexOf. pose proof (githubOf_range header).
  destruct (Z.eqb_spec (AddColumn.githubOf header) (-1)); simpl; lia.
Qed.

Lemma header_isTableLine lines t :
  MaximalRun lines t -> isTableLine (headerOf lines t) = true.
Proof.
  intros Hrun. rewrite (headerOf_start _ _ Hrun).
  pose proof (run_nonempty _ _ Hrun) as Hne.
  assert (startIndex t ∈ rows t) as Hin
    by (rewrite (run_rows _ _ Hrun); apply elem_of_seq; lia).
  pose proof (run_lines _ _ Hrun _ Hin) as Ht. unfold isTableAt in Ht.
  unfold lineAt. by destruct (lines !! startIndex t).
Qed.

(** The row of a table without the column, after add-github-stars-column. *)
Lemma add_main_row lines t k ri :
  t ∈ findTables lines -> columnOf lines t "GitHub Stars" = -1 ->
  rows t !! k = Some ri ->
  exists sepCell,
    AddColumn.main lines !! ri =
    Some (joinCells (Js.splice (AddColumn.insertIndexOf (headerOf lines t))
                       (newCell sepCell k) (cellsOf (lineAt lines ri)))) /\
    Js.contains "|" (newCell sepCell k) = false.
Proof.
  intros Ht Hc Hk. apply findTables_sound in Ht as Hrun.
  destruct (add_run_at_table lines t Hrun) as [Hout Hmod]. specialize (Hmod Hc).
  destruct (run_split lines t Hrun) as (_ & _ & Hlen & _ & Hrows & _).
  set (tbl := take _ _) in *.
  set (header := headerOf lines t).
  exists (AddColumn.separatorFor header (default EmptyString (tbl !! 1%nat))).
  assert (Hhead : head tbl = Some header) by (by apply table_head).
  destruct (Hrows k ri Hk) as (_ & Hkn & Hl).
  assert (is_Some (tbl !! k)) as [l Hlk]
    by (apply lookup_lt_is_Some_2; by rewrite Hlen).
  split.
  - unfold AddColumn.main.
    destruct (Nat.eqb_spec (AddColumn.tablesModified (AddColumn.run lines)) 0); [lia|].
    rewrite (Hout k ri Hk).
    rewrite (tableOut_lookup tbl header k l Hhead Hc Hlk).
    unfold lineAt. by rewrite <- Hl, Hlk.
  - destruct k as [|[|k]]; simpl; [done| |done]. apply separatorCell_no_pipe.
Qed.

Lemma add_main_isTableLine lines i :
  isTableAt (AddColumn.main lines) i = isTableAt lines i.
Proof.
  destruct (isTableAt lines i) eqn:E.
  - destruct (findTables_complete lines i E) as (t & Ht & Hi).
    apply findTables_sound in Ht as Hrun.
    destruct (Z.eq_dec (columnOf lines t "GitHub Stars") (-1)) as [Hc|Hc].
    + apply list_elem_of_lookup_1 in Hi as [k Hk].
      destruct (add_main_row lines t k i Ht Hc Hk) as (sepCell & Hrow & _).
      unfold isTableAt. rewrite Hrow.
      apply spliced_row_isTableLine.
      * unfold isTableAt in E. unfold lineAt. by destruct (lines !! i).
      * by apply insertIndexOf_pos, (header_isTableLine lines t).
    + unfold isTableAt. rewrite (add_main_has lines t i Ht Hc Hi). apply E.
  - unfold isTableAt. by rewrite add_main_outside.
Qed.

Lemma isTableAt_ext L L' :
  length L = length L' -> (forall i, isTableAt L i = isTableAt L' i) ->
  map isTableLine L = map isTableLine L'.
Proof.
  intros Hlen H. apply list_eq_same_length with (length L);
    [by rewrite length_map|by rewrite length_map|].
  intros i x y Hi Hx Hy. specialize (H i). unfold isTableAt in H.
  change ((isTableLine <$> L) !! i = Some x) in Hx.
  change ((isTableLine <$> L') !! i = Some y) in Hy.
  rewrite list_lookup_fmap in Hx, Hy.
  destruct (L !! i), (L' !! i); simplify_eq/=. done.
Qed.

Lemma add_main_findTables lines :
  findTables (AddColumn.main lines) = findTables lines.
Proof.
  apply findTables_ext, isTableAt_ext; [apply add_main_length|].
  apply add_main_isTableLine.
Qed.

(** X7. add-github-stars-column.js keeps every table where it is: the
    output has the tables of the input, with the same rows. *)
Theorem add_main_keeps_tables lines :
  findTables (AddColumn.main lines) = findTables lines.
Proof. apply add_main_findTables. Qed.

Lemma add_main_header lines t :
  t ∈ findTables lines -> columnOf lines t "GitHub Stars" = -1 ->
  cellsOf (headerOf (AddColumn.main lines) t) =
  Js.splice (AddColumn.insertIndexOf (headerOf lines t)) " GitHub Stars "
            (cellsOf (headerOf lines t)).
Proof.
  intros Ht Hc. apply findTables_sound in Ht as Hrun.
  pose proof (run_nonempty _ _ Hrun) as Hne.
  assert (rows t !! 0%nat = Some (nth 0 (rows t) 0%nat)) as Hk
    by (destruct (rows t); [simpl in Hne; lia|done]).
  destruct (add_main_row lines t 0 _ Ht Hc Hk) as (sepCell & Hrow & _).
  unfold headerOf at 1. unfold lineAt at 1. rewrite Hrow. simpl.
  by apply cellsOf_splice.
Qed.

(** The columns of a header after the cell [GitHub Stars] was spliced in. *)
Lemma starsOf_spliced h h' idx :
  cellsOf h' = Js.splice idx " GitHub Stars " (cellsOf h) ->
  idxOf (map Js.trim (cellsOf h)) "GitHub Stars" = -1 ->
  0 <= idx <= Z.of_nat (length (cellsOf h)) ->
  idxOf (map Js.trim (cellsOf h')) "GitHub Stars" = idx.
Proof.
  intros -> Hc Hidx. rewrite map_splice. unfold idxOf.
  rewrite findIndex_splice_new; [done|apply Hc|done|].
  by rewrite length_map.
Qed.

Lemma githubOf_spliced h h' idx :
  cellsOf h' = Js.splice idx " GitHub Stars " (cellsOf h) ->
  (AddColumn.githubOf h <> -1 -> idx = AddColumn.githubOf h + 1) ->
  AddColumn.githubOf h' = AddColumn.githubOf h.
Proof.
  intros Hcells Hidx.
  assert (Hsame : forall name,
            name = "Github" \/ name = "GitHub" ->
            idxOf (map Js.trim (cellsOf h)) name <> -1 ->
            AddColumn.githubOf h = idxOf (map Js.trim (cellsOf h)) name ->
            idxOf (map Js.trim (cellsOf h')) name
            = idxOf (map Js.trim (cellsOf h)) name).
  { intros name Hname Hne Hg.
    rewrite Hcells, map_splice, Hidx by congruence.
    rewrite Hg. by apply findIndex_splice_after. }
  assert (Hnone : forall name,
            name = "Github" \/ name = "GitHub" ->
            idxOf (map Js.trim (cellsOf h)) name = -1 ->
            idxOf (map Js.trim (cellsOf h')) name = -1).
  { intros name Hname Hn.
    rewrite Hcells, map_splice. apply findIndex_none.
    apply splice_Forall; [by destruct Hname as [-> | ->]|].
    by apply findIndex_none. }
  unfold AddColumn.githubOf at 1 2.
  destruct (Z.eqb_spec (idxOf (map Js.trim (cellsOf h)) "Github") (-1)) as [E1|E1].
  + rewrite (Hnone "Github" (or_introl eq_refl) E1). simpl.
    destruct (Z.eq_dec (idxOf (map Js.trim (cellsOf h)) "GitHub") (-1)) as [E2|E2].
    * by rewrite (Hnone "GitHub" (or_intror eq_refl) E2).
    * apply (Hsame "GitHub"); [by right|done|].
      unfold AddColumn.githubOf. by rewrite E1.
  + rewrite (Hsame "Github"); [|by left|done|].
    * by destruct (Z.eqb_spec (idxOf (map Js.trim (cellsOf h)) "Github") (-1)).
    * unfold AddColumn.githubOf.
      by destruct (Z.eqb_spec (idxOf (map Js.trim (cellsOf h)) "Github") (-1)).
Qed.

Lemma add_main_columns lines t :
  t ∈ findTables lines -> columnOf lines t "GitHub Stars" = -1 ->
  columnOf (AddColumn.main lines) t "GitHub Stars" =
    (if githubColumnOf lines t =? -1
     then Z.of_nat (length (cellsOf (headerOf lines t))) - 1
     else githubColumnOf lines t + 1) /\
  githubColumnOf (AddColumn.main lines) t = githubColumnOf lines t.
Proof.
  intros Ht Hc. apply findTables_sound in Ht as Hrun.
  pose proof (header_isTableLine lines t Hrun) as Hh.
  pose proof (header_cells_ge_2 _ Hh) as H2.
  pose proof (add_main_header lines t Ht Hc) as Hcells.
  pose proof (insertIndexOf_pos _ Hh) as Hpos.
  pose proof (insertIndexOf_le (headerOf lines t)) as Hle.
  assert (Hidx : AddColumn.insertIndexOf (headerOf lines t) =
                 if githubColumnOf lines t =? -1
                 then Z.of_nat (length (cellsOf (headerOf lines t))) - 1
                 else githubColumnOf lines t + 1).
  { unfold AddColumn.insertIndexOf.
    change (AddColumn.githubOf (headerOf lines t)) with (githubColumnOf lines t).
    destruct (Z.eqb_spec (githubColumnOf lines t) (-1)); simpl; lia. }
  split.
  - rewrite <- Hidx. apply (starsOf_spliced (headerOf lines t)); [done|done|lia].
  - apply (githubOf_spliced (headerOf lines t) _ _ Hcells).
    intros Hg. rewrite Hidx.
    change (AddColumn.githubOf (headerOf lines t)) with (githubColumnOf lines t) in *.
    by destruct (Z.eqb_spec (githubColumnOf lines t) (-1)).
Qed.

Lemma insertIndexOf_eq lines t :
  AddColumn.insertIndexOf (headerOf lines t) =
  if githubColumnOf lines t =? -1
  then Z.max 0 (Z.of_nat (length (cellsOf (headerOf lines t))) - 1)
  else githubColumnOf lines t + 1.
Proof.
  unfold AddColumn.insertIndexOf.
  change (AddColumn.githubOf (headerOf lines t)) with (githubColumnOf lines t).
  by destruct (Z.eqb_spec (githubColumnOf lines t) (-1)).
Qed.

(** X8. After add-github-stars-column.js a table that lacked the column
    [GitHub Stars] has it: the header cell is spliced in right after the
    column [Github] when the header has one, and otherwise at the index
    of the last cell of the header, so that this cell comes right behind
    the new one.  The column [Github] stays where it is. *)
Theorem add_main_places_column lines t :
  t ∈ findTables lines -> columnOf lines t "GitHub Stars" = -1 ->
  let idx := if githubColumnOf lines t =? -1
             then Z.of_nat (length (cellsOf (headerOf lines t))) - 1
             else githubColumnOf lines t + 1 in
  columnOf (AddColumn.main lines) t "GitHub Stars" = idx /\
  githubColumnOf (AddColumn.main lines) t = githubColumnOf lines t /\
  cellsOf (headerOf (AddColumn.main lines) t)
  = Js.splice idx " GitHub Stars " (cellsOf (headerOf lines t)) /\
  (githubColumnOf lines t = -1 ->
   cellsOf (headerOf (AddColumn.main lines) t) !! Z.to_nat (idx + 1)
   = last (cellsOf (headerOf lines t))).
Proof.
  intros Ht Hc idx. destruct (add_main_columns lines t Ht Hc) as [H1 H2].
  split; [done|]. split; [done|].
  apply findTables_sound in Ht as Hrun.
  pose proof (header_cells_ge_2 _ (header_isTableLine lines t Hrun)) as Hge.
  assert (cellsOf (headerOf (AddColumn.main lines) t)
          = Js.splice idx " GitHub Stars " (cellsOf (headerOf lines t))) as Hcells.
  { rewrite (add_main_header lines t Ht Hc), insertIndexOf_eq. unfold idx.
    destruct (githubColumnOf lines t =? -1); [|done].
    by rewrite Z.max_r by lia. }
  split; [done|]. intros Hg. rewrite Hcells. unfold idx. rewrite Hg. simpl.
  set (l := cellsOf (headerOf lines t)) in *.
  destruct (splice_lookup (Z.of_nat (length l) - 1) " GitHub Stars " l) as [_ ->];
    [lia|].
  rewrite last_lookup.
  replace (Z.to_nat (Z.of_nat (length l) - 1 + 1)) with (S (Z.to_nat (Z.of_nat (length l) - 1)))
    by lia.
  rewrite lookup_app_r by (rewrite length_take; lia).
  rewrite length_take.
  replace (S (Z.to_nat (Z.of_nat (length l) - 1))
           - Z.to_nat (Z.of_nat (length l) - 1) `min` length l)%nat with 1%nat by lia.
  simpl. rewrite lookup_drop. f_equal. lia.
Qed.

Lemma add_main_places_column_witness :
  let t := mkTable 0 [0; 1]%nat in
  let idx := Z.of_nat (length (cellsOf (headerOf siteTable t))) - 1 in
  columnOf (AddColumn.main siteTable) t "GitHub Stars" = idx /\
  githubColumnOf (AddColumn.main siteTable) t = githubColumnOf siteTable t /\
  cellsOf (headerOf (AddColumn.main siteTable) t)
  = Js.splice idx " GitHub Stars " (cellsOf (headerOf siteTable t)) /\
  (githubColumnOf siteTable t = -1 ->
   cellsOf (headerOf (AddColumn.main siteTable) t) !! Z.to_nat (idx + 1)
   = last (cellsOf (headerOf siteTable t))).
Proof.
  apply (add_main_places_column siteTable (mkTable 0 [0; 1]%nat)).
  - vm_compute. apply list_elem_of_here.
  - reflexivity.
Defined.

Lemma add_main_hasColumn lines t :
  t ∈ findTables lines ->
  columnOf (AddColumn.main lines) t "GitHub Stars" <> -1.
Proof.
  intros Ht.
  destruct (Z.eq_dec (columnOf lines t "GitHub Stars") (-1)) as [Hc|Hc].
  - destruct (add_main_columns lines t Ht Hc) as [-> _].
    apply findTables_sound in Ht as Hrun.
    pose proof (header_cells_ge_2 _ (header_isTableLine lines t Hrun)).
    pose proof (githubColumnOf_range lines t).
    destruct (Z.eqb_spec (githubColumnOf lines t) (-1)); lia.
  - apply findTables_sound in Ht as Hrun.
    pose proof (run_nonempty _ _ Hrun) as Hne.
    unfold columnOf, headerOf, lineAt.
    rewrite (add_main_has lines t _ Ht Hc); [done|].
    apply nth_elem_of. lia.
Qed.

(** X9. Running add-github-stars-column.js on its own output changes
    nothing: every table has the column then. *)
Theorem add_main_idempotent lines :
  AddColumn.main (AddColumn.main lines) = AddColumn.main lines.
Proof.
  apply list_eq_same_length with (length lines);
    [by rewrite add_main_length|by rewrite !add_main_length|].
  intros i x y Hi Hx Hy.
  destruct (isTableAt (AddColumn.main lines) i) eqn:E.
  - destruct (findTables_complete _ i E) as (t & Ht & Hin).
    rewrite (add_main_has (AddColumn.main lines) t i Ht) in Hx; [congruence| |done].
    apply add_main_hasColumn. by rewrite <- add_main_findTables.
  - rewrite add_main_outside in Hx by done. congruence.
Qed.

End ColumnProperties.

(** ** The first loop of fill-github-stars.js *)

Section EnsuredProperties.

Import Tables FillStars.

(** The row of a table that gets the column. *)
Lemma ensured_row lines t k ri :
  t ∈ findTables lines -> (3 <= length (rows t))%nat ->
  githubColumnOf lines t <> -1 -> columnOf lines t "GitHub Stars" = -1 ->
  rows t !! k = Some ri ->
  exists sepCell,
    columnsEnsured lines !! ri =
    Some (joinCells (Js.splice (githubColumnOf lines t + 1)
                       (newCell sepCell k) (cellsOf (lineAt lines ri)))) /\
    Js.contains "|" (newCell sepCell k) = false.
Proof.
  intros Ht H3 Hg Hc Hk. apply findTables_sound in Ht as Hrun.
  eexists. split.
  - rewrite (columnsEnsured_inside lines t ri Ht) by (by eapply list_elem_of_lookup_2).
    apply ensureColumn_lookup; try done.
    + by apply (run_NoDup lines).
    + intros r. by apply run_rows_lt.
  - destruct k as [|[|k]]; simpl; [done| |done]. apply separatorCell_no_pipe.
Qed.

(** The rows of a table that is skipped. *)
Lemma ensured_same lines t i :
  t ∈ findTables lines -> i ∈ rows t ->
  (length (rows t) < 3)%nat \/ githubColumnOf lines t = -1
    \/ columnOf lines t "GitHub Stars" <> -1 ->
  columnsEnsured lines !! i = lines !! i.
Proof.
  intros Ht Hi Hskip. rewrite (columnsEnsured_inside lines t i Ht Hi).
  by rewrite ensureColumn_skip.
Qed.

Lemma skipped_or_inserted lines t :
  ((length (rows t) < 3)%nat \/ githubColumnOf lines t = -1
     \/ columnOf lines t "GitHub Stars" <> -1) \/
  ((3 <= length (rows t))%nat /\ githubColumnOf lines t <> -1 /\
   columnOf lines t "GitHub Stars" = -1).
Proof.
  destruct (Nat.ltb_spec (length (rows t)) 3); [by left; left|].
  destruct (Z.eq_dec (githubColumnOf lines t) (-1)); [by left; right; left|].
  destruct (Z.eq_dec (columnOf lines t "GitHub Stars") (-1));
    [by right|by left; right; right].
Qed.

Lemma ensured_isTableLine lines i :
  isTableAt (columnsEnsured lines) i = isTableAt lines i.
Proof.
  destruct (isTableAt lines i) eqn:E.
  - destruct (findTables_complete lines i E) as (t & Ht & Hi).
    destruct (skipped_or_inserted lines t) as [Hskip|(H3 & Hg & Hc)].
    + unfold isTableAt. rewrite (ensured_same lines t i Ht Hi Hskip). apply E.
    + apply list_elem_of_lookup_1 in Hi as [k Hk].
      destruct (ensured_row lines t k i Ht H3 Hg Hc Hk) as (sepCell & Hrow & _).
      unfold isTableAt. rewrite Hrow.
      apply spliced_row_isTableLine.
      * unfold isTableAt in E. unfold lineAt. by destruct (lines !! i).
      * pose proof (githubColumnOf_range lines t). lia.
  - unfold isTableAt. rewrite columnsEnsured_outside; [apply E|].
    by apply outside_tables.
Qed.

Lemma ensured_findTables lines :
  findTables (columnsEnsured lines) = findTables lines.
Proof.
  apply findTables_ext, isTableAt_ext; [apply columnsEnsured_length|].
  apply ensured_isTableLine.
Qed.

Lemma first_row lines t :
  MaximalRun lines t -> rows t !! 0%nat = Some (nth 0 (rows t) 0%nat).
Proof.
  intros Hrun. pose proof (run_nonempty _ _ Hrun) as Hne.
  destruct (rows t); [simpl in Hne; lia|done].
Qed.

Lemma ensured_header_same lines t :
  t ∈ findTables lines ->
  (length (rows t) < 3)%nat \/ githubColumnOf lines t = -1
    \/ columnOf lines t "GitHub Stars" <> -1 ->
  headerOf (columnsEnsured lines) t = headerOf lines t.
Proof.
  intros Ht Hskip. apply findTables_sound in Ht as Hrun.
  unfold headerOf. apply lineAt_ext, (ensured_same lines t); [done| |done].
  apply list_elem_of_lookup_2 with 0%nat, (first_row lines t Hrun).
Qed.

Lemma ensured_header lines t :
  t ∈ findTables lines -> (3 <= length (rows t))%nat ->
  githubColumnOf lines t <> -1 -> columnOf lines t "GitHub Stars" = -1 ->
  cellsOf (headerOf (columnsEnsured lines) t) =
  Js.splice (githubColumnOf lines t + 1) " GitHub Stars "
            (cellsOf (headerOf lines t)).
Proof.
  intros Ht H3 Hg Hc. apply findTables_sound in Ht as Hrun.
  destruct (ensured_row lines t 0 _ Ht H3 Hg Hc (first_row lines t Hrun))
    as (sepCell & Hrow & _).
  unfold headerOf at 1. unfold lineAt at 1. rewrite Hrow. simpl.
  by apply cellsOf_splice.
Qed.

Lemma ensured_columns lines t :
  t ∈ findTables lines -> (3 <= length (rows t))%nat ->
  githubColumnOf lines t <> -1 -> columnOf lines t "GitHub Stars" = -1 ->
  columnOf (columnsEnsured lines) t "GitHub Stars" = githubColumnOf lines t + 1 /\
  githubColumnOf (columnsEnsured lines) t = githubColumnOf lines t.
Proof.
  intros Ht H3 Hg Hc.
  pose proof (ensured_header lines t Ht H3 Hg Hc) as Hcells.
  pose proof (githubColumnOf_range lines t) as Hr.
  split.
  - apply (starsOf_spliced (headerOf lines t)); [done|done|lia].
  - by apply (githubOf_spliced (headerOf lines t) _ _ Hcells).
Qed.

(** X10. The first loop of fill-github-stars.js puts the column
    [GitHub Stars] right after the column [Github], which stays where it
    is, in every table of three lines or more that has a [Github] column
    and lacked the stars column. *)
Theorem columnsEnsured_places_column lines t :
  t ∈ findTables lines -> (3 <= length (rows t))%nat ->
  githubColumnOf lines t <> -1 -> columnOf lines t "GitHub Stars" = -1 ->
  columnOf (columnsEnsured lines) t "GitHub Stars" = githubColumnOf lines t + 1 /\
  githubColumnOf (columnsEnsured lines) t = githubColumnOf lines t.
Proof. apply ensured_columns. Qed.

Lemma columnsEnsured_places_column_witness :
  columnOf (columnsEnsured Examples.threeTables) (mkTable 1 [1; 2; 3]%nat)
    "GitHub Stars" = 2 + 1 /\
  githubColumnOf (columnsEnsured Examples.threeTables) (mkTable 1 [1; 2; 3]%nat) = 2.
Proof.
  apply (columnsEnsured_places_column Examples.threeTables (mkTable 1 [1; 2; 3]%nat)).
  - vm_compute. apply list_elem_of_here.
  - simpl. lia.
  - vm_compute. discriminate.
  - reflexivity.
Defined.

(** After the first loop a table is skipped by it. *)
Lemma ensured_skipped lines t :
  t ∈ findTables lines ->
  (length (rows t) < 3)%nat \/ githubColumnOf (columnsEnsured lines) t = -1
    \/ columnOf (columnsEnsured lines) t "GitHub Stars" <> -1.
Proof.
  intros Ht.
  destruct (skipped_or_inserted lines t) as [Hskip|(H3 & Hg & Hc)].
  - pose proof (ensured_header_same lines t Ht Hskip) as Hh.
    unfold githubColumnOf, columnOf in *. rewrite Hh. done.
  - right; right.
    destruct (ensured_columns lines t Ht H3 Hg Hc) as [-> _].
    pose proof (githubColumnOf_range lines t). lia.
Qed.

(** X11. The first loop of fill-github-stars.js changes nothing in a
    document it has already been through, and it keeps every table where
    it is. *)
Theorem columnsEnsured_idempotent lines :
  columnsEnsured (columnsEnsured lines) = columnsEnsured lines /\
  findTables (columnsEnsured lines) = findTables lines.
Proof.
  split; [|apply ensured_findTables].
  rewrite (columnsEnsured_fold (columnsEnsured lines)), ensured_findTables.
  apply fold_fixed. intros t Ht.
  apply ensureColumn_skip. by apply ensured_skipped.
Qed.

End EnsuredProperties.

(** ** The jobs of fill-github-stars.js *)

Section JobProperties.

Import Tables FillStars.

Lemma omap_ext_in {A B} (f g : A -> option B) (l : list A) :
  (forall x, x ∈ l -> f x = g x) -> omap f l = omap g l.
Proof.
  induction l as [|x l IH]; intros H; [done|]. csimpl.
  rewrite (H x) by apply list_elem_of_here.
  rewrite IH; [done|]. intros y Hy. by apply H, list_elem_of_further.
Qed.

Lemma jobsOf_ext L L' rows g s :
  (forall r, r ∈ drop 2 rows -> L !! r = L' !! r) ->
  jobsOf L rows g s = jobsOf L' rows g s.
Proof.
  intros H. unfold jobsOf. apply omap_ext_in.
  intros r Hr. by rewrite (lineAt_ext L L' r (H r Hr)).
Qed.

(** One turn of the first loop, case by case. *)
Lemma tableStep_cases L jobs n t :
  tableStep (L, jobs, n) t =
  if (length (rows t) <? 3)%nat then (L, jobs, n)
  else if githubColumnOf L t =? -1 then (L, jobs, n)
  else if columnOf L t "GitHub Stars" =? -1
       then (ensureColumn L t,
             jobs ++ jobsOf (ensureColumn L t) (rows t) (githubColumnOf L t)
                            (githubColumnOf L t + 1),
             S n)
       else (L, jobs ++ jobsOf L (rows t) (githubColumnOf L t)
                               (columnOf L t "GitHub Stars"), n).
Proof.
  unfold tableStep, ensureColumn, githubColumnOf, columnOf, headerOf.
  destruct (length (rows t) <? 3)%nat; [done|].
  set (hdr := map Js.trim (cellsOf (lineAt L (nth 0 (rows t) 0%nat)))).
  set (g := if idxOf hdr "Github" =? -1 then idxOf hdr "GitHub"
            else idxOf hdr "Github").
  destruct (g =? -1); [done|].
  by destruct (idxOf hdr "GitHub Stars" =? -1).
Qed.

Lemma columns_ext L L' t :
  L !! nth 0 (rows t) 0%nat = L' !! nth 0 (rows t) 0%nat ->
  githubColumnOf L t = githubColumnOf L' t /\
  columnOf L t "GitHub Stars" = columnOf L' t "GitHub Stars".
Proof.
  intros H. unfold githubColumnOf, columnOf, headerOf.
  by rewrite (lineAt_ext L L' _ H).
Qed.

(** The jobs of one turn are those read from the document as the first
    loop leaves it. *)
Lemma tableStep_jobs_final lines0 L jobs n t :
  t ∈ findTables lines0 -> length L = length lines0 ->
  (forall i, i ∈ rows t -> L !! i = lines0 !! i) ->
  (tableStep (L, jobs, n) t).1.2 = jobs ++ jobsFor (columnsEnsured lines0) t.
Proof.
  intros Ht Hlen Hagree. apply findTables_sound in Ht as Hrun.
  assert (Hfirst : nth 0 (rows t) 0%nat ∈ rows t).
  { apply list_elem_of_lookup_2 with 0%nat, (first_row lines0 t Hrun). }
  destruct (columns_ext L lines0 t (Hagree _ Hfirst)) as [Hg Hs].
  rewrite tableStep_cases, Hg, Hs. unfold jobsFor.
  destruct (Nat.ltb_spec (length (rows t)) 3) as [|H3]; [by rewrite app_nil_r|].
  destruct (skipped_or_inserted lines0 t) as [Hskip|(_ & Hg0 & Hc0)].
  - pose proof (ensured_header_same lines0 t Ht Hskip) as Hh.
    assert (githubColumnOf (columnsEnsured lines0) t = githubColumnOf lines0 t) as ->
      by (unfold githubColumnOf, columnOf; by rewrite Hh).
    assert (columnOf (columnsEnsured lines0) t "GitHub Stars"
            = columnOf lines0 t "GitHub Stars") as ->
      by (unfold columnOf; by rewrite Hh).
    destruct (Z.eqb_spec (githubColumnOf lines0 t) (-1)); [by rewrite app_nil_r|].
    destruct Hskip as [?|[?|Hc]]; [lia|done|].
    destruct (Z.eqb_spec (columnOf lines0 t "GitHub Stars") (-1)); [done|].
    simpl. f_equal. apply jobsOf_ext. intros r Hr.
    assert (r ∈ rows t) as Hin by (by apply elem_of_drop_2 with 2%nat).
    rewrite (Hagree r Hin). symmetry.
    apply (ensured_same lines0 t); auto.
  - destruct (ensured_columns lines0 t Ht H3 Hg0 Hc0) as [-> ->].
    destruct (Z.eqb_spec (githubColumnOf lines0 t) (-1)); [done|].
    rewrite Hc0. simpl. f_equal. apply jobsOf_ext. intros r Hr.
    assert (r ∈ rows t) as Hin by (by apply elem_of_drop_2 with 2%nat).
    rewrite (columnsEnsured_inside lines0 t r Ht Hin).
    by apply ensureColumn_local.
Qed.

Lemma StronglySorted_app_elem_of {A} (R : A -> A -> Prop) l1 l2 x y :
  StronglySorted R (l1 ++ l2) -> x ∈ l1 -> y ∈ l2 -> R x y.
Proof.
  induction l1 as [|a l1 IH]; intros Hs Hx Hy; [by apply elem_of_nil in Hx|].
  simpl in Hs. apply StronglySorted_inv in Hs as [Hs Ha].
  apply elem_of_cons in Hx as [->|Hx]; [|by apply IH].
  rewrite Forall_forall in Ha. apply Ha, elem_of_app. by right.
Qed.

Lemma scan_prefix lines0 pre : forall post,
  findTables lines0 = pre ++ post ->
  (fold_left tableStep pre (lines0, [], 0%nat)).1.2
  = flat_map (jobsFor (columnsEnsured lines0)) pre.
Proof.
  induction pre as [|t pre IH] using rev_ind; intros post Hts; [done|].
  rewrite fold_left_app, flat_map_app. simpl. rewrite app_nil_r.
  rewrite <- app_assoc in Hts. simpl in Hts.
  rewrite <- (IH (t :: post) Hts).
  pose proof (scan_lines pre (lines0, [], 0%nat)) as HL. simpl in HL.
  destruct (fold_left tableStep pre (lines0, [], 0%nat)) as [[L jobs] n] eqn:E.
  simpl in *.
  apply (tableStep_jobs_final lines0 L jobs n t).
  - rewrite Hts. apply elem_of_app. right. apply list_elem_of_here.
  - rewrite HL. apply (fold_tables_length ensureColumn ensureColumn_length).
  - intros i Hi. rewrite HL.
    apply (fold_tables_outside ensureColumn ensureColumn_outside).
    intros t' Ht' Hi'.
    pose proof (findTables_apart lines0) as Hap. rewrite Hts in Hap.
    apply (StronglySorted_app_elem_of apart _ _ t' t Hap Ht'
             (list_elem_of_here _ _) i Hi' Hi).
Qed.

Lemma scan_jobs_flat lines0 :
  (scan lines0).1.2
  = flat_map (jobsFor (columnsEnsured lines0)) (findTables lines0).
Proof. apply (scan_prefix lines0 (findTables lines0) []). by rewrite app_nil_r. Qed.

Lemma jobsFor_elem L t j :
  j ∈ jobsFor L t ->
  (3 <= length (rows t))%nat /\ githubColumnOf L t <> -1 /\
  lineIndex j ∈ dataRows t /\
  starsCol j = columnOf L t "GitHub Stars" /\
  Links.parseGithubRepo
    (Links.extractMarkdownUrl
       (default EmptyString
          (Js.at_ (Js.padTo (Z.max (githubColumnOf L t) (starsCol j)) " "
                            (cellsOf (lineAt L (lineIndex j))))
                  (githubColumnOf L t))))
  = Some (repo j).
Proof.
  unfold jobsFor.
  destruct (Nat.ltb_spec (length (rows t)) 3) as [|H3]; [by intros ?%elem_of_nil|].
  destruct (Z.eqb_spec (githubColumnOf L t) (-1)) as [|Hg]; [by intros ?%elem_of_nil|].
  unfold jobsOf. intros (ri & Hri & Hj)%list_elem_of_omap.
  destruct (Links.parseGithubRepo _) as [r|] eqn:Er; [|done].
  destruct (String.eqb r EmptyString); [done|].
  injection Hj as <-. simpl. done.
Qed.

(** X12. The jobs that the first loop of fill-github-stars.js collects
    are the jobs of the tables read from the document as that loop leaves
    it: the column indices a job carries are those of the header after the
    stars column was put in, though the loop computes them before. *)
Theorem scan_jobs_final lines0 :
  (scan lines0).1.2
  = flat_map (jobsFor (columnsEnsured lines0)) (findTables lines0).
Proof. apply scan_jobs_flat. Qed.

Lemma omap_key_sublist {A B} (f : A -> option B) (key : B -> A) (l : list A) :
  (forall x y, f x = Some y -> key y = x) -> map key (omap f l) `sublist_of` l.
Proof.
  intros H. induction l as [|x l IH]; [done|]. csimpl.
  destruct (f x) as [y|] eqn:E; simpl.
  - rewrite (H x y E). by apply sublist_skip.
  - by apply sublist_cons.
Qed.

Lemma jobsFor_lineIndex_sublist L t :
  map lineIndex (jobsFor L t) `sublist_of` rows t.
Proof.
  unfold jobsFor.
  destruct (length (rows t) <? 3)%nat; [apply sublist_nil_l|].
  destruct (githubColumnOf L t =? -1); [apply sublist_nil_l|].
  etrans; [|apply sublist_drop].
  apply omap_key_sublist. intros ri j Hj. simpl in Hj.
  destruct (Links.parseGithubRepo _) as [r|]; [|done].
  destruct (String.eqb r EmptyString); [done|]. by injection Hj as <-.
Qed.

Lemma jobs_NoDup L lines ts :
  Forall (MaximalRun lines) ts -> StronglySorted apart ts ->
  NoDup (map lineIndex (flat_map (jobsFor L) ts)).
Proof.
  induction ts as [|t ts IH]; intros Hruns Hs; [constructor|].
  apply Forall_cons in Hruns as [Hrun Hruns].
  apply StronglySorted_inv in Hs as [Hs Ht].
  simpl. rewrite map_app. apply NoDup_app. split; [|split].
  - eapply sublist_NoDup; [by apply (run_NoDup lines)|].
    apply jobsFor_lineIndex_sublist.
  - intros i Hi Hi'.
    assert (i ∈ rows t) as Hin.
    { apply (elem_of_sublist _ _ _ Hi), jobsFor_lineIndex_sublist. }
    apply list_elem_of_fmap in Hi' as (j & -> & Hj).
    apply list_elem_of_In, in_flat_map in Hj as (t' & Ht' & Hj).
    apply list_elem_of_In in Ht', Hj.
    rewrite Forall_forall in Ht. apply (Ht t' Ht' (lineIndex j) Hin).
    eapply elem_of_sublist; [|apply jobsFor_lineIndex_sublist].
    by apply list_elem_of_fmap_2.
  - by apply IH.
Qed.

Lemma scan_jobs_NoDup lines0 : NoDup (map lineIndex (scan lines0).1.2).
Proof.
  rewrite scan_jobs_flat. apply (jobs_NoDup _ lines0).
  - apply Forall_forall. intros t. apply findTables_sound.
  - apply findTables_apart.
Qed.

(** The column of a header line that matches a name is not its first
    cell: that is the empty text before the opening pipe. *)
Lemma idxOf_header_pos header name :
  isTableLine header = true -> Js.toLowerCase name <> EmptyString ->
  idxOf (map Js.trim (cellsOf header)) name <> 0.
Proof.
  intros Hh Hname. apply startsWith_char in Hh as [r ->].
  unfold cellsOf, idxOf. simpl.
  destruct (Js.toLowerCase name) as [|c nm]; [done|]. clear Hname.
  pose proof (findIndex_range
    (fun p => String.eqb (Js.toLowerCase p) (String c nm))
    (map Js.trim (Js.split "|" r))).
  destruct (Z.eqb_spec (Js.findIndex
    (fun p => String.eqb (Js.toLowerCase p) (String c nm))
    (map Js.trim (Js.split "|" r))) (-1)); lia.
Qed.

Lemma scan_job_facts lines0 j :
  j ∈ (scan lines0).1.2 ->
  let L1 := columnsEnsured lines0 in
  NoDup (map lineIndex (scan lines0).1.2) /\
  exists t, t ∈ findTables lines0 /\ (3 <= length (rows t))%nat /\
    lineIndex j ∈ dataRows t /\
    starsCol j = columnOf L1 t "GitHub Stars" /\ 1 <= starsCol j /\
    Links.parseGithubRepo
      (Links.extractMarkdownUrl
         (default EmptyString
            (Js.at_ (Js.padTo (Z.max (githubColumnOf L1 t) (starsCol j)) " "
                              (cellsOf (lineAt L1 (lineIndex j))))
                    (githubColumnOf L1 t))))
    = Some (repo j).
Proof.
  intros Hj L1. split; [apply scan_jobs_NoDup|].
  rewrite scan_jobs_flat in Hj.
  apply list_elem_of_In, in_flat_map in Hj as (t & Ht & Hj).
  apply list_elem_of_In in Ht, Hj.
  destruct (jobsFor_elem _ t j Hj) as (H3 & Hg & Hrow & Hs & Hrepo).
  exists t. repeat (split; [done|]). split; [|done].
  rewrite Hs.
  destruct (ensured_skipped lines0 t Ht) as [?|[?|Hc]]; [lia|done|].
  assert (isTableLine (headerOf L1 t) = true) as Hh.
  { apply header_isTableLine, findTables_sound.
    unfold L1. by rewrite ensured_findTables. }
  pose proof (idxOf_header_pos (headerOf L1 t) "GitHub Stars" Hh) as Hpos.
  pose proof (idxOf_range (map Js.trim (cellsOf (headerOf L1 t))) "GitHub Stars").
  unfold columnOf in *. fold L1 in Hc.
  assert (idxOf (map Js.trim (cellsOf (headerOf L1 t))) "GitHub Stars" <> 0)
    by (by apply Hpos).
  unfold L1 in *. lia.
Qed.

(** X13. A job of fill-github-stars.js is for a data row of a table of
    three lines or more; the column it writes to is the column
    [GitHub Stars] of that table in the document that the second loop
    works on, which is not the first cell of the row; its repository is
    read from the cell [Github] of the row.  No two jobs are for the same
    row. *)
Theorem job_points_at_stars_cell lines0 j :
  j ∈ (scan lines0).1.2 ->
  let L1 := columnsEnsured lines0 in
  NoDup (map lineIndex (scan lines0).1.2) /\
  exists t, t ∈ findTables lines0 /\ (3 <= length (rows t))%nat /\
    lineIndex j ∈ dataRows t /\
    starsCol j = columnOf L1 t "GitHub Stars" /\ 1 <= starsCol j /\
    Links.parseGithubRepo
      (Links.extractMarkdownUrl
         (default EmptyString
            (Js.at_ (Js.padTo (Z.max (githubColumnOf L1 t) (starsCol j)) " "
                              (cellsOf (lineAt L1 (lineIndex j))))
                    (githubColumnOf L1 t))))
    = Some (repo j).
Proof. apply scan_job_facts. Qed.

Lemma job_points_at_stars_cell_witness :
  let j := mkJob 3 3 "a/b" in
  let L1 := columnsEnsured Examples.threeTables in
  NoDup (map lineIndex (scan Examples.threeTables).1.2) /\
  exists t, t ∈ findTables Examples.threeTables /\ (3 <= length (rows t))%nat /\
    lineIndex j ∈ dataRows t /\
    starsCol j = columnOf L1 t "GitHub Stars" /\ 1 <= starsCol j /\
    Links.parseGithubRepo
      (Links.extractMarkdownUrl
         (default EmptyString
            (Js.at_ (Js.padTo (Z.max (githubColumnOf L1 t) (starsCol j)) " "
                              (cellsOf (lineAt L1 (lineIndex j))))
                    (githubColumnOf L1 t))))
    = Some (repo j).
Proof.
  apply (job_points_at_stars_cell Examples.threeTables (mkJob 3 3 "a/b")).
  vm_compute. apply list_elem_of_here.
Defined.

End JobProperties.

(** ** The second loop of fill-github-stars.js *)

Section RunProperties.

Import Tables FillStars.

Variable httpsGetJson : nat -> string -> Response.

Local Abbreviation runJobs := (runJobs httpsGetJson).
Local Abbreviation fetchRepo := (githubApiFetchRepo httpsGetJson).
Local Abbreviation Resolved := (FillStars.Resolved httpsGetJson).
Local Abbreviation CacheSound := (CacheSound httpsGetJson).

Lemma Resolved_app l x n r v : Resolved l n r v -> Resolved (l ++ x) n r v.
Proof. intros [Hn Hv]. split; [|done]. by apply lookup_app_l_Some. Qed.

Lemma CacheSound_called st job c hit :
  CacheSound st ->
  (forall r v, c !! r = Some (Some v) ->
     cache st !! r = Some (Some v) \/
     (r = repo job /\ fetchRepo (apiCalls st) (repo job) = Ok (Some v))) ->
  CacheSound (mkRun (lines st) c (S (apiCalls st)) (rowsUpdated st) hit
                    (lookups st ++ [repo job])).
Proof.
  intros [Hcalls Hsound] Hc. split; simpl.
  - rewrite length_app. simpl. lia.
  - intros r v Hr. destruct (Hc r v Hr) as [Hold|[-> Hnew]].
    + destruct (Hsound r v Hold) as [n Hn]. exists n. by apply Resolved_app.
    + exists (apiCalls st). split; [|done].
      rewrite Hcalls. by rewrite lookup_app_r, Nat.sub_diag by lia.
Qed.

Lemma runJobs_lookups jobs : forall st,
  exists x, lookups (runJobs jobs st) = lookups st ++ x.
Proof.
  induction jobs as [|job rest IH]; intros st; [exists []; by rewrite app_nil_r|].
  rewrite runJobs_cons.
  assert (Hcalled : forall c hit,
            exists x,
              lookups (runJobs rest
                (mkRun (lines st) c (S (apiCalls st)) (rowsUpdated st) hit
                       (lookups st ++ [repo job]))) = lookups st ++ x).
  { intros c hit. destruct (IH (mkRun (lines st) c (S (apiCalls st))
                                  (rowsUpdated st) hit (lookups st ++ [repo job])))
      as [x Hx]. simpl in Hx. exists ([repo job] ++ x). by rewrite Hx, app_assoc. }
  destruct (cached st (repo job)) as [v|]; [apply (IH (written st job v))|].
  destruct (fetchRepo _ _) as [[v|]| |]; simpl.
  - destruct (IH (written
        (mkRun (lines st) (<[repo job:=Some v]> (cache st)) (S (apiCalls st))
               (rowsUpdated st) (hitRateLimit st) (lookups st ++ [repo job])) job v))
      as [x Hx]. simpl in Hx. exists ([repo job] ++ x). by rewrite Hx, app_assoc.
  - apply Hcalled.
  - by exists [repo job].
  - apply Hcalled.
Qed.

Lemma writeStars_local L L' job v :
  length L = length L' -> L !! lineIndex job = L' !! lineIndex job ->
  writeStars L job v !! lineIndex job = writeStars L' job v !! lineIndex job.
Proof.
  intros Hlen H. unfold writeStars.
  rewrite (lineAt_ext L L' _ H). by apply insert_agree.
Qed.

(** What the loop does to the row of a job: nothing, or it writes a star
    count that a lookup for the repository of the job gave. *)
Lemma runJobs_row jobs : forall st,
  NoDup (map lineIndex jobs) -> CacheSound st ->
  forall j, j ∈ jobs ->
    lines (runJobs jobs st) !! lineIndex j = lines st !! lineIndex j \/
    exists n v,
      Resolved (lookups (runJobs jobs st)) n (repo j) v /\
      lines (runJobs jobs st) !! lineIndex j
      = writeStars (lines st) j v !! lineIndex j.
Proof.
  induction jobs as [|job rest IH]; intros st Hnd Hst j Hj;
    [by apply elem_of_nil in Hj|].
  simpl in Hnd. apply NoDup_cons in Hnd as [Hjob Hnd].
  assert (Hother : forall j', j' ∈ rest -> lineIndex j' <> lineIndex job).
  { intros j' Hj' Heq. apply Hjob. rewrite <- Heq. by apply list_elem_of_fmap_2. }
  (* the rest of the loop, from a state [st1] that extends [st] *)
  assert (Hrest : forall st1,
            CacheSound st1 ->
            (lines st1 = lines st \/
             exists n v, Resolved (lookups st1) n (repo job) v /\
                         lines st1 = writeStars (lines st) job v) ->
            lines (runJobs rest st1) !! lineIndex j = lines st !! lineIndex j \/
            exists n v,
              Resolved (lookups (runJobs rest st1)) n (repo j) v /\
              lines (runJobs rest st1) !! lineIndex j
              = writeStars (lines st) j v !! lineIndex j).
  { intros st1 Hst1 Hlines.
    assert (Hlen : length (lines st1) = length (lines st)).
    { destruct Hlines as [->|(n & v & _ & ->)]; [done|apply writeStars_length]. }
    apply elem_of_cons in Hj as [->|Hj].
    - rewrite (runJobs_outside httpsGetJson rest st1 (lineIndex job)) by done.
      destruct Hlines as [->|(n & v & Hres & ->)]; [by left|right].
      exists n, v. split; [|done].
      destruct (runJobs_lookups rest st1) as [x ->]. by apply Resolved_app.
    - assert (lines st1 !! lineIndex j = lines st !! lineIndex j) as Hsame.
      { destruct Hlines as [->|(n & v & _ & ->)]; [done|].
        apply writeStars_outside. intros Heq. by apply (Hother j). }
      destruct (IH st1 Hnd Hst1 j Hj) as [H|(n & v & Hres & H)].
      + left. by rewrite H.
      + right. exists n, v. split; [done|]. rewrite H.
        by apply writeStars_local. }
  rewrite runJobs_cons.
  destruct (cached st (repo job)) as [v|] eqn:Hc.
  { apply Hrest; [done|]. right.
    unfold cached in Hc.
    destruct (cache st !! repo job) as [[v'|]|] eqn:E; simplify_eq.
    destruct (proj2 Hst (repo job) v E) as [n Hn]. by exists n, v. }
  destruct (fetchRepo (apiCalls st) (repo job)) as [[v|]| |] eqn:Hf; simpl.
  - apply Hrest.
    + apply (CacheSound_called st job); [done|].
      intros r v' Hr. destruct (decide (r = repo job)) as [->|Hne].
      * rewrite lookup_insert_eq in Hr. injection Hr as <-. by right.
      * rewrite lookup_insert_ne in Hr by done. by left.
    + right. exists (apiCalls st), v. split; [|done]. split; [|done].
      simpl. rewrite (proj1 Hst).
      by rewrite lookup_app_r, Nat.sub_diag by lia.
  - apply Hrest; [|by left].
    apply (CacheSound_called st job); [done|].
    intros r v' Hr. destruct (decide (r = repo job)) as [->|Hne].
    + by rewrite lookup_insert_eq in Hr.
    + rewrite lookup_insert_ne in Hr by done. by left.
  - by left.
  - apply Hrest; [|by left].
    apply (CacheSound_called st job); [done|]. intros r v' Hr. by left.
Qed.

Lemma start_sound L : CacheSound (start L).
Proof. split; [done|]. intros r v Hr. simpl in Hr. by rewrite lookup_empty in Hr. Qed.

Lemma main_run lines0 :
  document (main httpsGetJson lines0)
  = lines (runJobs (scan lines0).1.2 (start (columnsEnsured lines0))) /\
  finalState (main httpsGetJson lines0)
  = runJobs (scan lines0).1.2 (start (columnsEnsured lines0)).
Proof.
  rewrite main_document.
  pose proof (main_final_lines httpsGetJson lines0) as H.
  unfold columnsEnsured.
  destruct (scan lines0) as [[L jobs] touched]. simpl. by rewrite H.
Qed.

(** When no lookup throws, a row of a job is left as the first loop made
    it, or it holds a star count that the API gave in this run for the
    repository of the row, written into the column of the job. *)
Lemma fill_main_row lines0 j :
  j ∈ (scan lines0).1.2 ->
  let r := main httpsGetJson lines0 in
  let L1 := columnsEnsured lines0 in
  document r !! lineIndex j = L1 !! lineIndex j \/
  exists n v,
    lookups (finalState r) !! n = Some (repo j) /\
    fetchRepo n (repo j) = Ok (Some v) /\
    document r !! lineIndex j = writeStars L1 j v !! lineIndex j.
Proof.
  intros Hj r L1. unfold r.
  destruct (main_run lines0) as [-> ->].
  destruct (runJobs_row _ (start L1) (scan_jobs_NoDup lines0) (start_sound L1) j Hj)
    as [H|(n & v & [Hn Hv] & H)]; [by left|right].
  by exists n, v.
Qed.



End RunProperties.

(** ** Star counts written and read back *)

Section FiniteNumbers.

Import Num.

Lemma digits2_pos_upper p : Z.pos p < 2 ^ Z.pos (digits2_pos p).
Proof.
  induction p as [p IH|p IH|]; simpl; [| |done].
  - rewrite Pos2Z.inj_succ, Z.pow_succ_r by lia. lia.
  - rewrite Pos2Z.inj_succ, Z.pow_succ_r by lia. lia.
Qed.

Lemma digits2_pos_lower p : 2 ^ (Z.pos (digits2_pos p) - 1) <= Z.pos p.
Proof.
  induction p as [p IH|p IH|]; simpl; [| |done].
  - rewrite Pos2Z.inj_succ.
    replace (Z.succ (Z.pos (digits2_pos p)) - 1)
      with (Z.succ (Z.pos (digits2_pos p) - 1)) by lia.
    rewrite Z.pow_succ_r by lia. lia.
  - rewrite Pos2Z.inj_succ.
    replace (Z.succ (Z.pos (digits2_pos p)) - 1)
      with (Z.succ (Z.pos (digits2_pos p) - 1)) by lia.
    rewrite Z.pow_succ_r by lia. lia.
Qed.

Lemma Zdigits2_upper m : 0 <= m -> 0 <= Zdigits2 m /\ m < 2 ^ Zdigits2 m.
Proof.
  destruct m as [|p|p]; simpl; [done| |lia].
  intros _. split; [lia|apply digits2_pos_upper].
Qed.

Lemma Zdigits2_le m k : 0 <= m < 2 ^ k -> 0 <= k -> Zdigits2 m <= k.
Proof.
  destruct m as [|p|p]; simpl; [done| |lia]. intros [_ H] Hk.
  pose proof (digits2_pos_lower p) as Hl.
  assert (2 ^ (Z.pos (digits2_pos p) - 1) < 2 ^ k) as Hlt by lia.
  apply Z.pow_lt_mono_r_iff in Hlt; lia.
Qed.

Lemma digits2_pos_iter p d :
  digits2_pos (Pos.iter xO p d) = (digits2_pos p + d)%positive.
Proof.
  induction d as [|d IH] using Pos.peano_ind.
  - simpl. lia.
  - rewrite Pos.iter_succ. simpl. rewrite IH. lia.
Qed.

Lemma shr_1_le mrs : 0 <= shr_m mrs -> shr_m (shr_1 mrs) <= shr_m mrs.
Proof.
  destruct mrs as [m r s]. simpl. destruct m as [|p|p]; [done| |lia].
  intros _. destruct p; simpl; lia.
Qed.

Lemma shr_le mrs e n :
  0 <= shr_m mrs ->
  0 <= shr_m (shr mrs e n).1 <= shr_m mrs /\
  (shr mrs e n).2 = e + Z.max 0 n.
Proof.
  intros H. unfold shr. destruct n as [|p|p]; simpl; [lia| |lia].
  split; [|lia].
  apply (iter_pos_invariant (fun r => 0 <= shr_m r <= shr_m mrs)); [|lia].
  intros x Hx. pose proof (shr_1_le x). pose proof (shr_1_nonneg x). lia.
Qed.

Lemma fexp_eq x : fexp prec emax x = Z.max (x - 53) (-1074).
Proof. reflexivity. Qed.

Lemma shr_fexp_bounds m e l :
  0 <= m ->
  0 <= shr_m (shr_fexp prec emax m e l).1 <= m /\
  (shr_fexp prec emax m e l).2 <= Z.max e (Z.max (Zdigits2 m + e - 53) (-1074)).
Proof.
  intros H. unfold shr_fexp.
  destruct (shr_le (shr_record_of_loc m l) e
              (fexp prec emax (Zdigits2 m + e) - e)) as [H1 H2].
  { by destruct l as [|[]]. }
  assert (shr_m (shr_record_of_loc m l) = m) as Hm by (by destruct l as [|[]]).
  rewrite Hm in H1. split; [done|].
  rewrite H2, fexp_eq. lia.
Qed.

Lemma round_nearest_even_le m l : round_nearest_even m l <= m + 1.
Proof.
  unfold round_nearest_even. destruct l as [|[]]; try lia.
  destruct (Z.even m); lia.
Qed.

Lemma binary_round_aux_finite sx mx ex lx :
  0 <= mx -> ex <= 0 -> Zdigits2 mx <= 200 ->
  isFinite (binary_round_aux prec emax sx mx ex lx) = true.
Proof.
  intros Hm He Hd. unfold binary_round_aux.
  destruct (shr_fexp_bounds mx ex lx Hm) as [H1 H2].
  destruct (shr_fexp prec emax mx ex lx) as [mrs' e'] eqn:E1. simpl in H1, H2.
  set (m' := round_nearest_even (shr_m mrs') (loc_of_shr_record mrs')).
  assert (0 <= m') as Hm' by (apply round_nearest_even_nonneg; lia).
  assert (m' <= mx + 1) as Hle.
  { pose proof (round_nearest_even_le (shr_m mrs') (loc_of_shr_record mrs')).
    unfold m'. lia. }
  assert (Zdigits2 m' <= Zdigits2 mx + 1) as Hd'.
  { destruct (Zdigits2_upper mx Hm) as [H0 Hu].
    apply Zdigits2_le; [|lia]. rewrite Z.pow_add_r by lia. lia. }
  destruct (shr_fexp_bounds m' e' loc_Exact Hm') as [H3 H4].
  destruct (shr_fexp prec emax m' e' loc_Exact) as [mrs'' e''] eqn:E2.
  simpl in H3, H4.
  destruct (shr_m mrs'') as [|p|p]; [done| |lia].
  change (emax - prec) with 971.
  destruct (Z.leb_spec e'' 971); [done|lia].
Qed.

Lemma binary_round_finite sx p :
  Z.pos p < 2 ^ 100 -> isFinite (binary_round prec emax sx p 0) = true.
Proof.
  intros Hp. unfold binary_round, shl_align.
  assert (Z.pos (digits2_pos p) <= 100) as Hd
    by (apply (Zdigits2_le (Z.pos p)); lia).
  set (ex' := fexp prec emax (Z.pos (digits2_pos p) + 0)).
  assert (Z.pos (digits2_pos p) - 53 <= ex') as Hex
    by (unfold ex'; rewrite fexp_eq; lia).
  destruct (ex' - 0) as [|d|d] eqn:E.
  - apply binary_round_aux_finite; simpl; lia.
  - apply binary_round_aux_finite; simpl; lia.
  - apply binary_round_aux_finite; [done|lia|].
    simpl. rewrite digits2_pos_iter. lia.
Qed.

(** An integer below [2^100] is a finite number. *)
Lemma ofZ_finite n : Z.abs n < 2 ^ 100 -> isFinite (ofZ n) = true.
Proof.
  intros Hn. unfold ofZ, binary_normalize.
  destruct n as [|p|p]; [done| |]; apply binary_round_finite; lia.
Qed.

End FiniteNumbers.

Section DecimalNumerals.

Import Num.

Lemma list_ascii_app a b :
  list_ascii_of_string (a +:+ b) = list_ascii_of_string a ++ list_ascii_of_string b.
Proof. induction a as [|c a IH]; simpl; [done|]. by rewrite IH. Qed.

Lemma allChars_app p a b : allChars p (a +:+ b) = allChars p a && allChars p b.
Proof. unfold allChars. by rewrite list_ascii_app, forallb_app. Qed.

Lemma allChars_impl (p q : ascii -> bool) s :
  (forall c, p c = true -> q c = true) -> allChars p s = true -> allChars q s = true.
Proof.
  intros H. unfold allChars. induction (list_ascii_of_string s) as [|c l IH]; [done|].
  simpl. intros [Hc Hl]%andb_true_iff. by rewrite (H c Hc), IH.
Qed.

Lemma digitsValueFrom_app base val acc a b :
  digitsValueFrom base val acc (a +:+ b)
  = digitsValueFrom base val (digitsValueFrom base val acc a) b.
Proof. unfold digitsValueFrom. by rewrite list_ascii_app, fold_left_app. Qed.

Lemma append_cons c (a b : string) : String c a +:+ b = String c (a +:+ b).
Proof. reflexivity. Qed.

Lemma append_assoc (a b c : string) : (a +:+ b) +:+ c = a +:+ (b +:+ c).
Proof. induction a as [|x a IH]; [done|]. by rewrite !append_cons, IH. Qed.

Lemma append_empty (a : string) : a +:+ EmptyString = a.
Proof. induction a as [|x a IH]; [done|]. by rewrite append_cons, IH. Qed.

Lemma append_length (a b : string) :
  String.length (a +:+ b) = (String.length a + String.length b)%nat.
Proof.
  induction a as [|x a IH]; [done|]. rewrite append_cons. simpl. by rewrite IH.
Qed.

Lemma digit_char d :
  (d < 10)%N ->
  Js.isDigit (ascii_of_N (48 + d)) = true /\ digitValue (ascii_of_N (48 + d)) = d.
Proof.
  intros Hd. unfold Js.isDigit, digitValue.
  rewrite N_ascii_embedding by lia. split; [|lia].
  apply andb_true_iff. split; apply N.leb_le; lia.
Qed.

(** [decimalDigits] writes the decimal numeral of [n] in front of [acc]. *)
Lemma decimalDigits_spec fuel : forall n acc,
  (n < 2 ^ N.of_nat (S fuel))%N ->
  exists ds,
    decimalDigits (S fuel) n acc = ds +:+ acc /\ ds <> EmptyString /\
    allChars Js.isDigit ds = true /\
    forall a0, digitsValueFrom 10 digitValue a0 ds
               = (a0 * 10 ^ N.of_nat (String.length ds) + n)%N.
Proof.
  induction fuel as [|fuel IH]; intros n acc Hn.
  - assert (n / 10 = 0)%N as Hq by (apply N.div_small; simpl in Hn; lia).
    assert (n mod 10 = n)%N as Hr by (apply N.mod_small; simpl in Hn; lia).
    destruct (digit_char n) as [Hd Hv]; [simpl in Hn; lia|].
    exists (String (ascii_of_N (48 + n)) EmptyString).
    simpl. rewrite Hq, Hr. simpl. split; [done|]. split; [done|].
    split; [unfold allChars; simpl; by rewrite Hd|].
    intros a0. unfold digitsValueFrom. simpl. rewrite Hv. lia.
  - assert (n mod 10 < 10)%N as Hmod by (apply N.mod_lt; lia).
    destruct (digit_char (n mod 10) Hmod) as [Hd Hv].
    pose proof (N.div_mod n 10) as Hdm.
    change (decimalDigits (S (S fuel)) n acc) with
      (let d := String (ascii_of_N (48 + n mod 10)) acc in
       if (n / 10 =? 0)%N then d else decimalDigits (S fuel) (n / 10) d).
    cbv zeta. destruct (N.eqb_spec (n / 10) 0) as [Hq|Hq].
    + exists (String (ascii_of_N (48 + n mod 10)) EmptyString).
      split; [done|]. split; [done|].
      split; [unfold allChars; simpl; by rewrite Hd|].
      intros a0. unfold digitsValueFrom. simpl. rewrite Hv. lia.
    + destruct (IH (n / 10)%N (String (ascii_of_N (48 + n mod 10)) acc))
        as (ds & Hds & Hne & Hall & Hval).
      { apply N.Div0.div_lt_upper_bound.
        rewrite Nat2N.inj_succ, N.pow_succ_r' in Hn. lia. }
      exists (ds +:+ String (ascii_of_N (48 + n mod 10)) EmptyString).
      split; [by rewrite Hds, append_assoc|].
      split; [by destruct ds|].
      split.
      { rewrite allChars_app, Hall. unfold allChars. simpl. by rewrite Hd. }
      intros a0. rewrite digitsValueFrom_app, Hval.
      unfold digitsValueFrom. simpl. rewrite Hv, append_length. simpl.
      rewrite Nat2N.inj_add, N.pow_add_r. simpl N.of_nat.
      rewrite N.pow_1_r. lia.
Qed.

Lemma abs_lt_pow2 n : (n < 2 ^ N.of_nat (S (N.to_nat (N.log2 n))))%N.
Proof.
  rewrite Nat2N.inj_succ, N2Nat.id.
  destruct (N.eq_dec n 0%N) as [->|Hn]; [done|].
  apply N.log2_spec. lia.
Qed.

(** [String(n)] for an integer that is not negative: its decimal
    numeral. *)
Lemma stringOfZ_digits n :
  0 <= n ->
  stringOfZ n <> EmptyString /\ allChars Js.isDigit (stringOfZ n) = true /\
  digitsValue (stringOfZ n) = Z.to_N n.
Proof.
  intros Hn. unfold stringOfZ.
  destruct (Z.ltb_spec n 0); [lia|].
  destruct (decimalDigits_spec _ (Z.abs_N n) EmptyString (abs_lt_pow2 _))
    as (ds & -> & Hne & Hall & Hval).
  rewrite append_empty.
  split; [done|]. split; [done|].
  unfold digitsValue. rewrite Hval. lia.
Qed.

Lemma contains_app c a b :
  Js.contains c (a +:+ b) = Js.contains c a || Js.contains c b.
Proof.
  induction a as [|x a IH]; [done|]. rewrite append_cons. simpl.
  by rewrite IH, orb_assoc.
Qed.

Lemma digits_no_pipe s : allChars Js.isDigit s = true -> Js.contains "|" s = false.
Proof.
  unfold allChars. induction s as [|c s IH]; simpl; [done|].
  intros [Hc Hs]%andb_true_iff. rewrite (IH Hs), orb_false_r.
  destruct (Ascii.eqb_spec c "|") as [->|]; [done|done].
Qed.

(** The text of a star count holds no pipe. *)
Lemma stringOfZ_no_pipe n : Js.contains "|" (stringOfZ n) = false.
Proof.
  unfold stringOfZ.
  destruct (decimalDigits_spec _ (Z.abs_N n) EmptyString (abs_lt_pow2 _))
    as (ds & -> & Hne & Hall & Hval).
  rewrite append_empty.
  destruct (n <? 0); simpl; by rewrite digits_no_pipe.
Qed.

End DecimalNumerals.

Section ParseBack.

Import Num Stars.

Lemma digit_not_space c : Js.isDigit c = true -> Js.isWhiteSpace c = false.
Proof. by destruct c as [[] [] [] [] [] [] [] []]. Qed.

Lemma digit_lower c : Js.isDigit c = true -> Js.lowerChar c = c.
Proof. by destruct c as [[] [] [] [] [] [] [] []]. Qed.

Lemma digit_not_comma c : Js.isDigit c = true -> Ascii.eqb c "," = false.
Proof. by destruct c as [[] [] [] [] [] [] [] []]. Qed.

Lemma allChars_cons p c s :
  allChars p (String c s) = true <-> p c = true /\ allChars p s = true.
Proof. unfold allChars. simpl. apply andb_true_iff. Qed.

Lemma trimEnd_digits s : allChars Js.isDigit s = true -> Js.trimEnd s = s.
Proof.
  induction s as [|c s IH]; [done|].
  intros [Hc Hs]%allChars_cons. simpl.
  by rewrite (digit_not_space c Hc), IH.
Qed.

Lemma trimEnd_digits_space s :
  allChars Js.isDigit s = true -> Js.trimEnd (s +:+ " ") = s.
Proof.
  induction s as [|c s IH]; [done|].
  intros [Hc Hs]%allChars_cons. rewrite append_cons. simpl.
  by rewrite (digit_not_space c Hc), IH.
Qed.

Lemma trimStart_digits s : allChars Js.isDigit s = true -> Js.trimStart s = s.
Proof.
  destruct s as [|c s]; [done|].
  intros [Hc Hs]%allChars_cons. simpl. by rewrite (digit_not_space c Hc).
Qed.

Lemma trim_digits s : allChars Js.isDigit s = true -> Js.trim s = s.
Proof.
  intros H. unfold Js.trim. by rewrite trimStart_digits, trimEnd_digits.
Qed.

Lemma trim_padded_digits s :
  s <> EmptyString -> allChars Js.isDigit s = true ->
  Js.trim (" " +:+ s +:+ " ") = s.
Proof.
  intros Hne H. unfold Js.trim.
  destruct s as [|c s]; [done|].
  apply allChars_cons in H as H'. destruct H' as [Hc Hs].
  change (" " +:+ String c s +:+ " ") with (String " " (String c (s +:+ " "))).
  simpl Js.trimStart. rewrite (digit_not_space c Hc).
  change (String c (s +:+ " ")) with (String c s +:+ " ").
  by apply trimEnd_digits_space.
Qed.

Lemma removeChar_digits s :
  allChars Js.isDigit s = true -> Js.removeChar "," s = s.
Proof.
  induction s as [|c s IH]; [done|].
  intros [Hc Hs]%allChars_cons. simpl. by rewrite (digit_not_comma c Hc), IH.
Qed.

Lemma toLowerCase_digits s :
  allChars Js.isDigit s = true -> Js.toLowerCase s = s.
Proof.
  induction s as [|c s IH]; [done|].
  intros [Hc Hs]%allChars_cons. simpl. by rewrite (digit_lower c Hc), IH.
Qed.

Lemma span_all p s : allChars p s = true -> Js.span p s = (s, EmptyString).
Proof.
  induction s as [|c s IH]; [done|].
  intros [Hc Hs]%allChars_cons. simpl. by rewrite Hc, IH.
Qed.

Lemma matchK_digits s : allChars Js.isDigit s = true -> matchK s = None.
Proof.
  intros H. unfold matchK.
  rewrite (span_all (fun c => Js.isDigit c || Ascii.eqb c ".") s)
    by (apply (allChars_impl Js.isDigit); [by intros c ->|done]).
  rewrite (span_all Js.isDigit s H). simpl. by rewrite andb_false_r.
Qed.

Lemma nonDecimalLiteral_digits s :
  allChars Js.isDigit s = true -> nonDecimalLiteral s = None.
Proof.
  destruct s as [|c0 [|c1 ds]]; [done| |].
  - intros _. by destruct c0 as [[] [] [] [] [] [] [] []].
  - intros [_ [H1 _]%allChars_cons]%allChars_cons.
    destruct c0 as [[] [] [] [] [] [] [] []]; try done.
    simpl. destruct (String.eqb ds EmptyString); [done|].
    by destruct c1 as [[] [] [] [] [] [] [] []].
Qed.

Lemma scanDecimal_digits s :
  s <> EmptyString -> allChars Js.isDigit s = true ->
  scanDecimal s = Some (decimalValue false (digitsValue s) 0, EmptyString).
Proof.
  intros Hne H. unfold scanDecimal.
  assert ((match s with
           | String "-" r' => (true, r')
           | String "+" r' => (false, r')
           | _ => (false, s)
           end) = (false, s)) as ->.
  { destruct s as [|c s]; [done|]. apply allChars_cons in H as [Hc _].
    by destruct c as [[] [] [] [] [] [] [] []]. }
  assert (Js.startsWith s "Infinity" = false) as ->.
  { destruct s as [|c s]; [done|]. apply allChars_cons in H as [Hc _].
    by destruct c as [[] [] [] [] [] [] [] []]. }
  unfold scanUnsignedDecimal. rewrite (span_all Js.isDigit s H).
  destruct (String.eqb_spec s EmptyString); [done|]. done.
Qed.

Lemma decimalValue_ofZ n : 0 <= n -> decimalValue false (Z.to_N n) 0 = ofZ n.
Proof.
  intros Hn. destruct n as [|p|p]; [done| |lia].
  simpl. unfold ofZ. simpl. by rewrite Pos.mul_1_r.
Qed.

(** X16. A star count that fill-github-stars.js writes into a cell is
    read back by the sort script as the same number: for an integer from
    0 up to [2^53], [parseStars] of the cell that holds its decimal numeral
    between two blanks is that integer. *)
Theorem written_stars_parse_back n :
  0 <= n <= 2 ^ 53 ->
  parseStars (" " +:+ stringOfZ n +:+ " ") = Some (ofZ n).
Proof.
  intros Hn. destruct (stringOfZ_digits n) as (Hne & Hall & Hval); [lia|].
  unfold parseStars.
  change (String.eqb (" " +:+ stringOfZ n +:+ " ") EmptyString) with false.
  cbv iota. rewrite (trim_padded_digits _ Hne Hall).
  destruct (String.eqb_spec (stringOfZ n) EmptyString); [done|].
  rewrite (removeChar_digits _ Hall), (toLowerCase_digits _ Hall).
  rewrite (matchK_digits _ Hall).
  unfold Number. rewrite (trim_digits _ Hall).
  destruct (String.eqb_spec (stringOfZ n) EmptyString); [done|].
  rewrite (nonDecimalLiteral_digits _ Hall), (scanDecimal_digits _ Hne Hall).
  rewrite Hval, decimalValue_ofZ by lia.
  rewrite ofZ_finite; [done|].
  assert (2 ^ 53 < 2 ^ 100) by (apply Z.pow_lt_mono_r; lia). lia.
Qed.

Lemma written_stars_parse_back_witness :
  parseStars (" " +:+ stringOfZ 1234 +:+ " ") = Some (ofZ 1234).
Proof. apply (written_stars_parse_back 1234). split; [lia|]. vm_compute. discriminate. Defined.

End ParseBack.

(** ** What fill-github-stars.js writes *)

Section WrittenRows.

Import Tables FillStars.

Lemma padTo_length {A} n (x : A) l :
  length (Js.padTo n x l) = Nat.max (length l) (Z.to_nat (n + 1)).
Proof. unfold Js.padTo. rewrite length_app, length_replicate. lia. Qed.

Lemma padTo_lookup_old {A} n (x : A) l k c :
  l !! k = Some c -> Js.padTo n x l !! k = Some c.
Proof. intros H. unfold Js.padTo. by apply lookup_app_l_Some. Qed.

Lemma padTo_Forall {A} (P : A -> Prop) n x l :
  P x -> Forall P l -> Forall P (Js.padTo n x l).
Proof.
  intros Hx Hl. unfold Js.padTo. apply Forall_app. split; [done|].
  by apply Forall_replicate.
Qed.

Lemma setAt_length {A} i (x : A) l : length (Js.setAt i x l) = length l.
Proof. unfold Js.setAt. destruct (i <? 0); [done|apply length_insert]. Qed.

Lemma setAt_Forall {A} (P : A -> Prop) i x l :
  P x -> Forall P l -> Forall P (Js.setAt i x l).
Proof.
  intros Hx Hl. unfold Js.setAt. destruct (i <? 0); [done|].
  by apply Forall_insert.
Qed.

(** The cells of a row after a cell was set, the row padded to reach it. *)
Lemma cells_after_set col cell line :
  Js.contains "|" cell = false ->
  cellsOf (joinCells (Js.setAt col cell (Js.padTo col " " (cellsOf line))))
  = Js.setAt col cell (Js.padTo col " " (cellsOf line)).
Proof.
  intros Hcell. apply cellsOf_joinCells.
  - intros Hnil. apply (f_equal length) in Hnil.
    rewrite setAt_length, padTo_length in Hnil.
    pose proof (split_length_pos "|" line). unfold cellsOf in Hnil.
    simpl in Hnil. lia.
  - apply setAt_Forall; [done|]. apply padTo_Forall; [done|].
    apply split_no_sep.
Qed.

Lemma writeStars_row L job v :
  (lineIndex job < length L)%nat ->
  lineAt (writeStars L job v) (lineIndex job)
  = joinCells (Js.setAt (starsCol job) (" " +:+ Num.stringOfZ v +:+ " ")
                 (Js.padTo (starsCol job) " " (cellsOf (lineAt L (lineIndex job))))).
Proof.
  intros Hlt. unfold writeStars, lineAt at 1.
  by rewrite list_lookup_insert_eq.
Qed.

Lemma star_cell_no_pipe v :
  Js.contains "|" (" " +:+ Num.stringOfZ v +:+ " ") = false.
Proof.
  change (" " +:+ Num.stringOfZ v +:+ " ")
    with (String " " (Num.stringOfZ v +:+ " ")).
  simpl. by rewrite contains_app, stringOfZ_no_pipe.
Qed.

(** X17. Writing a star count that is an integer from 0 to [2^53] (which
    [String] prints as its decimal numeral) changes one cell of one row:
    the cell of the stars column holds the numeral between two blanks,
    every other cell of the row is as before (the row padded with blank
    cells when it was too short to have the cell), and every other line
    is as before. *)
Theorem writeStars_changes_one_cell L job v :
  (lineIndex job < length L)%nat -> 0 <= starsCol job -> 0 <= v <= 2 ^ 53 ->
  let old := cellsOf (lineAt L (lineIndex job)) in
  let new := cellsOf (lineAt (writeStars L job v) (lineIndex job)) in
  Js.at_ new (starsCol job) = Some (" " +:+ Num.stringOfZ v +:+ " ") /\
  (forall k c, Z.of_nat k <> starsCol job -> old !! k = Some c -> new !! k = Some c) /\
  (forall k c, Z.of_nat k <> starsCol job -> new !! k = Some c ->
     old !! k = Some c \/ c = " ") /\
  length new = Nat.max (length old) (Z.to_nat (starsCol job + 1)) /\
  (forall i, i <> lineIndex job -> writeStars L job v !! i = L !! i).
Proof.
  intros Hlt Hcol _ old new.
  assert (Hnew : new = Js.setAt (starsCol job) (" " +:+ Num.stringOfZ v +:+ " ")
                         (Js.padTo (starsCol job) " " old)).
  { unfold new. rewrite writeStars_row by done.
    apply cells_after_set, star_cell_no_pipe. }
  assert (Hset : forall (x : string) (l : list string),
            Js.setAt (starsCol job) x l = <[Z.to_nat (starsCol job) := x]> l).
  { intros x l. unfold Js.setAt. by destruct (Z.ltb_spec (starsCol job) 0); [lia|]. }
  rewrite Hnew, Hset.
  split; [|split; [|split; [|split]]].
  - unfold Js.at_. destruct (Z.ltb_spec (starsCol job) 0); [lia|].
    apply list_lookup_insert_eq. rewrite padTo_length. lia.
  - intros k c Hk Hc. rewrite list_lookup_insert_ne by lia.
    by apply padTo_lookup_old.
  - intros k c Hk Hc. rewrite list_lookup_insert_ne in Hc by lia.
    unfold Js.padTo in Hc. apply lookup_app_Some in Hc as [Hc|[_ Hc]]; [by left|].
    right. by apply lookup_replicate in Hc as [-> _].
  - by rewrite length_insert, padTo_length.
  - intros i Hi. by apply writeStars_outside.
Qed.

Lemma writeStars_changes_one_cell_witness :
  let L := Examples.threeRepos in
  let job := mkJob 2 2 "a/b" in
  let old := cellsOf (lineAt L (lineIndex job)) in
  let new := cellsOf (lineAt (writeStars L job 5) (lineIndex job)) in
  Js.at_ new (starsCol job) = Some (" " +:+ Num.stringOfZ 5 +:+ " ") /\
  (forall k c, Z.of_nat k <> starsCol job -> old !! k = Some c -> new !! k = Some c) /\
  (forall k c, Z.of_nat k <> starsCol job -> new !! k = Some c ->
     old !! k = Some c \/ c = " ") /\
  length new = Nat.max (length old) (Z.to_nat (starsCol job + 1)) /\
  (forall i, i <> lineIndex job -> writeStars L job 5 !! i = L !! i).
Proof.
  apply (writeStars_changes_one_cell Examples.threeRepos (mkJob 2 2 "a/b") 5).
  - simpl. lia.
  - simpl. lia.
  - lia.
Defined.

(** A row that starts with a pipe does so after a cell behind the first
    was set. *)
Lemma set_row_isTableLine col cell line :
  isTableLine line = true -> 1 <= col ->
  isTableLine (joinCells (Js.setAt col cell (Js.padTo col " " (cellsOf line)))) = true.
Proof.
  intros Hl Hcol. pose proof (header_cells_ge_2 line Hl) as H2.
  apply startsWith_char in Hl as [r ->].
  unfold cellsOf in *. simpl in *.
  destruct (Js.split "|" r) as [|h tl] eqn:E; [simpl in H2; lia|].
  unfold Js.setAt. destruct (Z.ltb_spec col 0); [lia|].
  assert (exists k, Z.to_nat col = S k) as [k ->] by (exists (Nat.pred (Z.to_nat col)); lia).
  unfold Js.padTo. simpl.
  destruct (<[k:=cell]> (h :: tl ++ replicate (Z.to_nat (col + 1) - S (S (length tl))) " "))
    as [|y ys] eqn:E'; [|done].
  apply (f_equal length) in E'. rewrite length_insert in E'. simpl in E'. lia.
Qed.

Variable httpsGetJson : nat -> string -> Response.

Lemma fill_main_isTableLine lines0 i :
  isTableAt (document (main httpsGetJson lines0)) i = isTableAt lines0 i.
Proof.
  transitivity (isTableAt (columnsEnsured lines0) i);
    [|apply ensured_isTableLine].
  set (L1 := columnsEnsured lines0).
  destruct (main_run httpsGetJson lines0) as [Hdoc _]. rewrite Hdoc.
  fold L1.
  set (jobs := (scan lines0).1.2).
  destruct (decide (i ∈ map lineIndex jobs)) as [Hin|Hout].
  - apply list_elem_of_fmap in Hin as (j & -> & Hj).
    destruct (scan_job_facts lines0 j Hj)
      as (Hnd & t & Ht & H3 & Hrow & Hs & Hpos & _).
    assert (lineIndex j ∈ rows t) as Hin by (by apply elem_of_drop_2 with 2%nat).
    assert (isTableAt L1 (lineIndex j) = true) as Htl.
    { unfold L1. rewrite ensured_isTableLine.
      apply (run_lines lines0 t (findTables_sound lines0 t Ht) _ Hin). }
    pose proof (isTableAt_lt _ _ Htl) as Hlt.
    destruct (runJobs_row httpsGetJson jobs (start L1) Hnd
                (start_sound httpsGetJson L1) j Hj) as [H|(n & v & _ & H)].
    + unfold isTableAt at 1. by rewrite H.
    + rewrite Htl. unfold isTableAt. rewrite H. simpl.
      pose proof (writeStars_row L1 j v Hlt) as Hrowv.
      unfold lineAt at 1 in Hrowv.
      rewrite <- (writeStars_length L1 j v) in Hlt.
      apply lookup_lt_is_Some_2 in Hlt as [line Hline].
      rewrite Hline in Hrowv |- *. simpl in Hrowv. rewrite Hrowv.
      apply set_row_isTableLine; [|done].
      unfold isTableAt in Htl. unfold lineAt. by destruct (L1 !! lineIndex j).
  - unfold isTableAt.
    rewrite (runJobs_outside httpsGetJson jobs (start L1) i); [done|].
    intros j Hj Heq. apply Hout. rewrite <- Heq. by apply list_elem_of_fmap_2.
Qed.

(** X18. fill-github-stars.js keeps every table where it is: the
    document it leaves has the tables of the document it read, with the
    same rows, whatever the API answers. *)
Theorem fill_main_keeps_tables lines0 :
  findTables (document (main httpsGetJson lines0)) = findTables lines0.
Proof.
  apply findTables_ext, isTableAt_ext; [apply fill_main_length|].
  apply fill_main_isTableLine.
Qed.

End WrittenRows.

(** ** split-link-column.js, table by table *)

Section SplitLinkTables.

Import Tables SplitLink SplitTable.

Lemma tableLine_not_heading line :
  isTableLine line = true -> Js.startsWith line "## " = false.
Proof. intros [r ->]%startsWith_char. done. Qed.

Lemma split_step_inTable st line : inTable (step st line) = isTableLine line.
Proof.
  unfold step, isTableLine. destruct st as [inT hlc link hasLink cc o].
  destruct (Js.startsWith line "|") eqn:E.
  - rewrite (tableLine_not_heading line E). simpl.
    destruct inT; simpl;
      repeat (match goal with |- context [if ?c then _ else _] => destruct c end;
              simpl); done.
  - destruct (Js.startsWith line "## "), inT; done.
Qed.

Lemma split_step_changes st line :
  (changesCount st <= changesCount (step st line))%nat.
Proof.
  unfold step. destruct st as [inT hlc link hasLink cc o]. simpl.
  repeat (match goal with |- context [if ?c then _ else _] => destruct c end;
          simpl); lia.
Qed.

Lemma split_fold_changes ls : forall st,
  (changesCount st <= changesCount (fold_left step ls st))%nat.
Proof.
  induction ls as [|l ls IH]; intros st; simpl; [done|].
  etrans; [apply split_step_changes|apply IH].
Qed.

Lemma split_fold_inTable ls st :
  inTable (fold_left step ls st) =
  match last ls with Some l => isTableLine l | None => inTable st end.
Proof.
  revert st. induction ls as [|l ls IH] using rev_ind; intros st; [done|].
  rewrite fold_left_app, last_snoc. simpl. apply split_step_inTable.
Qed.

(** Data rows: the lines after the separator row. *)
Lemma split_fold_data ls : forall hlc link hasLink cc o,
  Forall (fun l => isTableLine l = true) ls -> (2 <= hlc)%nat ->
  updatedLines (fold_left step ls (mkState true hlc link hasLink cc o))
  = o ++ map (fun l => if hasLink then joinCells (dataCells link l) else l) ls.
Proof.
  induction ls as [|l ls IH]; intros hlc link hasLink cc o Hall Hh; simpl.
  - by rewrite app_nil_r.
  - apply Forall_cons in Hall as [Hl Hall].
    destruct hlc as [|[|hlc]]; [lia..|].
    unfold step at 2. rewrite (tableLine_not_heading l Hl).
    unfold isTableLine in Hl. rewrite Hl. simpl.
    destruct hasLink; simpl; rewrite IH by (done || lia);
      by rewrite <- app_assoc.
Qed.

(** The lines of a table, read from outside a table. *)
Lemma split_run_table tbl st :
  inTable st = false -> Forall (fun l => isTableLine l = true) tbl ->
  updatedLines (fold_left step tbl st) = updatedLines st ++ tableOut tbl /\
  (tbl <> [] -> linkOf (default EmptyString (head tbl)) <> -1 ->
   (0 < changesCount (fold_left step tbl st))%nat).
Proof.
  intros Hin Hall. destruct tbl as [|header rest]; simpl.
  { split; [by rewrite app_nil_r|done]. }
  apply Forall_cons in Hall as [Hh Hall].
  destruct st as [inT hlc link hasLink cc o]. simpl in Hin. subst inT.
  unfold step at 2. unfold step at 3.
  rewrite (tableLine_not_heading header Hh).
  unfold isTableLine in Hh. rewrite Hh. simpl.
  fold (linkOf header).
  destruct (Z.ltb_spec (-1) (linkOf header)) as [Hl|Hl]; simpl.
  - split.
    + destruct rest as [|sep data]; simpl; [done|].
      apply Forall_cons in Hall as [Hsep Hall].
      unfold step at 2. rewrite (tableLine_not_heading sep Hsep).
      unfold isTableLine in Hsep. rewrite Hsep. simpl.
      rewrite split_fold_data by (done || lia). by rewrite <- !app_assoc.
    + intros _ _. eapply Nat.lt_le_trans; [|apply split_fold_changes]. simpl. lia.
  - split.
    + destruct rest as [|sep data]; simpl; [done|].
      apply Forall_cons in Hall as [Hsep Hall].
      unfold step at 2. rewrite (tableLine_not_heading sep Hsep).
      unfold isTableLine in Hsep. rewrite Hsep. simpl.
      rewrite split_fold_data by (done || lia). rewrite <- !app_assoc. simpl.
      by rewrite map_id.
    + intros _ Hne. pose proof (findIndex_range
        (fun p => String.eqb p "Link") (map Js.trim (cellsOf header))).
      unfold linkOf in *. lia.
Qed.

Lemma split_tableOut_length tbl : length (tableOut tbl) = length tbl.
Proof.
  destruct tbl as [|header [|sep data]]; simpl; try done;
    destruct (negb _); simpl; try done. by rewrite length_map.
Qed.

Lemma split_tableOut_none tbl header :
  head tbl = Some header -> linkOf header = -1 -> tableOut tbl = tbl.
Proof.
  destruct tbl as [|h rest]; [done|]. intros [= ->] H. simpl. by rewrite H.
Qed.

Lemma split_tableOut_lookup tbl header k l :
  head tbl = Some header -> linkOf header <> -1 -> tbl !! k = Some l ->
  tableOut tbl !! k = Some (joinCells (rowCells (linkOf header) k l)).
Proof.
  destruct tbl as [|h rest]; [done|]. intros [= ->] H Hk. simpl.
  pose proof (findIndex_range
    (fun p => String.eqb p "Link") (map Js.trim (cellsOf header))) as Hr.
  fold (linkOf header) in Hr.
  destruct (Z.ltb_spec (-1) (linkOf header)); [|lia]. simpl.
  destruct k as [|k]; simpl in *; [by injection Hk as ->|].
  destruct rest as [|sep data]; [done|].
  destruct k as [|k]; simpl in *; [by injection Hk as ->|].
  rewrite list_lookup_fmap, Hk. done.
Qed.

(** What the script puts out at the rows of a table. *)
Lemma split_run_at_table lines t :
  MaximalRun lines t ->
  let tbl := take (length (rows t)) (drop (startIndex t) lines) in
  (forall k ri, rows t !! k = Some ri ->
     updatedLines (run lines) !! ri = tableOut tbl !! k) /\
  (linkOf (headerOf lines t) <> -1 -> (0 < changesCount (run lines))%nat).
Proof.
  intros Hrun tbl.
  destruct (run_split lines t Hrun) as (Hsplit & Hpre & Htbl & Hall & Hrows & Hlast).
  fold tbl in Hsplit, Htbl, Hall, Hrows.
  set (pre := take (startIndex t) lines) in *.
  set (post := drop (startIndex t + length (rows t)) lines) in *.
  assert (run lines =
          fold_left step post (fold_left step tbl (fold_left step pre init))) as ->.
  { unfold run. rewrite Hsplit at 1. by rewrite !fold_left_app. }
  set (st1 := fold_left step pre init).
  assert (inTable st1 = false) as Hin.
  { unfold st1. rewrite split_fold_inTable. by destruct (last pre). }
  destruct (split_run_table tbl st1 Hin Hall) as [Hout Hmod].
  destruct (split_fold_out pre init) as (X1 & HX1 & HlenX1). fold st1 in HX1.
  simpl in HX1.
  destruct (split_fold_out post (fold_left step tbl st1)) as (X3 & HX3 & HlenX3).
  split.
  - intros k ri Hri. destruct (Hrows k ri Hri) as (-> & Hk & _).
    rewrite HX3, Hout, HX1, <- app_assoc.
    rewrite lookup_app_r by lia.
    replace (startIndex t + k - length X1)%nat with k by lia.
    apply lookup_app_l. rewrite split_tableOut_length. lia.
  - intros Hc. eapply Nat.lt_le_trans; [|apply split_fold_changes].
    apply Hmod.
    + intros ->. pose proof (run_nonempty _ _ Hrun). simpl in Htbl. lia.
    + unfold tbl. by rewrite (table_head _ _ Hrun).
Qed.

Lemma split_main_out lines i :
  SplitLink.main lines !! i = lines !! i \/
  ((0 < changesCount (run lines))%nat /\
   SplitLink.main lines !! i = updatedLines (run lines) !! i).
Proof.
  unfold SplitLink.main. destruct (Nat.eqb_spec (changesCount (run lines)) 0).
  - by left.
  - right. split; [lia|done].
Qed.

Lemma split_main_same lines t ri :
  t ∈ findTables lines -> linkOf (headerOf lines t) = -1 -> ri ∈ rows t ->
  SplitLink.main lines !! ri = lines !! ri.
Proof.
  intros Ht Hc Hri. apply findTables_sound in Ht as Hrun.
  destruct (split_main_out lines ri) as [H|[_ ->]]; [done|].
  apply list_elem_of_lookup_1 in Hri as [k Hk].
  destruct (split_run_at_table lines t Hrun) as [Hout _]. rewrite (Hout k ri Hk).
  destruct (run_split lines t Hrun) as (_ & _ & _ & _ & Hrows & _).
  destruct (Hrows k ri Hk) as (_ & _ & <-).
  set (tbl := take _ _) in *.
  by rewrite (split_tableOut_none tbl (headerOf lines t)); [|apply table_head|].
Qed.

(** X20. split-link-column.js leaves a table without a column [Link]
    as it is. *)
Theorem split_main_no_link lines t ri :
  t ∈ findTables lines -> linkOf (headerOf lines t) = -1 -> ri ∈ rows t ->
  SplitLink.main lines !! ri = lines !! ri.
Proof. apply split_main_same. Qed.

Lemma split_main_no_link_witness :
  SplitLink.main linkTables !! 7%nat = linkTables !! 7%nat.
Proof.
  apply (split_main_no_link linkTables (mkTable 6 [6; 7; 8]%nat) 7).
  - vm_compute. apply list_elem_of_further, list_elem_of_here.
  - reflexivity.
  - apply list_elem_of_further, list_elem_of_here.
Defined.

Lemma split_main_line lines t k ri :
  t ∈ findTables lines -> linkOf (headerOf lines t) <> -1 ->
  rows t !! k = Some ri ->
  SplitLink.main lines !! ri
  = Some (joinCells (rowCells (linkOf (headerOf lines t)) k (lineAt lines ri))).
Proof.
  intros Ht Hc Hk. apply findTables_sound in Ht as Hrun.
  destruct (split_run_at_table lines t Hrun) as [Hout Hmod]. specialize (Hmod Hc).
  destruct (run_split lines t Hrun) as (_ & _ & Hlen & _ & Hrows & _).
  set (tbl := take _ _) in *.
  assert (Hhead : head tbl = Some (headerOf lines t)) by (by apply table_head).
  destruct (Hrows k ri Hk) as (_ & Hkn & Hl).
  assert (is_Some (tbl !! k)) as [l Hlk]
    by (apply lookup_lt_is_Some_2; by rewrite Hlen).
  unfold SplitLink.main.
  destruct (Nat.eqb_spec (changesCount (run lines)) 0); [lia|].
  rewrite (Hout k ri Hk).
  rewrite (split_tableOut_lookup tbl _ k l Hhead Hc Hlk).
  unfold lineAt. by rewrite <- Hl, Hlk.
Qed.

Lemma contains_trimStart c s :
  Js.contains c s = false -> Js.contains c (Js.trimStart s) = false.
Proof.
  induction s as [|a s IH]; [done|]. simpl.
  intros [Ha Hs]%orb_false_iff.
  destruct (Js.isWhiteSpace a); [by apply IH|]. simpl. by rewrite Ha, Hs.
Qed.

Lemma contains_trimEnd c s :
  Js.contains c s = false -> Js.contains c (Js.trimEnd s) = false.
Proof.
  induction s as [|a s IH]; [done|]. simpl.
  intros [Ha Hs]%orb_false_iff.
  destruct (Js.isWhiteSpace a && String.eqb (Js.trimEnd s) EmptyString); [done|].
  simpl. by rewrite Ha, IH.
Qed.

Lemma contains_trim c s :
  Js.contains c s = false -> Js.contains c (Js.trim s) = false.
Proof. intros H. by apply contains_trimEnd, contains_trimStart. Qed.

Lemma padded_no_pipe n line :
  Forall (fun x => Js.contains "|" x = false)
         (Js.padTo n EmptyString (cellsOf line)).
Proof. apply padTo_Forall; [done|apply split_no_sep]. Qed.

Lemma linkText_no_pipe link line : Js.contains "|" (linkText link line) = false.
Proof.
  unfold linkText. apply contains_trim.
  pose proof (padded_no_pipe (link + 1) line) as H. rewrite Forall_forall in H.
  unfold Js.at_. destruct (link <? 0); [done|].
  destruct (_ !! _) as [c|] eqn:E; [|done].
  simpl. by apply H, list_elem_of_lookup_2 with (Z.to_nat link).
Qed.

Lemma padded_text_no_pipe text :
  Js.contains "|" text = false -> Js.contains "|" (" " +:+ text +:+ " ") = false.
Proof.
  intros H. change (" " +:+ text +:+ " ") with (String " " (text +:+ " ")).
  simpl. by rewrite contains_app, H.
Qed.

Lemma rowCells_no_pipe link k line :
  rowCells link k line <> [] /\
  Forall (fun x => Js.contains "|" x = false) (rowCells link k line).
Proof.
  destruct k as [|[|k]]; simpl; (split; [apply splice_ne_nil|]).
  - apply splice_Forall; [done|]. apply setAt_Forall; [done|apply split_no_sep].
  - apply splice_Forall; [apply separatorCell_no_pipe|apply padded_no_pipe].
  - pose proof (linkText_no_pipe link line) as Ht.
    apply splice_Forall.
    + unfold githubCellOf. destruct (_ && _); [by apply padded_text_no_pipe|done].
    + apply setAt_Forall; [|apply padded_no_pipe].
      unfold websiteCellOf. destruct (_ && _); [by apply padded_text_no_pipe|done].
Qed.

Lemma split_main_cells lines t k ri :
  t ∈ findTables lines -> linkOf (headerOf lines t) <> -1 ->
  rows t !! k = Some ri ->
  cellsOf (lineAt (SplitLink.main lines) ri)
  = rowCells (linkOf (headerOf lines t)) k (lineAt lines ri).
Proof.
  intros Ht Hc Hk. unfold lineAt at 1.
  rewrite (split_main_line lines t k ri Ht Hc Hk). simpl.
  destruct (rowCells_no_pipe (linkOf (headerOf lines t)) k (lineAt lines ri)).
  by apply cellsOf_joinCells.
Qed.

(** X21. In a table with a column [Link], split-link-column.js turns the
    header cell into [Website] with a new cell [Github] behind it, gives
    the separator row a cell of the same alignment behind that of the
    column, and splits the cell of every data row in two; a row too short
    to have the cell is padded with empty cells first. *)
Theorem split_main_rows lines t k ri :
  t ∈ findTables lines -> linkOf (headerOf lines t) <> -1 ->
  rows t !! k = Some ri ->
  cellsOf (lineAt (SplitLink.main lines) ri)
  = rowCells (linkOf (headerOf lines t)) k (lineAt lines ri).
Proof. apply split_main_cells. Qed.

Lemma split_main_rows_witness :
  cellsOf (lineAt (SplitLink.main linkTables) 3)
  = rowCells (linkOf (headerOf linkTables (mkTable 1 [1; 2; 3; 4]%nat))) 2
             (lineAt linkTables 3).
Proof.
  apply (split_main_rows linkTables (mkTable 1 [1; 2; 3; 4]%nat) 2 3).
  - vm_compute. apply list_elem_of_here.
  - vm_compute. discriminate.
  - reflexivity.
Defined.

Lemma linkOf_pos header :
  isTableLine header = true -> linkOf header <> -1 ->
  1 <= linkOf header < Z.of_nat (length (cellsOf header)).
Proof.
  intros Hh Hl.
  pose proof (findIndex_range (fun p => String.eqb p "Link")
                (map Js.trim (cellsOf header))) as Hr.
  rewrite length_map in Hr. fold (linkOf header) in Hr.
  assert (linkOf header <> 0); [|lia].
  apply startsWith_char in Hh as [r ->]. unfold linkOf, cellsOf in *. simpl in *.
  destruct (Z.eqb_spec (Js.findIndex (fun p => String.eqb p "Link")
                          (map Js.trim (Js.split "|" r))) (-1)); lia.
Qed.

Lemma linkText_cell link line :
  0 <= link ->
  linkText link line
  = Js.trim (default EmptyString (cellsOf line !! Z.to_nat link)).
Proof.
  intros Hl. unfold linkText, Js.at_, Js.padTo.
  destruct (Z.ltb_spec link 0); [lia|]. f_equal.
  destruct (cellsOf line !! Z.to_nat link) as [c|] eqn:E.
  - by rewrite (lookup_app_l_Some _ _ _ _ E).
  - apply lookup_ge_None_1 in E. rewrite lookup_app_r by lia.
    destruct (replicate _ _ !! _) as [c|] eqn:E'; [|done].
    by apply lookup_replicate in E' as [-> _].
Qed.

(** X22. In a data row of a table with a column [Link], the trimmed text
    of the cell goes to the cell [Github] when it holds [github.com/] and
    to the cell [Website] otherwise, between two blanks; the other of the
    two cells is a blank, and both are when the text is empty.  The cells
    before stay where they are and the cells behind move up by one. *)
Theorem split_routes_link lines t k ri :
  t ∈ findTables lines -> linkOf (headerOf lines t) <> -1 ->
  rows t !! S (S k) = Some ri ->
  let link := Z.to_nat (linkOf (headerOf lines t)) in
  let old := cellsOf (lineAt lines ri) in
  let new := cellsOf (lineAt (SplitLink.main lines) ri) in
  let text := Js.trim (default EmptyString (old !! link)) in
  new !! link = Some (websiteCellOf text) /\
  new !! S link = Some (githubCellOf text) /\
  (websiteCellOf text = " " \/ githubCellOf text = " ") /\
  (forall i c, (i < link)%nat -> old !! i = Some c -> new !! i = Some c) /\
  (forall i c, (link < i)%nat -> old !! i = Some c -> new !! S i = Some c).
Proof.
  intros Ht Hc Hk link old new text.
  apply findTables_sound in Ht as Hrun.
  destruct (linkOf_pos _ (header_isTableLine lines t Hrun) Hc) as [Hl1 Hl2].
  assert (Hnew : new = dataCells (linkOf (headerOf lines t)) (lineAt lines ri))
    by apply (split_main_cells lines t (S (S k)) ri Ht Hc Hk).
  unfold dataCells in Hnew.
  rewrite (linkText_cell _ (lineAt lines ri)) in Hnew by lia.
  fold old link text in Hnew.
  set (padded := Js.padTo (linkOf (headerOf lines t) + 1) EmptyString old) in *.
  assert (Hlen : (link + 2 <= length padded)%nat).
  { unfold padded. rewrite padTo_length. lia. }
  assert (Hset : Js.setAt (linkOf (headerOf lines t)) (websiteCellOf text) padded
                 = <[link := websiteCellOf text]> padded).
  { unfold Js.setAt. by destruct (Z.ltb_spec (linkOf (headerOf lines t)) 0); [lia|]. }
  rewrite Hset in Hnew.
  destruct (splice_lookup (linkOf (headerOf lines t) + 1) (githubCellOf text)
              (<[link := websiteCellOf text]> padded)) as [Hg Hsplice].
  { rewrite length_insert. lia. }
  rewrite Hsplice in Hnew.
  replace (Z.to_nat (linkOf (headerOf lines t) + 1)) with (S link) in * by lia.
  assert (Hpad : forall i c, old !! i = Some c -> padded !! i = Some c)
    by (intros i c; apply padTo_lookup_old).
  rewrite Hnew. split; [|split; [|split; [|split]]].
  - rewrite lookup_app_l by (rewrite length_take, length_insert; lia).
    rewrite lookup_take_lt by lia. apply list_lookup_insert_eq. lia.
  - rewrite lookup_app_r by (rewrite length_take, length_insert; lia).
    rewrite length_take, length_insert.
    by replace (S link - S link `min` length padded)%nat with 0%nat by lia.
  - unfold websiteCellOf, githubCellOf.
    destruct (negb (String.eqb text EmptyString)), (isGithubLink text); simpl; auto.
  - intros i c Hi Hold.
    rewrite lookup_app_l by (rewrite length_take, length_insert; lia).
    rewrite lookup_take_lt by lia. rewrite list_lookup_insert_ne by lia.
    by apply Hpad.
  - intros i c Hi Hold. apply Hpad in Hold as Hp.
    apply lookup_lt_Some in Hp as Hlt.
    rewrite lookup_app_r by (rewrite length_take, length_insert; lia).
    rewrite length_take, length_insert.
    replace (S i - S link `min` length padded)%nat with (S (i - S link)) by lia.
    simpl. rewrite lookup_drop.
    replace (S link + (i - S link))%nat with i by lia.
    by rewrite list_lookup_insert_ne by lia.
Qed.

Lemma split_routes_link_witness :
  let link := Z.to_nat (linkOf (headerOf linkTables (mkTable 1 [1; 2; 3; 4]%nat))) in
  let old := cellsOf (lineAt linkTables 3) in
  let new := cellsOf (lineAt (SplitLink.main linkTables) 3) in
  let text := Js.trim (default EmptyString (old !! link)) in
  new !! link = Some (websiteCellOf text) /\
  new !! S link = Some (githubCellOf text) /\
  (websiteCellOf text = " " \/ githubCellOf text = " ") /\
  (forall i c, (i < link)%nat -> old !! i = Some c -> new !! i = Some c) /\
  (forall i c, (link < i)%nat -> old !! i = Some c -> new !! S i = Some c).
Proof.
  apply (split_routes_link linkTables (mkTable 1 [1; 2; 3; 4]%nat) 0 3).
  - vm_compute. apply list_elem_of_here.
  - vm_compute. discriminate.
  - reflexivity.
Defined.

(** A list of cells whose first is empty and that has a second stands
    for a table line. *)
Lemma headed_isTableLine (l : list string) :
  l !! 0%nat = Some EmptyString -> (2 <= length l)%nat ->
  isTableLine (joinCells l) = true.
Proof. destruct l as [|a [|b l]]; simpl; try lia; try done. by intros [= ->]. Qed.

Lemma cellsOf_headed line :
  isTableLine line = true ->
  cellsOf line !! 0%nat = Some EmptyString /\ (2 <= length (cellsOf line))%nat.
Proof.
  intros H. split; [|by apply header_cells_ge_2].
  by apply startsWith_char in H as [r ->].
Qed.

Lemma splice_headed {A} k (x : A) l h :
  1 <= k -> l !! 0%nat = Some h -> Js.splice k x l !! 0%nat = Some h.
Proof.
  intros Hk Hl. unfold Js.splice. destruct (Z.ltb_spec k 0); [lia|].
  apply lookup_lt_Some in Hl as Hlen.
  apply lookup_app_l_Some. rewrite lookup_take_lt by lia. done.
Qed.

Lemma rowCells_isTableLine link k line :
  isTableLine line = true -> 1 <= link ->
  isTableLine (joinCells (rowCells link k line)) = true.
Proof.
  intros Hl Hlink. destruct (cellsOf_headed line Hl) as [H0 H2].
  set (cells := cellsOf line) in *.
  assert (Hset : forall (x : string) (l : list string),
            Js.setAt link x l = <[Z.to_nat link := x]> l).
  { intros x l. unfold Js.setAt. by destruct (Z.ltb_spec link 0); [lia|]. }
  assert (Hpad : Js.padTo (link + 1) EmptyString cells !! 0%nat = Some EmptyString)
    by (by apply padTo_lookup_old).
  assert (Hplen : (2 <= length (Js.padTo (link + 1) EmptyString cells))%nat)
    by (rewrite padTo_length; lia).
  apply headed_isTableLine.
  - destruct k as [|[|k]]; simpl; fold cells; apply splice_headed; try lia.
    + rewrite Hset, list_lookup_insert_ne by lia. done.
    + done.
    + rewrite Hset, list_lookup_insert_ne by lia. done.
  - destruct k as [|[|k]]; simpl;
      unfold headerCells, separatorCells, dataCells; fold cells;
      rewrite splice_length; rewrite ?Hset, ?length_insert; lia.
Qed.

Lemma split_main_isTableLine lines i :
  isTableAt (SplitLink.main lines) i = isTableAt lines i.
Proof.
  destruct (isTableAt lines i) eqn:E.
  - destruct (findTables_complete lines i E) as (t & Ht & Hi).
    apply findTables_sound in Ht as Hrun.
    destruct (Z.eq_dec (linkOf (headerOf lines t)) (-1)) as [Hc|Hc].
    + unfold isTableAt. rewrite (split_main_same lines t i Ht Hc Hi). apply E.
    + apply list_elem_of_lookup_1 in Hi as [k Hk].
      unfold isTableAt. rewrite (split_main_line lines t k i Ht Hc Hk).
      apply rowCells_isTableLine.
      * unfold isTableAt in E. unfold lineAt. by destruct (lines !! i).
      * by apply linkOf_pos; [apply (header_isTableLine lines t)|].
  - unfold isTableAt. by rewrite split_main_outside.
Qed.

(** X23. split-link-column.js keeps every table where it is, and after
    it the header of a table that had a column [Link] has the columns
    [Website] and [Github] that fill-github-from-website.js and
    fill-github-stars.js look for. *)
Theorem split_main_keeps_tables lines :
  findTables (SplitLink.main lines) = findTables lines /\
  forall t, t ∈ findTables lines -> linkOf (headerOf lines t) <> -1 ->
    columnOf (SplitLink.main lines) t "Website" <> -1 /\
    githubColumnOf (SplitLink.main lines) t <> -1.
Proof.
  split.
  { apply findTables_ext, isTableAt_ext; [apply split_main_length|].
    apply split_main_isTableLine. }
  intros t Ht Hc. apply findTables_sound in Ht as Hrun.
  destruct (linkOf_pos _ (header_isTableLine lines t Hrun) Hc) as [Hl1 Hl2].
  pose proof (split_main_cells lines t 0 _ Ht Hc (first_row lines t Hrun)) as Hcells.
  fold (headerOf (SplitLink.main lines) t) in Hcells.
  fold (headerOf lines t) in Hcells. simpl in Hcells. unfold headerCells in Hcells.
  set (link := linkOf (headerOf lines t)) in *.
  assert (Hin : forall x, x = " Website " \/ x = " Github " ->
            x ∈ cellsOf (headerOf (SplitLink.main lines) t)).
  { intros x Hx. rewrite Hcells.
    destruct (splice_lookup (link + 1) " Github "
                (Js.setAt link " Website " (cellsOf (headerOf lines t))))
      as [Hg Hsplice].
    { rewrite setAt_length. lia. }
    destruct Hx as [-> | ->].
    - rewrite Hsplice. apply elem_of_app. left.
      apply list_elem_of_lookup_2 with (Z.to_nat link).
      rewrite lookup_take_lt by lia.
      unfold Js.setAt. destruct (Z.ltb_spec link 0); [lia|].
      apply list_lookup_insert_eq. lia.
    - by apply list_elem_of_lookup_2 with (Z.to_nat (link + 1)). }
  split.
  - apply hasColumn_idxOf. exists " Website ". split; [apply Hin; by left|done].
  - unfold githubColumnOf.
    assert (columnOf (SplitLink.main lines) t "Github" <> -1) as Hg.
    { apply hasColumn_idxOf. exists " Github ". split; [apply Hin; by right|done]. }
    by destruct (Z.eqb_spec (columnOf (SplitLink.main lines) t "Github") (-1)).
Qed.

End SplitLinkTables.

(** ** What fill-github-from-website.js writes *)

Section FromWebsiteProperties.

Import Tables FromWebsite.

Variable URL : string -> option string.
Variable discover : nat -> string -> option string.

Local Abbreviation applyUpdates := (applyUpdates discover).
Local Abbreviation updatesOf := (updatesOf URL).

Lemma applyUpdates_applied updates : forall n st,
  (st.2 <= (applyUpdates n updates st).2)%nat /\
  ((applyUpdates n updates st).2 = st.2 -> (applyUpdates n updates st).1 = st.1).
Proof.
  induction updates as [|up rest IH]; intros n st; [done|].
  simpl. destruct (discover n (websiteUrl up)) as [found|]; [|apply IH].
  destruct (String.eqb found EmptyString); [apply IH|].
  destruct (IH (S n) (writeLink st.1 up found, S st.2)) as [H1 H2].
  simpl in *. split; lia.
Qed.

(** The document after the script is the document in memory: nothing is
    lost when it is not written. *)
Lemma from_main_lines lines :
  main URL discover lines
  = (applyUpdates 0 (flat_map (updatesOf lines) (parseTables lines)) (lines, 0%nat)).1.
Proof.
  unfold main.
  destruct (flat_map (updatesOf lines) (parseTables lines)) as [|u us] eqn:E;
    [done|].
  change (length (u :: us) =? 0)%nat with false. cbv iota.
  destruct (applyUpdates_applied (u :: us) 0 (lines, 0%nat)) as [H1 H2].
  destruct (FromWebsite.applyUpdates discover 0 (u :: us) (lines, 0%nat))
    as [L' applied].
  simpl in *. destruct (Nat.ltb_spec 0 applied); [done|].
  symmetry. apply H2. lia.
Qed.

(** The Github cell of a row, as [main] reads it, is blank when the cell
    is missing or holds white space only. *)
Lemma github_cell_blank w g line :
  0 <= g ->
  Js.trim (orElse (Js.at_ (Js.padTo (Z.max w g) " " (cellsOf line)) g) EmptyString)
  = Js.trim (default EmptyString (cellsOf line !! Z.to_nat g)).
Proof.
  intros Hg. unfold Js.at_, Js.padTo.
  destruct (Z.ltb_spec g 0); [lia|].
  destruct (cellsOf line !! Z.to_nat g) as [c|] eqn:E.
  - rewrite (lookup_app_l_Some _ _ _ _ E). simpl.
    by destruct (String.eqb_spec c EmptyString) as [->|].
  - apply lookup_ge_None_1 in E. rewrite lookup_app_r by lia.
    destruct (replicate _ _ !! _) as [c|] eqn:E'; [|done].
    by apply lookup_replicate in E' as [-> _].
Qed.

Lemma updatesOf_elem L t u :
  u ∈ updatesOf L t ->
  websiteCol t <> -1 /\ githubCol t <> -1 /\
  (3 <= length (rows t))%nat /\ lineIdx u ∈ drop 2 (rows t) /\
  u_githubCol u = githubCol t /\
  Js.trim (orElse (Js.at_ (Js.padTo (Z.max (websiteCol t) (githubCol t)) " "
                             (cellsOf (lineAt L (lineIdx u))))
                          (githubCol t)) EmptyString) = EmptyString /\
  websiteUrl u <> EmptyString.
Proof.
  unfold FromWebsite.updatesOf.
  destruct (Z.eqb_spec (websiteCol t) (-1)); [by intros ?%elem_of_nil|].
  destruct (Z.eqb_spec (githubCol t) (-1)); [by intros ?%elem_of_nil|].
  simpl.
  destruct (Nat.ltb_spec (length (rows t)) 3); [by intros ?%elem_of_nil|].
  intros (ri & Hri & Hup)%list_elem_of_omap. simpl in Hup.
  destruct (Links.extractMarkdownUrl _) as [raw|]; [|done].
  destruct (String.eqb_spec
              (Js.trim (orElse (Js.at_ (Js.padTo (Z.max (websiteCol t) (githubCol t))
                                          " " (cellsOf (lineAt L ri)))
                                       (githubCol t)) EmptyString))
              EmptyString) as [Hblank|]; [|done].
  simpl in Hup.
  destruct (negb (String.eqb raw EmptyString)); simpl in Hup; [|done].
  match type of Hup with
  | match ?o with _ => _ end = _ => destruct o as [url|]; [|done]
  end.
  destruct (String.eqb_spec url EmptyString); [done|].
  injection Hup as <-. simpl. done.
Qed.

Lemma updatesOf_lineIdx_sublist L t :
  map lineIdx (updatesOf L t) `sublist_of` rows t.
Proof.
  unfold FromWebsite.updatesOf.
  destruct (_ || _); [apply sublist_nil_l|].
  destruct (length (rows t) <? 3)%nat; [apply sublist_nil_l|].
  etrans; [|apply sublist_drop].
  apply omap_key_sublist. intros ri u Hu. simpl in Hu.
  repeat match type of Hu with
         | match ?o with _ => _ end = _ => destruct o; try done
         | (if ?c then _ else _) = _ => destruct c; try done
         end.
  by injection Hu as <-.
Qed.

Lemma updates_NoDup L lines (pts : list Table) (ts : list Tables.Table) :
  Forall2 (parsedAs lines) pts ts ->
  Forall (MaximalRun lines) ts -> StronglySorted apart ts ->
  NoDup (map lineIdx (flat_map (updatesOf L) pts)).
Proof.
  intros HF. induction HF as [|pt t pts ts Hpt HF IH]; intros Hruns Hs;
    [constructor|].
  apply Forall_cons in Hruns as [Hrun Hruns].
  apply StronglySorted_inv in Hs as [Hs Ht].
  destruct Hpt as (Hrows & _).
  simpl. rewrite map_app. apply NoDup_app. split; [|split].
  - eapply sublist_NoDup; [|apply updatesOf_lineIdx_sublist].
    rewrite Hrows. by apply (run_NoDup lines).
  - intros i Hi Hi'.
    assert (i ∈ Tables.rows t) as Hin.
    { rewrite <- Hrows. apply (elem_of_sublist _ _ _ Hi), updatesOf_lineIdx_sublist. }
    apply list_elem_of_fmap in Hi' as (u & -> & Hu).
    apply list_elem_of_In, in_flat_map in Hu as (pt' & Hpt' & Hu).
    apply list_elem_of_In in Hpt', Hu.
    apply list_elem_of_lookup_1 in Hpt' as [k Hk].
    destruct (Forall2_lookup_l _ _ _ _ _ HF Hk) as (t' & Hk' & Hp').
    destruct Hp' as (Hrows' & _).
    rewrite Forall_forall in Ht.
    apply (Ht t' (list_elem_of_lookup_2 _ _ _ Hk') (lineIdx u) Hin).
    rewrite <- Hrows'.
    eapply elem_of_sublist; [|apply updatesOf_lineIdx_sublist].
    by apply list_elem_of_fmap_2.
  - by apply IH.
Qed.

Lemma from_updates_NoDup lines :
  NoDup (map lineIdx (flat_map (updatesOf lines) (parseTables lines))).
Proof.
  apply (updates_NoDup lines lines _ (findTables lines)).
  - apply parseTables_parsedAs.
  - apply Forall_forall. intros t. apply findTables_sound.
  - apply findTables_apart.
Qed.

Lemma writeLink_local L L' up found :
  length L = length L' -> L !! lineIdx up = L' !! lineIdx up ->
  writeLink L up found !! lineIdx up = writeLink L' up found !! lineIdx up.
Proof.
  intros Hlen H. unfold writeLink.
  rewrite (lineAt_ext L L' _ H). by apply insert_agree.
Qed.

(** What the loop does to the row of an update: nothing, or it writes a
    link that was found for the website of the row. *)
Lemma applyUpdates_row updates : forall n st,
  NoDup (map lineIdx updates) ->
  forall u, u ∈ updates ->
    (applyUpdates n updates st).1 !! lineIdx u = st.1 !! lineIdx u \/
    exists m found,
      discover m (websiteUrl u) = Some found /\ found <> EmptyString /\
      (applyUpdates n updates st).1 !! lineIdx u
      = writeLink st.1 u found !! lineIdx u.
Proof.
  induction updates as [|up rest IH]; intros n st Hnd u Hu;
    [by apply elem_of_nil in Hu|].
  simpl in Hnd. apply NoDup_cons in Hnd as [Hup Hnd].
  assert (Hother : forall u', u' ∈ rest -> lineIdx u' <> lineIdx up).
  { intros u' Hu' Heq. apply Hup. rewrite <- Heq. by apply list_elem_of_fmap_2. }
  simpl.
  assert (Hskip :
    (applyUpdates (S n) rest st).1 !! lineIdx u = st.1 !! lineIdx u \/
    exists m found,
      discover m (websiteUrl u) = Some found /\ found <> EmptyString /\
      (applyUpdates (S n) rest st).1 !! lineIdx u
      = writeLink st.1 u found !! lineIdx u).
  { apply elem_of_cons in Hu as [->|Hu]; [|by apply IH].
    left. by apply applyUpdates_outside. }
  destruct (discover n (websiteUrl up)) as [found|] eqn:Ed; [|done].
  destruct (String.eqb_spec found EmptyString) as [|Hne]; [done|].
  clear Hskip.
  apply elem_of_cons in Hu as [->|Hu].
  - right. exists n, found. split; [done|]. split; [done|].
    by rewrite applyUpdates_outside.
  - destruct (IH (S n) (writeLink st.1 up found, S st.2) Hnd u Hu)
      as [H|(m & f & Hm & Hf & H)]; simpl in H.
    + left. rewrite H. unfold writeLink.
      apply list_lookup_insert_ne. intros Heq. by apply (Hother u).
    + right. exists m, f. split; [done|]. split; [done|]. rewrite H.
      apply writeLink_local; [apply writeLink_length|].
      unfold writeLink. apply list_lookup_insert_ne.
      intros Heq. by apply (Hother u).
Qed.

(** A line after the script: as it was, or a row with a blank cell
    [Github] and the link found for its website. *)
Lemma from_main_row lines i :
  main URL discover lines !! i = lines !! i \/
  exists pt u m found,
    pt ∈ parseTables lines /\ u ∈ updatesOf lines pt /\ lineIdx u = i /\
    (3 <= length (rows pt))%nat /\ i ∈ drop 2 (rows pt) /\
    websiteCol pt <> -1 /\ u_githubCol u = githubCol pt /\ 1 <= githubCol pt /\
    Js.trim (default EmptyString
               (cellsOf (lineAt lines i) !! Z.to_nat (githubCol pt))) = EmptyString /\
    discover m (websiteUrl u) = Some found /\ found <> EmptyString /\
    main URL discover lines !! i = writeLink lines u found !! i.
Proof.
  rewrite from_main_lines.
  set (updates := flat_map (updatesOf lines) (parseTables lines)).
  destruct (decide (i ∈ map lineIdx updates)) as [Hin|Hout].
  - apply list_elem_of_fmap in Hin as (u & -> & Hu).
    destruct (applyUpdates_row updates 0 (lines, 0%nat)
                (from_updates_NoDup lines) u Hu) as [H|(m & found & Hm & Hf & H)];
      [by left|right].
    apply list_elem_of_In, in_flat_map in Hu as (pt & Hpt & Hu).
    apply list_elem_of_In in Hpt, Hu.
    destruct (updatesOf_elem lines pt u Hu) as (Hw & Hg & H3 & Hrow & Hcol & Hblank & _).
    assert (1 <= githubCol pt) as Hpos.
    { apply list_elem_of_lookup_1 in Hpt as [k Hk].
      destruct (Forall2_lookup_l _ _ _ _ _
                  (parseTables_parsedAs lines) Hk)
        as (t & Hk' & Hp).
      destruct Hp as (_ & _ & _ & _ & Hgc).
      apply list_elem_of_lookup_2, findTables_sound in Hk'.
      pose proof (header_isTableLine lines t Hk') as Hh.
      pose proof (githubColumnOf_range lines t) as Hr.
      assert (githubColumnOf lines t <> 0); [|lia].
      unfold githubColumnOf.
      pose proof (idxOf_header_pos (headerOf lines t) "Github" Hh) as H1.
      pose proof (idxOf_header_pos (headerOf lines t) "GitHub" Hh) as H2.
      unfold columnOf.
      destruct (Z.eqb_spec (idxOf (map Js.trim (cellsOf (headerOf lines t))) "Github")
                  (-1)); [by apply H2|by apply H1]. }
    exists pt, u, m, found. repeat (split; [done|]).
    split; [|done]. by rewrite <- (github_cell_blank (websiteCol pt)) by lia.
  - left. apply applyUpdates_outside.
    intros u Hu Heq. apply Hout. rewrite <- Heq. by apply list_elem_of_fmap_2.
Qed.

Lemma writeLink_row L up found :
  (lineIdx up < length L)%nat ->
  writeLink L up found !! lineIdx up
  = Some (joinCells (Js.setAt (u_githubCol up) (" [Link](" +:+ found +:+ ") ")
                       (Js.padTo (u_githubCol up) " "
                          (cellsOf (lineAt L (lineIdx up)))))).
Proof. intros Hlt. unfold writeLink. by rewrite list_lookup_insert_eq. Qed.

Lemma from_main_isTableLine lines i :
  isTableAt (main URL discover lines) i = isTableAt lines i.
Proof.
  destruct (from_main_row lines i)
    as [H|(pt & u & m & found & Hpt & Hu & <- & H3 & Hrow & _ & Hcol & Hpos & _ & _ & _ & H)].
  - unfold isTableAt. by rewrite H.
  - apply list_elem_of_lookup_1 in Hpt as [k Hk].
    destruct (Forall2_lookup_l _ _ _ _ _ (parseTables_parsedAs lines) Hk)
      as (t & Hk' & Hp).
    destruct Hp as (Hrows & _).
    apply list_elem_of_lookup_2 in Hk' as Ht. apply findTables_sound in Ht as Hrun.
    assert (lineIdx u ∈ Tables.rows t) as Hin
      by (rewrite <- Hrows; by apply elem_of_drop_2 with 2%nat).
    pose proof (run_lines lines t Hrun _ Hin) as Htl. rewrite Htl.
    pose proof (isTableAt_lt _ _ Htl) as Hlt.
    unfold isTableAt. rewrite H, (writeLink_row lines u found Hlt).
    apply set_row_isTableLine; [|lia].
    unfold isTableAt in Htl. unfold lineAt. by destruct (lines !! lineIdx u).
Qed.

(** The array [lines] has the same tables after the loop. *)
Lemma from_main_findTables lines :
  findTables (main URL discover lines) = findTables lines.
Proof.
  apply findTables_ext, isTableAt_ext; [apply from_main_length|].
  apply from_main_isTableLine.
Qed.

End FromWebsiteProperties.

(** ** Links in cells *)

Section LinkProperties.

Import Links.

Lemma startsWith_app s p :
  Js.startsWith s p = true <-> exists r, s = p +:+ r.
Proof.
  revert s. induction p as [|a p IH]; intros s; simpl.
  - split; [by exists s|done].
  - destruct s as [|b s]; [split; [done|by intros [r ?]]|].
    rewrite andb_true_iff, IH. split.
    + intros [->%Ascii.eqb_eq [r ->]]. by exists r.
    + intros [r [= -> ->]]. split; [apply Ascii.eqb_refl|by exists r].
Qed.

Lemma toLowerCase_app a b :
  Js.toLowerCase (a +:+ b) = Js.toLowerCase a +:+ Js.toLowerCase b.
Proof.
  induction a as [|c a IH]; [done|]. rewrite append_cons. simpl. by rewrite IH.
Qed.

Lemma toLowerCase_length s : String.length (Js.toLowerCase s) = String.length s.
Proof. induction s as [|c s IH]; simpl; [done|]. by rewrite IH. Qed.

Lemma substring_all s : String.substring 0 (String.length s) s = s.
Proof. induction s as [|c s IH]; simpl; [done|]. by rewrite IH. Qed.

Lemma skip_app a b : skip (String.length a) (a +:+ b) = b.
Proof.
  unfold skip. rewrite append_length.
  replace (String.length a + String.length b - String.length a)%nat
    with (String.length b) by lia.
  induction a as [|c a IH]; simpl; [apply substring_all|done].
Qed.

Lemma skip_0 s : skip 0 s = s.
Proof. unfold skip. rewrite Nat.sub_0_r. apply substring_all. Qed.

(** A string splits at every length up to its own. *)
Lemma string_split n s :
  (n <= String.length s)%nat ->
  exists a b, s = a +:+ b /\ String.length a = n.
Proof.
  revert s. induction n as [|n IH]; intros s Hn.
  - by exists EmptyString, s.
  - destruct s as [|c s]; simpl in Hn; [lia|].
    destruct (IH s) as (a & b & -> & Ha); [lia|].
    exists (String c a), b. simpl. by rewrite Ha.
Qed.

(** [s] starts with [pat] up to the case of its letters: it is a text of
    the length of [pat] that [pat] is the lower case of, and a rest. *)
Lemma startsWith_lower s pat :
  Js.startsWith (Js.toLowerCase s) pat = true <->
  exists a b, s = a +:+ b /\ Js.toLowerCase a = pat.
Proof.
  split.
  - intros [r Hr]%startsWith_app.
    destruct (string_split (String.length pat) s) as (a & b & -> & Ha).
    { rewrite <- (toLowerCase_length s), Hr, append_length. lia. }
    exists a, b. split; [done|].
    rewrite toLowerCase_app in Hr.
    assert (String.length (Js.toLowerCase a) = String.length pat) as Hlen
      by (by rewrite toLowerCase_length).
    clear Ha. revert Hlen Hr. generalize (Js.toLowerCase a) as x.
    generalize (Js.toLowerCase b) as y. clear.
    intros y x. revert pat. induction x as [|c x IH]; intros [|d pat]; simpl; try done.
    intros [= Hl]. rewrite !append_cons. intros [= -> Hr]. f_equal. by apply IH.
  - intros (a & b & -> & <-). rewrite toLowerCase_app.
    apply startsWith_app. by eexists.
Qed.

Lemma span_spec p s a b :
  Js.span p s = (a, b) ->
  s = a +:+ b /\ Num.allChars p a = true /\
  match b with String c _ => p c = false | EmptyString => True end.
Proof.
  revert a b. induction s as [|c s IH]; intros a b; simpl.
  - by intros [= <- <-].
  - destruct (p c) eqn:Ec.
    + destruct (Js.span p s) as [a' b']. intros [= <- <-].
      destruct (IH a' b' eq_refl) as (-> & Ha & Hb).
      split; [done|]. split; [|done]. apply allChars_cons. done.
    + intros [= <- <-]. done.
Qed.

Lemma span_app p a b :
  Num.allChars p a = true ->
  match b with String c _ => p c = false | EmptyString => True end ->
  Js.span p (a +:+ b) = (a, b).
Proof.
  intros Ha Hb. induction a as [|c a IH].
  - destruct b as [|c b]; [done|]. simpl. by rewrite Hb.
  - apply allChars_cons in Ha as [Hc Ha]. rewrite append_cons. simpl.
    by rewrite Hc, IH.
Qed.

Lemma allChars_not_contains (p : ascii -> bool) c s :
  p c = false -> Num.allChars p s = true -> Js.contains c s = false.
Proof.
  intros Hc. induction s as [|a s IH]; [done|].
  intros [Ha Hs]%allChars_cons. simpl. rewrite (IH Hs), orb_false_r.
  destruct (Ascii.eqb_spec a c) as [->|]; [congruence|done].
Qed.

Lemma not_contains_allChars c s :
  Js.contains c s = false ->
  Num.allChars (fun a => negb (Ascii.eqb a c)) s = true.
Proof.
  induction s as [|a s IH]; [done|]. simpl.
  intros [Ha Hs]%orb_false_iff. apply allChars_cons. by rewrite Ha, IH.
Qed.

(** The target of the first link of a cell. *)
Lemma findMarkdownTarget_link pre url post :
  Js.contains "]" pre = false -> url <> EmptyString ->
  Js.contains ")" url = false ->
  findMarkdownTarget (pre +:+ "](" +:+ url +:+ ")" +:+ post) = Some url.
Proof.
  intros Hpre Hne Hurl. induction pre as [|c pre IH].
  - change (EmptyString +:+ "](" +:+ url +:+ ")" +:+ post)
      with (String "]" (String "(" (url +:+ String ")" post))).
    cbn [findMarkdownTarget].
    rewrite (span_app notClosing url (String ")" post));
      [|by apply not_contains_allChars|done].
    destruct (String.eqb_spec url EmptyString); [done|]. done.
  - simpl in Hpre. apply orb_false_iff in Hpre as [Hc Hpre].
    rewrite append_cons. cbn [findMarkdownTarget].
    rewrite IH by done.
    by destruct c as [[] [] [] [] [] [] [] []].
Qed.

Lemma skip_prefix s pat :
  Js.startsWith (Js.toLowerCase s) pat = true ->
  exists a, s = a +:+ skip (String.length pat) s /\ Js.toLowerCase a = pat.
Proof.
  intros (a & b & -> & Ha)%startsWith_lower. exists a.
  rewrite <- Ha, toLowerCase_length, skip_app. by rewrite Ha.
Qed.

Lemma toLowerCase_app_inv a : forall s b,
  Js.toLowerCase s = a +:+ b ->
  exists s1 s2, s = s1 +:+ s2 /\ Js.toLowerCase s1 = a /\ Js.toLowerCase s2 = b.
Proof.
  induction a as [|c a IH]; intros s b H.
  - by exists EmptyString, s.
  - destruct s as [|d s]; [done|]. rewrite append_cons in H. simpl in H.
    injection H as Hc H. destruct (IH s b H) as (s1 & s2 & -> & H1 & H2).
    exists (String d s1), s2. simpl. by rewrite Hc, H1.
Qed.

Lemma githubRest_intro p1 p2 p3 x :
  Js.toLowerCase p1 = "https://" \/ Js.toLowerCase p1 = "http://" ->
  p2 = EmptyString \/ Js.toLowerCase p2 = "www." ->
  Js.toLowerCase p3 = "github.com/" ->
  Discover.githubRest (p1 +:+ p2 +:+ p3 +:+ x) = Some x.
Proof.
  intros H1 H2 H3. unfold Discover.githubRest.
  assert (exists n, schemeLength (p1 +:+ p2 +:+ p3 +:+ x) = Some n /\
                    n = String.length p1) as (n & -> & ->).
  { unfold schemeLength. rewrite toLowerCase_app.
    destruct H1 as [H1|H1]; rewrite <- (toLowerCase_length p1), H1;
      by eexists. }
  rewrite skip_app. cbv zeta.
  assert (Js.startsWith (Js.toLowerCase (p3 +:+ x)) "github.com/" = true
          /\ skip 11 (p3 +:+ x) = x) as [Hg Hs].
  { split; [apply startsWith_lower; by exists p3, x|].
    change 11%nat with (String.length "github.com/").
    by rewrite <- H3, toLowerCase_length, skip_app. }
  destruct H2 as [->|H2].
  - change (EmptyString +:+ p3 +:+ x) with (p3 +:+ x).
    assert (Js.startsWith (Js.toLowerCase (p3 +:+ x)) "www." = false) as ->
      by (by rewrite toLowerCase_app, H3).
    by rewrite Hg, Hs.
  - assert (Js.startsWith (Js.toLowerCase (p2 +:+ p3 +:+ x)) "www." = true) as ->
      by (apply startsWith_lower; by eexists _, _).
    assert (skip 4 (p2 +:+ p3 +:+ x) = p3 +:+ x) as ->.
    { change 4%nat with (String.length "www.").
      by rewrite <- H2, toLowerCase_length, skip_app. }
    by rewrite Hg, Hs.
Qed.

(** The texts that have a GitHub address at their head. *)
Lemma githubRest_spec s x :
  Discover.githubRest s = Some x <->
  exists pre, s = pre +:+ x /\ Js.toLowerCase pre ∈ Discover.githubPrefixes.
Proof.
  split.
  - unfold Discover.githubRest.
    destruct (schemeLength s) as [n|] eqn:En; [|done].
    assert (exists p1, s = p1 +:+ skip n s /\
              (Js.toLowerCase p1 = "https://" \/ Js.toLowerCase p1 = "http://"))
      as (p1 & Hs & H1).
    { unfold schemeLength in En.
      destruct (Js.startsWith (Js.toLowerCase s) "https://") eqn:E1.
      - injection En as <-. destruct (skip_prefix _ _ E1) as (a & Ha & Hl).
        exists a. split; [done|by left].
      - destruct (Js.startsWith (Js.toLowerCase s) "http://") eqn:E2; [|done].
        injection En as <-. destruct (skip_prefix _ _ E2) as (a & Ha & Hl).
        exists a. split; [done|by right]. }
    cbv zeta. generalize dependent (skip n s). intros r Hs.
    assert (exists p2 r', r = p2 +:+ r' /\
              (if Js.startsWith (Js.toLowerCase r) "www." then skip 4 r else r) = r' /\
              (p2 = EmptyString \/ Js.toLowerCase p2 = "www."))
      as (p2 & r' & Hr & -> & H2).
    { destruct (Js.startsWith (Js.toLowerCase r) "www.") eqn:E.
      - destruct (skip_prefix _ _ E) as (a & Ha & Hl).
        exists a, (skip 4 r). split; [done|]. split; [done|by right].
      - exists EmptyString, r. split; [done|]. split; [done|by left]. }
    destruct (Js.startsWith (Js.toLowerCase r') "github.com/") eqn:E; [|done].
    intros [= <-]. destruct (skip_prefix _ _ E) as (p3 & Hr' & H3).
    exists (p1 +:+ p2 +:+ p3). split.
    + rewrite Hs at 1. rewrite Hr. rewrite Hr' at 1.
      by rewrite !append_assoc.
    + rewrite !toLowerCase_app, H3.
      unfold Discover.githubPrefixes.
      destruct H1 as [-> | ->], H2 as [-> | ->]; set_solver.
  - intros (pre & -> & Hpre).
    assert (exists p1 p2 p3, pre = p1 +:+ p2 +:+ p3 /\
              (Js.toLowerCase p1 = "https://" \/ Js.toLowerCase p1 = "http://") /\
              (p2 = EmptyString \/ Js.toLowerCase p2 = "www.") /\
              Js.toLowerCase p3 = "github.com/") as (p1 & p2 & p3 & -> & H1 & H2 & H3).
    { unfold Discover.githubPrefixes in Hpre.
      rewrite !elem_of_cons in Hpre.
      destruct Hpre as [H|[H|[H|[H|H]]]]; [| | | |by apply elem_of_nil in H].
      - destruct (toLowerCase_app_inv "https://" pre "github.com/" H)
          as (p1 & p3 & -> & H1 & H3).
        exists p1, EmptyString, p3. auto.
      - destruct (toLowerCase_app_inv "http://" pre "github.com/" H)
          as (p1 & p3 & -> & H1 & H3).
        exists p1, EmptyString, p3. auto.
      - destruct (toLowerCase_app_inv "https://" pre "www.github.com/" H)
          as (p1 & p' & -> & H1 & H').
        destruct (toLowerCase_app_inv "www." p' "github.com/" H')
          as (p2 & p3 & -> & H2 & H3).
        exists p1, p2, p3. auto.
      - destruct (toLowerCase_app_inv "http://" pre "www.github.com/" H)
          as (p1 & p' & -> & H1 & H').
        destruct (toLowerCase_app_inv "www." p' "github.com/" H')
          as (p2 & p3 & -> & H2 & H3).
        exists p1, p2, p3. auto. }
    rewrite !append_assoc. by apply githubRest_intro.
Qed.

(** [parseGithubRepo] and [isGithubRepoUrl] hold the same expression. *)
Lemma parseGithubRepo_rest u :
  parseGithubRepo (Some u) =
  if String.eqb u EmptyString then None else
  match Discover.githubRest u with
  | Some r =>
      let '(owner, r1) := Js.span repoChar r in
      if String.eqb owner EmptyString then None else
      match r1 with
      | String "/" r2 =>
          let '(repo, r3) := Js.span repoChar r2 in
          if String.eqb repo EmptyString then None
          else if String.eqb r3 EmptyString || Js.startsWith r3 "/"
          then Some (owner +:+ "/" +:+ stripGit repo)
          else None
      | _ => None
      end
  | None => None
  end.
Proof.
  unfold parseGithubRepo, Discover.githubRest.
  destruct (String.eqb u EmptyString); [done|].
  destruct (schemeLength u) as [n|]; [|done]. cbv zeta.
  by destruct (Js.startsWith _ "github.com/").
Qed.

Lemma startsWith_slash r :
  Js.startsWith r "/" = true <-> exists r', r = String "/" r'.
Proof.
  rewrite startsWith_app. split; intros [r' ->]; by exists r'.
Qed.

Lemma slash_not_repoChar : repoChar "/" = false.
Proof. reflexivity. Qed.

(** What the expression of [parseGithubRepo] matches: an address of
    GitHub, an owner, a slash, a name, and then the end or a slash. *)
Lemma parseGithubRepo_match u r :
  parseGithubRepo (Some u) = Some r <->
  exists pre owner name rest,
    u = pre +:+ owner +:+ "/" +:+ name +:+ rest /\
    Js.toLowerCase pre ∈ Discover.githubPrefixes /\
    owner <> EmptyString /\ name <> EmptyString /\
    Num.allChars repoChar owner = true /\ Num.allChars repoChar name = true /\
    (rest = EmptyString \/ exists rest', rest = String "/" rest') /\
    r = owner +:+ "/" +:+ stripGit name.
Proof.
  rewrite parseGithubRepo_rest. split.
  - destruct (String.eqb u EmptyString); [done|].
    destruct (Discover.githubRest u) as [x|] eqn:Ex; [|done].
    apply githubRest_spec in Ex as (pre & -> & Hpre).
    destruct (Js.span repoChar x) as [owner r1] eqn:E1.
    apply span_spec in E1 as (-> & Ho & _).
    destruct (String.eqb_spec owner EmptyString) as [|Hne]; [done|].
    destruct r1 as [|c r2]; [done|].
    destruct (Ascii.eqb_spec c "/") as [->|Hc];
      [|by destruct c as [[] [] [] [] [] [] [] []]].
    destruct (Js.span repoChar r2) as [name r3] eqn:E2.
    apply span_spec in E2 as (-> & Hn & _).
    destruct (String.eqb_spec name EmptyString) as [|Hne']; [done|].
    destruct (String.eqb r3 EmptyString || Js.startsWith r3 "/") eqn:E3; [|done].
    intros [= <-]. exists pre, owner, name, r3.
    split; [done|]. do 5 (split; [done|]). split; [|done].
    apply orb_true_iff in E3 as [E3|E3].
    + left. by apply String.eqb_eq.
    + right. by apply startsWith_slash.
  - intros (pre & owner & name & rest & -> & Hpre & Ho & Hn & Hoc & Hnc & Hrest & ->).
    assert (Discover.githubRest (pre +:+ owner +:+ "/" +:+ name +:+ rest)
            = Some (owner +:+ "/" +:+ name +:+ rest)) as ->
      by (apply githubRest_spec; by exists pre).
    assert (pre +:+ owner +:+ "/" +:+ name +:+ rest <> EmptyString) as Hne.
    { intros H. apply (f_equal Js.toLowerCase) in H.
      rewrite toLowerCase_app in H. unfold Discover.githubPrefixes in Hpre.
      rewrite !elem_of_cons in Hpre.
      destruct Hpre as [E|[E|[E|[E|E]]]]; [| | | |by apply elem_of_nil in E];
        by rewrite E in H. }
    destruct (String.eqb_spec (pre +:+ owner +:+ "/" +:+ name +:+ rest) EmptyString);
      [done|].
    rewrite (span_app repoChar owner ("/" +:+ name +:+ rest)) by done.
    destruct (String.eqb_spec owner EmptyString); [done|].
    change ("/" +:+ name +:+ rest) with (String "/" (name +:+ rest)). cbv iota.
    assert (match rest with
            | String c _ => repoChar c = false
            | EmptyString => True
            end) as Hmax by (by destruct Hrest as [->|[rest' ->]]).
    rewrite (span_app repoChar name rest) by done.
    destruct (String.eqb_spec name EmptyString); [done|].
    by destruct Hrest as [->|[rest' ->]].
Qed.

Lemma allChars_substring p n s :
  Num.allChars p s = true -> Num.allChars p (String.substring 0 n s) = true.
Proof.
  revert n. induction s as [|c s IH]; intros [|n] H; try done.
  apply allChars_cons in H as [Hc Hs]. simpl. apply allChars_cons.
  split; [done|by apply IH].
Qed.

Lemma stripGit_chars name :
  Num.allChars repoChar name = true -> Num.allChars repoChar (stripGit name) = true.
Proof.
  intros H. unfold stripGit.
  destruct (Js.endsWith _ _); [by apply allChars_substring|done].
Qed.

(** A repository that [parseGithubRepo] gives is an owner, one slash and
    a name: [githubApiFetchRepo] finds both parts of it. *)
Lemma parsed_repo_parts url r :
  parseGithubRepo url = Some r ->
  exists owner name,
    r = owner +:+ "/" +:+ name /\ owner <> EmptyString /\
    Num.allChars repoChar owner = true /\ Num.allChars repoChar name = true /\
    Js.split "/" r = [owner; name] /\
    FillStars.requestPath r
    = "/repos/" +:+ Js.toLowerCase owner +:+ "/" +:+ Js.toLowerCase name.
Proof.
  destruct url as [u|]; [|done].
  intros (pre & owner & name & rest & _ & _ & Ho & _ & Hoc & Hnc & _ & ->)%parseGithubRepo_match.
  exists owner, (stripGit name).
  pose proof (stripGit_chars name Hnc) as Hsc.
  assert (Js.split "/" (owner +:+ "/" +:+ stripGit name) = [owner; stripGit name])
    as Hsplit.
  { change ("/" +:+ stripGit name) with (String "/" (stripGit name)).
    rewrite split_app_sep by (by apply (allChars_not_contains repoChar)).
    by rewrite split_id by (by apply (allChars_not_contains repoChar)). }
  do 4 (split; [done|]). split; [done|].
  unfold FillStars.requestPath. by rewrite Hsplit.
Qed.

(** Both scripts take the same URLs for repositories. *)
Lemma isGithubRepoUrl_parse href :
  Discover.isGithubRepoUrl href = true <-> is_Some (parseGithubRepo (Some href)).
Proof.
  rewrite parseGithubRepo_rest. unfold Discover.isGithubRepoUrl.
  destruct (String.eqb href EmptyString); [by split; [|intros [? ?]]|].
  destruct (Discover.githubRest href) as [x|]; [|by split; [|intros [? ?]]].
  destruct (Js.span repoChar x) as [owner r1].
  destruct (String.eqb owner EmptyString); [by split; [|intros [? ?]]|].
  destruct r1 as [|c r2]; [by split; [|intros [? ?]]|].
  destruct (Ascii.eqb_spec c "/") as [->|Hc].
  - destruct (Js.span repoChar r2) as [name r3].
    destruct (String.eqb name EmptyString); [by split; [|intros [? ?]]|].
    destruct (String.eqb r3 EmptyString || Js.startsWith r3 "/");
      [by split|by split; [|intros [? ?]]].
  - by destruct c as [[] [] [] [] [] [] [] []]; split; try done; intros [? ?].
Qed.

(** X26. [parseGithubRepo] gives a repository for exactly the URLs that
    are, in any case of the letters, [http://] or [https://], an optional
    [www.], [github.com/], then an owner, a slash and a name in the
    characters [A-Za-z0-9_.-], and then end or go on with a slash.  The
    repository is the owner, a slash, and the name without a final
    [.git]. *)
Theorem parseGithubRepo_accepts_repo_urls u r :
  parseGithubRepo (Some u) = Some r <->
  exists pre owner name rest,
    u = pre +:+ owner +:+ "/" +:+ name +:+ rest /\
    Js.toLowerCase pre ∈ Discover.githubPrefixes /\
    owner <> EmptyString /\ name <> EmptyString /\
    Num.allChars repoChar owner = true /\ Num.allChars repoChar name = true /\
    (rest = EmptyString \/ exists rest', rest = String "/" rest') /\
    r = owner +:+ "/" +:+ stripGit name.
Proof. apply parseGithubRepo_match. Qed.

(** X27. A repository that [parseGithubRepo] gives splits at its one
    slash into an owner, which is not empty, and a name: the path that
    [githubApiFetchRepo] requests is [/repos/], the owner, a slash and the
    name, in lower case. *)
Theorem parsed_repo_has_owner_and_name url r :
  parseGithubRepo url = Some r ->
  exists owner name,
    r = owner +:+ "/" +:+ name /\ owner <> EmptyString /\
    Num.allChars repoChar owner = true /\ Num.allChars repoChar name = true /\
    Js.split "/" r = [owner; name] /\
    FillStars.requestPath r
    = "/repos/" +:+ Js.toLowerCase owner +:+ "/" +:+ Js.toLowerCase name.
Proof. apply parsed_repo_parts. Qed.

Lemma parsed_repo_has_owner_and_name_witness :
  exists owner name,
    "Acme/UI" = owner +:+ "/" +:+ name /\ owner <> EmptyString /\
    Num.allChars repoChar owner = true /\ Num.allChars repoChar name = true /\
    Js.split "/" "Acme/UI" = [owner; name] /\
    FillStars.requestPath "Acme/UI"
    = "/repos/" +:+ Js.toLowerCase owner +:+ "/" +:+ Js.toLowerCase name.
Proof.
  apply (parsed_repo_has_owner_and_name
           (Some "https://www.GitHub.com/Acme/UI.git/issues") "Acme/UI").
  reflexivity.
Defined.

Lemma extractMarkdownUrl_link pre url post :
  Js.contains "]" pre = false -> url <> EmptyString ->
  Js.contains ")" url = false ->
  extractMarkdownUrl (pre +:+ "](" +:+ url +:+ ")" +:+ post) = Some (Js.trim url).
Proof.
  intros Hpre Hne Hurl. unfold extractMarkdownUrl.
  rewrite (findMarkdownTarget_link pre url post Hpre Hne Hurl).
  destruct (String.eqb_spec (pre +:+ "](" +:+ url +:+ ")" +:+ post) EmptyString)
    as [E|]; [|done].
  apply (f_equal String.length) in E. rewrite !append_length in E.
  simpl in E. lia.
Qed.

(** X28. A cell that holds a link, with no closing bracket before the
    link target and a target that is not empty and has no closing
    parenthesis, gives its target, trimmed, to [extractMarkdownUrl]. *)
Theorem link_target_is_read_back pre url post :
  Js.contains "]" pre = false -> url <> EmptyString ->
  Js.contains ")" url = false ->
  extractMarkdownUrl (pre +:+ "](" +:+ url +:+ ")" +:+ post) = Some (Js.trim url).
Proof. apply extractMarkdownUrl_link. Qed.

Lemma link_target_is_read_back_witness :
  extractMarkdownUrl (" [Link" +:+ "](" +:+ " https://github.com/a/b " +:+ ")" +:+ " ")
  = Some (Js.trim " https://github.com/a/b ").
Proof.
  apply (link_target_is_read_back " [Link" " https://github.com/a/b " " ");
    [reflexivity|discriminate|reflexivity].
Defined.

End LinkProperties.

(** ** The link that fill-github-from-website.js takes from a page *)

Section DiscoverProperties.

Import Links Discover.

Lemma githubRest_isGithubUrl s x : githubRest s = Some x -> isGithubUrl s = true.
Proof.
  destruct s as [|c s]; [done|]. intros H. simpl isGithubUrl. by rewrite H.
Qed.

Lemma isGithubUrl_cons c s : isGithubUrl s = true -> isGithubUrl (String c s) = true.
Proof. intros H. simpl isGithubUrl. by destruct (githubRest (String c s)). Qed.

Lemma isGithubUrl_app a s : isGithubUrl s = true -> isGithubUrl (a +:+ s) = true.
Proof.
  intros H. induction a as [|c a IH]; [done|].
  rewrite append_cons. by apply isGithubUrl_cons.
Qed.

Lemma isGithubUrl_expand h : isGithubUrl h = true -> isGithubUrl (expand h) = true.
Proof.
  intros H. unfold expand. destruct (Js.startsWith h "//"); [|done].
  by apply isGithubUrl_app.
Qed.

Lemma isGithubRepoUrl_isGithubUrl h :
  isGithubRepoUrl h = true -> isGithubUrl h = true.
Proof.
  unfold isGithubRepoUrl. destruct (String.eqb h EmptyString); [done|].
  destruct (githubRest h) as [x|] eqn:E; [|done]. intros _.
  by apply (githubRest_isGithubUrl h x).
Qed.

Lemma substring_app a b n :
  String.substring 0 (String.length a + n) (a +:+ b)
  = a +:+ String.substring 0 n b.
Proof.
  induction a as [|c a IH]; [done|]. rewrite append_cons. simpl. by rewrite IH.
Qed.

Lemma substring_prefix a b :
  String.substring 0 (String.length a) (a +:+ b) = a.
Proof.
  rewrite <- (Nat.add_0_r (String.length a)), substring_app.
  destruct b; simpl; apply append_empty.
Qed.

(** A match of the third expression starts with an address of GitHub. *)
Lemma rawUrlAt_isGithubUrl s g len :
  rawUrlAt s = Some (g, len) -> isGithubUrl g = true /\ (0 < len)%nat.
Proof.
  unfold rawUrlAt. destruct (githubRest s) as [r|] eqn:E; [|done].
  apply githubRest_spec in E as (pre & -> & Hpre).
  destruct (Js.span rawChar r) as [x y] eqn:Es.
  apply span_spec in Es as (-> & _ & _).
  destruct (String.eqb_spec x EmptyString) as [|Hx]; [done|].
  intros [= <- <-]. rewrite !append_length.
  replace (String.length pre + (String.length x + String.length y)
           - (String.length x + String.length y) + String.length x)%nat
    with (String.length (pre +:+ x) + 0)%nat by (rewrite append_length; lia).
  rewrite <- append_assoc, substring_app.
  assert (String.substring 0 0 y = EmptyString) as -> by (by destruct y).
  rewrite append_empty. split.
  - apply (githubRest_isGithubUrl _ x), githubRest_spec. by exists pre.
  - rewrite append_length. destruct x; [done|simpl; lia].
Qed.

Lemma scanAll_Forall {A} (P : A -> Prop) (matchAt : string -> option (A * nat)) s :
  (forall s' g len, matchAt s' = Some (g, len) -> P g) ->
  forall k, Forall P (scanAll matchAt k s).
Proof.
  intros H. induction s as [|c s IH]; intros k; [constructor|].
  simpl. destruct k as [|k]; [|apply IH].
  destruct (matchAt (String c s)) as [[g len]|] eqn:E; [|apply IH].
  constructor; [by eapply H|apply IH].
Qed.

Lemma addTo_Forall (P : string -> Prop) h hs :
  P h -> Forall P hs -> Forall P (addTo h hs).
Proof.
  intros Hh Hhs. unfold addTo. destruct (bool_decide (h ∈ hs)); [done|].
  apply Forall_app. split; [done|]. by constructor.
Qed.

Lemma addTo_NoDup h hs : NoDup hs -> NoDup (addTo h hs).
Proof.
  intros Hnd. unfold addTo. destruct (bool_decide_reflect (h ∈ hs)); [done|].
  apply NoDup_app. split; [done|]. split; [|apply NoDup_singleton].
  intros x Hx ->%list_elem_of_singleton. done.
Qed.

Lemma addTo_elem h hs x : x ∈ addTo h hs <-> x = h \/ x ∈ hs.
Proof.
  unfold addTo. destruct (bool_decide_reflect (h ∈ hs)).
  - split; [by right|]. by intros [->|].
  - rewrite elem_of_app, list_elem_of_singleton. tauto.
Qed.

Lemma fold_addGithub hs0 l :
  Forall (fun h => isGithubUrl h = true) hs0 -> NoDup hs0 ->
  let hs := fold_left addGithub l hs0 in
  Forall (fun h => isGithubUrl h = true) hs /\ NoDup hs /\
  (forall x, x ∈ hs <-> x ∈ hs0 \/ (x ∈ l /\ isGithubUrl x = true)).
Proof.
  revert hs0. induction l as [|h l IH]; intros hs0 H0 Hnd; simpl.
  - split; [done|]. split; [done|]. intros x. rewrite elem_of_nil. tauto.
  - assert (Forall (fun h => isGithubUrl h = true) (addGithub hs0 h)) as H1.
    { unfold addGithub. destruct (isGithubUrl h) eqn:E; [|done].
      by apply addTo_Forall. }
    assert (NoDup (addGithub hs0 h)) as H2.
    { unfold addGithub. destruct (isGithubUrl h); [by apply addTo_NoDup|done]. }
    destruct (IH _ H1 H2) as (Ha & Hb & Hc).
    split; [done|]. split; [done|]. intros x. rewrite Hc, elem_of_cons.
    unfold addGithub. destruct (isGithubUrl h) eqn:E.
    + rewrite addTo_elem. split; [|intros [?|[[->|?] ?]]; tauto].
      intros [[->|?]|[? ?]]; tauto.
    + split; [tauto|]. intros [?|[[->|?] ?]]; [tauto|congruence|tauto].
Qed.

Lemma fold_addTo hs0 l :
  NoDup hs0 ->
  let hs := fold_left (fun hs h => addTo h hs) l hs0 in
  NoDup hs /\ (forall x, x ∈ hs <-> x ∈ hs0 \/ x ∈ l).
Proof.
  revert hs0. induction l as [|h l IH]; intros hs0 Hnd; simpl.
  - split; [done|]. intros x. rewrite elem_of_nil. tauto.
  - destruct (IH _ (addTo_NoDup h hs0 Hnd)) as (Ha & Hb).
    split; [done|]. intros x. rewrite Hb, addTo_elem, elem_of_cons. tauto.
Qed.

(** The set [hrefs]: no text twice; the targets of [href="..."] and
    [href='...'] that hold an address of GitHub, and the addresses of
    GitHub in the text of the page. *)
Lemma hrefsOf_spec html :
  NoDup (hrefsOf html) /\
  forall h, h ∈ hrefsOf html <->
    (h ∈ scanAll (hrefAt doubleQuote) 0 html /\ isGithubUrl h = true) \/
    (h ∈ scanAll (hrefAt singleQuote) 0 html /\ isGithubUrl h = true) \/
    h ∈ scanAll rawUrlAt 0 html.
Proof.
  unfold hrefsOf.
  destruct (fold_addGithub [] (scanAll (hrefAt doubleQuote) 0 html))
    as (F1 & N1 & E1); [constructor|constructor|].
  destruct (fold_addGithub _ (scanAll (hrefAt singleQuote) 0 html) F1 N1)
    as (F2 & N2 & E2).
  destruct (fold_addTo _ (scanAll rawUrlAt 0 html) N2) as (N3 & E3).
  split; [done|]. intros h. rewrite E3, E2, E1, elem_of_nil. tauto.
Qed.

Lemma hrefsOf_isGithubUrl html :
  Forall (fun h => isGithubUrl h = true) (hrefsOf html).
Proof.
  apply Forall_forall. intros h Hh.
  apply (proj2 (hrefsOf_spec html)) in Hh as [[_ H]|[[_ H]|H]]; [done|done|].
  pose proof (scanAll_Forall (fun g => isGithubUrl g = true) rawUrlAt html
                (fun s' g len E => proj1 (rawUrlAt_isGithubUrl s' g len E)) 0) as HF.
  by apply (proj1 (Forall_forall _ _) HF).
Qed.

(** The link of a page is the first collected text that is the URL of a
    repository once expanded, and the first collected text, expanded, if
    there is no such text. *)
Lemma findGithubLinkInHtml_spec html link :
  findGithubLinkInHtml html = Some link ->
  exists h, h ∈ hrefsOf html /\ link = expand h /\
    isGithubUrl link = true /\
    (isGithubRepoUrl link = true \/
     (head (hrefsOf html) = Some h /\
      Forall (fun h' => isGithubRepoUrl (expand h') = false) (hrefsOf html))).
Proof.
  unfold findGithubLinkInHtml.
  destruct (String.eqb html EmptyString); [done|].
  destruct (length (hrefsOf html) =? 0)%nat; [done|].
  pose proof (hrefsOf_isGithubUrl html) as HF.
  destruct (find isGithubRepoUrl (map expand (hrefsOf html))) as [full|] eqn:E.
  - intros [= <-]. apply find_some in E as [Hin Hrepo].
    apply in_map_iff in Hin as (h & <- & Hh). apply list_elem_of_In in Hh.
    exists h. split; [done|]. split; [done|].
    split; [|by left]. apply isGithubUrl_expand.
    by apply (proj1 (Forall_forall _ _) HF).
  - destruct (hrefsOf html) as [|h hs] eqn:Eh; [done|].
    intros [= <-]. exists h. split; [apply list_elem_of_here|]. split; [done|].
    split; [apply isGithubUrl_expand; by inversion HF|].
    right. split; [done|]. apply Forall_forall. intros h' Hh'.
    apply (find_none _ _ E), in_map, list_elem_of_In, Hh'.
Qed.

(** X29. The link that [findGithubLinkInHtml] gives for a page is one of
    the collected texts, with [https:] put before it if it starts with two
    slashes; it is not empty and holds an address of GitHub.  It is the
    URL of a repository, unless no collected text is one: then it comes
    from the text that was collected first. *)
Theorem page_link_is_github_url html link :
  findGithubLinkInHtml html = Some link ->
  link <> EmptyString /\
  exists h, h ∈ hrefsOf html /\ link = expand h /\
    isGithubUrl link = true /\
    (isGithubRepoUrl link = true \/
     (head (hrefsOf html) = Some h /\
      Forall (fun h' => isGithubRepoUrl (expand h') = false) (hrefsOf html))).
Proof.
  intros H. destruct (findGithubLinkInHtml_spec html link H) as (h & Hh & Hl & Hg & Hr).
  split; [intros ->; done|]. by exists h.
Qed.

Lemma page_link_is_github_url_witness :
  "https://GitHub.com/acme/ui/" <> EmptyString /\
  exists h, h ∈ hrefsOf page /\ "https://GitHub.com/acme/ui/" = expand h /\
    isGithubUrl "https://GitHub.com/acme/ui/" = true /\
    (isGithubRepoUrl "https://GitHub.com/acme/ui/" = true \/
     (head (hrefsOf page) = Some h /\
      Forall (fun h' => isGithubRepoUrl (expand h') = false) (hrefsOf page))).
Proof.
  apply (page_link_is_github_url page "https://GitHub.com/acme/ui/").
  vm_compute. reflexivity.
Defined.

Lemma nonspace_lower c :
  Js.isWhiteSpace (Js.lowerChar c) = false -> Js.isWhiteSpace c = false.
Proof. by destruct c as [[] [] [] [] [] [] [] []]. Qed.

Lemma repoChar_nonspace c : repoChar c = true -> negb (Js.isWhiteSpace c) = true.
Proof. by destruct c as [[] [] [] [] [] [] [] []]. Qed.

Lemma nonspace_toLowerCase s :
  Num.allChars (fun c => negb (Js.isWhiteSpace c)) (Js.toLowerCase s) = true ->
  Num.allChars (fun c => negb (Js.isWhiteSpace c)) s = true.
Proof.
  induction s as [|c s IH]; [done|]. simpl Js.toLowerCase.
  intros [Hc Hs]%allChars_cons. apply allChars_cons. split; [|by apply IH].
  apply negb_true_iff, nonspace_lower. by apply negb_true_iff.
Qed.

Lemma trimEnd_app_nonspace x y :
  Num.allChars (fun c => negb (Js.isWhiteSpace c)) x = true ->
  Js.trimEnd (x +:+ y) = x +:+ Js.trimEnd y.
Proof.
  induction x as [|c x IH]; [done|].
  intros [Hc Hx]%allChars_cons. rewrite !append_cons. simpl.
  apply negb_true_iff in Hc. by rewrite Hc, (IH Hx).
Qed.

Lemma trim_app_nonspace x y :
  x <> EmptyString ->
  Num.allChars (fun c => negb (Js.isWhiteSpace c)) x = true ->
  Js.trim (x +:+ y) = x +:+ Js.trimEnd y.
Proof.
  intros Hne Hx. unfold Js.trim.
  assert (Js.trimStart (x +:+ y) = x +:+ y) as ->.
  { destruct x as [|c x]; [done|]. apply allChars_cons in Hx as [Hc _].
    rewrite append_cons. simpl. apply negb_true_iff in Hc. by rewrite Hc. }
  by apply trimEnd_app_nonspace.
Qed.

Lemma prefix_nonspace pre :
  Js.toLowerCase pre ∈ githubPrefixes ->
  pre <> EmptyString /\
  Num.allChars (fun c => negb (Js.isWhiteSpace c)) pre = true.
Proof.
  intros H. split.
  - intros ->. unfold githubPrefixes in H. rewrite !elem_of_cons in H.
    destruct H as [H|[H|[H|[H|H]]]]; try done. by apply elem_of_nil in H.
  - apply nonspace_toLowerCase. unfold githubPrefixes in H.
    rewrite !elem_of_cons in H.
    destruct H as [->|[->|[->|[->|H]]]]; try done. by apply elem_of_nil in H.
Qed.

Lemma allChars_app_intro p a b :
  Num.allChars p a = true -> Num.allChars p b = true ->
  Num.allChars p (a +:+ b) = true.
Proof. intros Ha Hb. rewrite allChars_app. by rewrite Ha, Hb. Qed.

(** Trimming the URL of a repository leaves the same repository. *)
Lemma parseGithubRepo_trim u r :
  parseGithubRepo (Some u) = Some r -> parseGithubRepo (Some (Js.trim u)) = Some r.
Proof.
  intros (pre & owner & name & rest & -> & Hpre & Ho & Hn & Hoc & Hnc & Hrest & ->)
    %parseGithubRepo_match.
  destruct (prefix_nonspace pre Hpre) as [Hpne Hpc].
  assert (Js.trim (pre +:+ owner +:+ "/" +:+ name +:+ rest)
          = pre +:+ owner +:+ "/" +:+ name +:+ Js.trimEnd rest) as ->.
  { rewrite <- !append_assoc. rewrite trim_app_nonspace; [done| |].
    - destruct pre; [done|]. by rewrite !append_cons.
    - repeat apply allChars_app_intro; try done;
        by apply (allChars_impl repoChar _ _ repoChar_nonspace). }
  apply parseGithubRepo_match.
  exists pre, owner, name, (Js.trimEnd rest). do 6 (split; [done|]).
  split; [|done].
  destruct Hrest as [->|[rest' ->]]; [by left|right].
  simpl. by eexists.
Qed.

(** X30. When the link that fill-github-from-website.js found is the URL
    of a repository and has no closing parenthesis, the cell that the
    script writes for it gives fill-github-stars.js that repository. *)
Theorem discovered_repo_is_read_back found :
  isGithubRepoUrl found = true -> Js.contains ")" found = false ->
  exists repo,
    parseGithubRepo (Some found) = Some repo /\
    parseGithubRepo (extractMarkdownUrl (" [Link](" +:+ found +:+ ") "))
    = Some repo.
Proof.
  intros [repo Hrepo]%isGithubRepoUrl_parse Hclose. exists repo.
  split; [done|].
  change (" [Link](" +:+ found +:+ ") ")
    with (" [Link" +:+ "](" +:+ found +:+ ")" +:+ " ").
  rewrite extractMarkdownUrl_link; [by apply parseGithubRepo_trim|done| |done].
  intros ->. done.
Qed.

Lemma discovered_repo_is_read_back_witness :
  exists repo,
    parseGithubRepo (Some "https://GitHub.com/acme/ui/") = Some repo /\
    parseGithubRepo
      (extractMarkdownUrl (" [Link](" +:+ "https://GitHub.com/acme/ui/" +:+ ") "))
    = Some repo.
Proof.
  apply (discovered_repo_is_read_back "https://GitHub.com/acme/ui/");
    reflexivity.
Defined.

End DiscoverProperties.

(** ** fill-github-stars.js: runs in which a lookup may throw *)

Section FillRunProperties.

Import Tables FillStars.

Variable reply : nat -> string -> FillRun.Reply.

Local Abbreviation answers :=
  (fun (n : nat) (path : string) => FillRun.asResponse (reply n path)).
Local Abbreviation run := (FillStars.runJobs answers).
Local Abbreviation runT := (FillRun.runJobs reply).

(** The loop that may throw goes the way of the loop of [FillStars] for
    the replies read with [asResponse], up to the flag and the counter
    of the last turn. *)
Lemma runT_sim jobs : forall st,
  run jobs st =
  if (runT jobs st).2
  then mkRun (lines (runT jobs st).1) (cache (runT jobs st).1)
             (S (apiCalls (runT jobs st).1)) (rowsUpdated (runT jobs st).1)
             true (lookups (runT jobs st).1)
  else (runT jobs st).1.
Proof.
  induction jobs as [|job rest IH]; intros st; [done|].
  rewrite runJobs_cons. simpl FillRun.runJobs. unfold githubApiFetchRepo.
  destruct (cached st (repo job)) as [v|]; [apply IH|].
  destruct (reply (apiCalls st) (requestPath (repo job))) as [[[v|]| |]|];
    simpl; try apply IH; done.
Qed.

Lemma runT_returns jobs st :
  (runT jobs st).2 = false -> (runT jobs st).1 = run jobs st.
Proof. intros H. by rewrite runT_sim, H. Qed.

(** A run throws at a reply with the JSON [null]. *)
Lemma runT_threw jobs : forall st,
  (runT jobs st).2 = true ->
  exists job n, job ∈ jobs /\ reply n (requestPath (repo job)) = FillRun.NullJson.
Proof.
  induction jobs as [|job rest IH]; intros st H; [done|].
  assert (Hrest : forall s, (runT rest s).2 = true ->
            exists job' n, job' ∈ job :: rest /\
              reply n (requestPath (repo job')) = FillRun.NullJson).
  { intros s Hs. destruct (IH s Hs) as (job' & n & Hin & Hn).
    exists job', n. split; [by apply list_elem_of_further|done]. }
  simpl in H. destruct (cached st (repo job)) as [v|]; [by apply (Hrest _ H)|].
  destruct (reply (apiCalls st) (requestPath (repo job))) as [[[v|]| |]|] eqn:E;
    simpl in H; try (by apply (Hrest _ H)); [done|].
  exists job, (apiCalls st). split; [apply list_elem_of_here|done].
Qed.

(** The loop stops at the first rate limit and at the exception. *)
Lemma runT_app pre rest : forall st,
  hitRateLimit st = false ->
  runT (pre ++ rest) st =
  if (runT pre st).2 || hitRateLimit (runT pre st).1 then runT pre st
  else runT rest (runT pre st).1.
Proof.
  induction pre as [|job pre IH]; intros st Hst.
  - simpl. rewrite Hst. by destruct (runT rest st).
  - rewrite <- app_comm_cons. simpl FillRun.runJobs.
    destruct (cached st (repo job)) as [v|]; [by apply IH|].
    destruct (reply (apiCalls st) (requestPath (repo job))) as [[[v|]| |]|];
      simpl; try (by apply IH); done.
Qed.

(** The outcome of [main], by the run of [FillStars.main] for the replies
    read with [asResponse]. *)
Lemma mainT_cases lines0 :
  let o := FillRun.main reply lines0 in
  let r := FillStars.main answers lines0 in
  lookups (FillRun.final o) = lookups (finalState r) /\
  cache (FillRun.final o) = cache (finalState r) /\
  ((FillRun.threw o = false /\ FillRun.readme o = document r /\
    FillRun.final o = finalState r) \/
   (FillRun.threw o = true /\ FillRun.readme o = lines0 /\
    exists job n, job ∈ (scan lines0).1.2 /\
      reply n (requestPath (repo job)) = FillRun.NullJson)).
Proof.
  unfold FillRun.main, FillStars.main.
  destruct (scan lines0) as [[L jobs] touched]. simpl.
  destruct (length jobs =? 0)%nat; [split; [done|]; split; [done|]; by left|].
  pose proof (runT_sim jobs (start L)) as Hsim.
  pose proof (runT_threw jobs (start L)) as Hthrew.
  destruct (runT jobs (start L)) as [s b]. simpl in *. rewrite Hsim.
  destruct b; simpl; [|split; [done|]; split; [done|]; by left].
  split; [done|]. split; [done|]. right. split; [done|]. split; [done|].
  by apply Hthrew.
Qed.

Lemma answers_count n path v :
  answers n path = Ok (Some v) <-> reply n path = FillRun.Returns (Ok (Some v)).
Proof.
  cbv beta. destruct (reply n path) as [[[w|]| |]|]; simpl; split; try done.
  - by intros [= ->].
  - by intros [= ->].
Qed.

(** X14. When a lookup throws (a success whose JSON is [null]),
    README.md stays as it was read: nothing of the run is written, not
    even the column of the first loop.  In every other run the row of a
    job is left as the first loop made it, or it holds a star count that
    the API gave in this run for the repository of the row, written into
    the column of the job.  A star count is an integer from 0 to
    [2^53]. *)
Theorem written_stars_are_answers lines0 j :
  j ∈ (scan lines0).1.2 ->
  (forall n path v, reply n path = FillRun.Returns (Ok (Some v)) -> 0 <= v <= 2 ^ 53) ->
  let o := FillRun.main reply lines0 in
  let L1 := columnsEnsured lines0 in
  (FillRun.threw o = true /\ FillRun.readme o = lines0 /\
   exists job n, job ∈ (scan lines0).1.2 /\
     reply n (requestPath (repo job)) = FillRun.NullJson) \/
  (FillRun.threw o = false /\
   (FillRun.readme o !! lineIndex j = L1 !! lineIndex j \/
    exists n v,
      lookups (FillRun.final o) !! n = Some (repo j) /\
      reply n (requestPath (repo j)) = FillRun.Returns (Ok (Some v)) /\
      FillRun.readme o !! lineIndex j = writeStars L1 j v !! lineIndex j)).
Proof.
  intros Hj _ o L1.
  destruct (mainT_cases lines0) as (Hl & _ & [(Ht & Hr & Hf)|(Ht & Hr & Hn)]);
    [right|by left].
  split; [done|]. fold o in Hr, Hf, Hl. rewrite Hr, Hl.
  destruct (fill_main_row answers lines0 j Hj) as [H|(n & v & H1 & H2 & H3)];
    [by left|right].
  exists n, v. split; [done|]. split; [|done]. by apply answers_count.
Qed.

(** When every reply is a star count, every job gets its row written. *)
Lemma run_counts jobs : forall st,
  NoDup (map lineIndex jobs) -> CacheSound answers st ->
  (forall n path, exists v, reply n path = FillRun.Returns (Ok (Some v))) ->
  forall j, j ∈ jobs ->
    exists n v,
      Resolved answers (lookups (run jobs st)) n (repo j) v /\
      lines (run jobs st) !! lineIndex j = writeStars (lines st) j v !! lineIndex j.
Proof.
  induction jobs as [|job rest IH]; intros st Hnd Hst Hall j Hj;
    [by apply elem_of_nil in Hj|].
  simpl in Hnd. apply NoDup_cons in Hnd as [Hjob Hnd].
  assert (Hother : forall j', j' ∈ rest -> lineIndex j' <> lineIndex job).
  { intros j' Hj' Heq. apply Hjob. rewrite <- Heq. by apply list_elem_of_fmap_2. }
  (* the rest of the loop, from the state [st1] after the turn of [job] *)
  assert (Hrest : forall st1 n v,
            CacheSound answers st1 ->
            Resolved answers (lookups st1) n (repo job) v ->
            lines st1 = writeStars (lines st) job v ->
            exists n' v',
              Resolved answers (lookups (run rest st1)) n' (repo j) v' /\
              lines (run rest st1) !! lineIndex j
              = writeStars (lines st) j v' !! lineIndex j).
  { intros st1 n v Hst1 Hres Hlines.
    apply elem_of_cons in Hj as [->|Hj].
    - exists n, v. split.
      + destruct (runJobs_lookups answers rest st1) as [x ->].
        by apply Resolved_app.
      + rewrite (runJobs_outside answers rest st1 (lineIndex job)) by done.
        by rewrite Hlines.
    - destruct (IH st1 Hnd Hst1 Hall j Hj) as (n' & v' & Hres' & H).
      exists n', v'. split; [done|]. rewrite H. apply writeStars_local.
      + rewrite Hlines. apply writeStars_length.
      + rewrite Hlines. apply writeStars_outside. intros Heq. by apply (Hother j). }
  rewrite runJobs_cons.
  destruct (cached st (repo job)) as [v|] eqn:Hc.
  { unfold cached in Hc.
    destruct (cache st !! repo job) as [[v'|]|] eqn:E; simplify_eq.
    destruct (proj2 Hst (repo job) v E) as [n Hn].
    by apply (Hrest (written st job v) n v). }
  unfold githubApiFetchRepo.
  destruct (Hall (apiCalls st) (requestPath (repo job))) as [v Hv].
  cbv beta. rewrite Hv. simpl.
  apply (Hrest _ (apiCalls st) v); [| |done].
  - apply (CacheSound_called answers st job); [done|].
    intros r v' Hr. destruct (decide (r = repo job)) as [->|Hne].
    + rewrite lookup_insert_eq in Hr. injection Hr as <-. right.
      split; [done|]. unfold githubApiFetchRepo. cbv beta. by rewrite Hv.
    + rewrite lookup_insert_ne in Hr by done. by left.
  - split.
    + simpl. rewrite (proj1 Hst).
      by rewrite lookup_app_r, Nat.sub_diag by lia.
    + unfold githubApiFetchRepo. cbv beta. by rewrite Hv.
Qed.

(** X19. When the API answers every request with a star count (an
    integer from 0 to [2^53]), whichever count to whichever request, no
    lookup throws and every row with a job gets a count that a lookup of
    this run gave for its repository: the row is what the first loop made
    it, with that count written into the stars cell. *)
Theorem every_job_row_filled lines0 :
  (forall n path, exists v,
     reply n path = FillRun.Returns (Ok (Some v)) /\ 0 <= v <= 2 ^ 53) ->
  let o := FillRun.main reply lines0 in
  FillRun.threw o = false /\
  forall j, j ∈ (scan lines0).1.2 ->
    exists n v,
      lookups (FillRun.final o) !! n = Some (repo j) /\
      reply n (requestPath (repo j)) = FillRun.Returns (Ok (Some v)) /\
      FillRun.readme o !! lineIndex j
      = writeStars (columnsEnsured lines0) j v !! lineIndex j.
Proof.
  intros Hall o.
  assert (Hcount : forall n path, exists v, reply n path = FillRun.Returns (Ok (Some v))).
  { intros n path. destruct (Hall n path) as (v & Hv & _). by exists v. }
  destruct (mainT_cases lines0) as (Hl & _ & [(Ht & Hr & Hf)|(Ht & _ & job & n & _ & Hn)]).
  - split; [done|]. intros j Hj. fold o in Hr, Hl. rewrite Hr, Hl.
    destruct (main_run answers lines0) as [-> ->].
    destruct (run_counts _ (start (columnsEnsured lines0)) (scan_jobs_NoDup lines0)
                (start_sound answers _) Hcount j Hj) as (n & v & [H1 H2] & H3).
    exists n, v. split; [done|]. split; [|done]. by apply answers_count.
  - destruct (Hcount n (requestPath (repo job))) as [v Hv]. by rewrite Hv in Hn.
Qed.

(** The lookups of a run go on from the lookups of its first jobs. *)
Lemma run_lookups_prefix pre rest st :
  hitRateLimit st = false ->
  exists x, lookups (run (pre ++ rest) st) = lookups (run pre st) ++ x.
Proof.
  intros Hst. rewrite runJobs_app by done.
  destruct (hitRateLimit (run pre st)); [exists []; by rewrite app_nil_r|].
  apply runJobs_lookups.
Qed.

Lemma resolved_once lines0 n repo1 stars :
  let o := FillRun.main reply lines0 in
  let L1 := columnsEnsured lines0 in
  lookups (FillRun.final o) !! n = Some repo1 ->
  reply n (requestPath repo1) = FillRun.Returns (Ok (Some stars)) ->
  (forall m, (n < m)%nat -> lookups (FillRun.final o) !! m <> Some repo1) /\
  cache (FillRun.final o) !! repo1 = Some (Some stars) /\
  (forall pre j post,
     (scan lines0).1.2 = pre ++ j :: post -> repo j = repo1 ->
     let st := runT pre (start L1) in
     st.2 = false -> hitRateLimit st.1 = false ->
     (n < length (lookups st.1))%nat ->
     runT (pre ++ [j]) (start L1) = (written st.1 j stars, false) /\
     (FillRun.threw o = false ->
      FillRun.readme o !! lineIndex j = writeStars L1 j stars !! lineIndex j)).
Proof.
  intros o L1 Hn Hv.
  destruct (mainT_cases lines0) as (Hl & Hc & Hcases). fold o in Hl, Hc, Hcases.
  rewrite Hl in Hn |- *. rewrite Hc.
  apply answers_count in Hv.
  destruct (main_inv answers lines0) as (_ & Hcached & Honce).
  split; [intros m Hm; by apply (Honce n m repo1 stars)|].
  split; [by apply (Hcached n)|].
  intros pre j post Hjobs <- st Hb Hhit Hlen.
  destruct (main_run answers lines0) as [Hdoc Hfin]. fold L1 in Hdoc, Hfin.
  rewrite Hfin, Hjobs in Hn.
  assert (st.1 = run pre (start L1)) as Hst by (by apply runT_returns).
  rewrite Hst in Hhit, Hlen.
  (* the count is in the cache when the turn of [j] comes *)
  assert (cached (run pre (start L1)) (repo j) = Some stars) as Hcache.
  { destruct (run_lookups_prefix pre (j :: post) (start L1) eq_refl) as [x Hx].
    rewrite Hx, lookup_app_l in Hn by done.
    destruct (runJobs_inv answers pre (start L1) (start_inv answers L1))
      as (_ & Hcached' & _).
    unfold cached. by rewrite (Hcached' n (repo j) stars). }
  split.
  - rewrite runT_app by done. fold st. rewrite Hb, Hst, Hhit. simpl.
    by rewrite Hcache.
  - intros Ht. destruct Hcases as [(_ & -> & _)|(Ht' & _)]; [|congruence].
    rewrite Hdoc, Hjobs.
    pose proof (scan_jobs_NoDup lines0) as Hnd. rewrite Hjobs in Hnd.
    rewrite map_app in Hnd. simpl in Hnd.
    apply NoDup_app in Hnd as (_ & Hpre & Hpost).
    apply NoDup_cons in Hpost as [Hpost _].
    rewrite runJobs_app, Hhit by done.
    rewrite runJobs_cons, Hcache.
    rewrite runJobs_outside.
    + simpl. apply writeStars_local.
      * by rewrite runJobs_length.
      * apply runJobs_outside. intros j' Hj' Heq.
        apply (Hpre (lineIndex j')); [by apply list_elem_of_fmap_2|].
        rewrite Heq. apply list_elem_of_here.
    + intros j' Hj' Heq. apply Hpost. rewrite <- Heq.
      by apply list_elem_of_fmap_2.
Qed.

(** A failed lookup leaves the cache as it is. *)
Lemma failed_not_cached pre j st0 :
  hitRateLimit st0 = false ->
  let st := runT pre st0 in
  st.2 = false -> hitRateLimit st.1 = false ->
  cached st.1 (repo j) = None ->
  reply (apiCalls st.1) (requestPath (repo j)) = FillRun.Returns Failed ->
  let st' := runT (pre ++ [j]) st0 in
  st'.2 = false /\ hitRateLimit st'.1 = false /\
  lookups st'.1 = lookups st.1 ++ [repo j] /\
  cache st'.1 = cache st.1 /\ lines st'.1 = lines st.1 /\
  forall j', repo j' = repo j ->
    lookups (runT [j'] st'.1).1 = lookups st'.1 ++ [repo j'].
Proof.
  intros H0 st Hb Hhit Hmiss Hfail st'. unfold st'.
  rewrite runT_app by done. fold st. rewrite Hb, Hhit. simpl.
  rewrite Hmiss, Hfail. simpl. do 5 (split; [done|]).
  intros j' Hj'. unfold cached in *. simpl. rewrite Hj', Hmiss.
  by destruct (reply (S (apiCalls st.1)) (requestPath (repo j))) as [[[v|]| |]|].
Qed.

(** C6, as the code has it.  Once a lookup made for an owner/name pair
    has given its star count (an integer from 0 to [2^53]), no later
    lookup of the run is for that pair, whether the run ends by itself,
    at a rate limit or at an exception: the count stays in the cache.
    Every later row with that pair that the loop reaches, that is, when
    neither a rate limit nor an exception has ended the loop before,
    takes the count from the cache, with no lookup, and has it in
    README.md unless a later lookup throws.  A lookup that fails for
    another reason than the rate limit is not cached: the loop goes on,
    and a row of that repository that comes next is looked up again.
    (The pair is compared letter for letter, as the cache does.) *)
Theorem resolved_repo_looked_up_once lines0 :
  let o := FillRun.main reply lines0 in
  let L1 := columnsEnsured lines0 in
  (forall n repo1 stars,
     lookups (FillRun.final o) !! n = Some repo1 ->
     reply n (requestPath repo1) = FillRun.Returns (Ok (Some stars)) ->
     0 <= stars <= 2 ^ 53 ->
     (forall m, (n < m)%nat -> lookups (FillRun.final o) !! m <> Some repo1) /\
     cache (FillRun.final o) !! repo1 = Some (Some stars) /\
     (forall pre j post,
        (scan lines0).1.2 = pre ++ j :: post -> repo j = repo1 ->
        let st := runT pre (start L1) in
        st.2 = false -> hitRateLimit st.1 = false ->
        (n < length (lookups st.1))%nat ->
        runT (pre ++ [j]) (start L1) = (written st.1 j stars, false) /\
        (FillRun.threw o = false ->
         FillRun.readme o !! lineIndex j = writeStars L1 j stars !! lineIndex j))) /\
  (forall pre j post,
     (scan lines0).1.2 = pre ++ j :: post ->
     let st := runT pre (start L1) in
     st.2 = false -> hitRateLimit st.1 = false ->
     cached st.1 (repo j) = None ->
     reply (apiCalls st.1) (requestPath (repo j)) = FillRun.Returns Failed ->
     let st' := runT (pre ++ [j]) (start L1) in
     st'.2 = false /\ hitRateLimit st'.1 = false /\
     lookups st'.1 = lookups st.1 ++ [repo j] /\
     cache st'.1 = cache st.1 /\ lines st'.1 = lines st.1 /\
     forall j', repo j' = repo j ->
       lookups (runT [j'] st'.1).1 = lookups st'.1 ++ [repo j']).
Proof.
  intros o L1. split.
  - intros n repo1 stars Hn Hv _. by apply resolved_once.
  - intros pre j post _. by apply failed_not_cached.
Qed.

End FillRunProperties.

Section FillRunWitnesses.

Import Tables FillStars.

Lemma written_stars_are_answers_witness :
  let reply := fun (_ : nat) (_ : string) => FillRun.Returns (Ok (Some 7)) in
  let j := mkJob 2 3 "a/b" in
  let o := FillRun.main reply Examples.sameRepoTwice in
  let L1 := columnsEnsured Examples.sameRepoTwice in
  (FillRun.threw o = true /\ FillRun.readme o = Examples.sameRepoTwice /\
   exists job n, job ∈ (scan Examples.sameRepoTwice).1.2 /\
     reply n (requestPath (repo job)) = FillRun.NullJson) \/
  (FillRun.threw o = false /\
   (FillRun.readme o !! lineIndex j = L1 !! lineIndex j \/
    exists n v,
      lookups (FillRun.final o) !! n = Some (repo j) /\
      reply n (requestPath (repo j)) = FillRun.Returns (Ok (Some v)) /\
      FillRun.readme o !! lineIndex j = writeStars L1 j v !! lineIndex j)).
Proof.
  apply (written_stars_are_answers (fun _ _ => FillRun.Returns (Ok (Some 7)))
           Examples.sameRepoTwice (mkJob 2 3 "a/b")).
  - vm_compute. apply list_elem_of_here.
  - intros n path v [= <-]. lia.
Defined.

(** The API gives the count 7 to the first request, 8 to the later
    ones. *)
Lemma every_job_row_filled_witness :
  let reply := fun (n : nat) (_ : string) =>
    FillRun.Returns (Ok (Some (if (n =? 0)%nat then 7 else 8))) in
  let o := FillRun.main reply Examples.threeRepos in
  FillRun.threw o = false /\
  forall j, j ∈ (scan Examples.threeRepos).1.2 ->
    exists n v,
      lookups (FillRun.final o) !! n = Some (repo j) /\
      reply n (requestPath (repo j)) = FillRun.Returns (Ok (Some v)) /\
      FillRun.readme o !! lineIndex j
      = writeStars (columnsEnsured Examples.threeRepos) j v !! lineIndex j.
Proof.
  apply (every_job_row_filled
           (fun n _ => FillRun.Returns (Ok (Some (if (n =? 0)%nat then 7 else 8))))
           Examples.threeRepos).
  intros n path. exists (if (n =? 0)%nat then 7 else 8).
  split; [reflexivity|]. destruct (n =? 0)%nat; lia.
Defined.

Lemma resolved_repo_looked_up_once_witness :
  let reply := fun (_ : nat) (_ : string) => FillRun.Returns (Ok (Some 7)) in
  let o := FillRun.main reply Examples.sameRepoTwice in
  let L1 := columnsEnsured Examples.sameRepoTwice in
  (forall m, (0 < m)%nat -> lookups (FillRun.final o) !! m <> Some "a/b") /\
  cache (FillRun.final o) !! "a/b" = Some (Some 7) /\
  (forall pre j post,
     (scan Examples.sameRepoTwice).1.2 = pre ++ j :: post -> repo j = "a/b" ->
     let st := FillRun.runJobs reply pre (start L1) in
     st.2 = false -> hitRateLimit st.1 = false ->
     (0 < length (lookups st.1))%nat ->
     FillRun.runJobs reply (pre ++ [j]) (start L1) = (written st.1 j 7, false) /\
     (FillRun.threw o = false ->
      FillRun.readme o !! lineIndex j = writeStars L1 j 7 !! lineIndex j)).
Proof.
  apply (proj1 (resolved_repo_looked_up_once (fun _ _ => FillRun.Returns (Ok (Some 7)))
                  Examples.sameRepoTwice) 0%nat "a/b" 7).
  - reflexivity.
  - reflexivity.
  - lia.
Defined.

(** C6 as stated fails.  A repository whose lookup fails is looked up
    once for each of its rows.  A repository that two rows give in two
    spellings is looked up twice, under the same path, though the first
    lookup gave its star count.  And the cache does not supply a later row
    of a repository whose lookup gave the count when the run ends before
    the row: at a rate limit the row stays blank, and at an exception
    nothing is written, not even the row that had got its count. *)
Lemma lookup_repeated_for_one_repository :
  ~ FillRun.LookedUpOnce (fun _ _ => FillRun.Returns Failed) Examples.sameRepoTwice /\
  ~ FillRun.LookedUpOnce (fun _ _ => FillRun.Returns (Ok (Some 7))) twoSpellings /\
  FillRun.readme (FillRun.main (firstThen (FillRun.Returns RateLimited)) repoAgain)
  = [ "| Github | GitHub Stars |";
      "| --- | --- |";
      "| https://github.com/a/b | 5 |";
      "| https://github.com/c/d | |";
      "| https://github.com/a/b | |" ] /\
  FillRun.readme (FillRun.main (firstThen FillRun.NullJson) repoAgain) = repoAgain.
Proof.
  unfold FillRun.LookedUpOnce. split; [|split; [|split]].
  - assert (lookups (FillRun.final (FillRun.main (fun _ _ => FillRun.Returns Failed)
                                      Examples.sameRepoTwice))
            = ["a/b"; "a/b"]) as -> by (by vm_compute).
    intros [Hn _]%NoDup_cons. apply Hn, list_elem_of_here.
  - assert (lookups (FillRun.final (FillRun.main
                       (fun _ _ => FillRun.Returns (Ok (Some 7))) twoSpellings))
            = ["Acme/UI"; "acme/ui"]) as -> by (by vm_compute).
    intros [Hn _]%NoDup_cons. apply Hn, list_elem_of_here.
  - by vm_compute.
  - by vm_compute.
Qed.

(** C1, where the code departs from it.  In a table whose data row is
    shorter than the index of the new column, both scripts put the header
    cell at index 3 and the cell of the data row at index 2, the end of
    the row: [splice] is called on the row as it is, where the other
    loops of the scripts pad a short row first. *)
Theorem column_insertion_ragged_rows :
  mkTable 0 [0; 1; 2]%nat ∈ findTables raggedTable /\
  AddColumn.main raggedTable = FillStars.columnsEnsured raggedTable /\
  AddColumn.main raggedTable =
    [ "| Name | Github | GitHub Stars | Note |";
      "| --- | --- | --- | --- |";
      "| a| " ] /\
  cellsOf "| Name | Github | GitHub Stars | Note |" !! 3%nat = Some " GitHub Stars " /\
  cellsOf "| a| " = [EmptyString; " a"; " "].
Proof.
  split; [vm_compute; apply list_elem_of_here|]. by vm_compute.
Qed.

End FillRunWitnesses.

(** ** fill-github-from-website.js: the file that is written *)

Section WebsiteRunProperties.

Import Tables FromWebsite.

Variable URL : string -> option string.
Variable visit : nat -> string -> WebsiteRun.Visit.

Local Abbreviation lineFeed := WebsiteRun.lineFeed.
Local Abbreviation discover := (WebsiteRun.discover visit).
Local Abbreviation noFeed := (fun x : string => Js.contains lineFeed x = false).

(** When the process does not end in the loop, the loop is the loop of
    [FromWebsite] for the links found. *)
Lemma applyT_sim updates : forall n st st',
  WebsiteRun.applyUpdates visit n updates st = Some st' ->
  st' = applyUpdates discover n updates st.
Proof.
  induction updates as [|up rest IH]; intros n st st'; simpl.
  - by intros [= <-].
  - unfold WebsiteRun.discover.
    destruct (visit n (websiteUrl up)) as [found| |]; [| |done].
    + destruct (String.eqb found EmptyString); apply IH.
    + apply IH.
Qed.

Lemma contains_split c sep s :
  Js.contains c s = false ->
  Forall (fun x => Js.contains c x = false) (Js.split sep s).
Proof.
  induction s as [|a s IH]; simpl.
  - intros _. by constructor.
  - intros [Ha Hs]%orb_false_iff. specialize (IH Hs).
    destruct (Ascii.eqb a sep); [by constructor|].
    destruct (Js.split sep s) as [|hd tl]; [by repeat constructor; simpl; rewrite Ha|].
    inversion IH as [|? ? Hhd Htl]; subst.
    constructor; [|done]. simpl. by rewrite Ha, Hhd.
Qed.

Lemma contains_join c sep l :
  Js.contains c sep = false ->
  Forall (fun x => Js.contains c x = false) l ->
  Js.contains c (Js.join sep l) = false.
Proof.
  intros Hsep. induction l as [|x l IH]; [done|].
  intros H. inversion H as [|? ? Hx Hl]; subst.
  destruct l as [|y l]; [done|].
  change (Js.join sep (x :: y :: l)) with (x +:+ sep +:+ Js.join sep (y :: l)).
  by rewrite !contains_app, Hx, Hsep, (IH Hl).
Qed.

(** A row with a link written into it has no line feed, if the row and
    the link had none. *)
Lemma writeLink_noFeed L up found i x :
  Forall noFeed L -> noFeed found ->
  writeLink L up found !! i = Some x -> noFeed x.
Proof.
  intros HL Hf. unfold writeLink.
  destruct (decide (i = lineIdx up)) as [->|Hne].
  - intros H. apply list_lookup_insert_Some in H as [(_ & <- & _)|[? _]]; [|done].
    apply contains_join; [done|].
    apply setAt_Forall.
    + by rewrite !contains_app, Hf.
    + apply padTo_Forall; [done|]. apply contains_split.
      unfold lineAt. destruct (L !! lineIdx up) as [l|] eqn:E; [|done].
      by apply (proj1 (Forall_lookup _ _) HL (lineIdx up)).
  - rewrite list_lookup_insert_ne by done.
    by apply (proj1 (Forall_lookup _ _) HL).
Qed.

(** What [lines.join] writes is read back as the array [lines], as long
    as no link that was found holds a line feed. *)
Lemma website_main_lines content :
  (forall n url found, visit n url = WebsiteRun.Found found -> noFeed found) ->
  let lines := Js.split lineFeed content in
  Js.split lineFeed (WebsiteRun.main URL visit content) = lines \/
  Js.split lineFeed (WebsiteRun.main URL visit content)
  = main URL discover lines.
Proof.
  intros Hfeed lines. unfold WebsiteRun.main. fold lines.
  destruct (length _ =? 0)%nat; [by left|].
  destruct (WebsiteRun.applyUpdates visit 0 _ (lines, 0%nat)) as [[L' applied]|] eqn:E;
    [|by left].
  destruct (0 <? applied)%nat; [right|by left].
  apply applyT_sim in E.
  assert (L' = main URL discover lines) as ->
    by (by rewrite from_main_lines, <- E).
  apply split_join.
  - intros H. apply (f_equal length) in H. rewrite from_main_length in H.
    pose proof (split_length_pos lineFeed content). fold lines in H0. simpl in H. lia.
  - apply Forall_lookup. intros i x Hx.
    pose proof (split_no_sep lineFeed content) as Hlines. fold lines in Hlines.
    destruct (from_main_row URL discover lines i)
      as [H|(pt & u & m & found & _ & _ & _ & _ & _ & _ & _ & _ & _ & Hm & _ & H)].
    + rewrite H in Hx. by apply (proj1 (Forall_lookup _ _) Hlines i).
    + rewrite H in Hx. apply (writeLink_noFeed lines u found i x Hlines); [|done].
      unfold WebsiteRun.discover in Hm.
      destruct (visit m (websiteUrl u)) as [l| |] eqn:Ev; [|done|done].
      injection Hm as ->. by apply (Hfeed m (websiteUrl u)).
Qed.

(** X24. As long as no link that is found holds a line feed, the
    README.md that fill-github-from-website.js leaves differs from the
    one it read only in data rows of tables of three lines or more that
    have the columns [Website] and [Github] and whose cell [Github] was
    missing or blank: such a line is then the cells of the row joined by
    pipes, with a link that was found for the website of the row in the
    place of that cell.  A cell [Github] that holds text is never
    overwritten. *)
Theorem only_blank_github_cells_filled content i :
  (forall n url found, visit n url = WebsiteRun.Found found ->
     Js.contains lineFeed found = false) ->
  let lines := Js.split lineFeed content in
  let after := Js.split lineFeed (WebsiteRun.main URL visit content) in
  after !! i = lines !! i \/
  exists pt u m found,
    pt ∈ parseTables lines /\ u ∈ updatesOf URL lines pt /\ lineIdx u = i /\
    (3 <= length (rows pt))%nat /\ i ∈ drop 2 (rows pt) /\
    websiteCol pt <> -1 /\ u_githubCol u = githubCol pt /\ 1 <= githubCol pt /\
    Js.trim (default EmptyString
               (cellsOf (lineAt lines i) !! Z.to_nat (githubCol pt))) = EmptyString /\
    visit m (websiteUrl u) = WebsiteRun.Found found /\ found <> EmptyString /\
    after !! i = writeLink lines u found !! i.
Proof.
  intros Hfeed lines after. unfold after.
  destruct (website_main_lines content Hfeed) as [-> | ->]; [by left|].
  fold lines.
  destruct (from_main_row URL discover lines i)
    as [H|(pt & u & m & found & H1 & H2 & H3 & H4 & H5 & H6 & H7 & H8 & H9 & Hm & Hne & H)];
    [by left|right].
  exists pt, u, m, found. do 9 (split; [done|]). split; [|done].
  unfold WebsiteRun.discover in Hm.
  destruct (visit m (websiteUrl u)) as [l| |]; [|done|done]. by injection Hm as ->.
Qed.

(** X25. As long as no link that is found holds a line feed, the
    README.md that fill-github-from-website.js leaves has the tables of
    the one it read, with the same rows. *)
Theorem from_main_keeps_tables content :
  (forall n url found, visit n url = WebsiteRun.Found found ->
     Js.contains lineFeed found = false) ->
  findTables (Js.split lineFeed (WebsiteRun.main URL visit content))
  = findTables (Js.split lineFeed content).
Proof.
  intros Hfeed.
  destruct (website_main_lines content Hfeed) as [-> | ->]; [done|].
  apply from_main_findTables.
Qed.

End WebsiteRunProperties.

Section WebsiteRunWitnesses.

Import Tables FromWebsite.

Lemma only_blank_github_cells_filled_witness :
  let URL := fun u : string => Some u in
  let visit := fun (_ : nat) (_ : string) => WebsiteRun.Found "https://github.com/a/b" in
  let lines := Js.split WebsiteRun.lineFeed siteReadme in
  let after := Js.split WebsiteRun.lineFeed (WebsiteRun.main URL visit siteReadme) in
  after !! 2%nat = lines !! 2%nat \/
  exists pt u m found,
    pt ∈ parseTables lines /\ u ∈ updatesOf URL lines pt /\ lineIdx u = 2%nat /\
    (3 <= length (rows pt))%nat /\ 2%nat ∈ drop 2 (rows pt) /\
    websiteCol pt <> -1 /\ u_githubCol u = githubCol pt /\ 1 <= githubCol pt /\
    Js.trim (default EmptyString
               (cellsOf (lineAt lines 2) !! Z.to_nat (githubCol pt))) = EmptyString /\
    visit m (websiteUrl u) = WebsiteRun.Found found /\ found <> EmptyString /\
    after !! 2%nat = writeLink lines u found !! 2%nat.
Proof.
  apply (only_blank_github_cells_filled (fun u => Some u)
           (fun _ _ => WebsiteRun.Found "https://github.com/a/b") siteReadme 2).
  intros n url found [= <-]. reflexivity.
Defined.

Lemma from_main_keeps_tables_witness :
  findTables (Js.split WebsiteRun.lineFeed
                (WebsiteRun.main (fun u => Some u)
                   (fun _ _ => WebsiteRun.Found "https://github.com/a/b") siteReadme))
  = findTables (Js.split WebsiteRun.lineFeed siteReadme).
Proof.
  apply (from_main_keeps_tables (fun u => Some u)
           (fun _ _ => WebsiteRun.Found "https://github.com/a/b") siteReadme).
  intros n url found [= <-]. reflexivity.
Defined.

End WebsiteRunWitnesses.
